(* ===== verification/_CoqProject ===== *)
-Q . S2P
Prelude.v
Types.v
Codec.v
RlpInstance.v
CodecProps.v
Traits.v
Heap.v
Pool.v
PoolInv.v
PoolProps.v
Executor.v
MemPool.v
ExecRefine.v
Storage.v
StorageLaws.v
StorageProps.v
StorageScan.v
RocksLaws.v
StorageTxProps.v
TrieInstance.v
ExecProps.v
Interoperation.v
DefaultAdapter.v
Metadata.v
MetadataProps.v
MemPoolProps.v
AdapterProps.v
Overlord.v
Wal.v
Engine.v
ConsensusAdapterImpl.v
Sync.v
QuorumProps.v
EngineProps.v
SyncProps.v
NetAddr.v
AddrManager.v
AddrManagerProps.v
PeerStore.v
PeerStoreProps.v
PeerManager.v
NetService.v
NetServiceProps.v
Protocols.v
PingProps.v
Identify.v
Discovery.v
DiscoveryProps.v
Numbers.v
Endpoint.v
Router.v
NetConfig.v
RouterProps.v
TrieDb.v
Blake2.v
Precompiles.v
PrecompileProps.v
Web3Types.v
ApiAdapter.v
JsonRpc.v
Filters.v
ApiProps.v
Frame.v
BlockTable.v
BlockEnv.v
ChainProps.v
Replica.v
Tables.v
ReplicaNode.v
ApiChain.v
Primitives.v
ConsensusMsg.v
ConsensusMsgProps.v
Transmitter.v
CrossClient.v
CrossClientProps.v
Startup.v
StartupProps.v
ReplicaProps.v
Served.v
