(* ===== verification/Prelude.v ===== *)
(** * Axon node: a verification development

    Axon is a blockchain node: validators agree on blocks with the overlord
    protocol, blocks carry Ethereum transactions, and an EVM executes them on a
    world state kept in Merkle Patricia tries.  This library models the node in
    Rocq, as pure functions and state-passing computations translated from the
    Rust sources under [src/], and proves what it guarantees and where it falls
    short.

    ** The program and its model

    A transaction enters through the JSON-RPC interface or the network into the
    mempool, whose adapter checks it; the consensus engine packages pool
    transactions into a proposal, checks the proposals of others, and on a commit
    executes the block, stores it and flushes the pool; a node that is behind
    fetches, verifies and executes the blocks of a peer; messages travel over
    sessions that the peer manager looks after; the cross-chain client mints what
    was locked on CKB.  The parts, and the files that model them:

    - [Prelude.v]: outcomes ([Ok], [Err], [Panic]), the state-and-error monad
      [M], machine integers and byte strings, the lemmas and tactics that run
      monadic code.
    - [Types.v], [Traits.v], [Primitives.v] ([protocol/src/types],
      the error enums, [protocol/src/traits]): the data, and the traits the
      components meet at, as classes over the state of the implementation.
    - [Codec.v] ([protocol/src/codec]): the RLP codecs, over class [Rlp];
      [RlpInstance.v] is a concrete instance.
    - [Heap.v], [Pool.v], [PoolInv.v] ([core/mempool/src/pool.rs],
      [tx_wrapper.rs]): the priority pool.  [TxPtr]s are shared and mutated, so
      they are indices of an arena.
    - [MemPool.v] ([core/mempool/src/lib.rs], [adapter/message.rs]) against the
      adapter trait; [DefaultAdapter.v] ([adapter/mod.rs]) implements it.
    - [Executor.v], [ExecRefine.v], [TrieDb.v] ([core/executor/src]):
      the system script, the EVM driver and the world state, over class
      [PatriciaTrie], and the database under the trie; [TrieInstance.v] has
      concrete instances.  [BlockEnv.v]: what a transaction sees of its block.
      [Blake2.v], [Precompiles.v]: the precompiled contracts.
    - [Storage.v] ([core/storage/src]) with both adapters; [StorageLaws.v],
      [StorageScan.v], [RocksLaws.v] state and discharge the contract of an
      adapter and define when caches are coherent.
    - [Interoperation.v] ([core/interoperation/src/lib.rs]) and [Metadata.v]
      ([core/metadata/src]).
    - [Overlord.v], [Wal.v], [Engine.v], [ConsensusAdapterImpl.v], [Sync.v],
      [ConsensusMsg.v] ([core/consensus/src]): crypto and statuses, the
      write-ahead logs, the engine, its adapter over all of the above, the
      synchronization, and the way of a message from the engine of one node to
      the overlord of another.
    - [NetAddr.v], [AddrManager.v], [PeerStore.v], [PeerManager.v],
      [NetService.v], [NetConfig.v] ([core/network/src/peer_manager],
      [service.rs], [config.rs]): addresses, the store of known peers, the
      registry of sessions, dialing and the events of the transport.
    - [Protocols.v], [Identify.v], [Discovery.v], [Transmitter.v]
      ([core/network/src/protocols]): ping, feeler, identify, discovery and the
      protocol that carries every other message.
    - [Numbers.v], [Endpoint.v], [Router.v] ([core/network/src/endpoint.rs],
      [message], [reactor], [rpc.rs], [outbound]): endpoints, the routing of
      messages, RPC calls and gossip; [Transmitter.v] also has [compress.rs].
    - [Web3Types.v], [ApiAdapter.v], [JsonRpc.v], [Filters.v] ([core/api/src]):
      the calls of the interface, filters and subscriptions.
    - [CrossClient.v] ([core/cross-client/src/adapter/mod.rs],
      [core/rpc-client/src/client.rs], [protocol/src/types/ckb_client.rs]).
    - [Startup.v] ([core/run/src/lib.rs]): the genesis block and the start of the
      node, which puts the components together.

    Three files hold interfaces between the storage and the rest of the node and
    what implements them: [BlockTable.v] (the chain of blocks) and [Replica.v]
    (the contract codes), and [Tables.v] (what is known of a transaction hash,
    and the implementation of the codes), each over [Storage.v].  [Frame.v]
    carries a predicate that the calls of a storage keep through the executor,
    the mempool, the consensus adapter and the engine: the classes [StoreReads],
    [StoreFramed], [ExecFramed], [AdapterReads] and [AdapterFramed].

    The theorems on a component are in the file named after it with [Props], or
    after its definitions where they are few ([TrieDb.v], [Numbers.v], [Wal.v],
    [Primitives.v], [Transmitter.v], [BlockEnv.v]).

    A Rust method on [&self] with interior state is a function into [M S E A],
    that is from a state [S] to a state and an outcome.  [?] is the bind, a
    [match] on a call's result is [try], an [unwrap] that fails is [Panic].  A
    call of a field's method is [zoom].  Integers are [Z]; the release profile
    checks overflow ([src/Cargo.toml]), so [u64_add], [u64_sub] and [u64_mul]
    panic out of range, and where the code wraps or saturates the operation says
    so ([wrap64], [saturating_sub]); well-formedness predicates state the width
    of stored fields.  Statics ([CURRENT_STATE_ROOT], [EPOCH_LEN],
    [SYNC_STATUS], [CHAIN_ID]) are fields of the state of the component that uses
    them.  What is sent over a channel or to the transport is recorded in order.

    ** What the theorems show

    - [CodecProps.v], [Primitives.v]: blocks and receipts come back from
      their encodings, proposals are determined by theirs, exactly which signed
      transactions do come back; the text form of an address is exact.
    - [PoolProps.v]: in every reachable pool a package has one transaction for a
      sender and nonce and the size is bounded; where transactions are determined
      by their hashes a package is retrievable and a flush removes and keeps what
      it must; also where order and resubmission fail.
    - [MemPoolProps.v], [AdapterProps.v]: the outcomes of an insertion, the
      order of full transactions, the batches of the broadcaster, exactly which
      transactions are accepted, and that the sender is not checked.
    - [StorageProps.v], [StorageTxProps.v]: cached reads answer what the adapter
      holds, written blocks and transactions are found, a range scan agrees with
      lookups; and writes that leave caches stale.
    - [ExecProps.v], [TrieDb.v], [PrecompileProps.v]: the trie-backed world
      refines a map of accounts, for reads and updates; the accounting of a
      block; the system script; deletion, emptiness and failure cases; the trie
      database refines a map; gas, results and panics of the contracts.
    - [MetadataProps.v]: what the epoch cache answers, and what an update drops.
    - [Wal.v]: the round trip of the engine's log, and when loading ends.
    - [QuorumProps.v]: two accepted proofs share more than a third of the weight.
    - [EngineProps.v]: own proposals are accepted, what an accepted proposal of
      another was checked for, what a commit leaves.
    - [SyncProps.v], [ChainProps.v]: what a finished synchronization has verified,
      the proof it cannot serve, and that it extends the chain.
    - [ChainProps.v], [StartupProps.v]: from the first start on an empty database,
      over proposals, checks, commits, synchronizations and restarts, the storage
      holds one linked chain from the genesis block to the block the status
      names; what a restart loses, when no start succeeds, and the settings of
      the network.
    - [Replica.v], [ReplicaNode.v], [ReplicaProps.v]: nodes that start from the
      same genesis block and commit the same proposals with the same transactions
      have the same state root, last block and world, whatever they do in
      between; synchronization accepts the blocks they make; what it does not
      look at can be forged.
    - [Served.v], [ApiChain.v]: the whole way from the engine to a client: what a
      commit saved is what the interface answers about a transaction, and the
      queries for an account answer from the world behind the state root of the
      block asked for.
    - [BlockEnv.v]: the environment of a transaction is that of its proposal, with
      two fields that are not what an Ethereum contract expects.
    - [AddrManagerProps.v], [PeerStoreProps.v], [NetServiceProps.v]: the address
      manager refines a map, the store stays bounded, bans hold, every operation
      of the service keeps the registry consistent.
    - [PingProps.v], [DiscoveryProps.v]: silent peers are closed, nothing is
      learnt from a peer of another chain, honest messages pass the checks.
    - [RouterProps.v], [ConsensusMsgProps.v]: endpoints are well formed, a call
      ends with the answer to it; a pulled block is the peer's.
    - [Transmitter.v]: which messages the transport carries; a
      consensus message reaches the overlord of the other node unchanged; the
      registry is consistent in every history of the service, the timers and the
      callbacks of all protocols.
    - [ApiProps.v]: what log queries, filters and subscriptions deliver.
    - [CrossClientProps.v]: only confirmed blocks are followed, which witnesses
      signing writes and when it panics, and a failed block that is never got
      over.

    ** Assumptions, bounds and fuel

    Code outside the repository is a class: [Rlp], [Keccak], [FasterHex], [HexDigits],
    [LruCrate], [RocksDB], [PatriciaTrie], [Evm], [StaticMerkleTree], [CkbVm],
    [MetadataAbi], [Overlord], [OverlordMessages], [Bls], [EthBloom],
    [Secp256k1Verify], [Secp256k1Key], [Secp256k1Recover], [RecoverableKey],
    [NodeKeys], [SecioKeys], [PeerKeys], [HashCrates], [Rug], [Bn], [Tentacle],
    [IpNetworks], [Randomness], [SmallRng], [Prost], [StableBloom], [Snap],
    [NetworkCodec], [FrameCodec], [Tracer], [CkbTypes], [AssetAbi], [JsonTransport], the texts
    of errors and files ([ErrorText], [WalName]), and towards the mempool and the
    engine the answers of the network ([PullRpc], [ConsensusNet]).  The laws in a
    class are documented behaviour of the crate; each is discharged by a concrete
    instance, on which the witnesses run.  [Keccak] has no injectivity law:
    theorems that need distinct digests say so ([LatestKeys], [HashOrder]), and
    so do those that need a hash to determine its transaction ([determined],
    [genuine] of [PoolInv.v]), which the pool does not enforce.
    The theorems on replicas assume that a trie root determines its content
    ([CanonicalRoots]), that deployed codes have different hashes
    ([DeployedCodes]) and that the EVM is a function of what it reads of the
    backend ([EvmReads]).

    [sift_up] of the heap runs with its start position as fuel, and each turn at
    least halves the position; [chunks], [pieces] and [trim_start_0x] with the
    length of the data, which bounds the turns; [digits] with the largest number
    of digits of a [u64].  [load_overlord_wal] and [handle_blocks] take the number
    of turns, because the loops of the code need not end; theorems say when the
    first does, with how many turns, and that the second does not after a failed
    block.  The loop of [start_sync] runs a number of turns known beforehand.
    Everything else is structural.  [quorum_overlap] assumes up to [2^29]
    validators, for which 64-bit weights do not overflow.

    Operations are atomic and interleave as whole steps ([PoolInv.pool_step],
    [ChainProps.node_step], [StartupProps.life_step], [CrossClient.cross_step],
    [Transmitter.network_op]);
    tasks spawned together run in list order.  Times, and statuses another task
    may have changed across a sleep, are arguments.  The life of a node is made
    of commits and synchronizations that succeed and of peers that answer with
    the block they are asked for, which the code does not check.

    ** Not modelled

    Logging, metrics, tracing and the macros that add them, the command line and
    the reading of configuration files have no effect on results.  Opening the
    databases, building the transport, the HTTP and web socket servers and the
    tasks [start] spawns are input and output of third-party crates; what they
    are given and the handlers they call are modelled.  The EVM, the curves, the
    hash functions and the databases are parameters.  Left out as code are Merkle
    proofs (only the root is used), the serde forms of records, the generated
    contract bindings, the Solidity contracts, the debugger of the executor, and
    tests and benches; [common/crypto] only exports its crates. *)

From stdpp Require Export prelude gmap list strings fin_maps.
From Stdlib Require Export ZArith Lia Strings.Byte.

Local Open Scope Z_scope.

(** ** Outcomes

    A Rust call of the node returns [Ok], returns [Err], or panics (an
    [unwrap] on [None]/[Err], an arithmetic overflow of a checked big
    integer, an [unreachable!()]).  The three are kept apart. *)
Inductive outcome (E A : Type) : Type :=
| Ok (a : A)
| Err (e : E)
| Panic.
Arguments Ok {E A} a.
Arguments Err {E A} e.
Arguments Panic {E A}.

#[global] Instance outcome_ret {E} : MRet (outcome E) := λ A a, Ok a.
#[global] Instance outcome_bind {E} : MBind (outcome E) := λ A B k m,
  match m with Ok a => k a | Err e => Err e | Panic => Panic end.
#[global] Instance outcome_fmap {E} : FMap (outcome E) := λ A B f m,
  match m with Ok a => Ok (f a) | Err e => Err e | Panic => Panic end.

Definition is_ok {E A} (o : outcome E A) : bool :=
  match o with Ok _ => true | _ => false end.

(** [opt.ok_or(e)] *)
Definition ok_or {E A} (o : option A) (e : E) : outcome E A :=
  match o with Some a => Ok a | None => Err e end.

(** [opt.unwrap()] *)
Definition unwrap {E A} (o : option A) : outcome E A :=
  match o with Some a => Ok a | None => Panic end.

(** [res.map_err(f)] *)
Definition map_err {E E' A} (f : E → E') (o : outcome E A) : outcome E' A :=
  match o with Ok a => Ok a | Err e => Err (f e) | Panic => Panic end.

(** ** Stateful calls

    A method on shared state: the state survives an [Err], as the fields a
    Rust method mutated before its early return do. *)
Definition M (S E A : Type) : Type := S → S * outcome E A.

#[global] Instance M_ret {S E} : MRet (M S E) := λ A a s, (s, Ok a).
#[global] Instance M_bind {S E} : MBind (M S E) := λ A B k m s,
  match m s with
  | (s', Ok a) => k a s'
  | (s', Err e) => (s', Err e)
  | (s', Panic) => (s', Panic)
  end.

Definition gets {S E A} (f : S → A) : M S E A := λ s, (s, Ok (f s)).
Definition modify {S E} (f : S → S) : M S E unit := λ s, (f s, Ok tt).
Definition throw {S E A} (e : E) : M S E A := λ s, (s, Err e).
Definition lift {S E A} (o : outcome E A) : M S E A := λ s, (s, o).

(** Runs [m] for its effect and hands its outcome to the caller, as
    [match m.await { ... }] does. *)
Definition try {S E A} (m : M S E A) : M S E (outcome E A) := λ s,
  match m s with
  | (s', Panic) => (s', Panic)
  | (s', o) => (s', Ok o)
  end.

(** Runs [m] on a part of the state, a field behind its own handle. *)
Definition zoom {S T E A} (get : S → T) (set : T → S → S) (m : M T E A) : M S E A := λ s,
  let '(t, o) := m (get s) in (set t s, o).

Fixpoint for_each {S E A} (f : A → M S E unit) (l : list A) : M S E unit :=
  match l with
  | [] => mret tt
  | x :: l' => f x;; for_each f l'
  end.

(** [iter.map(f).collect::<Result<Vec<_>, _>>()] *)
Fixpoint traverse {E A B} (f : A → outcome E B) (l : list A) : outcome E (list B) :=
  match l with
  | [] => Ok []
  | x :: l' => y ← f x; ys ← traverse f l'; Ok (y :: ys)
  end.

(** ** Machine integers *)
Abbreviation u64_max := 18446744073709551615 (only parsing).
Definition in_width (w z : Z) : Prop := 0 ≤ z < 2 ^ w.
Arguments in_width : simpl never.
#[global] Instance in_width_dec w z : Decision (in_width w z).
Proof. unfold in_width. apply _. Defined.

Abbreviation u8_ok := (in_width 8).
Abbreviation u32_ok := (in_width 32).
Abbreviation u64_ok := (in_width 64).
Abbreviation u256_ok := (in_width 256).
Abbreviation h64_ok := (in_width 64).
Abbreviation h160_ok := (in_width 160).
Abbreviation h256_ok := (in_width 256).
Abbreviation bloom_ok := (in_width 2048).

(** [a.saturating_sub(b)] *)
Definition saturating_sub (a b : Z) : Z := Z.max 0 (a - b).

(** [u64] operations that wrap: [wrapping_add], [overflowing_add], atomics *)
Definition wrap64 (z : Z) : Z := z mod 2 ^ 64.

(** [u64] arithmetic: the release profile keeps the overflow checks, so [+],
    [-] and [*] panic when the result does not fit. *)
Definition u64_add {E} (a b : Z) : outcome E Z := if a + b <? 2 ^ 64 then Ok (a + b) else Panic.
Definition u64_sub {E} (a b : Z) : outcome E Z := if b <=? a then Ok (a - b) else Panic.
Definition u64_mul {E} (a b : Z) : outcome E Z := if a * b <? 2 ^ 64 then Ok (a * b) else Panic.

(** [U256] arithmetic: [+], [-] and [as_u64] panic when the result does not
    fit. *)
Definition u256_add {E} (a b : Z) : outcome E Z :=
  if a + b <? 2 ^ 256 then Ok (a + b) else Panic.
Definition u256_sub {E} (a b : Z) : outcome E Z := if b <=? a then Ok (a - b) else Panic.
Definition as_u64 {E} (a : Z) : outcome E Z := if a <? 2 ^ 64 then Ok a else Panic.

(** ** Bytes *)
Abbreviation bytes := (list byte).

Definition byte_of_Z (z : Z) : byte := default x00 (Byte.of_N (Z.to_N (z mod 256))).
Definition Z_of_byte (b : byte) : Z := Z.of_N (Byte.to_N b).

#[global] Instance byte_eq_dec : EqDecision byte := Byte.byte_eq_dec.
#[global] Instance byte_countable : Countable byte :=
  inj_countable Byte.to_N Byte.of_N Byte.of_to_N.

(** [z.to_be_bytes()] on [n] bytes and its inverse. *)
Fixpoint to_be_bytes (n : nat) (z : Z) : bytes :=
  match n with
  | O => []
  | S n' => to_be_bytes n' (z / 256) ++ [byte_of_Z z]
  end.
Definition from_be_bytes (l : bytes) : Z :=
  fold_left (λ acc b, acc * 256 + Z_of_byte b) l 0.

(** [z.to_le_bytes()] on [n] bytes and its inverse. *)
Fixpoint to_le_bytes (n : nat) (z : Z) : bytes :=
  match n with
  | O => []
  | S n' => byte_of_Z z :: to_le_bytes n' (z / 256)
  end.
Fixpoint from_le_bytes (l : bytes) : Z :=
  match l with
  | [] => 0
  | b :: l' => Z_of_byte b + 256 * from_le_bytes l'
  end.

(** ** Automation *)
Create HintDb axon.

(** Unfolds the monadic plumbing of a stateful definition. *)
Ltac unfold_m :=
  cbn [mbind mret fmap M_bind M_ret outcome_bind outcome_ret outcome_fmap
       gets modify throw lift ok_or unwrap map_err is_ok] in *.

(** Case analysis on every scrutinee of the goal. *)
Ltac split_matches :=
  repeat (case_match; simplify_eq/=; try done).

(** ** Lemmas *)

(** *** Running stateful code *)
Section run.
Context {S E A B : Type}.
Implicit Types (k : A → M S E B) (s : S).

Lemma bind_ok (m : M S E A) k s s' a : m s = (s', Ok a) → (m ≫= k) s = k a s'.
Proof. intros Hm. unfold mbind, M_bind. by rewrite Hm. Qed.
Lemma bind_err (m : M S E A) k s s' e : m s = (s', Err e) → (m ≫= k) s = (s', Err e).
Proof. intros Hm. unfold mbind, M_bind. by rewrite Hm. Qed.
Lemma bind_panic (m : M S E A) k s s' : m s = (s', Panic) → (m ≫= k) s = (s', Panic).
Proof. intros Hm. unfold mbind, M_bind. by rewrite Hm. Qed.
Lemma bind_gets (f : S → A) k s : (gets f ≫= k) s = k (f s) s.
Proof. done. Qed.
Lemma bind_lift_ok (a : A) k s : (lift (Ok a) ≫= k) s = k a s.
Proof. done. Qed.
Lemma bind_same (m m' : M S E A) k k' s :
  m s = m' s → (∀ a s1, k a s1 = k' a s1) → (m ≫= k) s = (m' ≫= k') s.
Proof. intros Hm Hk. unfold mbind, M_bind. rewrite Hm. by destruct (m' s) as [s1 [a| |]]. Qed.
Lemma bind_inv (m : M S E A) k s s' b :
  (m ≫= k) s = (s', Ok b) → ∃ a s1, m s = (s1, Ok a) ∧ k a s1 = (s', Ok b).
Proof.
  unfold mbind, M_bind. destruct (m s) as [s1 [a| |]]; [|done..]. eauto.
Qed.
Lemma bind_lift_inv (o : outcome E A) k s s' b :
  (lift o ≫= k) s = (s', Ok b) → ∃ a, o = Ok a ∧ k a s = (s', Ok b).
Proof. unfold mbind, M_bind, lift. destruct o; [eauto|done..]. Qed.
End run.

(** ** Invariants of stateful operations *)
(** The operation keeps [I], whatever its outcome. *)
Definition preserves {S E A} (I : S → Prop) (op : M S E A) : Prop := ∀ s, I s → I (op s).1.

Section preserves.
Context {S E : Type} (I : S → Prop).
Lemma preserves_bind {A B} (op : M S E A) (k : A → M S E B) :
  preserves I op → (∀ x, preserves I (k x)) → preserves I (op ≫= k).
Proof.
  intros Hop Hk s Hs. unfold mbind, M_bind. specialize (Hop s Hs).
  destruct (op s) as [s1 [x| |]]; cbn in *; [by apply Hk|done..].
Qed.
Lemma preserves_pure {A} (op : M S E A) : (∀ s, (op s).1 = s) → preserves I op.
Proof. intros Hop s Hs. by rewrite Hop. Qed.
Lemma preserves_modify (f : S → S) : (∀ s, I s → I (f s)) → preserves I (modify f : M S E unit).
Proof. intros Hf s Hs. by apply Hf. Qed.
Lemma preserves_try {A} (op : M S E A) : preserves I op → preserves I (try op).
Proof. intros Hop s Hs. unfold try. specialize (Hop s Hs). by destruct (op s) as [s1 [| |]]. Qed.
End preserves.

(** A chain of calls that succeeds: each of them did. *)
Lemma outcome_inv {E A B} (o : outcome E A) (k : A → outcome E B) b :
  (o ≫= k) = Ok b → ∃ a, o = Ok a ∧ k a = Ok b.
Proof. destruct o; cbn; [eauto|done..]. Qed.
Lemma outcome_fmap_inv {E A B} (o : outcome E A) (f : A → B) b :
  f <$> o = Ok b → ∃ a, o = Ok a ∧ b = f a.
Proof. destruct o; cbn; [|done..]. intros [= <-]. eauto. Qed.
(** A chain of calls that panics: one of them did. *)
Lemma outcome_panic_inv {E A B} (o : outcome E A) (k : A → outcome E B) :
  (o ≫= k) = Panic → o = Panic ∨ ∃ a, o = Ok a ∧ k a = Panic.
Proof. destruct o; cbn; [eauto|done|by left]. Qed.

(** ** Checked arithmetic *)
Lemma u64_add_ok {E} a b c : u64_add a b = (Ok c : outcome E Z) ↔ c = a + b ∧ a + b < 2 ^ 64.
Proof. unfold u64_add. destruct (Z.ltb_spec (a + b) (2 ^ 64)); naive_solver lia. Qed.
Lemma u64_sub_ok {E} a b c : u64_sub a b = (Ok c : outcome E Z) ↔ c = a - b ∧ b ≤ a.
Proof. unfold u64_sub. destruct (Z.leb_spec b a); naive_solver lia. Qed.
Lemma u64_mul_ok {E} a b c : u64_mul a b = (Ok c : outcome E Z) ↔ c = a * b ∧ a * b < 2 ^ 64.
Proof. unfold u64_mul. destruct (Z.ltb_spec (a * b) (2 ^ 64)); naive_solver lia. Qed.
Lemma u64_add_small {E} a b : a + b < 2 ^ 64 → u64_add a b = (Ok (a + b) : outcome E Z).
Proof. intros. by apply u64_add_ok. Qed.
Lemma u64_sub_small {E} a b : b ≤ a → u64_sub a b = (Ok (a - b) : outcome E Z).
Proof. intros. by apply u64_sub_ok. Qed.
Lemma u64_mul_small {E} a b : a * b < 2 ^ 64 → u64_mul a b = (Ok (a * b) : outcome E Z).
Proof. intros. by apply u64_mul_ok. Qed.

Lemma bind_modify {S E B} (f : S → S) (k : unit → M S E B) s : (modify f ≫= k) s = k tt (f s).
Proof. done. Qed.

(** One step of a stateful computation whose first call is known. *)
Ltac mrun H := first [rewrite (bind_ok _ _ _ _ _ H) | rewrite (bind_err _ _ _ _ _ H)
                     | rewrite (bind_panic _ _ _ _ H)].
Ltac msteps := rewrite ?bind_gets, ?bind_lift_ok, ?bind_modify.

Lemma Z_of_byte_range b : 0 ≤ Z_of_byte b < 256.
Proof.
  unfold Z_of_byte. pose proof (Byte.to_N_bounded b). lia.
Qed.
#[export] Hint Resolve Z_of_byte_range : axon.

Lemma Z_of_byte_of_Z z : Z_of_byte (byte_of_Z z) = z mod 256.
Proof.
  unfold Z_of_byte, byte_of_Z.
  pose proof (Z.mod_pos_bound z 256 ltac:(lia)) as Hb.
  destruct (Byte.of_N (Z.to_N (z mod 256))) as [b|] eqn:E.
  - cbn. apply Byte.to_of_N in E. rewrite E. lia.
  - apply Byte.of_N_None_iff in E. lia.
Qed.

Lemma byte_of_Z_of_byte b : byte_of_Z (Z_of_byte b) = b.
Proof.
  unfold byte_of_Z. rewrite Z.mod_small by auto with axon.
  unfold Z_of_byte. rewrite N2Z.id, Byte.of_to_N. done.
Qed.

Lemma Z_of_byte_inj b1 b2 : Z_of_byte b1 = Z_of_byte b2 → b1 = b2.
Proof. intros E. rewrite <-(byte_of_Z_of_byte b1), E. apply byte_of_Z_of_byte. Qed.

Lemma from_be_bytes_app l b :
  from_be_bytes (l ++ [b]) = from_be_bytes l * 256 + Z_of_byte b.
Proof. unfold from_be_bytes. by rewrite fold_left_app. Qed.

Lemma length_to_be_bytes n z : length (to_be_bytes n z) = n.
Proof. revert z. induction n; intros z; cbn; [done|]. rewrite length_app, IHn. cbn. lia. Qed.

Lemma from_to_be_bytes n z :
  from_be_bytes (to_be_bytes n z) = z mod 256 ^ Z.of_nat n.
Proof.
  revert z. induction n as [|n IH]; intros z; cbn [to_be_bytes].
  - change (256 ^ Z.of_nat 0) with 1. by rewrite Z.mod_1_r.
  - rewrite from_be_bytes_app, IH, Z_of_byte_of_Z, Nat2Z.inj_succ, Z.pow_succ_r by lia.
    rewrite Z.rem_mul_r by lia. lia.
Qed.

Lemma from_be_bytes_range l : 0 ≤ from_be_bytes l < 256 ^ Z.of_nat (length l).
Proof.
  induction l as [|b l IH] using rev_ind; [cbn; lia|].
  rewrite from_be_bytes_app, length_app. cbn [length].
  rewrite Nat.add_1_r, Nat2Z.inj_succ, Z.pow_succ_r by lia.
  pose proof (Z_of_byte_range b). nia.
Qed.

Lemma to_from_be_bytes l : to_be_bytes (length l) (from_be_bytes l) = l.
Proof.
  induction l as [|b l IH] using rev_ind; [done|].
  rewrite length_app, from_be_bytes_app. cbn [length]. rewrite Nat.add_1_r. cbn [to_be_bytes].
  pose proof (Z_of_byte_range b).
  rewrite Z.div_add_l, Z.div_small, Z.add_0_r by lia. rewrite IH. f_equal. f_equal.
  apply Z_of_byte_inj. rewrite Z_of_byte_of_Z, Z.add_comm, Z.mod_add, Z.mod_small; lia.
Qed.

Lemma from_to_be_bytes_id n z :
  0 ≤ z < 256 ^ Z.of_nat n → from_be_bytes (to_be_bytes n z) = z.
Proof. intros. rewrite from_to_be_bytes. by apply Z.mod_small. Qed.

Lemma to_be_bytes_inj n z1 z2 :
  0 ≤ z1 < 256 ^ Z.of_nat n → 0 ≤ z2 < 256 ^ Z.of_nat n →
  to_be_bytes n z1 = to_be_bytes n z2 → z1 = z2.
Proof.
  intros H1 H2 E. rewrite <-(from_to_be_bytes_id n z1), <-(from_to_be_bytes_id n z2) by done.
  by rewrite E.
Qed.

Lemma traverse_seq {E A} (f : nat → outcome E A) (l : list A) k :
  (∀ i x, l !! i = Some x → f (k + i)%nat = Ok x) → traverse f (seq k (length l)) = Ok l.
Proof.
  revert k. induction l as [|x l IH]; intros k Hf; [done|]. cbn [length seq traverse].
  rewrite <-(Nat.add_0_r k) at 1. rewrite (Hf 0%nat x) by done. cbn [mbind outcome_bind].
  rewrite IH; [done|]. intros i y Hy. rewrite Nat.add_succ_comm. by apply Hf.
Qed.

Lemma traverse_ok_length {E A B} (f : A → outcome E B) l r :
  traverse f l = Ok r → length r = length l.
Proof.
  revert r. induction l as [|x l IH]; intros r; cbn; [by intros [= <-]|].
  destruct (f x) as [y| |]; cbn; try done.
  destruct (traverse f l) as [ys| |]; cbn; try done.
  intros [= <-]. cbn. f_equal. by apply IH.
Qed.

Lemma filter_all {A} (P : A → Prop) `{∀ x, Decision (P x)} (l : list A) :
  (∀ x, x ∈ l → P x) → filter P l = l.
Proof.
  induction l as [|x l IH]; intros HP; [done|]. rewrite filter_cons_True by (apply HP; left).
  f_equal. apply IH. intros y Hy. apply HP. by right.
Qed.

Lemma traverse_Forall2 {E A B} (f : A → outcome E B) l r :
  traverse f l = Ok r ↔ Forall2 (λ x y, f x = Ok y) l r.
Proof.
  revert r. induction l as [|x l IH]; intros r; cbn; [split; [by intros [= <-]|by inversion 1]|].
  destruct (f x) as [y| |] eqn:Hx; cbn.
  - destruct (traverse f l) as [ys| |] eqn:Hl; cbn; split.
    1: intros [= <-]; constructor; [done|by apply IH].
    1: inversion 1 as [|? y' ? ys' E1 E2]; subst; apply IH in E2; congruence.
    all: first [done|inversion 1 as [|? y' ? ys' E1 E2]; subst; apply IH in E2; congruence].
  - split; [done|]. inversion 1; congruence.
  - split; [done|]. inversion 1; congruence.
Qed.

Lemma traverse_total {E A B} (f : A → outcome E B) l :
  (∀ x, x ∈ l → ∃ y, f x = Ok y) → ∃ r, traverse f l = Ok r.
Proof.
  induction l as [|x l IH]; intros Hf; cbn; [eauto|]. destruct (Hf x) as [y ->]; [left|].
  destruct IH as [r ->]; [intros; apply Hf; by right|]. by eexists.
Qed.

Lemma filter_none {A} (P : A → Prop) `{∀ x, Decision (P x)} (l : list A) :
  (∀ x, x ∈ l → ¬ P x) → filter P l = [].
Proof.
  induction l as [|x l IH]; intros HP; [done|]. rewrite filter_cons_False by (apply HP; left).
  apply IH. intros y Hy. apply HP. by right.
Qed.

Arguments to_be_bytes : simpl never.
Arguments from_be_bytes : simpl never.
