(* ===== verification/Types.v ===== *)
(** * Protocol types

    The data of [protocol/src/types]: transactions, blocks, receipts, executor
    responses, metadata and validators, with the operations on them that need
    neither a codec nor a hash.  A [U256], [H160], [H256], [u64], ... is a [Z];
    the [_wf] predicates say which records hold values of their Rust width.
    Field names carry a prefix per record because Rocq projections share one
    name space. *)

From S2P Require Import Prelude.

Local Open Scope Z_scope.

Abbreviation U256 := Z (only parsing).
Abbreviation H160 := Z (only parsing).
Abbreviation Hash := Z (only parsing).
Abbreviation H256 := Z (only parsing).
Abbreviation MerkleRoot := Z (only parsing).
Abbreviation BlockNumber := Z (only parsing).

(** ** Constants of [primitive.rs] *)
Definition NIL_DATA : Hash :=
  0xc5d2460186f7233c927e7db2dcc703c0e500b653ca82273b7bfad8045d85a470.
Definition RLP_NULL : Hash :=
  0x56e81f171bcc55a6ff8345e692c0f86e5b48e01b996cadc001622fb5e363b421.

(** ** Transactions *)
Inductive TransactionAction : Type :=
| Call (to : H160)
| Create.
#[global] Instance TransactionAction_eq_dec : EqDecision TransactionAction.
Proof. solve_decision. Defined.

Record AccessListItem := mkAccessListItem {
  ali_address : H160;
  ali_storage_keys : list Hash
}.

Record Transaction := mkTransaction {
  tx_nonce : U256;
  tx_max_priority_fee_per_gas : U256;
  tx_gas_price : U256;
  tx_gas_limit : U256;
  tx_action : TransactionAction;
  tx_value : U256;
  tx_data : bytes;
  tx_access_list : list AccessListItem
}.

Record SignatureComponents := mkSignatureComponents {
  sig_r : bytes;
  sig_s : bytes;
  sig_standard_v : Z
}.

Record UnverifiedTransaction := mkUnverifiedTransaction {
  utx_unsigned : Transaction;
  utx_signature : option SignatureComponents;
  utx_chain_id : Z;
  utx_hash : Hash
}.

Record SignedTransaction := mkSignedTransaction {
  stx_transaction : UnverifiedTransaction;
  stx_sender : H160;
  stx_public : option Z
}.

(** [stx.transaction.hash], [stx.transaction.unsigned.nonce], ... *)
Definition stx_hash (stx : SignedTransaction) : Hash := utx_hash (stx_transaction stx).
Definition stx_nonce (stx : SignedTransaction) : U256 :=
  tx_nonce (utx_unsigned (stx_transaction stx)).
Definition stx_gas_price (stx : SignedTransaction) : U256 :=
  tx_gas_price (utx_unsigned (stx_transaction stx)).
Definition stx_action (stx : SignedTransaction) : TransactionAction :=
  tx_action (utx_unsigned (stx_transaction stx)).
Definition stx_data (stx : SignedTransaction) : bytes :=
  tx_data (utx_unsigned (stx_transaction stx)).

(** [From<Bytes> for SignatureComponents]: slicing panics when the 65 bytes
    are not there. *)
Definition SignatureComponents_from (b : bytes) : outcome unit SignatureComponents :=
  if decide (length b < 65)%nat then Panic
  else Ok {| sig_r := take 32 b;
             sig_s := take 32 (drop 32 b);
             sig_standard_v := Z_of_byte (nth 64 b x00) |}.

(** [From<SignatureComponents> for Bytes], [as_bytes] *)
Definition SignatureComponents_as_bytes (sc : SignatureComponents) : bytes :=
  sig_r sc ++ sig_s sc ++ [byte_of_Z (sig_standard_v sc)].

Definition is_eth_sig (sc : SignatureComponents) : bool := sig_standard_v sc <=? 1.

(** [SignedTransaction::get_to] *)
Definition get_to (stx : SignedTransaction) : option H160 :=
  match stx_action stx with Call to => Some to | Create => None end.

(** ** Blocks *)
Record Proof := mkProof {
  pf_number : Z;
  pf_round : Z;
  pf_block_hash : Hash;
  pf_signature : bytes;
  pf_bitmap : bytes
}.

Record Proposal := mkProposal {
  p_prev_hash : Hash;
  p_proposer : H160;
  p_transactions_root : MerkleRoot;
  p_signed_txs_hash : Hash;
  p_timestamp : Z;
  p_number : BlockNumber;
  p_gas_limit : U256;
  p_extra_data : bytes;
  p_mixed_hash : option Hash;
  p_base_fee_per_gas : U256;
  p_proof : Proof;
  p_last_checkpoint_block_hash : Hash;
  p_chain_id : Z;
  p_tx_hashes : list Hash
}.

Record Header := mkHeader {
  h_prev_hash : Hash;
  h_proposer : H160;
  h_state_root : MerkleRoot;
  h_transactions_root : MerkleRoot;
  h_signed_txs_hash : Hash;
  h_receipts_root : MerkleRoot;
  h_log_bloom : Z;
  h_difficulty : U256;
  h_timestamp : Z;
  h_number : BlockNumber;
  h_gas_used : U256;
  h_gas_limit : U256;
  h_extra_data : bytes;
  h_mixed_hash : option Hash;
  h_nonce : Z;
  h_base_fee_per_gas : U256;
  h_proof : Proof;
  h_last_checkpoint_block_hash : Hash;
  h_chain_id : Z
}.

Record Block := mkBlock {
  b_header : Header;
  b_tx_hashes : list Hash
}.

Record RichBlock := mkRichBlock {
  rb_block : Block;
  rb_txs : list SignedTransaction
}.

(** [From<Block> for Proposal] *)
Definition Proposal_from_Block (b : Block) : Proposal := {|
  p_prev_hash := h_prev_hash (b_header b);
  p_proposer := h_proposer (b_header b);
  p_transactions_root := h_transactions_root (b_header b);
  p_signed_txs_hash := h_signed_txs_hash (b_header b);
  p_timestamp := h_timestamp (b_header b);
  p_number := h_number (b_header b);
  p_gas_limit := h_gas_limit (b_header b);
  p_extra_data := h_extra_data (b_header b);
  p_mixed_hash := h_mixed_hash (b_header b);
  p_base_fee_per_gas := h_base_fee_per_gas (b_header b);
  p_proof := h_proof (b_header b);
  p_last_checkpoint_block_hash := h_last_checkpoint_block_hash (b_header b);
  p_chain_id := h_chain_id (b_header b);
  p_tx_hashes := b_tx_hashes b |}.

(** [From<Header> for Proposal] *)
Definition Proposal_from_Header (h : Header) : Proposal := {|
  p_prev_hash := h_prev_hash h;
  p_proposer := h_proposer h;
  p_transactions_root := h_transactions_root h;
  p_signed_txs_hash := h_signed_txs_hash h;
  p_timestamp := h_timestamp h;
  p_number := h_number h;
  p_gas_limit := h_gas_limit h;
  p_extra_data := h_extra_data h;
  p_mixed_hash := h_mixed_hash h;
  p_base_fee_per_gas := h_base_fee_per_gas h;
  p_proof := h_proof h;
  p_last_checkpoint_block_hash := h_last_checkpoint_block_hash h;
  p_chain_id := h_chain_id h;
  p_tx_hashes := [] |}.

(** ** Execution *)
Record Log := mkLog {
  log_address : H160;
  log_topics : list Hash;
  log_data : bytes
}.

Inductive ExitSucceed := Stopped | Returned | Suicided.
Inductive ExitRevert := Reverted.
(** [OutOfGas] and [Other] are the errors the node's precompiles raise; the
    remaining errors of the EVM crate are told apart by a code. *)
Inductive ExitError := OutOfGas | Other (msg : string) | EvmError (code : Z).
Inductive ExitReason :=
| Succeed (s : ExitSucceed)
| Error (e : ExitError)
| Revert (r : ExitRevert)
| Fatal (code : Z).

(** [ExitReason::is_succeed] *)
Definition is_succeed (r : ExitReason) : bool :=
  match r with Succeed _ => true | _ => false end.

Record TxResp := mkTxResp {
  tr_exit_reason : ExitReason;
  tr_ret : bytes;
  tr_gas_used : Z;
  tr_remain_gas : Z;
  tr_logs : list Log;
  tr_code_address : option Hash
}.

Record ExecResp := mkExecResp {
  er_state_root : MerkleRoot;
  er_receipt_root : MerkleRoot;
  er_gas_used : Z;
  er_tx_resp : list TxResp
}.

Record ExecutorContext := mkExecutorContext {
  ec_block_number : U256;
  ec_block_hash : Hash;
  ec_block_coinbase : H160;
  ec_block_timestamp : U256;
  ec_chain_id : U256;
  ec_difficulty : U256;
  ec_origin : H160;
  ec_gas_price : U256;
  ec_block_gas_limit : U256;
  ec_block_base_fee_per_gas : U256;
  ec_logs : list Log
}.

Record Account := mkAccount {
  acc_nonce : U256;
  acc_balance : U256;
  acc_storage_root : Hash;
  acc_code_hash : Hash
}.

Record Receipt := mkReceipt {
  rc_tx_hash : Hash;
  rc_block_number : Z;
  rc_block_hash : Hash;
  rc_tx_index : Z;
  rc_state_root : MerkleRoot;
  rc_used_gas : U256;
  rc_logs_bloom : Z;
  rc_logs : list Log;
  rc_code_address : option Hash;
  rc_sender : H160;
  rc_ret : ExitReason
}.

(** [Receipt::status] *)
Definition status (r : Receipt) : U256 :=
  match rc_ret r with Succeed _ => 1 | _ => 0 end.

(** ** Metadata *)
Record MetadataVersion := mkMetadataVersion { mv_start : BlockNumber; mv_end : BlockNumber }.

(** [MetadataVersion::contains] *)
Definition contains (v : MetadataVersion) (number : BlockNumber) : bool :=
  (mv_start v <=? number) && (number <? mv_end v).

Record Validator := mkValidator {
  v_pub_key : bytes;
  v_propose_weight : Z;
  v_vote_weight : Z
}.

(** [Hex] wraps the string; its operations are in [Metadata.v]. *)
Record Hex := mkHex { hex_str : string }.

Record ValidatorExtend := mkValidatorExtend {
  ve_bls_pub_key : Hex;
  ve_pub_key : Hex;
  ve_address : H160;
  ve_propose_weight : Z;
  ve_vote_weight : Z
}.

Record Metadata := mkMetadata {
  md_version : MetadataVersion;
  md_epoch : Z;
  md_gas_limit : Z;
  md_gas_price : Z;
  md_interval : Z;
  md_verifier_list : list ValidatorExtend;
  md_propose_ratio : Z;
  md_prevote_ratio : Z;
  md_precommit_ratio : Z;
  md_brake_ratio : Z;
  md_tx_num_limit : Z;
  md_max_tx_size : Z;
  md_last_checkpoint_block_hash : Hash
}.

(** ** Values of their Rust width *)
Definition action_wf (a : TransactionAction) : Prop :=
  match a with Call to => h160_ok to | Create => True end.

Definition access_wf (a : AccessListItem) : Prop :=
  h160_ok (ali_address a) ∧ Forall h256_ok (ali_storage_keys a).

Definition tx_wf (t : Transaction) : Prop :=
  u256_ok (tx_nonce t) ∧ u256_ok (tx_max_priority_fee_per_gas t) ∧
  u256_ok (tx_gas_price t) ∧ u256_ok (tx_gas_limit t) ∧ action_wf (tx_action t) ∧
  u256_ok (tx_value t) ∧ Forall access_wf (tx_access_list t).

Definition opt_wf {A} (P : A → Prop) (o : option A) : Prop :=
  match o with Some x => P x | None => True end.

Arguments opt_wf {A} P o : simpl never.

Definition proof_wf (p : Proof) : Prop :=
  u64_ok (pf_number p) ∧ u64_ok (pf_round p) ∧ h256_ok (pf_block_hash p).

Definition proposal_wf (p : Proposal) : Prop :=
  h256_ok (p_prev_hash p) ∧ h160_ok (p_proposer p) ∧ h256_ok (p_transactions_root p) ∧
  h256_ok (p_signed_txs_hash p) ∧ u64_ok (p_timestamp p) ∧ u64_ok (p_number p) ∧
  u256_ok (p_gas_limit p) ∧ opt_wf h256_ok (p_mixed_hash p) ∧ u256_ok (p_base_fee_per_gas p) ∧
  proof_wf (p_proof p) ∧ h256_ok (p_last_checkpoint_block_hash p) ∧ u64_ok (p_chain_id p) ∧
  Forall h256_ok (p_tx_hashes p).

Definition header_wf (h : Header) : Prop :=
  h256_ok (h_prev_hash h) ∧ h160_ok (h_proposer h) ∧ h256_ok (h_state_root h) ∧
  h256_ok (h_transactions_root h) ∧ h256_ok (h_signed_txs_hash h) ∧ h256_ok (h_receipts_root h) ∧
  bloom_ok (h_log_bloom h) ∧ u256_ok (h_difficulty h) ∧ u64_ok (h_timestamp h) ∧
  u64_ok (h_number h) ∧ u256_ok (h_gas_used h) ∧ u256_ok (h_gas_limit h) ∧
  opt_wf h256_ok (h_mixed_hash h) ∧ h64_ok (h_nonce h) ∧ u256_ok (h_base_fee_per_gas h) ∧
  proof_wf (h_proof h) ∧ h256_ok (h_last_checkpoint_block_hash h) ∧ u64_ok (h_chain_id h).

Definition block_wf (b : Block) : Prop :=
  header_wf (b_header b) ∧ Forall h256_ok (b_tx_hashes b).

(** A storage root is an opaque identifier, of which no width is assumed. *)
Definition account_wf (a : Account) : Prop :=
  u256_ok (acc_nonce a) ∧ u256_ok (acc_balance a) ∧ h256_ok (acc_code_hash a).
Definition log_wf (l : Log) : Prop := h160_ok (log_address l) ∧ Forall h256_ok (log_topics l).

Definition receipt_wf (r : Receipt) : Prop :=
  h256_ok (rc_tx_hash r) ∧ u64_ok (rc_block_number r) ∧ h256_ok (rc_block_hash r) ∧
  u32_ok (rc_tx_index r) ∧ h256_ok (rc_state_root r) ∧ u256_ok (rc_used_gas r) ∧
  bloom_ok (rc_logs_bloom r) ∧ Forall log_wf (rc_logs r) ∧ opt_wf h256_ok (rc_code_address r) ∧
  h160_ok (rc_sender r).
