(* ===== verification/Codec.v ===== *)
(** * RLP codecs

    The [Encodable]/[Decodable] instances of [protocol/src/codec] and
    [ProtocolCodec].  The [rlp], [ethereum-types], [ethereum], [evm]/[bincode]
    and [hasher] crates are outside the repository: class [Rlp] lists the calls
    the codecs make on them together with the documented laws of those calls,
    and class [Keccak] the digest.  The codecs are written against the two
    classes; [RlpInstance.v] discharges them with a concrete RLP. *)

From S2P Require Import Prelude Types.

Local Open Scope Z_scope.

Create HintDb codec.

(** [rlp::DecoderError], with the values the repository itself raises. *)
Inductive DecoderError : Type :=
| RlpIncorrectListLen
| RlpInconsistentLengthAndData
| RlpExpectedToBeList
| RlpCustom (msg : string)
| RlpCrate (code : Z).

(** [rlp::Prototype] *)
Inductive Prototype : Type := PNull | PData (len : nat) | PList (len : nat).

(** An [Encodable] with its [Decodable], over the items of the crate. *)
Record codec (item A : Type) : Type := mkCodec {
  enc : A → item;
  dec : item → outcome DecoderError A
}.
Arguments mkCodec {item A} enc dec.
Arguments enc {item A} c a.
Arguments dec {item A} c i.

(** [dec] inverts [enc] on the values satisfying [P]. *)
Definition lawful {item A} (P : A → Prop) (c : codec item A) : Prop :=
  ∀ a, P a → dec c (enc c a) = Ok a.

(** What the codecs call of the external crates.  [rlp_list l] is the stream
    [begin_list(l.len())] followed by one [append] per element of [l]. *)
Class Rlp := {
  item : Type;
  rlp_list : list item → item;
  rlp_prototype : item → outcome DecoderError Prototype;
  rlp_item_count : item → outcome DecoderError nat;
  rlp_at : item → nat → outcome DecoderError item;
  rlp_out : item → bytes;
  rlp_new : bytes → item;
  c_u8 : codec item Z;
  c_u32 : codec item Z;
  c_u64 : codec item Z;
  c_u256 : codec item Z;
  c_h64 : codec item Z;
  c_h160 : codec item Z;
  c_h256 : codec item Z;
  c_h512 : codec item Z;
  c_bloom : codec item Z;
  c_bytes : codec item bytes;
  c_option : ∀ {A}, codec item A → codec item (option A);
  c_vec : ∀ {A}, codec item A → codec item (list A);
  c_action : codec item TransactionAction;
  c_log : codec item Log;
  c_account : codec item Account;
  bincode_serialize : ExitReason → bytes;
  bincode_deserialize : bytes → option ExitReason;

  rlp_prototype_list l : rlp_prototype (rlp_list l) = Ok (PList (length l));
  rlp_item_count_list l : rlp_item_count (rlp_list l) = Ok (length l);
  rlp_at_list l i x : l !! i = Some x → rlp_at (rlp_list l) i = Ok x;
  rlp_new_out i : rlp_new (rlp_out i) = i;
  c_u8_ok : lawful u8_ok c_u8;
  c_u32_ok : lawful u32_ok c_u32;
  c_u64_ok : lawful u64_ok c_u64;
  c_u256_ok : lawful u256_ok c_u256;
  c_h64_ok : lawful h64_ok c_h64;
  c_h160_ok : lawful h160_ok c_h160;
  c_h256_ok : lawful h256_ok c_h256;
  c_h512_ok : lawful (in_width 512) c_h512;
  c_bloom_ok : lawful bloom_ok c_bloom;
  c_bytes_ok : lawful (λ _, True) c_bytes;
  c_option_ok A (P : A → Prop) c : lawful P c → lawful (opt_wf P) (c_option c);
  c_vec_append_list A (c : codec item A) l : enc (c_vec c) l = rlp_list (map (enc c) l);
  c_vec_ok A (P : A → Prop) c : lawful P c → lawful (Forall P) (c_vec c);
  c_action_ok : lawful action_wf c_action;
  c_log_ok : lawful log_wf c_log;
  c_account_ok : lawful account_wf c_account;
  rlp_out_non_empty i : rlp_out i ≠ [];
  c_h256_long x : (32 < length (rlp_out (enc c_h256 x)))%nat;
  bincode_roundtrip r : bincode_deserialize (bincode_serialize r) = Some r
}.

(** [HasherKeccak::digest] *)
Class Keccak := {
  keccak : bytes → Hash;
  keccak_range b : h256_ok (keccak b)
}.

Section codecs.
Context `{R : Rlp} `{K : Keccak}.

(** [r.val_at(i)?], [r.list_at(i)?] *)
Definition val_at {A} (c : codec item A) (r : item) (i : nat) : outcome DecoderError A :=
  x ← rlp_at r i; dec c x.
Definition list_at {A} (c : codec item A) (r : item) (i : nat) : outcome DecoderError (list A) :=
  x ← rlp_at r i; dec (c_vec c) x.

(** [match r.prototype()? { Prototype::List(n) => k, _ => Err(e) }] *)
Definition expect_list {A} (r : item) (n : nat) (e : DecoderError)
    (k : outcome DecoderError A) : outcome DecoderError A :=
  p ← rlp_prototype r;
  match p with
  | PList m => if decide (m = n) then k else Err e
  | _ => Err e
  end.

(** [ProtocolCodec::encode]/[decode] of an [Encodable + Decodable] type *)
Definition encode {A} (c : codec item A) (a : A) : bytes := rlp_out (enc c a).
Definition decode {A} (c : codec item A) (b : bytes) : outcome DecoderError A := dec c (rlp_new b).

(** [Hasher::digest] *)
Definition digest (b : bytes) : Hash :=
  match b with [] => NIL_DATA | _ => keccak b end.

(** ** [codec/mod.rs] *)
Definition Address_rlp_append (a : H160) : item := rlp_list [enc c_h160 a].
Definition Address_decode (r : item) : outcome DecoderError H160 := val_at c_h160 r 0.
Definition Address_codec : codec item H160 := mkCodec Address_rlp_append Address_decode.

(** ** [codec/block.rs] *)
Definition Proof_rlp_append (p : Proof) : item :=
  rlp_list [enc c_u64 (pf_number p); enc c_u64 (pf_round p); enc c_h256 (pf_block_hash p);
            enc c_bytes (pf_signature p); enc c_bytes (pf_bitmap p)].
Definition Proof_decode (r : item) : outcome DecoderError Proof :=
  expect_list r 5 RlpExpectedToBeList (
    number ← val_at c_u64 r 0;
    round ← val_at c_u64 r 1;
    block_hash ← val_at c_h256 r 2;
    signature ← val_at c_bytes r 3;
    bitmap ← val_at c_bytes r 4;
    Ok (mkProof number round block_hash signature bitmap)).
Definition Proof_codec : codec item Proof := mkCodec Proof_rlp_append Proof_decode.

Definition Proposal_rlp_append (p : Proposal) : item :=
  rlp_list [enc c_h256 (p_prev_hash p); enc c_h160 (p_proposer p);
            enc c_h256 (p_transactions_root p); enc c_h256 (p_signed_txs_hash p);
            enc c_u64 (p_timestamp p); enc c_u64 (p_number p); enc c_u256 (p_gas_limit p);
            enc c_bytes (p_extra_data p); enc (c_option c_h256) (p_mixed_hash p);
            enc c_u256 (p_base_fee_per_gas p); enc Proof_codec (p_proof p);
            enc c_h256 (p_last_checkpoint_block_hash p); enc c_u64 (p_chain_id p);
            enc (c_vec c_h256) (p_tx_hashes p)].
Definition Proposal_decode (r : item) : outcome DecoderError Proposal :=
  expect_list r 14 RlpInconsistentLengthAndData (
    prev_hash ← val_at c_h256 r 0;
    proposer ← val_at c_h160 r 1;
    transactions_root ← val_at c_h256 r 2;
    signed_txs_hash ← val_at c_h256 r 3;
    timestamp ← val_at c_u64 r 4;
    number ← val_at c_u64 r 5;
    gas_limit ← val_at c_u256 r 6;
    extra_data ← val_at c_bytes r 7;
    mixed_hash ← val_at (c_option c_h256) r 8;
    base_fee_per_gas ← val_at c_u256 r 9;
    proof ← val_at Proof_codec r 10;
    last_checkpoint_block_hash ← val_at c_h256 r 11;
    chain_id ← val_at c_u64 r 12;
    tx_hashes ← list_at c_h256 r 13;
    Ok (mkProposal prev_hash proposer transactions_root signed_txs_hash timestamp number
          gas_limit extra_data mixed_hash base_fee_per_gas proof last_checkpoint_block_hash
          chain_id tx_hashes)).
Definition Proposal_codec : codec item Proposal := mkCodec Proposal_rlp_append Proposal_decode.

Definition Header_rlp_append (h : Header) : item :=
  rlp_list [enc c_h256 (h_prev_hash h); enc c_h160 (h_proposer h); enc c_h256 (h_state_root h);
            enc c_h256 (h_transactions_root h); enc c_h256 (h_signed_txs_hash h);
            enc c_h256 (h_receipts_root h); enc c_bloom (h_log_bloom h);
            enc c_u256 (h_difficulty h); enc c_u64 (h_timestamp h); enc c_u64 (h_number h);
            enc c_u256 (h_gas_used h); enc c_u256 (h_gas_limit h); enc c_bytes (h_extra_data h);
            enc (c_option c_h256) (h_mixed_hash h); enc c_h64 (h_nonce h);
            enc c_u256 (h_base_fee_per_gas h); enc Proof_codec (h_proof h);
            enc c_h256 (h_last_checkpoint_block_hash h); enc c_u64 (h_chain_id h)].
Definition Header_decode (r : item) : outcome DecoderError Header :=
  expect_list r 19 RlpExpectedToBeList (
    prev_hash ← val_at c_h256 r 0;
    proposer ← val_at c_h160 r 1;
    state_root ← val_at c_h256 r 2;
    transactions_root ← val_at c_h256 r 3;
    signed_txs_hash ← val_at c_h256 r 4;
    receipts_root ← val_at c_h256 r 5;
    log_bloom ← val_at c_bloom r 6;
    difficulty ← val_at c_u256 r 7;
    timestamp ← val_at c_u64 r 8;
    number ← val_at c_u64 r 9;
    gas_used ← val_at c_u256 r 10;
    gas_limit ← val_at c_u256 r 11;
    extra_data ← val_at c_bytes r 12;
    mixed_hash ← val_at (c_option c_h256) r 13;
    nonce ← val_at c_h64 r 14;
    base_fee_per_gas ← val_at c_u256 r 15;
    proof ← val_at Proof_codec r 16;
    last_checkpoint_block_hash ← val_at c_h256 r 17;
    chain_id ← val_at c_u64 r 18;
    Ok (mkHeader prev_hash proposer state_root transactions_root signed_txs_hash receipts_root
          log_bloom difficulty timestamp number gas_used gas_limit extra_data mixed_hash nonce
          base_fee_per_gas proof last_checkpoint_block_hash chain_id)).
Definition Header_codec : codec item Header := mkCodec Header_rlp_append Header_decode.

Definition Block_rlp_append (b : Block) : item :=
  rlp_list [enc Header_codec (b_header b); enc (c_vec c_h256) (b_tx_hashes b)].
Definition Block_decode (r : item) : outcome DecoderError Block :=
  expect_list r 2 RlpExpectedToBeList (
    header ← val_at Header_codec r 0;
    tx_hashes ← list_at c_h256 r 1;
    Ok (mkBlock header tx_hashes)).
Definition Block_codec : codec item Block := mkCodec Block_rlp_append Block_decode.

Definition Validator_rlp_append (v : Validator) : item :=
  rlp_list [enc c_bytes (v_pub_key v); enc c_u32 (v_propose_weight v);
            enc c_u32 (v_vote_weight v)].
Definition Validator_decode (r : item) : outcome DecoderError Validator :=
  expect_list r 3 RlpExpectedToBeList (
    pub_key ← val_at c_bytes r 0;
    propose_weight ← val_at c_u32 r 1;
    vote_weight ← val_at c_u32 r 2;
    Ok (mkValidator pub_key propose_weight vote_weight)).
Definition Validator_codec : codec item Validator :=
  mkCodec Validator_rlp_append Validator_decode.

(** ** [codec/receipt.rs] and [codec/executor.rs] *)
Definition exit_reason_of (raw : bytes) (msg : string) : outcome DecoderError ExitReason :=
  match bincode_deserialize raw with Some r => Ok r | None => Err (RlpCustom msg) end.

Definition Receipt_rlp_append (r : Receipt) : item :=
  rlp_list [enc c_h256 (rc_tx_hash r); enc c_u64 (rc_block_number r);
            enc c_h256 (rc_block_hash r); enc c_u32 (rc_tx_index r);
            enc c_h256 (rc_state_root r); enc c_u256 (rc_used_gas r);
            enc c_bloom (rc_logs_bloom r); enc (c_vec c_log) (rc_logs r);
            enc (c_option c_h256) (rc_code_address r); enc c_h160 (rc_sender r);
            enc c_bytes (bincode_serialize (rc_ret r))].
Definition Receipt_decode (r : item) : outcome DecoderError Receipt :=
  expect_list r 11 RlpExpectedToBeList (
    tx_hash ← val_at c_h256 r 0;
    block_number ← val_at c_u64 r 1;
    block_hash ← val_at c_h256 r 2;
    tx_index ← val_at c_u32 r 3;
    state_root ← val_at c_h256 r 4;
    used_gas ← val_at c_u256 r 5;
    logs_bloom ← val_at c_bloom r 6;
    logs ← list_at c_log r 7;
    code_address ← val_at (c_option c_h256) r 8;
    sender ← val_at c_h160 r 9;
    raw ← val_at c_bytes r 10;
    ret ← exit_reason_of raw "Decode exit reason";
    Ok (mkReceipt tx_hash block_number block_hash tx_index state_root used_gas logs_bloom logs
          code_address sender ret)).
Definition Receipt_codec : codec item Receipt := mkCodec Receipt_rlp_append Receipt_decode.

Definition TxResp_rlp_append (t : TxResp) : item :=
  rlp_list [enc c_bytes (bincode_serialize (tr_exit_reason t)); enc c_bytes (tr_ret t);
            enc c_u64 (tr_gas_used t); enc c_u64 (tr_remain_gas t);
            enc (c_vec c_log) (tr_logs t); enc (c_option c_h256) (tr_code_address t)].
Definition TxResp_decode (r : item) : outcome DecoderError TxResp :=
  expect_list r 6 RlpExpectedToBeList (
    tmp ← val_at c_bytes r 0;
    exit_reason ← exit_reason_of tmp "field exit reason";
    ret ← val_at c_bytes r 1;
    gas_used ← val_at c_u64 r 2;
    remain_gas ← val_at c_u64 r 3;
    logs ← list_at c_log r 4;
    code_address ← val_at (c_option c_h256) r 5;
    Ok (mkTxResp exit_reason ret gas_used remain_gas logs code_address)).
Definition TxResp_codec : codec item TxResp := mkCodec TxResp_rlp_append TxResp_decode.

Definition ExecutorContext_rlp_append (c : ExecutorContext) : item :=
  rlp_list [enc c_u256 (ec_block_number c); enc c_h256 (ec_block_hash c);
            enc c_h160 (ec_block_coinbase c); enc c_u256 (ec_block_timestamp c);
            enc c_u256 (ec_chain_id c); enc c_u256 (ec_difficulty c); enc c_h160 (ec_origin c);
            enc c_u256 (ec_gas_price c); enc c_u256 (ec_block_gas_limit c);
            enc c_u256 (ec_block_base_fee_per_gas c); enc (c_vec c_log) (ec_logs c)].
Definition ExecutorContext_decode (r : item) : outcome DecoderError ExecutorContext :=
  expect_list r 11 RlpExpectedToBeList (
    block_number ← val_at c_u256 r 0;
    block_hash ← val_at c_h256 r 1;
    block_coinbase ← val_at c_h160 r 2;
    block_timestamp ← val_at c_u256 r 3;
    chain_id ← val_at c_u256 r 4;
    difficulty ← val_at c_u256 r 5;
    origin ← val_at c_h160 r 6;
    gas_price ← val_at c_u256 r 7;
    block_gas_limit ← val_at c_u256 r 8;
    block_base_fee_per_gas ← val_at c_u256 r 9;
    logs ← list_at c_log r 10;
    Ok (mkExecutorContext block_number block_hash block_coinbase block_timestamp chain_id
          difficulty origin gas_price block_gas_limit block_base_fee_per_gas logs)).
Definition ExecutorContext_codec : codec item ExecutorContext :=
  mkCodec ExecutorContext_rlp_append ExecutorContext_decode.

(** ** [codec/transaction.rs] *)

(** [U256::from(&x[0..32])], [H256::from_uint(&u)] *)
Definition u256_from_32 (x : bytes) : outcome DecoderError U256 :=
  if decide (length x < 32)%nat then Panic else Ok (from_be_bytes (take 32 x)).
Definition h256_bytes (u : U256) : bytes := to_be_bytes 32 u.

Definition SignatureComponents_rlp_append (sc : SignatureComponents)
    : outcome DecoderError (list item) :=
  if is_eth_sig sc then
    r ← u256_from_32 (sig_r sc);
    s_ ← u256_from_32 (sig_s sc);
    Ok [enc c_u8 (sig_standard_v sc); enc c_u256 r; enc c_u256 s_]
  else
    Ok [enc c_u8 (sig_standard_v sc); enc c_bytes (sig_r sc); enc c_bytes (sig_s sc)].

Definition access_rlp_append (access : AccessListItem) : item :=
  rlp_list [enc c_h160 (ali_address access);
            rlp_list (map (enc c_h256) (ali_storage_keys access))].

Definition UnverifiedTransaction_rlp_append (utx : UnverifiedTransaction)
    : outcome DecoderError item :=
  let u := utx_unsigned utx in
  let fields :=
    [enc c_u64 (utx_chain_id utx); enc c_u256 (tx_nonce u);
     enc c_u256 (tx_max_priority_fee_per_gas u); enc c_u256 (tx_gas_price u);
     enc c_u256 (tx_gas_limit u); enc c_action (tx_action u); enc c_u256 (tx_value u);
     enc c_bytes (tx_data u); rlp_list (map access_rlp_append (tx_access_list u))] in
  match utx_signature utx with
  | Some signature =>
      sig ← SignatureComponents_rlp_append signature;
      Ok (rlp_list (fields ++ sig))
  | None => Ok (rlp_list fields)
  end.

(** [rlp_bytes]: the EIP-2718 type byte, then the stream. *)
Definition UnverifiedTransaction_rlp_bytes (utx : UnverifiedTransaction)
    : outcome DecoderError bytes :=
  i ← UnverifiedTransaction_rlp_append utx; Ok (x02 :: rlp_out i).

(** [UnverifiedTransaction::hash], [check_hash], [Transaction::encode],
    [signature_hash] *)
Definition utx_with_hash (utx : UnverifiedTransaction) : outcome DecoderError UnverifiedTransaction :=
  b ← UnverifiedTransaction_rlp_bytes utx;
  Ok (mkUnverifiedTransaction (utx_unsigned utx) (utx_signature utx) (utx_chain_id utx) (digest b)).
Definition check_hash (utx : UnverifiedTransaction) : outcome DecoderError bool :=
  b ← UnverifiedTransaction_rlp_bytes utx; Ok (digest b =? utx_hash utx).
Definition Transaction_encode (t : Transaction) (chain_id : Z)
    (signature : option SignatureComponents) : outcome DecoderError bytes :=
  UnverifiedTransaction_rlp_bytes (mkUnverifiedTransaction t signature chain_id 0).
Definition signature_hash (utx : UnverifiedTransaction) : outcome DecoderError Hash :=
  b ← Transaction_encode (utx_unsigned utx) (utx_chain_id utx) None; Ok (digest b).

Definition decode_access (accl_rlp : item) (i : nat) : outcome DecoderError AccessListItem :=
  accounts ← rlp_at accl_rlp i;
  n ← rlp_item_count accounts;
  if decide (n ≠ 2%nat) then Err (RlpCustom "Unknown access list length")
  else
    address ← val_at c_h160 accounts 0;
    storage_keys ← list_at c_h256 accounts 1;
    Ok (mkAccessListItem address storage_keys).

(** One component of the signature: a [U256] padded to 32 bytes for an
    Ethereum signature, the bytes themselves otherwise. *)
Definition decode_sig_part (r : item) (eth_tx_flag : bool) (i : nat) : outcome DecoderError bytes :=
  if eth_tx_flag then tmp ← val_at c_u256 r i; Ok (h256_bytes tmp)
  else val_at c_bytes r i.

Definition UnverifiedTransaction_decode (r : item) : outcome DecoderError UnverifiedTransaction :=
  n ← rlp_item_count r;
  if decide (n ≠ 12%nat) then Err RlpIncorrectListLen else
  chain_id ← val_at c_u64 r 0;
  nonce ← val_at c_u256 r 1;
  max_priority_fee_per_gas ← val_at c_u256 r 2;
  gas_price ← val_at c_u256 r 3;
  gas_limit ← val_at c_u256 r 4;
  action ← val_at c_action r 5;
  value ← val_at c_u256 r 6;
  data ← val_at c_bytes r 7;
  accl_rlp ← rlp_at r 8;
  cnt ← rlp_item_count accl_rlp;
  access_list ← traverse (decode_access accl_rlp) (seq 0 cnt);
  v ← val_at c_u8 r 9;
  let eth_tx_flag := v <=? 1 in
  r_ ← decode_sig_part r eth_tx_flag 10;
  s ← decode_sig_part r eth_tx_flag 10;
  utx_with_hash (mkUnverifiedTransaction
    (mkTransaction nonce max_priority_fee_per_gas gas_price gas_limit action value data access_list)
    (Some (mkSignatureComponents r_ s v)) chain_id 0).

Definition SignedTransaction_rlp_append (stx : SignedTransaction) : outcome DecoderError item :=
  t ← UnverifiedTransaction_rlp_append (stx_transaction stx);
  Ok (rlp_list [t; enc c_h160 (stx_sender stx); enc (c_option c_h512) (stx_public stx)]).
Definition SignedTransaction_decode (r : item) : outcome DecoderError SignedTransaction :=
  expect_list r 3 RlpInconsistentLengthAndData (
    t ← rlp_at r 0;
    transaction ← UnverifiedTransaction_decode t;
    sender ← val_at c_h160 r 1;
    public ← val_at (c_option c_h512) r 2;
    Ok (mkSignedTransaction transaction sender public)).

(** The bytes [ProtocolCodec] stores and sends for a signed transaction. *)
Definition SignedTransaction_encode (stx : SignedTransaction) : outcome DecoderError bytes :=
  i ← SignedTransaction_rlp_append stx; Ok (rlp_out i).
Definition SignedTransaction_decode_bytes (b : bytes) : outcome DecoderError SignedTransaction :=
  SignedTransaction_decode (rlp_new b).

(** A signature in the form the codec can carry: an Ethereum signature has
    32-byte components, any other one a [u8] tag above 1. *)
Definition sig_wf (sc : SignatureComponents) : Prop :=
  u8_ok (sig_standard_v sc) ∧
  (is_eth_sig sc = true → length (sig_r sc) = 32%nat ∧ length (sig_s sc) = 32%nat).

Definition stx_wf (stx : SignedTransaction) : Prop :=
  tx_wf (utx_unsigned (stx_transaction stx)) ∧ u64_ok (utx_chain_id (stx_transaction stx)) ∧
  h160_ok (stx_sender stx) ∧ opt_wf (in_width 512) (stx_public stx).

Definition validator_wf (v : Validator) : Prop :=
  u32_ok (v_propose_weight v) ∧ u32_ok (v_vote_weight v).
Definition txresp_wf (t : TxResp) : Prop :=
  u64_ok (tr_gas_used t) ∧ u64_ok (tr_remain_gas t) ∧ Forall log_wf (tr_logs t) ∧
  opt_wf h256_ok (tr_code_address t).
Definition context_wf (c : ExecutorContext) : Prop :=
  u256_ok (ec_block_number c) ∧ h256_ok (ec_block_hash c) ∧ h160_ok (ec_block_coinbase c) ∧
  u256_ok (ec_block_timestamp c) ∧ u256_ok (ec_chain_id c) ∧ u256_ok (ec_difficulty c) ∧
  h160_ok (ec_origin c) ∧ u256_ok (ec_gas_price c) ∧ u256_ok (ec_block_gas_limit c) ∧
  u256_ok (ec_block_base_fee_per_gas c) ∧ Forall log_wf (ec_logs c).

(** ** Lemmas *)
Lemma val_at_list {A} (P : A → Prop) (c : codec item A) l i a :
  l !! i = Some (enc c a) → lawful P c → P a → val_at c (rlp_list l) i = Ok a.
Proof. intros Hi Hc Ha. unfold val_at. rewrite (rlp_at_list _ _ _ Hi). by apply Hc. Qed.

Lemma list_at_list {A} (P : A → Prop) (c : codec item A) l i a :
  l !! i = Some (enc (c_vec c) a) → lawful P c → Forall P a → list_at c (rlp_list l) i = Ok a.
Proof. intros Hi Hc. apply (val_at_list (Forall P) (c_vec c) l i a Hi). by apply c_vec_ok. Qed.

Lemma expect_list_ok {A} l n e (k : outcome DecoderError A) :
  length l = n → expect_list (rlp_list l) n e k = k.
Proof.
  intros Hn. unfold expect_list. rewrite rlp_prototype_list. cbn. by rewrite decide_True.
Qed.

Lemma digest_range b : h256_ok (digest b).
Proof. destruct b; [by vm_compute|apply keccak_range]. Qed.

Lemma decode_encode_lawful {A} (P : A → Prop) (c : codec item A) a :
  lawful P c → P a → decode c (encode c a) = Ok a.
Proof. intros Hc Ha. unfold decode, encode. rewrite rlp_new_out. by apply Hc. Qed.

Lemma lawful_inj {A} (P : A → Prop) (c : codec item A) a b :
  lawful P c → P a → P b → encode c a = encode c b → a = b.
Proof.
  intros Hc Ha Hb E. apply (f_equal (decode c)) in E.
  rewrite !(decode_encode_lawful P) in E by done. by injection E.
Qed.

End codecs.

#[export] Hint Resolve c_u8_ok c_u32_ok c_u64_ok c_u256_ok c_h64_ok c_h160_ok c_h256_ok c_h512_ok
  c_bloom_ok c_bytes_ok c_action_ok c_log_ok c_option_ok c_vec_ok : codec.

(** Reads the next field of a list the stream has just been built from. *)
Ltac next_field :=
  first
    [ erewrite val_at_list; [| reflexivity | by eauto with codec | first [exact I | done]]
    | erewrite list_at_list; [| reflexivity | by eauto with codec | done] ];
  cbn [mbind outcome_bind].

(** [wf a → dec (enc a) = Ok a] for a codec that appends one field per
    projection and reads them back in order. *)
Tactic Notation "solve_codec" reference(wf) reference(c) reference(app) reference(d) :=
  intros a Hwf; unfold wf in Hwf; destruct_and?; unfold c; cbn [enc dec]; unfold app, d;
  rewrite expect_list_ok by done;
  repeat next_field; try (by destruct a).

Section lawful_codecs.
Context `{R : Rlp} `{K : Keccak}.

Lemma Proof_lawful : lawful proof_wf Proof_codec.
Proof. solve_codec proof_wf Proof_codec Proof_rlp_append Proof_decode. Qed.
#[local] Hint Resolve Proof_lawful : codec.

Lemma Proposal_lawful : lawful proposal_wf Proposal_codec.
Proof. solve_codec proposal_wf Proposal_codec Proposal_rlp_append Proposal_decode. Qed.

Lemma Header_lawful : lawful header_wf Header_codec.
Proof. solve_codec header_wf Header_codec Header_rlp_append Header_decode. Qed.
#[local] Hint Resolve Header_lawful : codec.

Lemma Block_lawful : lawful block_wf Block_codec.
Proof. solve_codec block_wf Block_codec Block_rlp_append Block_decode. Qed.

Lemma Validator_lawful : lawful validator_wf Validator_codec.
Proof. solve_codec validator_wf Validator_codec Validator_rlp_append Validator_decode. Qed.

Lemma ExecutorContext_lawful : lawful context_wf ExecutorContext_codec.
Proof. solve_codec context_wf ExecutorContext_codec ExecutorContext_rlp_append ExecutorContext_decode. Qed.

Lemma exit_reason_of_serialize r msg : exit_reason_of (bincode_serialize r) msg = Ok r.
Proof. unfold exit_reason_of. by rewrite bincode_roundtrip. Qed.

Lemma Receipt_lawful : lawful receipt_wf Receipt_codec.
Proof.
  solve_codec receipt_wf Receipt_codec Receipt_rlp_append Receipt_decode.
  rewrite exit_reason_of_serialize. by destruct a.
Qed.

Lemma TxResp_lawful : lawful txresp_wf TxResp_codec.
Proof.
  solve_codec txresp_wf TxResp_codec TxResp_rlp_append TxResp_decode.
  rewrite exit_reason_of_serialize. cbn [mbind outcome_bind]. repeat next_field. by destruct a.
Qed.

Lemma access_lawful l :
  Forall access_wf l →
  traverse (decode_access (rlp_list (map access_rlp_append l)))
    (seq 0 (length (map access_rlp_append l))) = Ok l.
Proof.
  intros Hwf. rewrite length_map. apply traverse_seq. intros i x Hx. cbn [Nat.add].
  unfold decode_access. erewrite rlp_at_list by (rewrite list_lookup_fmap, Hx; reflexivity).
  cbn [mbind outcome_bind]. unfold access_rlp_append. rewrite rlp_item_count_list.
  cbn [mbind outcome_bind length]. rewrite decide_False by lia.
  eapply Forall_lookup_1 in Hwf as [Ha Hk]; [|done].
  next_field. rewrite <-c_vec_append_list. next_field. by destruct x.
Qed.

Lemma sig_part_eth sc i l :
  length (sig_r sc) = 32%nat → l !! i = Some (enc c_u256 (from_be_bytes (take 32 (sig_r sc)))) →
  decode_sig_part (rlp_list l) true i = Ok (sig_r sc).
Proof.
  intros Hlen Hi. unfold decode_sig_part. rewrite take_ge in Hi by lia.
  erewrite val_at_list; [|exact Hi|apply c_u256_ok|].
  - cbn [mbind outcome_bind]. unfold h256_bytes. f_equal. rewrite <-Hlen. apply to_from_be_bytes.
  - pose proof (from_be_bytes_range (sig_r sc)) as Hr. rewrite Hlen in Hr. exact Hr.
Qed.

(** The signature a decoded transaction carries: both components are read
    from field 10. *)
Definition decoded_sig (sc : SignatureComponents) : SignatureComponents :=
  mkSignatureComponents (sig_r sc) (sig_r sc) (sig_standard_v sc).

Lemma utx_decode_append utx sc i :
  tx_wf (utx_unsigned utx) → u64_ok (utx_chain_id utx) →
  utx_signature utx = Some sc → sig_wf sc →
  UnverifiedTransaction_rlp_append utx = Ok i →
  UnverifiedTransaction_decode i =
    utx_with_hash (mkUnverifiedTransaction (utx_unsigned utx) (Some (decoded_sig sc))
                     (utx_chain_id utx) 0).
Proof.
  intros Hwf Hchain Hsig [Hv Heth]. unfold UnverifiedTransaction_rlp_append. rewrite Hsig.
  destruct (SignatureComponents_rlp_append sc) as [si| |] eqn:Hsi; try done.
  intros [= <-]. unfold SignatureComponents_rlp_append in Hsi.
  destruct Hwf as (?&?&?&?&?&?&?).
  assert (∃ a b, si = [enc c_u8 (sig_standard_v sc); a; b] ∧
    ∀ l, (l ++ si) !! S (length l) = Some a →
         decode_sig_part (rlp_list (l ++ si)) (sig_standard_v sc <=? 1) (S (length l))
           = Ok (sig_r sc)) as (a & b & -> & Hpart).
  { unfold is_eth_sig in *. destruct (sig_standard_v sc <=? 1) eqn:Hf.
    - destruct (Heth eq_refl) as [Hr Hs]. unfold u256_from_32 in Hsi.
      rewrite !decide_False in Hsi by lia. cbn [mbind outcome_bind] in Hsi. injection Hsi as <-.
      eexists _, _. split; [done|]. intros l Hl. by apply sig_part_eth.
    - injection Hsi as <-. eexists _, _. split; [done|]. intros l Hl. unfold decode_sig_part.
      erewrite val_at_list; [done|exact Hl|apply c_bytes_ok|done]. }
  clear Hsi. unfold UnverifiedTransaction_decode. rewrite rlp_item_count_list.
  cbn [mbind outcome_bind length app]. rewrite decide_False by lia.
  do 8 next_field. erewrite rlp_at_list by reflexivity. cbn [mbind outcome_bind].
  rewrite rlp_item_count_list. cbn [mbind outcome_bind]. rewrite access_lawful by done.
  cbn [mbind outcome_bind]. next_field.
  match goal with |- context [rlp_list (?x0 :: ?x1 :: ?x2 :: ?x3 :: ?x4 :: ?x5 :: ?x6 :: ?x7 :: ?x8 :: _)] =>
    pose proof (Hpart [x0; x1; x2; x3; x4; x5; x6; x7; x8] eq_refl) as Hp end.
  cbn [app length] in Hp. rewrite Hp. cbn [mbind outcome_bind]. by destruct (utx_unsigned utx).
Qed.
End lawful_codecs.
