(* ===== verification/RlpInstance.v ===== *)
(** * A concrete instance of the external codec and digest interfaces

    [tree_rlp] discharges class [Rlp] with item trees and a bit serialisation
    of them, and [toy_keccak] discharges class [Keccak]: the laws the codecs
    assume of the external crates are satisfiable together, and a theorem over
    the classes can be run on concrete data.  Neither stands for the crates. *)

From S2P Require Import Prelude Types Codec.

Local Open Scope Z_scope.

Abbreviation tree := (gen_tree bytes).
Definition t_str (b : bytes) : tree := GenLeaf b.
Definition t_list (l : list tree) : tree := GenNode 0 l.

(** A positive as a string of bit bytes, and back. *)
Fixpoint pos_to_bytes (p : positive) : bytes :=
  match p with
  | xH => []
  | xO p => x00 :: pos_to_bytes p
  | xI p => x01 :: pos_to_bytes p
  end.
Fixpoint bytes_to_pos (b : bytes) : positive :=
  match b with
  | [] => xH
  | x00 :: b => xO (bytes_to_pos b)
  | _ :: b => xI (bytes_to_pos b)
  end.

Lemma bytes_to_pos_to_bytes p : bytes_to_pos (pos_to_bytes p) = p.
Proof. induction p; cbn; by rewrite ?IHp. Qed.

(** Any countable type as a string item. *)
Definition str_codec {A} `{Countable A} : codec tree A := {|
  enc a := t_str (pos_to_bytes (countable.encode a));
  dec i := match i with
           | GenLeaf b => match countable.decode (bytes_to_pos b) with
                          | Some a => Ok a
                          | None => Err (RlpCrate 0)
                          end
           | GenNode _ _ => Err (RlpCrate 1)
           end |}.

Lemma str_codec_lawful {A} `{Countable A} (P : A → Prop) : lawful P (str_codec (A:=A)).
Proof. intros a _. cbn. by rewrite bytes_to_pos_to_bytes, countable.decode_encode. Qed.

Definition t_option {A} (c : codec tree A) : codec tree (option A) := {|
  enc o := t_list (match o with Some a => [enc c a] | None => [] end);
  dec i := match i with
           | GenNode _ [] => Ok None
           | GenNode _ [x] => Some <$> dec c x
           | _ => Err (RlpCrate 2)
           end |}.

Definition t_vec {A} (c : codec tree A) : codec tree (list A) := {|
  enc l := t_list (map (enc c) l);
  dec i := match i with
           | GenNode _ l => traverse (dec c) l
           | _ => Err (RlpCrate 3)
           end |}.

Definition t_prototype (i : tree) : outcome DecoderError Prototype :=
  match i with GenNode _ l => Ok (PList (length l)) | GenLeaf b => Ok (PData (length b)) end.
Definition t_item_count (i : tree) : outcome DecoderError nat :=
  match i with GenNode _ l => Ok (length l) | GenLeaf _ => Err RlpExpectedToBeList end.
Definition t_at (i : tree) (n : nat) : outcome DecoderError tree :=
  match i with
  | GenNode _ l => match l !! n with Some x => Ok x | None => Err (RlpCrate 4) end
  | GenLeaf _ => Err RlpExpectedToBeList
  end.
Definition t_out (i : tree) : bytes := repeat xc0 33 ++ pos_to_bytes (countable.encode i).
Definition t_new (b : bytes) : tree := default (t_str []) (countable.decode (bytes_to_pos (drop 33 b))).

#[global] Instance action_countable : Countable TransactionAction.
Proof.
  refine (inj_countable' (λ a, match a with Call to => Some to | Create => None end)
            (λ o, match o with Some to => Call to | None => Create end) _).
  by intros [].
Defined.

#[global] Instance Log_eq_dec : EqDecision Log.
Proof. solve_decision. Defined.
#[global] Instance Log_countable : Countable Log.
Proof.
  refine (inj_countable' (λ l, (log_address l, log_topics l, log_data l))
            (λ '(a, t, d), mkLog a t d) _).
  by intros [].
Defined.

#[global] Instance Account_eq_dec : EqDecision Account.
Proof. solve_decision. Defined.
#[global] Instance Account_countable : Countable Account.
Proof.
  refine (inj_countable' (λ a, (acc_nonce a, acc_balance a, acc_storage_root a, acc_code_hash a))
            (λ '(n, b, s, c), mkAccount n b s c) _).
  by intros [].
Defined.

#[global] Instance ExitSucceed_eq_dec : EqDecision ExitSucceed.
Proof. solve_decision. Defined.
#[global] Instance ExitRevert_eq_dec : EqDecision ExitRevert.
Proof. solve_decision. Defined.
#[global] Instance ExitError_eq_dec : EqDecision ExitError.
Proof. solve_decision. Defined.
#[global] Instance ExitReason_eq_dec : EqDecision ExitReason.
Proof. solve_decision. Defined.
#[global] Instance ExitReason_countable : Countable ExitReason.
Proof.
  refine (inj_countable'
    (λ r, match r with
          | Succeed Stopped => (0, 0, ""%string)
          | Succeed Returned => (0, 1, ""%string)
          | Succeed Suicided => (0, 2, ""%string)
          | Error OutOfGas => (1, 0, ""%string)
          | Error (Other m) => (2, 0, m)
          | Error (EvmError c) => (3, c, ""%string)
          | Revert Reverted => (4, 0, ""%string)
          | Fatal c => (5, c, ""%string)
          end)
    (λ '(t, c, m),
       if t =? 0 then Succeed (if c =? 0 then Stopped else if c =? 1 then Returned else Suicided)
       else if t =? 1 then Error OutOfGas
       else if t =? 2 then Error (Other m)
       else if t =? 3 then Error (EvmError c)
       else if t =? 4 then Revert Reverted
       else Fatal c) _).
  by intros [[]|[]|[]|].
Defined.

Definition t_exit_enc (r : ExitReason) : bytes := pos_to_bytes (countable.encode r).
Definition t_exit_dec (b : bytes) : option ExitReason := countable.decode (bytes_to_pos b).

#[global] Instance tree_rlp : Rlp.
Proof.
  refine {|
    item := tree; rlp_list := t_list; rlp_prototype := t_prototype;
    rlp_item_count := t_item_count; rlp_at := t_at; rlp_out := t_out; rlp_new := t_new;
    c_u8 := str_codec; c_u32 := str_codec; c_u64 := str_codec; c_u256 := str_codec;
    c_h64 := str_codec; c_h160 := str_codec; c_h256 := str_codec; c_h512 := str_codec;
    c_bloom := str_codec; c_bytes := str_codec; c_option := @t_option; c_vec := @t_vec;
    c_action := str_codec; c_log := str_codec; c_account := str_codec;
    bincode_serialize := t_exit_enc; bincode_deserialize := t_exit_dec |};
    try apply str_codec_lawful; try done.
  - intros l i x Hx. unfold t_at, t_list. by rewrite Hx.
  - intros i. unfold t_new, t_out. rewrite drop_app_length' by done. by rewrite bytes_to_pos_to_bytes, countable.decode_encode.
  - intros A P c Hc [a|] Ha; cbn; [by rewrite Hc|done].
  - intros A P c Hc l Hl. cbn. induction Hl as [|x l Hx Hl IH]; cbn; [done|].
    rewrite Hc by done. cbn. by rewrite IH.
  - intros x. cbn [enc]. unfold t_out. rewrite length_app, repeat_length. lia.
  - intros r. unfold t_exit_dec, t_exit_enc. by rewrite bytes_to_pos_to_bytes, countable.decode_encode.
Defined.

#[global] Instance toy_keccak : Keccak.
Proof.
  refine {| keccak b := Z.of_nat (length b) mod 2 ^ 256 |}.
  intros b. apply Z.mod_pos_bound. lia.
Defined.
