(* ===== verification/CodecProps.v ===== *)
(** * Properties of the codecs

    What the [Encodable]/[Decodable] pairs of [protocol/src/codec] guarantee:
    blocks, proposals, receipts and executor data survive encoding, encodings
    are injective, and what a signed transaction becomes when it is decoded. *)

From S2P Require Import Prelude Types Codec RlpInstance.

Local Open Scope Z_scope.

(** ** Sample data for the witnesses *)
Definition sample_proof : Proof := mkProof 4 0 77 [x01; x02] [xff].
Definition sample_header : Header :=
  mkHeader 11 12 13 14 15 16 17 1 1000 5 21000 30000 [xab] (Some 18) 0 1337 sample_proof 0 7.
Definition sample_block : Block := mkBlock sample_header [101; 102].
Definition sample_receipt : Receipt :=
  mkReceipt 101 5 55 0 13 21000 17 [mkLog 3 [4; 5] [x06]] (Some 9) 12 (Succeed Returned).
Definition sample_tx : Transaction :=
  mkTransaction 1 2 3 21000 (Call 99) 10 [xaa] [mkAccessListItem 4 [5; 6]].
Definition sample_sig (s : byte) : SignatureComponents :=
  mkSignatureComponents (repeat x01 32) (repeat s 32) 1.
Definition sample_utx (s : byte) : UnverifiedTransaction :=
  match utx_with_hash (mkUnverifiedTransaction sample_tx (Some (sample_sig s)) 5 0) with
  | Ok t => t
  | _ => mkUnverifiedTransaction sample_tx (Some (sample_sig s)) 5 0
  end.
Definition sample_stx (s : byte) : SignedTransaction :=
  mkSignedTransaction (sample_utx s) 12 (Some 88).

(** ** Properties *)

(** C28: encoding a well-formed signed transaction succeeds, and decoding the
    bytes gives the transaction back exactly when the two components [r] and
    [s] of its signature are equal, because the decoder reads both from field
    10 of the list. *)
Theorem signed_tx_roundtrip_iff `{R : Rlp} `{K : Keccak} (stx : SignedTransaction)
    (sc : SignatureComponents) :
  stx_wf stx → utx_signature (stx_transaction stx) = Some sc → sig_wf sc →
  check_hash (stx_transaction stx) = Ok true →
  ∃ b, SignedTransaction_encode stx = Ok b ∧
       (SignedTransaction_decode_bytes b = Ok stx ↔ sig_r sc = sig_s sc).
Proof.
  intros (Htx & Hc & Hs & Hp) Hsig Hsc Hhash.
  unfold check_hash, UnverifiedTransaction_rlp_bytes in Hhash.
  unfold SignedTransaction_encode, SignedTransaction_rlp_append.
  destruct (UnverifiedTransaction_rlp_append (stx_transaction stx)) as [i| |] eqn:Hi; try done.
  cbn [mbind outcome_bind] in *. injection Hhash as Hhash%Z.eqb_eq.
  eexists. split; [reflexivity|]. unfold SignedTransaction_decode_bytes.
  rewrite rlp_new_out. unfold SignedTransaction_decode. rewrite expect_list_ok by done.
  erewrite rlp_at_list by reflexivity. cbn [mbind outcome_bind].
  erewrite utx_decode_append by done. split.
  - destruct (utx_with_hash _) as [t| |] eqn:Ht; try done. cbn [mbind outcome_bind].
    repeat next_field. intros [= E]. unfold utx_with_hash in Ht.
    destruct (UnverifiedTransaction_rlp_bytes _); try done. cbn [mbind outcome_bind] in Ht.
    injection Ht as <-. rewrite <-E in Hsig. cbn in Hsig. injection Hsig as <-. done.
  - intros Hrs. assert (decoded_sig sc = sc) as -> by (unfold decoded_sig; destruct sc; cbn in *; by subst).
    rewrite <-Hsig. unfold utx_with_hash, UnverifiedTransaction_rlp_bytes.
    unfold UnverifiedTransaction_rlp_append in Hi |- *. cbn [utx_signature utx_unsigned utx_chain_id].
    rewrite Hi. cbn [mbind outcome_bind]. repeat next_field. rewrite (Hhash : digest (x02 :: rlp_out i) = _).
    by destruct stx as [[] ? ?].
Qed.

Lemma signed_tx_roundtrip_iff_witness :
  (∃ b, SignedTransaction_encode (sample_stx x02) = Ok b ∧
        SignedTransaction_decode_bytes b ≠ Ok (sample_stx x02)) ∧
  (∃ b, SignedTransaction_encode (sample_stx x01) = Ok b ∧
        SignedTransaction_decode_bytes b = Ok (sample_stx x01)).
Proof.
  split.
  - destruct (signed_tx_roundtrip_iff (sample_stx x02) (sample_sig x02)) as (b & Hb & Hiff);
      [by repeat constructor|vm_compute; reflexivity|by split|vm_compute; reflexivity|].
    exists b. split; [exact Hb|]. intros E. apply Hiff in E. discriminate E.
  - destruct (signed_tx_roundtrip_iff (sample_stx x01) (sample_sig x01)) as (b & Hb & Hiff);
      [by repeat constructor|vm_compute; reflexivity|by split|vm_compute; reflexivity|].
    exists b. split; [exact Hb|]. by apply Hiff.
Defined.

(** C14: a block whose fields have their Rust widths is what [Block::decode]
    returns on the bytes of [Block::encode], header, proof and hashes
    included. *)
Theorem block_codec_roundtrip `{R : Rlp} (b : Block) :
  block_wf b → decode Block_codec (encode Block_codec b) = Ok b.
Proof. apply decode_encode_lawful, Block_lawful. Qed.

Lemma block_codec_roundtrip_witness :
  decode Block_codec (encode Block_codec sample_block) = Ok sample_block.
Proof. apply block_codec_roundtrip. by repeat constructor. Defined.

(** Two well-formed proposals with the same encoding are the same
    proposal: the bytes the block hash is taken of determine the proposal. *)
Theorem proposal_encode_injective `{R : Rlp} (p q : Proposal) :
  proposal_wf p → proposal_wf q →
  encode Proposal_codec p = encode Proposal_codec q → p = q.
Proof. apply lawful_inj, Proposal_lawful. Qed.

Lemma proposal_encode_injective_witness :
  encode Proposal_codec (Proposal_from_Block sample_block) ≠
  encode Proposal_codec (Proposal_from_Header sample_header).
Proof.
  intros E. apply proposal_encode_injective in E; [discriminate E|by repeat constructor..].
Defined.

(** A receipt survives storage: exit reason, logs, bloom and code address
    are the ones that were encoded. *)
Theorem receipt_codec_roundtrip `{R : Rlp} (r : Receipt) :
  receipt_wf r → decode Receipt_codec (encode Receipt_codec r) = Ok r.
Proof. apply decode_encode_lawful, Receipt_lawful. Qed.

Lemma receipt_codec_roundtrip_witness :
  decode Receipt_codec (encode Receipt_codec sample_receipt) = Ok sample_receipt.
Proof. apply receipt_codec_roundtrip. by repeat constructor. Defined.
