(* ===== verification/Traits.v ===== *)
(** * Errors and traits

    The error enums of the modelled crates and [ProtocolError], the kind-tagged
    box they are converted into; display strings are not modelled, and a payload
    that only serves display is kept where a theorem speaks about it.  The
    interfaces of [protocol/src/traits] between the components: the context
    values, peer feedback, [Storage], [MetadataControl] and [Interoperation].  A
    trait is a class over the implementor's state; the components are written
    against the classes, the implementations are their instances. *)

From S2P Require Import Prelude Types Codec.

Local Open Scope Z_scope.

(** [core/mempool/src/lib.rs] *)
Inductive MemPoolError : Type :=
| ExceedSizeLimit (tx_hash : Hash) (max_tx_size size : Z)
| ExceedGasLimit (tx_hash : Hash) (gas_limit_config gas_limit_tx : Z)
| InvalidNonce (current tx_nonce : Z)
| Insert (h : Hash)
| ReachLimit (n : Z)
| Dup (h : Hash)
| EnsureBreak (require response : Z)
| EnsureDup (h : Hash)
| MisMatch (require response : Z)
| InsertCandidate (n : Z)
| CheckAuthorization (tx_hash : Hash) (err_info : string)
| CheckHash (expect actual : Hash)
| CommittedTx (h : Hash)
| WrongChain (h : Hash)
| Timeout (tx_hash : Hash) (timeout : Z)
| InvalidTimeout (h : Hash)
| VerifyBatchTransactions
| EncodeJson.

(** [core/mempool/src/adapter/mod.rs] *)
Inductive AdapterError : Type :=
| IntervalBroadcasterDrop
| Internal
| VerifySignature (msg : string).

(** [core/storage/src/lib.rs] *)
Inductive StorageError : Type := GetNone | BatchDecode.
(** [core/storage/src/adapter/memory.rs], [rocks.rs] *)
Inductive StorageAdapterError : Type :=
| BatchLengthMismatch
| CategoryNotFound (name : string)
| RocksDBError (code : Z).

(** [core/consensus/src/lib.rs] *)
Inductive ConsensusType : Type :=
| CT_SignedProposal | CT_SignedVote | CT_AggregateVote | CT_RichHeight
| CT_RpcPullBlocks | CT_RpcPullTxs | CT_SignedChoke | CT_WALSignedTxs.

Inductive BlockHeaderField : Type :=
| PreviousBlockHash | ProofHash | BHF_Proposer | BHF_Validator | BHF_Weight.

Inductive BlockProofField : Type :=
| BitMap | BPF_Signature | HeightMismatch (block proof : Z) | HashMismatch
| BPF_Validator | BPF_Weight | WeightNotFound.

Inductive ConsensusError : Type :=
| InvalidPrevhash (expect actual : Hash)
| InvalidOrderRoot (expect actual : MerkleRoot)
| InvalidStateRoot (expect actual : MerkleRoot)
| InvalidReceiptsRoot (expect actual : MerkleRoot)
| InvalidOrderSignedTransactionsHash (expect actual : Hash)
| InvalidStatusVec
| DecodeErr (t : ConsensusType)
| EncodeErr (t : ConsensusType)
| OverlordErr
| InvalidProof (expect actual : Z)
| MissingPill (h : Hash)
| InvalidTimestamp
| MissingBlockHeader (n : Z)
| CryptoErr
| VerifyTransaction (number : Z)
| VerifyBlockHeader (number : Z) (field : BlockHeaderField)
| VerifyProof (number : Z) (field : BlockProofField)
| ExecuteErr
| WALErr
| CE_CallEvm (r : ExitReason)
| StorageItemNotFound
| LockInSync
| WalTxsMismatch (n : Z)
| OutdatedCommit (block_height last_committed_height : Z)
| CE_Other (msg : string)
| SystemTime
| FileNameTimestamp
| ConsensusWalDirNotExist
| ConsensusWalNoWalFile
| ConfusedMetadata (start stop : Z).

(** [core/metadata/src/lib.rs] *)
Inductive MetadataError : Type := AbiDecode | InvalidTokenType | CallEvm (r : ExitReason).

(** [core/interoperation/src/lib.rs] *)
Inductive InteroperationError : Type :=
| InvalidSignatureType (v : Z)
| MissingSignature
| GetProgram (code_hash : Hash)
| CkbVM (code : Z)
| GetCryptoCodeHash (name : string).

(** [protocol/src/types/mod.rs] *)
Inductive TypesError : Type :=
| LengthMismatch (expect real : Z)
| FromHex
| InvalidAddress (address : string)
| HexPrefix
| InvalidPublicKey
| InvalidCheckSum
| Unsigned
| Crypto.

(** [core/api/src/lib.rs]; of a formatted message the text before its values *)
Inductive APIError : Type :=
| API_Adapter (msg : string)
| HttpServer (msg : string)
| WebSocketServer (msg : string)
| API_Storage (msg : string)
| RequestPayload (msg : string).

(** [core/run/src/lib.rs]; the errors of other crates it wraps stay out *)
Inductive MainError : Type :=
| ConfigParse
| Main_Io
| GenesisTomlDe
| Main_Crypto
| Main_Utf8
| JSONParse
| Main_Other (msg : string).

(** [io::ErrorKind] of the failures of [core/rpc-client] *)
Inductive CkbClientError : Type := ConnectionAborted | InvalidData.

(** [ProtocolError]: the kind is the constructor, the box its payload.  The
    network's errors stay abstract. *)
Inductive ProtocolError : Type :=
| PE_Mempool (e : MemPoolError)
| PE_MempoolAdapter (e : AdapterError)
| PE_Storage (e : StorageError)
| PE_StorageAdapter (e : StorageAdapterError)
| PE_Consensus (e : ConsensusError)
| PE_Contract (e : MetadataError)
| PE_Interoperation (e : InteroperationError)
| PE_Types (e : TypesError)
| PE_Codec (e : DecoderError)
| PE_API (e : APIError)
| PE_Executor (code : Z)
| PE_Network (code : Z)
| PE_Main (e : MainError)
| PE_CkbClient (e : CkbClientError).

Abbreviation ProtocolResult := (outcome ProtocolError).

(** [creep::Context]: values by name *)
Abbreviation Context := (gmap string Z).

(** [traits/network.rs] *)
Inductive TrustFeedback : Type :=
| TrustFatal (msg : string)
| Worse (msg : string)
| Bad (msg : string)
| Neutral
| Good.

(** [traits/storage.rs]: [CommonStorage] and [Storage] *)
Class Storage (St : Type) := {
  st_insert_block : Context → Block → M St ProtocolError unit;
  st_get_block : Context → Z → M St ProtocolError (option Block);
  st_get_block_header : Context → Z → M St ProtocolError (option Header);
  st_set_block : Context → Block → M St ProtocolError unit;
  st_remove_block : Context → Z → M St ProtocolError unit;
  st_get_latest_block : Context → M St ProtocolError Block;
  st_set_latest_block : Context → Block → M St ProtocolError unit;
  st_get_latest_block_header : Context → M St ProtocolError Header;
  st_insert_transactions : Context → Z → list SignedTransaction → M St ProtocolError unit;
  st_get_block_by_hash : Context → Hash → M St ProtocolError (option Block);
  st_get_transactions :
    Context → Z → list Hash → M St ProtocolError (list (option SignedTransaction));
  st_get_transaction_by_hash : Context → Hash → M St ProtocolError (option SignedTransaction);
  st_insert_receipts : Context → Z → list Receipt → M St ProtocolError unit;
  st_insert_code : Context → H256 → Hash → bytes → M St ProtocolError unit;
  st_get_code_by_hash : Context → Hash → M St ProtocolError (option bytes);
  st_get_code_by_address : Context → H256 → M St ProtocolError (option bytes);
  st_get_receipt_by_hash : Context → Hash → M St ProtocolError (option Receipt);
  st_get_receipts : Context → Z → list Hash → M St ProtocolError (list (option Receipt));
  st_update_latest_proof : Context → Proof → M St ProtocolError unit;
  st_get_latest_proof : Context → M St ProtocolError Proof
}.

(** [traits/metadata.rs] *)
Class MetadataControl (Mt : Type) := {
  mc_calc_epoch : Mt → Z → ProtocolResult Z;
  mc_need_change_metadata : Mt → Z → ProtocolResult bool;
  mc_update_metadata : Context → Header → M Mt ProtocolError unit;
  mc_get_metadata : Context → Header → M Mt ProtocolError Metadata;
  mc_get_metadata_unchecked : Context → Z → M Mt ProtocolError Metadata
}.

(** [types/interoperation.rs] *)
Record VMResp := mkVMResp { vm_exit_code : Z; vm_cycles : Z }.

(** [traits/interoperation.rs] *)
Class Interoperation := {
  verify_external_signature : Context → SignedTransaction → ProtocolResult unit;
  call_ckb_vm : Context → H256 → list bytes → Z → ProtocolResult VMResp
}.
