(* ===== verification/Heap.v ===== *)
(** * [std::collections::BinaryHeap]

    The array heap of the Rust standard library, as far as the transaction
    pool uses it: [push] (append, then [sift_up]), [iter] and [drain], which
    hand out the array in storage order.  The comparison is a parameter. *)

From S2P Require Import Prelude.

Section heap.
Context {A : Type} (le : A → A → bool).

Definition parent (pos : nat) : nat := (pos - 1) / 2.

(** [Hole::move_to]: the element at the hole and the one at [j] trade places. *)
Definition swap (l : list A) (i j : nat) : list A :=
  match l !! i, l !! j with
  | Some x, Some y => <[j := x]> (<[i := y]> l)
  | _, _ => l
  end.

(** [sift_up(0, pos)]; a position is halved at each turn, so [pos] turns are
    enough. *)
Fixpoint sift_up_fuel (fuel : nat) (l : list A) (pos : nat) : list A :=
  match fuel with
  | O => l
  | S fuel' =>
      if decide (pos = 0) then l else
      match l !! pos, l !! parent pos with
      | Some x, Some p =>
          if le x p then l else sift_up_fuel fuel' (swap l pos (parent pos)) (parent pos)
      | _, _ => l
      end
  end.
Definition sift_up (l : list A) (pos : nat) : list A := sift_up_fuel pos l pos.

(** [BinaryHeap::push] *)
Definition heap_push (l : list A) (x : A) : list A := sift_up (l ++ [x]) (length l).

(** Every element is below its parent. *)
Definition heap_ordered (l : list A) : Prop :=
  ∀ i x p, i ≠ 0 → l !! i = Some x → l !! parent i = Some p → le x p = true.

(** ** Lemmas *)
Lemma parent_lt pos : pos ≠ 0 → parent pos < pos.
Proof. intros. unfold parent. pose proof (Nat.Div0.div_le_upper_bound (pos - 1) 2 (pos - 1)). lia. Qed.

Lemma swap_lookup l i j k x y :
  l !! i = Some x → l !! j = Some y →
  swap l i j !! k = if decide (k = j) then Some x else if decide (k = i) then Some y else l !! k.
Proof.
  intros Hi Hj. unfold swap. rewrite Hi, Hj.
  apply lookup_lt_Some in Hi as Hil. apply lookup_lt_Some in Hj as Hjl.
  destruct (decide (k = j)) as [->|Hkj].
  - by rewrite list_lookup_insert_eq by (rewrite length_insert; lia).
  - rewrite list_lookup_insert_ne by done. case_decide; subst.
    + by rewrite list_lookup_insert_eq.
    + by rewrite list_lookup_insert_ne.
Qed.

Lemma length_swap l i j : length (swap l i j) = length l.
Proof. unfold swap. repeat case_match; by rewrite ?length_insert. Qed.

Lemma swap_Permutation l i j : swap l i j ≡ₚ l.
Proof.
  destruct (l !! i) as [x|] eqn:Hi; [|unfold swap; by rewrite Hi].
  destruct (l !! j) as [y|] eqn:Hj; [|unfold swap; by rewrite Hi, Hj].
  apply Permutation_inj. split; [apply length_swap|].
  exists (λ k, if decide (k = i) then j else if decide (k = j) then i else k). split.
  - intros a b. cbv beta. repeat case_decide; intros; lia.
  - intros k. rewrite (swap_lookup _ _ _ _ x y) by done. repeat case_decide; subst; congruence.
Qed.

Lemma sift_up_fuel_Permutation fuel l pos : sift_up_fuel fuel l pos ≡ₚ l.
Proof.
  revert l pos. induction fuel as [|fuel IH]; intros l pos; [done|]. cbn [sift_up_fuel].
  case_decide; [done|]. destruct (l !! pos); [|done]. destruct (l !! parent pos); [|done].
  case_match; [done|]. by rewrite IH, swap_Permutation.
Qed.

Lemma heap_push_Permutation l x : heap_push l x ≡ₚ x :: l.
Proof. unfold heap_push, sift_up. rewrite sift_up_fuel_Permutation. by rewrite Permutation_app_comm. Qed.

Lemma fold_push_Permutation xs l : fold_left heap_push xs l ≡ₚ xs ++ l.
Proof.
  revert l. induction xs as [|x xs IH]; intros l; cbn; [done|].
  rewrite IH, heap_push_Permutation. symmetry. apply Permutation_middle.
Qed.

(** *** The heap order *)
Context (le_total : ∀ x y, le x y = false → le y x = true).
Context (le_trans : ∀ x y z, le x y = true → le y z = true → le x z = true).

(** Ordered but for the element at [pos], whose children are below its
    parent. *)
Definition ordered_but (l : list A) (pos : nat) : Prop :=
  (∀ i x p, i ≠ 0 → i ≠ pos → l !! i = Some x → l !! parent i = Some p → le x p = true) ∧
  (∀ i x g, i ≠ 0 → parent i = pos → pos ≠ 0 → l !! i = Some x → l !! parent pos = Some g →
     le x g = true).

Lemma ordered_but_swap l pos x p :
  ordered_but l pos → pos ≠ 0 → l !! pos = Some x → l !! parent pos = Some p → le x p = false →
  ordered_but (swap l pos (parent pos)) (parent pos).
Proof.
  intros [Hch Hgc] H0 Hx Hp Hlt. pose proof (parent_lt pos H0).
  apply le_total in Hlt. split.
  - intros i c q Hi0 Hip. rewrite !(swap_lookup _ _ _ _ x p) by done.
    pose proof (parent_lt i Hi0).
    rewrite (decide_False (P := i = _)) by done.
    destruct (decide (i = pos)) as [->|Hne]; [rewrite decide_True by done; congruence|].
    destruct (decide (parent i = parent pos)) as [E|?].
    { intros Hc [= <-]. eapply le_trans; [|exact Hlt]. eapply Hch; [..|done|]; try done. by rewrite E. }
    destruct (decide (parent i = pos)) as [E|?]; [|by apply Hch].
    intros Hc [= <-]. by eapply Hgc.
  - intros i c g Hi0 Hip Hpp. rewrite !(swap_lookup _ _ _ _ x p) by done.
    pose proof (parent_lt i Hi0). pose proof (parent_lt (parent pos) Hpp).
    rewrite (decide_False (P := i = _)), (decide_False (P := parent (parent pos) = _)) by lia.
    rewrite (decide_False (P := parent (parent pos) = pos)) by lia.
    intros Hc Hg. assert (le p g = true) by (by eapply (Hch (parent pos)); [|lia|..]).
    destruct (decide (i = pos)); [by simplify_eq|].
    eapply le_trans; [|done]. eapply Hch; [..|done|]; try done. by rewrite Hip.
Qed.

Lemma sift_up_ordered fuel l pos :
  pos ≤ fuel → ordered_but l pos → heap_ordered (sift_up_fuel fuel l pos).
Proof.
  revert l pos. induction fuel as [|fuel IH]; intros l pos Hf Hl.
  { intros i x q Hi. apply (proj1 Hl); lia. }
  cbn [sift_up_fuel]. destruct (decide (pos = 0)) as [->|H0]; [intros i x q Hi; by apply (proj1 Hl)|].
  pose proof (parent_lt pos H0).
  destruct (l !! pos) as [x|] eqn:Hx; [|intros i y q Hi Hy; apply (proj1 Hl); congruence].
  destruct (l !! parent pos) as [p|] eqn:Hp.
  2: { apply lookup_lt_Some in Hx. apply lookup_ge_None in Hp. lia. }
  destruct (le x p) eqn:Hle.
  - intros i y q Hi Hy Hq. destruct (decide (i = pos)) as [->|]; [congruence|]. by eapply (proj1 Hl).
  - apply IH; [lia|]. by eapply ordered_but_swap.
Qed.

Lemma heap_push_ordered l x : heap_ordered l → heap_ordered (heap_push l x).
Proof.
  intros Hl. apply sift_up_ordered; [done|]. split.
  - intros i y p Hi Hne Hy Hp. pose proof (parent_lt i Hi).
    apply lookup_lt_Some in Hy as Hlt. rewrite length_app in Hlt. cbn in Hlt.
    rewrite lookup_app_l in Hy, Hp by lia. by eapply Hl.
  - intros i y g Hi Hpar H0 Hy. pose proof (parent_lt i Hi).
    apply lookup_lt_Some in Hy. rewrite length_app in Hy. cbn in Hy. lia.
Qed.

Lemma fold_push_ordered xs l : heap_ordered l → heap_ordered (fold_left heap_push xs l).
Proof. revert l. induction xs as [|x xs IH]; intros l Hl; cbn; [done|]. by apply IH, heap_push_ordered. Qed.

(** The first element of the array is a greatest one. *)
Lemma heap_head_max l r i x :
  heap_ordered l → le r r = true → l !! 0 = Some r → l !! i = Some x → le x r = true.
Proof.
  intros Hl Hr H0. revert x. induction (lt_wf i) as [i _ IH]. intros x Hx.
  destruct (decide (i = 0)) as [->|Hi]; [congruence|]. pose proof (parent_lt i Hi) as Hlt.
  destruct (l !! parent i) as [p|] eqn:Hp.
  - eapply le_trans; [by eapply Hl|]. by eapply IH.
  - apply lookup_ge_None in Hp. apply lookup_lt_Some in Hx. lia.
Qed.

End heap.
