(* ===== verification/Pool.v ===== *)
(** * The transaction pool

    [core/mempool/src/pool.rs] and [tx_wrapper.rs].  A [TxPtr] is an [Arc] of a
    [TxDigest] shared by the queues and by [occupied_nonce], and [set_dropped]
    writes through it; the model keeps the digests in an arena and a pointer is
    an index of it, so the aliasing is the program's.  [DashMap] iteration order
    is that of [map_to_list], which no theorem depends on.  Each operation runs
    atomically; the background task that empties [co_queue] into [real_queue]
    is an operation of its own, to be interleaved with the others. *)

From S2P Require Import Prelude Types Codec Traits Heap.

Local Open Scope Z_scope.

(** ** [tx_wrapper.rs] *)
Record TxDigest := mkTxDigest {
  td_hash : Hash;
  td_gas_price : U256;
  td_nonce : U256;
  td_sender : H160;
  td_is_dropped : bool
}.

Abbreviation TxPtr := nat (only parsing).

(** [Ord for TxDigest] *)
Definition TxDigest_cmp (a b : TxDigest) : comparison :=
  if negb (td_gas_price a =? td_gas_price b) then td_gas_price a ?= td_gas_price b
  else match td_nonce a ?= td_nonce b with
       | Gt => Lt
       | Lt => Gt
       | Eq => Eq
       end.

(** [a <= b] through [PartialOrd] *)
Definition TxDigest_le (a b : TxDigest) : bool :=
  match TxDigest_cmp a b with Gt => false | _ => true end.

(** [From<&SignedTransaction> for TxDigest] *)
Definition TxDigest_from (stx : SignedTransaction) : TxDigest := {|
  td_hash := stx_hash stx;
  td_gas_price := stx_gas_price stx;
  td_nonce := stx_nonce stx;
  td_sender := stx_sender stx;
  td_is_dropped := false |}.

Definition set_dropped (d : TxDigest) : TxDigest :=
  mkTxDigest (td_hash d) (td_gas_price d) (td_nonce d) (td_sender d) true.

(** ** System script bucket *)
Record SystemScriptTxBucket := mkBucket {
  hash_data_map : gmap Hash bytes;
  tx_buckets : gmap bytes (gmap Hash SignedTransaction)
}.

Definition bucket_new : SystemScriptTxBucket := mkBucket ∅ ∅.

Definition bucket_insert (b : SystemScriptTxBucket) (stx : SignedTransaction)
    : SystemScriptTxBucket :=
  let data := stx_data stx in
  mkBucket (<[stx_hash stx := data]> (hash_data_map b))
    (<[data := <[stx_hash stx := stx]> (default ∅ (tx_buckets b !! data))]> (tx_buckets b)).

(** [BTreeMap::first_key_value], the key part *)
Definition first_key {A} (m : gmap Z A) : option Z :=
  foldr (λ k acc, match acc with None => Some k | Some a => Some (Z.min k a) end)
    None (fst <$> map_to_list m).

Definition bucket_package (b : SystemScriptTxBucket) : ProtocolResult (list Hash) :=
  traverse (λ kv : bytes * gmap Hash SignedTransaction, unwrap (first_key kv.2))
    (map_to_list (tx_buckets b)).

Definition bucket_get_tx_by_hash (b : SystemScriptTxBucket) (hash : Hash)
    : option SignedTransaction :=
  match hash_data_map b !! hash with
  | Some data =>
      match tx_buckets b !! data with
      | Some tx_map => tx_map !! hash
      | None => None
      end
  | None => None
  end.

Definition bucket_flush (b : SystemScriptTxBucket) (hashes : list Hash) : SystemScriptTxBucket :=
  fold_left (λ b hash,
    match hash_data_map b !! hash with
    | Some data => mkBucket (delete hash (hash_data_map b)) (delete data (tx_buckets b))
    | None => b
    end) hashes b.

Definition bucket_contains (b : SystemScriptTxBucket) (hash : Hash) : bool :=
  match hash_data_map b !! hash with
  | Some data =>
      match tx_buckets b !! data with
      | Some tx_map => bool_decide (is_Some (tx_map !! hash))
      | None => false
      end
  | None => false
  end.

(** ** [PriorityPool] *)
Record PriorityPool := mkPool {
  arena : list TxDigest;
  sys_tx_bucket : SystemScriptTxBucket;
  occupied_nonce : gmap H160 (gmap U256 TxPtr);
  co_queue : list TxPtr;
  co_capacity : nat;
  real_queue : list TxPtr;
  tx_map : gmap Hash SignedTransaction
}.

(** [ArrayQueue::new] panics on a zero capacity. *)
Definition pool_new (size : nat) : ProtocolResult PriorityPool :=
  if decide (size = 0%nat) then Panic
  else Ok (mkPool [] bucket_new ∅ [] size [] ∅).

(** [&**ptr]; an [Arc] is never dangling, the default is not reached. *)
Definition deref (ar : list TxDigest) (p : TxPtr) : TxDigest :=
  default (mkTxDigest 0 0 0 0 true) (ar !! p).

(** The order of [real_queue]: digests compared through the pointers. *)
Definition ptr_le (ar : list TxDigest) (p q : TxPtr) : bool :=
  TxDigest_le (deref ar p) (deref ar q).

Definition is_dropped (ar : list TxDigest) (p : TxPtr) : bool :=
  td_is_dropped (deref ar p).

(** [co_queue] emptied into [real_queue]: the body of the background loop and
    the first half of [package]. *)
Definition drain_co_queue (pool : PriorityPool) : PriorityPool :=
  mkPool (arena pool) (sys_tx_bucket pool) (occupied_nonce pool) [] (co_capacity pool)
    (fold_left (heap_push (ptr_le (arena pool))) (co_queue pool) (real_queue pool))
    (tx_map pool).

Definition get_tx_count_by_address (pool : PriorityPool) (address : H160) : nat :=
  match occupied_nonce pool !! address with
  | Some set => length (filter (λ kv, is_dropped (arena pool) kv.2 = false) (map_to_list set))
  | None => 0%nat
  end.

Definition insert_system_script_tx (pool : PriorityPool) (stx : SignedTransaction)
    : PriorityPool :=
  mkPool (arena pool) (bucket_insert (sys_tx_bucket pool) stx) (occupied_nonce pool)
    (co_queue pool) (co_capacity pool) (real_queue pool) (tx_map pool).

Definition pool_len (pool : PriorityPool) : nat := size (tx_map pool).
Definition reach_limit (pool : PriorityPool) : bool :=
  bool_decide (co_capacity pool < pool_len pool)%nat.
Definition pool_size (pool : PriorityPool) : nat := (co_capacity pool / 2)%nat.

(** [occupy_nonce]: the pointer that held the slot before is marked dropped. *)
Definition occupy_nonce (pool : PriorityPool) (ptr : TxPtr) (d : TxDigest) : PriorityPool :=
  let slots := default ∅ (occupied_nonce pool !! td_sender d) in
  mkPool
    (match slots !! td_nonce d with
     | Some old_ptr => alter set_dropped old_ptr (arena pool)
     | None => arena pool
     end)
    (sys_tx_bucket pool)
    (<[td_sender d := <[td_nonce d := ptr]> slots]> (occupied_nonce pool))
    (co_queue pool) (co_capacity pool) (real_queue pool) (tx_map pool).

(** [TxWrapper::from]: a fresh [Arc]. *)
Definition alloc (pool : PriorityPool) (d : TxDigest) : PriorityPool * TxPtr :=
  (mkPool (arena pool ++ [d]) (sys_tx_bucket pool) (occupied_nonce pool) (co_queue pool)
     (co_capacity pool) (real_queue pool) (tx_map pool), length (arena pool)).

(** [let _ = self.co_queue.push(ptr)]: a full queue rejects the element and the
    rejection is ignored. *)
Definition co_push (pool : PriorityPool) (ptr : TxPtr) : PriorityPool :=
  mkPool (arena pool) (sys_tx_bucket pool) (occupied_nonce pool)
    (if decide (length (co_queue pool) < co_capacity pool)%nat
     then co_queue pool ++ [ptr] else co_queue pool)
    (co_capacity pool) (real_queue pool) (tx_map pool).

Definition set_tx_map (pool : PriorityPool) (m : gmap Hash SignedTransaction) : PriorityPool :=
  mkPool (arena pool) (sys_tx_bucket pool) (occupied_nonce pool) (co_queue pool)
    (co_capacity pool) (real_queue pool) m.

Definition pool_insert (stx : SignedTransaction) : M PriorityPool ProtocolError unit := λ pool,
  if reach_limit pool then (pool, Err (PE_Mempool (ReachLimit (Z.of_nat (pool_len pool))))) else
  let d := TxDigest_from stx in
  let '(pool, ptr) := alloc pool d in
  let pool := co_push pool ptr in
  let pool := occupy_nonce pool ptr d in
  (set_tx_map pool (<[td_hash d := stx]> (tx_map pool)), Ok tt).

(** [package]: one hash per system bucket, then up to [limit] live pointers of
    [real_queue] in storage order. *)
Definition live_hashes (ar : list TxDigest) (q : list TxPtr) : list Hash :=
  omap (λ ptr, if is_dropped ar ptr then None else Some (td_hash (deref ar ptr))) q.

Definition package (gas_limit : U256) (limit : nat) : M PriorityPool ProtocolError (list Hash) :=
  λ pool,
  match bucket_package (sys_tx_bucket pool) with
  | Ok ret =>
      let pool := drain_co_queue pool in
      (pool, Ok (ret ++ take limit (live_hashes (arena pool) (real_queue pool))))
  | Err e => (pool, Err e)
  | Panic => (pool, Panic)
  end.

Definition pool_contains (pool : PriorityPool) (hash : Hash) : bool :=
  bool_decide (is_Some (tx_map pool !! hash)) || bucket_contains (sys_tx_bucket pool) hash.

Definition get_by_hash (pool : PriorityPool) (hash : Hash) : option SignedTransaction :=
  match tx_map pool !! hash with
  | Some tx => Some tx
  | None => bucket_get_tx_by_hash (sys_tx_bucket pool) hash
  end.

(** [get_residual]: [tx_map] loses the flushed hashes and the hashes of dropped
    pointers, the queues being drained, then the transactions the nonce check
    refuses. *)
Definition remaining_map (pool : PriorityPool) (hashes : list Hash) : gmap Hash SignedTransaction :=
  let m := fold_left (λ m hash, delete hash m) hashes (tx_map pool) in
  fold_left (λ m ptr,
    if is_dropped (arena pool) ptr then delete (td_hash (deref (arena pool) ptr)) m
    else m) (real_queue pool ++ co_queue pool) m.

Definition residual_map (pool : PriorityPool) (hashes : list Hash)
    (nonce_check : SignedTransaction → bool) : gmap Hash SignedTransaction :=
  filter (λ kv, nonce_check kv.2 = true) (remaining_map pool hashes).

(** One turn of the loop of [flush] over the residual transactions. *)
Definition requeue (pool : PriorityPool) (tx : SignedTransaction) : PriorityPool :=
  let d := TxDigest_from tx in
  let '(pool, ptr) := alloc pool d in
  let pool := occupy_nonce pool ptr d in
  mkPool (arena pool) (sys_tx_bucket pool) (occupied_nonce pool) (co_queue pool)
    (co_capacity pool) (heap_push (ptr_le (arena pool)) (real_queue pool) ptr) (tx_map pool).

Definition pool_flush (pool : PriorityPool) (hashes : list Hash)
    (nonce_check : SignedTransaction → bool) : PriorityPool :=
  let m := residual_map pool hashes nonce_check in
  let cleared := mkPool (arena pool) (bucket_flush (sys_tx_bucket pool) hashes) ∅ []
                   (co_capacity pool) [] m in
  fold_left requeue (snd <$> map_to_list m) cleared.
