(* ===== verification/PoolInv.v ===== *)
(** * Invariants of the transaction pool

    The steps of the pool, its reachable states, and the invariant they
    satisfy.  The states are indexed by the transactions that are submitted:
    [ok] holds of every transaction that enters.  With [λ _, True] these are all
    histories of the pool; [determined] says that a hash determines its
    transaction, which the pool itself does not enforce, and [genuine] that the
    transaction is the one [txOf] gives for its hash. *)

From S2P Require Import Prelude Types Codec Traits Heap Pool.

Local Open Scope Z_scope.

Abbreviation slots := (gmap H160 (gmap U256 nat)).

(** The pointer that occupies a nonce of a sender. *)
Definition slot (o : slots) (s : H160) (n : U256) : option nat := o !! s ≫= λ m, m !! n.

Definition genuine (txOf : Hash → SignedTransaction) (stx : SignedTransaction) : Prop :=
  txOf (stx_hash stx) = stx.

(** Two submitted transactions with the same hash are the same. *)
Definition determined (ok : SignedTransaction → Prop) : Prop :=
  ∀ a b, ok a → ok b → stx_hash a = stx_hash b → a = b.

Section inv.
Context (ok : SignedTransaction → Prop).

(** ** Steps and reachable states *)
Inductive pool_step : PriorityPool → PriorityPool → Prop :=
| step_insert pool stx :
    ok stx → pool_step pool (fst (pool_insert stx pool))
| step_insert_system pool stx :
    ok stx → pool_step pool (insert_system_script_tx pool stx)
| step_drain pool : pool_step pool (drain_co_queue pool)
| step_package pool g n : pool_step pool (fst (package g n pool))
| step_flush pool hashes check : pool_step pool (pool_flush pool hashes check).

Inductive reachable_by : PriorityPool → Prop :=
| reach_new size pool : pool_new size = Ok pool → reachable_by pool
| reach_step pool pool' : reachable_by pool → pool_step pool pool' → reachable_by pool'.

(** ** The invariant *)

(** Keys of [tx_map] are the hashes of submitted transactions. *)
Definition map_inv (m : gmap Hash SignedTransaction) : Prop :=
  ∀ h stx, m !! h = Some stx → stx_hash stx = h ∧ ok stx.

(** A live pointer of a queue is the digest of a submitted transaction, holds
    its nonce slot, and its hash is a key of [tx_map]; a slot is held by a live
    pointer of its sender and nonce; no pointer is queued twice. *)
Record queue_inv (ar : list TxDigest) (o : slots) (q : list nat)
    (m : gmap Hash SignedTransaction) : Prop := {
  qi_nodup : NoDup q;
  qi_ptr p : p ∈ q → ∃ d, ar !! p = Some d ∧
    (td_is_dropped d = false →
       slot o (td_sender d) (td_nonce d) = Some p ∧ is_Some (m !! td_hash d) ∧
       ∃ stx, ok stx ∧ d = TxDigest_from stx);
  qi_slot s n p : slot o s n = Some p → ∃ d, ar !! p = Some d ∧
    td_sender d = s ∧ td_nonce d = n ∧ td_is_dropped d = false
}.

Definition bucket_inv (b : SystemScriptTxBucket) : Prop :=
  ∀ data m, tx_buckets b !! data = Some m → m ≠ ∅ ∧
    ∀ h stx, m !! h = Some stx →
      stx_hash stx = h ∧ ok stx ∧ stx_data stx = data ∧
      (determined ok → hash_data_map b !! h = Some data).

Record pool_inv (pool : PriorityPool) : Prop := {
  pi_map : map_inv (tx_map pool);
  pi_queue : queue_inv (arena pool) (occupied_nonce pool) (real_queue pool ++ co_queue pool)
               (tx_map pool);
  pi_heap : heap_ordered (ptr_le (arena pool)) (real_queue pool);
  pi_bucket : bucket_inv (sys_tx_bucket pool);
  pi_co : (length (co_queue pool) ≤ co_capacity pool)%nat;
  pi_size : (size (tx_map pool) ≤ S (co_capacity pool))%nat;
  pi_cap : co_capacity pool ≠ 0%nat
}.

End inv.

Abbreviation reachable txOf := (reachable_by (genuine txOf)).

Lemma genuine_determined txOf : determined (genuine txOf).
Proof. unfold genuine. intros a b Ha Hb E. by rewrite <-Ha, <-Hb, E. Qed.

(** ** The order of digests *)
Lemma TxDigest_le_total a b : TxDigest_le a b = false → TxDigest_le b a = true.
Proof.
  unfold TxDigest_le, TxDigest_cmp. rewrite (Z.eqb_sym (td_gas_price b)).
  destruct (Z.eqb_spec (td_gas_price a) (td_gas_price b)); cbn.
  - rewrite (Z.compare_antisym (td_nonce a)). by destruct (td_nonce a ?= td_nonce b).
  - rewrite (Z.compare_antisym (td_gas_price a)). by destruct (td_gas_price a ?= td_gas_price b).
Qed.

(** [a <= b]: a smaller gas price, or the same price and a nonce at least as
    large. *)
Lemma TxDigest_le_spec a b :
  TxDigest_le a b = true ↔
  td_gas_price a < td_gas_price b ∨
  td_gas_price a = td_gas_price b ∧ td_nonce b ≤ td_nonce a.
Proof.
  unfold TxDigest_le, TxDigest_cmp. destruct (Z.eqb_spec (td_gas_price a) (td_gas_price b)); cbn.
  - destruct (Z.compare_spec (td_nonce a) (td_nonce b)); split; try done; lia.
  - destruct (Z.compare_spec (td_gas_price a) (td_gas_price b)); split; try done; lia.
Qed.

Lemma TxDigest_le_trans a b c :
  TxDigest_le a b = true → TxDigest_le b c = true → TxDigest_le a c = true.
Proof. rewrite !TxDigest_le_spec. lia. Qed.

Lemma ptr_le_total ar p q : ptr_le ar p q = false → ptr_le ar q p = true.
Proof. apply TxDigest_le_total. Qed.

Lemma ptr_le_trans ar p q r : ptr_le ar p q = true → ptr_le ar q r = true → ptr_le ar p r = true.
Proof. apply TxDigest_le_trans. Qed.

Lemma ptr_le_refl ar p : ptr_le ar p p = true.
Proof. unfold ptr_le. rewrite TxDigest_le_spec. lia. Qed.

Lemma deref_Some ar p d : ar !! p = Some d → deref ar p = d.
Proof. unfold deref. by intros ->. Qed.

(** ** Effect of taking a nonce slot *)

(** The arena after a fresh digest was allocated and its slot taken. *)
Definition arena_after (ar : list TxDigest) (o : slots) (d : TxDigest) : list TxDigest :=
  match slot o (td_sender d) (td_nonce d) with
  | Some old => alter set_dropped old (ar ++ [d])
  | None => ar ++ [d]
  end.

Definition slots_after (o : slots) (d : TxDigest) (p : nat) : slots :=
  <[td_sender d := <[td_nonce d := p]> (default ∅ (o !! td_sender d))]> o.

Lemma slot_default o s n : default ∅ (o !! s) !! n = slot o s n.
Proof. unfold slot. destruct (o !! s); cbn; [done|apply lookup_empty]. Qed.

Lemma occupy_arena pool d :
  occupy_nonce (fst (alloc pool d)) (length (arena pool)) d =
  mkPool (arena_after (arena pool) (occupied_nonce pool) d) (sys_tx_bucket pool)
    (slots_after (occupied_nonce pool) d (length (arena pool)))
    (co_queue pool) (co_capacity pool) (real_queue pool) (tx_map pool).
Proof.
  unfold occupy_nonce, alloc, arena_after, slots_after. cbn. by rewrite slot_default.
Qed.

Lemma occupy_co_push pool ptr d p :
  occupy_nonce (co_push pool ptr) p d = co_push (occupy_nonce pool p d) ptr.
Proof. done. Qed.

Lemma slot_after o d p s n :
  slot (slots_after o d p) s n =
  if decide (s = td_sender d ∧ n = td_nonce d) then Some p else slot o s n.
Proof.
  unfold slot at 1, slots_after. destruct (decide (s = td_sender d)) as [->|Hs].
  - rewrite lookup_insert_eq. cbn. destruct (decide (n = td_nonce d)) as [->|Hn].
    + rewrite lookup_insert_eq, decide_True by done. done.
    + rewrite lookup_insert_ne, decide_False by first [done|by intros [_ ?]]. apply slot_default.
  - rewrite lookup_insert_ne by done. by rewrite decide_False by (by intros [? _]).
Qed.

Lemma arena_after_length ar o d : length (arena_after ar o d) = S (length ar).
Proof. unfold arena_after. case_match; rewrite ?length_alter, length_app; cbn; lia. Qed.

(** Old pointers keep their digest; only the previous holder is dropped. *)
Lemma arena_after_old ar o d p dp :
  ar !! p = Some dp →
  arena_after ar o d !! p =
    Some (if decide (slot o (td_sender d) (td_nonce d) = Some p) then set_dropped dp else dp).
Proof.
  intros Hp. apply lookup_lt_Some in Hp as Hlt. unfold arena_after.
  destruct (slot o (td_sender d) (td_nonce d)) as [old|] eqn:Hs.
  - destruct (decide (old = p)) as [->|Hne].
    + rewrite list_lookup_alter_eq, lookup_app_l, Hp by done. by rewrite decide_True.
    + rewrite list_lookup_alter_ne, lookup_app_l, Hp by done. by rewrite decide_False by congruence.
  - rewrite lookup_app_l, Hp by done. by rewrite decide_False.
Qed.

Lemma arena_after_new ar o d :
  slot o (td_sender d) (td_nonce d) ≠ Some (length ar) →
  arena_after ar o d !! length ar = Some d.
Proof.
  intros Hne. unfold arena_after. destruct (slot o _ _) as [old|] eqn:Hs.
  - rewrite list_lookup_alter_ne by congruence. by rewrite list_lookup_middle.
  - by rewrite list_lookup_middle.
Qed.

Section enqueue.
Context (ok : SignedTransaction → Prop).

(** A submitted transaction enters: its slot is taken, and its pointer joins a
    queue or is refused by a full one. *)
Lemma queue_inv_enqueue ar o q q' m stx :
  ok stx → queue_inv ok ar o q m →
  q' ≡ₚ length ar :: q ∨ q' ≡ₚ q →
  queue_inv ok (arena_after ar o (TxDigest_from stx))
    (slots_after o (TxDigest_from stx) (length ar)) q' (<[stx_hash stx := stx]> m).
Proof.
  intros Hg [Hnd Hptr Hslot] Hq'. set (d := TxDigest_from stx).
  assert (∀ p, p ∈ q → (p < length ar)%nat) as Hlt.
  { intros p Hp. destruct (Hptr p Hp) as (dp & Hdp & _). by eapply lookup_lt_Some. }
  assert (slot o (td_sender d) (td_nonce d) ≠ Some (length ar)) as Hfresh.
  { intros E. destruct (Hslot _ _ _ E) as (dp & Hdp & _). apply lookup_lt_Some in Hdp. lia. }
  assert (∀ p, p ∈ q' → p = length ar ∨ p ∈ q) as Hin.
  { intros p Hp. destruct Hq' as [E|E]; rewrite E in Hp; set_solver. }
  split.
  - destruct Hq' as [E|E]; rewrite E; [|done]. constructor; [|done].
    intros Hp%Hlt. lia.
  - intros p [->|Hp]%Hin.
    { exists d. split; [by apply arena_after_new|]. intros _. rewrite slot_after, decide_True by done.
      split; [done|]. cbn. rewrite lookup_insert_eq. eauto. }
    destruct (Hptr p Hp) as (dp & Hdp & Hlive). eexists. split; [by apply arena_after_old|].
    case_decide as Hs; [done|]. intros Hnd'. destruct (Hlive Hnd') as (Hsl & Hmx & Hx).
    rewrite slot_after. rewrite decide_False; [|intros [E1 E2]; apply Hs; by rewrite <-E1, <-E2].
    split_and!; [done| |done]. rewrite lookup_insert. by case_decide.
  - intros s n p. rewrite slot_after. case_decide as Hsn.
    + intros [= <-]. destruct Hsn as [-> ->]. exists d. by rewrite arena_after_new.
    + intros Hp. destruct (Hslot _ _ _ Hp) as (dp & Hdp & <- & <- & Hl).
      eexists. split; [by apply arena_after_old|]. case_decide as Hs; [|done].
      exfalso. apply Hsn. destruct (Hslot _ _ _ Hs) as (dp' & Hdp' & E1 & E2 & _).
      assert (dp = dp') as -> by congruence. done.
Qed.

(** The queue order only reads prices and nonces, which stay. *)
Lemma ptr_le_after ar o d p q :
  (p < length ar)%nat → (q < length ar)%nat →
  ptr_le (arena_after ar o d) p q = ptr_le ar p q.
Proof.
  intros Hp Hq. apply lookup_lt_is_Some in Hp as [dp Hdp]. apply lookup_lt_is_Some in Hq as [dq Hdq].
  unfold ptr_le. erewrite !(deref_Some (arena_after _ _ _)) by (by apply arena_after_old).
  rewrite (deref_Some _ _ _ Hdp), (deref_Some _ _ _ Hdq). by repeat case_decide.
Qed.
End enqueue.

Lemma heap_ordered_ext {A} (le le' : A → A → bool) l :
  (∀ x y, x ∈ l → y ∈ l → le x y = le' x y) → heap_ordered le l → heap_ordered le' l.
Proof.
  intros Hle Hl i x p Hi Hx Hp. rewrite <-Hle by (by eapply list_elem_of_lookup_2). by eapply Hl.
Qed.

Lemma fold_delete_if {A V} (b : A → bool) (k : A → Hash) l (m : gmap Hash V) h v :
  fold_left (λ m x, if b x then delete (k x) m else m) l m !! h = Some v ↔
  m !! h = Some v ∧ Forall (λ x, b x = true → k x ≠ h) l.
Proof.
  revert m. induction l as [|x l IH]; intros m; cbn; [by rewrite Forall_nil; tauto|].
  rewrite IH, Forall_cons. destruct (b x); [rewrite lookup_delete_Some|]; intuition congruence.
Qed.

Lemma fold_delete_lookup {V} l (m : gmap Hash V) h v :
  fold_left (λ m h, delete h m) l m !! h = Some v ↔ m !! h = Some v ∧ h ∉ l.
Proof.
  revert m. induction l as [|x l IH]; intros m; cbn; [split; [split; [done|set_solver]|by intros []]|].
  rewrite IH, lookup_delete_Some, not_elem_of_cons. intuition congruence.
Qed.

(** What is left of [tx_map]: not flushed, not the hash of a dropped pointer,
    accepted by the check. *)
Lemma residual_map_lookup pool hashes check h stx :
  residual_map pool hashes check !! h = Some stx ↔
  tx_map pool !! h = Some stx ∧ (h ∉ hashes) ∧ check stx = true ∧
  ∀ p, p ∈ (real_queue pool ++ co_queue pool) → is_dropped (arena pool) p = true →
       td_hash (deref (arena pool) p) ≠ h.
Proof.
  unfold residual_map, remaining_map. rewrite map_lookup_filter_Some. cbn.
  rewrite fold_delete_if, fold_delete_lookup, Forall_forall. tauto.
Qed.

(** ** Every step preserves the invariant *)
Section preserve.
Context (ok : SignedTransaction → Prop).
Local Abbreviation pool_inv := (pool_inv ok).

Lemma queue_inv_Permutation ar o q q' m : q ≡ₚ q' → queue_inv ok ar o q m → queue_inv ok ar o q' m.
Proof.
  intros E [Hnd Hp Hs]. split; [by rewrite <-E|intros p; rewrite <-E; apply Hp|exact Hs].
Qed.

Lemma queue_inv_lt ar o q m p : queue_inv ok ar o q m → p ∈ q → (p < length ar)%nat.
Proof. intros Hq Hp. destruct (qi_ptr _ _ _ _ _ Hq p Hp) as (d & Hd & _). by eapply lookup_lt_Some. Qed.

Lemma heap_ordered_after ar o d o' q m :
  queue_inv ok ar o' q m → heap_ordered (ptr_le ar) q → heap_ordered (ptr_le (arena_after ar o d)) q.
Proof.
  intros Hq. apply heap_ordered_ext. intros x y Hx Hy.
  by rewrite ptr_le_after by (by eapply queue_inv_lt).
Qed.

Lemma queue_inv_app_l ar o q q' m : queue_inv ok ar o (q ++ q') m → queue_inv ok ar o q m.
Proof.
  intros [Hnd Hp Hs]. split; [by apply NoDup_app in Hnd as []|intros p ?; apply Hp; set_solver|done].
Qed.

Lemma map_inv_insert m stx :
  ok stx → map_inv ok m → map_inv ok (<[stx_hash stx := stx]> m).
Proof. intros Hg Hm h x. rewrite lookup_insert. case_decide; [intros [= <-]; done|apply Hm]. Qed.

Lemma drain_inv pool : pool_inv pool → pool_inv (drain_co_queue pool).
Proof.
  intros []. split; cbn; try done; [| |lia].
  - rewrite app_nil_r. eapply queue_inv_Permutation; [|done].
    by rewrite fold_push_Permutation, Permutation_app_comm.
  - apply fold_push_ordered; [apply ptr_le_total|apply ptr_le_trans|done].
Qed.

Lemma bucket_insert_inv b stx :
  ok stx → bucket_inv ok b → bucket_inv ok (bucket_insert b stx).
Proof.
  intros Hg Hb data m. unfold bucket_insert. cbn. rewrite lookup_insert. case_decide as Hd.
  - intros [= <-]. split; [apply insert_non_empty|]. intros h x. rewrite lookup_insert.
    case_decide as Hh; [intros [= <-]; subst; by rewrite lookup_insert_eq|].
    rewrite <-Hd. destruct (tx_buckets b !! stx_data stx) as [m'|] eqn:E; cbn; [|done].
    intros Hx. destruct (proj2 (Hb _ _ E) _ _ Hx) as (?&?&?&?).
    split_and!; [done..|]. rewrite lookup_insert_ne by done. done.
  - intros Hm. destruct (Hb _ _ Hm) as [Hne Hall]. split; [done|]. intros h x Hx.
    destruct (Hall _ _ Hx) as (Hh & Hgx & Hdx & Hdm). split_and!; try done.
    intros Hdet. rewrite lookup_insert_ne; [by apply Hdm|]. intros E. apply Hd.
    rewrite <-Hdx. f_equal. apply Hdet; congruence.
Qed.

Lemma bucket_flush_inv b hashes : bucket_inv ok b → bucket_inv ok (bucket_flush b hashes).
Proof.
  unfold bucket_flush. revert b. induction hashes as [|h hs IH]; intros b Hb; cbn; [done|].
  apply IH. destruct (hash_data_map b !! h) as [data|] eqn:E; [|done].
  intros data' m. cbn. rewrite lookup_delete_Some. intros [Hne Hm].
  destruct (Hb _ _ Hm) as [Hnem Hall]. split; [done|]. intros h' x Hx.
  destruct (Hall _ _ Hx) as (?&?&?&Hdm). split_and!; try done.
  intros Hdet. specialize (Hdm Hdet). rewrite lookup_delete_ne; [done|]. intros ->. congruence.
Qed.

Lemma insert_inv pool stx : ok stx → pool_inv pool → pool_inv (fst (pool_insert stx pool)).
Proof.
  intros Hg Hinv. unfold pool_insert. destruct (reach_limit pool) eqn:Hl; [done|].
  unfold reach_limit, pool_len in Hl. apply bool_decide_eq_false in Hl. destruct Hinv.
  pose proof (occupy_arena pool (TxDigest_from stx)) as E. cbn [alloc fst] in E |- *.
  rewrite occupy_co_push, E. split; cbn -[decide TxDigest_from]; try done.
  - by apply map_inv_insert.
  - apply (queue_inv_enqueue ok _ _ _ _ _ _ Hg pi_queue0).
    case_decide; [left|right; done]. rewrite app_assoc. by rewrite Permutation_app_comm.
  - eapply heap_ordered_after; [by eapply queue_inv_app_l|done].
  - case_decide; rewrite ?length_app; cbn; lia.
  - rewrite map_size_insert. case_match; cbn; lia.
Qed.

Lemma insert_system_inv pool stx :
  ok stx → pool_inv pool → pool_inv (insert_system_script_tx pool stx).
Proof. intros Hg []. split; cbn; try done. by apply bucket_insert_inv. Qed.

Lemma package_inv pool g n : pool_inv pool → pool_inv (fst (package g n pool)).
Proof. intros Hinv. unfold package. case_match; [by apply drain_inv|done..]. Qed.

(** *** Flush *)
Lemma requeue_inv pool tx :
  pool_inv pool → tx_map pool !! stx_hash tx = Some tx → pool_inv (requeue pool tx).
Proof.
  intros [] Hm. unfold requeue. destruct (pi_map0 _ _ Hm) as [_ Hg].
  pose proof (occupy_arena pool (TxDigest_from tx)) as E. cbn [alloc fst] in E |- *. rewrite E.
  split; cbn -[TxDigest_from heap_push]; try done.
  - rewrite <-(insert_id (tx_map pool) (stx_hash tx) tx) by done.
    apply (queue_inv_enqueue ok _ _ _ _ _ _ Hg pi_queue0). left.
    by rewrite heap_push_Permutation.
  - apply heap_push_ordered; [apply ptr_le_total|apply ptr_le_trans|].
    eapply heap_ordered_after; [by eapply queue_inv_app_l|done].
Qed.

Lemma requeue_all_inv l pool :
  Forall (λ tx, tx_map pool !! stx_hash tx = Some tx) l →
  pool_inv pool → pool_inv (fold_left requeue l pool).
Proof.
  revert pool. induction l as [|tx l IH]; intros pool Hl Hinv; cbn; [done|].
  apply Forall_cons in Hl as [Htx Hl]. apply IH; [exact Hl|by apply requeue_inv].
Qed.

Lemma cleared_inv pool hashes check :
  pool_inv pool →
  pool_inv (mkPool (arena pool) (bucket_flush (sys_tx_bucket pool) hashes) ∅ []
              (co_capacity pool) [] (residual_map pool hashes check)).
Proof.
  intros []. split; cbn -[bucket_flush]; try done; [| |by apply bucket_flush_inv|lia|].
  - intros h stx Hh. apply residual_map_lookup in Hh as [Hh _]. by apply pi_map0.
  - split; [constructor|set_solver|]. intros s n p. unfold slot. by rewrite lookup_empty.
  - etrans; [|done]. apply map_subseteq_size, map_subseteq_spec. intros h stx Hh.
    by apply residual_map_lookup in Hh as [Hh _].
Qed.

Lemma flush_inv pool hashes check : pool_inv pool → pool_inv (pool_flush pool hashes check).
Proof.
  intros Hinv. apply (cleared_inv _ hashes check) in Hinv. apply requeue_all_inv; [|done].
  apply Forall_forall. intros tx Htx. apply list_elem_of_fmap in Htx as ([h x] & -> & Hx).
  apply elem_of_map_to_list in Hx. cbn. by destruct (pi_map _ _ Hinv _ _ Hx) as [-> _].
Qed.

Lemma new_inv n pool : pool_new n = Ok pool → pool_inv pool.
Proof.
  unfold pool_new. case_decide; [done|]. intros [= <-]. split; cbn; try done.
  - split; [constructor|set_solver|]. intros s k p. unfold slot. by rewrite lookup_empty.
  - lia.
  - rewrite map_size_empty. lia.
Qed.

Lemma step_inv pool pool' : pool_step ok pool pool' → pool_inv pool → pool_inv pool'.
Proof.
  destruct 1; [by apply insert_inv|by apply insert_system_inv|apply drain_inv|apply package_inv
    |apply flush_inv].
Qed.

Lemma reachable_inv pool : reachable_by ok pool → pool_inv pool.
Proof. induction 1; [by eapply new_inv|by eapply step_inv]. Qed.
End preserve.

(** ** What the invariant says of packages *)
Section use.
Context (ok : SignedTransaction → Prop).

Lemma first_key_spec {A} (m : gmap Z A) : m ≠ ∅ → ∃ k, first_key m = Some k ∧ is_Some (m !! k).
Proof.
  intros Hm. unfold first_key.
  assert (∀ k, k ∈ (map_to_list m).*1 → is_Some (m !! k)) as Hin.
  { intros k ([k' x] & -> & Hx%elem_of_map_to_list)%list_elem_of_fmap. by exists x. }
  assert ((map_to_list m).*1 ≠ []) as Hne.
  { by intros ->%fmap_nil_inv%map_to_list_empty_iff. }
  revert Hin Hne. induction (map_to_list m).*1 as [|k l IH]; [done|]. intros Hin _. cbn.
  destruct l as [|k' l]; [exists k; split; [done|apply Hin; left]|].
  destruct IH as (a & -> & Ha); [intros; apply Hin; by right|done|].
  exists (Z.min k a). split; [done|]. destruct (Z.min_spec k a) as [[_ ->]|[_ ->]]; [|done].
  apply Hin. left.
Qed.

(** One hash of each bucket, of a transaction with the bucket's data. *)
Lemma bucket_package_each b :
  bucket_inv ok b →
  ∃ sys, bucket_package b = Ok sys ∧
    Forall2 (λ kv h, ∃ stx, kv.2 !! h = Some stx) (map_to_list (tx_buckets b)) sys.
Proof.
  intros Hb. unfold bucket_package.
  assert (∀ kv, kv ∈ map_to_list (tx_buckets b) → kv.2 ≠ ∅) as Hne.
  { intros [d m] Hm%elem_of_map_to_list. by destruct (Hb _ _ Hm). }
  revert Hne. induction (map_to_list (tx_buckets b)) as [|kv l IH]; intros Hne; [by exists []|].
  destruct (first_key_spec kv.2) as (k & Hk & [x Hx]); [apply Hne; left|].
  destruct IH as (sys & Hs & Hf); [intros; apply Hne; by right|].
  exists (k :: sys). cbn. rewrite Hk. cbn. rewrite Hs. cbn. split; [done|]. constructor; eauto.
Qed.

(** When a hash determines its transaction the hashes are distinct and
    retrievable. *)
Lemma bucket_package_ok b :
  bucket_inv ok b →
  ∃ sys, bucket_package b = Ok sys ∧ length sys = size (tx_buckets b) ∧
    (determined ok → NoDup sys ∧
       ∀ h, h ∈ sys → ∃ stx, bucket_get_tx_by_hash b h = Some stx ∧ stx_hash stx = h).
Proof.
  intros Hb. destruct (bucket_package_each b Hb) as (sys & Hs & Hf).
  exists sys. split_and!; [done|by rewrite <-(Forall2_length _ _ _ Hf), length_map_to_list|].
  intros Hdet.
  assert (Forall2 (λ d h, hash_data_map b !! h = Some d ∧ ∃ stx, bucket_get_tx_by_hash b h = Some stx ∧
            stx_hash stx = h) (map_to_list (tx_buckets b)).*1 sys) as Hf'.
  { apply Forall2_fmap_l, Forall2_same_length_lookup. apply Forall2_same_length_lookup in Hf as [Hl Hf].
    split; [done|]. intros i [d m] h Hi Hh. destruct (Hf _ _ _ Hi Hh) as [stx Hx].
    apply list_elem_of_lookup_2, elem_of_map_to_list in Hi.
    destruct (proj2 (Hb _ _ Hi) _ _ Hx) as (Hhx & _ & Hd & Hm). specialize (Hm Hdet).
    split; [done|]. exists stx. split; [|done]. unfold bucket_get_tx_by_hash. by rewrite Hm, Hi. }
  clear Hf Hs. split.
  - pose proof (NoDup_fst_map_to_list (tx_buckets b)) as Hnd.
    revert Hnd. induction Hf' as [|d h ds hs [Hd _] Hf' IH]; [constructor|].
    intros [Hni Hnd]%NoDup_cons. constructor; [|by apply IH]. intros Hin. apply Hni.
    apply list_elem_of_lookup in Hin as [i Hi].
    destruct (Forall2_lookup_r _ _ _ _ _ Hf' Hi) as (d' & Hd' & Ed & _).
    assert (d = d') as -> by congruence. by eapply list_elem_of_lookup_2.
  - intros h [i Hi]%list_elem_of_lookup. by destruct (Forall2_lookup_r _ _ _ _ _ Hf' Hi) as (d & _ & _ & ?).
Qed.

Lemma live_hashes_elem ar q h :
  h ∈ live_hashes ar q ↔ ∃ p, p ∈ q ∧ is_dropped ar p = false ∧ td_hash (deref ar p) = h.
Proof.
  unfold live_hashes. rewrite list_elem_of_omap. split.
  - intros (p & Hp & E). destruct (is_dropped ar p) eqn:D; [done|]. injection E as <-. eauto.
  - intros (p & Hp & D & <-). exists p. by rewrite D.
Qed.

(** The digests of the live pointers of a queue: no two share sender and
    nonce. *)
Definition live_digests (ar : list TxDigest) (q : list nat) : list TxDigest :=
  omap (λ p, if is_dropped ar p then None else Some (deref ar p)) q.

Lemma live_hashes_digests ar q : live_hashes ar q = td_hash <$> live_digests ar q.
Proof.
  unfold live_hashes, live_digests. induction q as [|p q IH]; cbn; [done|].
  destruct (is_dropped ar p); cbn; [done|by rewrite IH].
Qed.

Lemma live_digests_elem ar q d :
  d ∈ live_digests ar q ↔ ∃ p, p ∈ q ∧ is_dropped ar p = false ∧ deref ar p = d.
Proof.
  unfold live_digests. rewrite list_elem_of_omap. split.
  - intros (p & Hp & E). destruct (is_dropped ar p) eqn:D; [done|]. injection E as <-. eauto.
  - intros (p & Hp & D & <-). exists p. by rewrite D.
Qed.

(** A live pointer and its transaction. *)
Lemma live_ptr ar o q m p :
  queue_inv ok ar o q m → p ∈ q → is_dropped ar p = false →
  ∃ stx, ok stx ∧ is_Some (m !! stx_hash stx) ∧ deref ar p = TxDigest_from stx ∧
         slot o (stx_sender stx) (stx_nonce stx) = Some p.
Proof.
  intros Hq Hp. destruct (qi_ptr _ _ _ _ _ Hq p Hp) as (d & Hd & Hl). unfold is_dropped.
  rewrite (deref_Some _ _ _ Hd). intros (Hs & Hm & stx & Hok & ->)%Hl. by exists stx.
Qed.

(** When a hash determines its transaction, it is the one [tx_map] holds. *)
Lemma live_ptr_map ar o q m p :
  determined ok → map_inv ok m → queue_inv ok ar o q m → p ∈ q → is_dropped ar p = false →
  ∃ stx, m !! stx_hash stx = Some stx ∧ deref ar p = TxDigest_from stx ∧
         slot o (stx_sender stx) (stx_nonce stx) = Some p.
Proof.
  intros Hdet Hm Hq Hp Hl. destruct (live_ptr _ _ _ _ _ Hq Hp Hl) as (stx & Hok & [x Hx] & Ed & Hs).
  destruct (Hm _ _ Hx) as [Eh Hokx]. assert (x = stx) as -> by by apply Hdet. by exists stx.
Qed.

Lemma live_digests_slots ar o q m :
  queue_inv ok ar o q m → NoDup ((λ d, (td_sender d, td_nonce d)) <$> live_digests ar q).
Proof.
  intros Hq. pose proof (qi_nodup _ _ _ _ _ Hq) as Hnd.
  assert (∀ p, p ∈ q → is_dropped ar p = false →
    slot o (td_sender (deref ar p)) (td_nonce (deref ar p)) = Some p) as Hs.
  { intros p Hp Hl. by destruct (live_ptr _ _ _ _ _ Hq Hp Hl) as (stx & _ & _ & -> & Hsl). }
  clear Hq. induction q as [|p q IH]; cbn; [constructor|]. apply NoDup_cons in Hnd as [Hni Hnd].
  specialize (IH Hnd ltac:(intros; apply Hs; [by right|done])).
  destruct (is_dropped ar p) eqn:D; [done|]. cbn. constructor; [|done].
  intros (d & Eh & (p' & Hp' & D' & <-)%live_digests_elem)%list_elem_of_fmap.
  apply Hni. pose proof (Hs p ltac:(left) D) as Hsp. pose proof (Hs p' ltac:(by right) D') as Hsp'.
  injection Eh as E1 E2. rewrite E1, E2 in Hsp. congruence.
Qed.
End use.
