(* ===== verification/PoolProps.v ===== *)
(** * Properties of the transaction pool

    What [PriorityPool] guarantees in the states its operations can reach:
    packages carry one transaction per sender and nonce and the pool is bounded;
    where a hash determines its transaction, packages are retrievable and a
    flush removes what it must and keeps the rest reachable; and where it falls
    short (a resubmitted transaction, the order of a package). *)

From S2P Require Import Prelude Types Codec Traits Heap Pool PoolInv.

Local Open Scope Z_scope.

(** ** Sample transactions *)
Definition sample_pool_tx (hash sender nonce price : Z) : SignedTransaction :=
  mkSignedTransaction
    (mkUnverifiedTransaction (mkTransaction nonce 0 price 21000 (Call 7) 0 [] []) None 5 hash)
    sender None.

(** Hash [h] stands for nonce [h / 16] of sender [h / 4 mod 4], at price
    [h mod 4]. *)
Definition sample_txOf (h : Hash) : SignedTransaction :=
  sample_pool_tx h (h / 4 mod 4) (h / 16) (h mod 4).

Definition sample_pool (n : nat) (hs : list Hash) : PriorityPool :=
  fold_left (λ pool h, fst (pool_insert (sample_txOf h) pool)) hs
    (mkPool [] bucket_new ∅ [] n [] ∅).

Lemma sample_pool_reachable n hs : n ≠ 0%nat → reachable sample_txOf (sample_pool n hs).
Proof.
  intros Hn. unfold sample_pool.
  assert (reachable sample_txOf (mkPool [] bucket_new ∅ [] n [] ∅)) as H.
  { apply reach_new with n. unfold pool_new. by case_decide. }
  revert H. generalize (mkPool [] bucket_new ∅ [] n [] ∅).
  induction hs as [|h hs IH]; intros pool H; cbn [fold_left]; [done|].
  apply IH. eapply reach_step; [exact H|]. by apply step_insert.
Qed.

(** ** Lemmas *)
Lemma drain_queue pool :
  real_queue (drain_co_queue pool) ≡ₚ real_queue pool ++ co_queue pool.
Proof. cbn. by rewrite fold_push_Permutation, Permutation_app_comm. Qed.

Lemma drained_inv ok pool :
  pool_inv ok pool →
  queue_inv ok (arena pool) (occupied_nonce pool) (real_queue (drain_co_queue pool)) (tx_map pool).
Proof.
  intros Hinv. eapply queue_inv_Permutation; [|apply (pi_queue _ _ Hinv)]. by rewrite drain_queue.
Qed.

(** The loop of [flush]: every transaction gets a pointer, and its slot is
    held by a queued pointer from then on. *)
Lemma requeue_slot pool tx s n p :
  slot (occupied_nonce pool) s n = Some p → p ∈ real_queue pool →
  ∃ p', slot (occupied_nonce (requeue pool tx)) s n = Some p' ∧ p' ∈ real_queue (requeue pool tx).
Proof.
  intros Hs Hp. pose proof (occupy_arena pool (TxDigest_from tx)) as E.
  unfold requeue. cbn [alloc fst] in E |- *. rewrite E. cbn -[TxDigest_from heap_push].
  rewrite slot_after. case_decide; eexists; (split; [done|]);
    rewrite heap_push_Permutation; [left|by right].
Qed.

Lemma requeue_new_slot pool tx :
  ∃ p', slot (occupied_nonce (requeue pool tx)) (stx_sender tx) (stx_nonce tx) = Some p' ∧
        p' ∈ real_queue (requeue pool tx).
Proof.
  pose proof (occupy_arena pool (TxDigest_from tx)) as E.
  unfold requeue. cbn [alloc fst] in E |- *. rewrite E. cbn -[TxDigest_from heap_push].
  rewrite slot_after. cbn. rewrite decide_True by done. eexists. split; [done|].
  rewrite heap_push_Permutation. left.
Qed.

Lemma requeue_all_slots l pool s n :
  (∃ tx, tx ∈ l ∧ stx_sender tx = s ∧ stx_nonce tx = n) ∨
  (∃ p, slot (occupied_nonce pool) s n = Some p ∧ p ∈ real_queue pool) →
  ∃ p, slot (occupied_nonce (fold_left requeue l pool)) s n = Some p ∧
       p ∈ real_queue (fold_left requeue l pool).
Proof.
  revert pool. induction l as [|tx l IH]; intros pool [(x & Hx & E1 & E2)|H]; cbn.
  - by apply not_elem_of_nil in Hx.
  - done.
  - apply IH. apply elem_of_cons in Hx as [->|Hx]; [right|left; eauto].
    subst. apply requeue_new_slot.
  - apply IH. right. destruct H as (p & Hs & Hp). by eapply requeue_slot.
Qed.

Lemma requeue_all_frame l pool :
  tx_map (fold_left requeue l pool) = tx_map pool ∧
  co_queue (fold_left requeue l pool) = co_queue pool ∧
  sys_tx_bucket (fold_left requeue l pool) = sys_tx_bucket pool.
Proof. revert pool. induction l as [|tx l IH]; intros pool; cbn [fold_left]; [done|]. apply (IH (requeue pool tx)). Qed.

Lemma flush_frame pool hashes check :
  tx_map (pool_flush pool hashes check) = residual_map pool hashes check ∧
  co_queue (pool_flush pool hashes check) = [] ∧
  sys_tx_bucket (pool_flush pool hashes check) = bucket_flush (sys_tx_bucket pool) hashes.
Proof. apply requeue_all_frame. Qed.

Lemma bucket_flush_removes b hashes h :
  h ∈ hashes ∨ hash_data_map b !! h = None → hash_data_map (bucket_flush b hashes) !! h = None.
Proof.
  unfold bucket_flush. revert b. induction hashes as [|x xs IH]; intros b H; cbn.
  { destruct H as [H|H]; [by apply not_elem_of_nil in H|done]. }
  apply IH. rewrite elem_of_cons in H. destruct (hash_data_map b !! x) as [d|] eqn:E; cbn.
  - rewrite lookup_delete_None. intuition congruence.
  - destruct H as [[->|H]|H]; auto.
Qed.

Lemma package_eq ok pool g n :
  pool_inv ok pool → ∃ sys, bucket_package (sys_tx_bucket pool) = Ok sys ∧
    package g n pool = (drain_co_queue pool,
      Ok (sys ++ take n (live_hashes (arena pool) (real_queue (drain_co_queue pool))))).
Proof.
  intros Hinv. destruct (bucket_package_ok _ _ (pi_bucket _ _ Hinv)) as (sys & Hs & _).
  exists sys. unfold package. by rewrite Hs.
Qed.

Lemma insert_ok_eq pool stx :
  reach_limit pool = false →
  pool_insert stx pool =
  (mkPool (arena_after (arena pool) (occupied_nonce pool) (TxDigest_from stx)) (sys_tx_bucket pool)
     (slots_after (occupied_nonce pool) (TxDigest_from stx) (length (arena pool)))
     (if decide (length (co_queue pool) < co_capacity pool)%nat
      then co_queue pool ++ [length (arena pool)] else co_queue pool)
     (co_capacity pool) (real_queue pool) (<[stx_hash stx := stx]> (tx_map pool)), Ok tt).
Proof.
  intros Hl. unfold pool_insert. rewrite Hl.
  pose proof (occupy_arena pool (TxDigest_from stx)) as E. cbn [alloc fst] in E |- *.
  rewrite occupy_co_push, E. done.
Qed.

(** A live pointer of a pool of genuine transactions stands for the transaction
    of [tx_map] with its hash. *)
Lemma live_genuine txOf pool p :
  pool_inv (genuine txOf) pool → p ∈ (real_queue pool ++ co_queue pool) →
  is_dropped (arena pool) p = false →
  ∃ stx, tx_map pool !! stx_hash stx = Some stx ∧ deref (arena pool) p = TxDigest_from stx ∧
         slot (occupied_nonce pool) (stx_sender stx) (stx_nonce stx) = Some p.
Proof.
  intros Hinv. apply (live_ptr_map (genuine txOf)); [apply genuine_determined|apply Hinv|apply Hinv].
Qed.

(** A live hash of a sender and nonce is that of the pointer in their slot. *)
Lemma live_holds txOf pool s n p h :
  pool_inv (genuine txOf) pool → slot (occupied_nonce pool) s n = Some p →
  h ∈ live_hashes (arena pool) (real_queue pool ++ co_queue pool) →
  stx_sender (txOf h) = s → stx_nonce (txOf h) = n →
  p ∈ (real_queue pool ++ co_queue pool) ∧ h = td_hash (deref (arena pool) p).
Proof.
  intros Hinv Hs (p' & Hp & Hd & <-)%live_hashes_elem.
  destruct (live_genuine _ _ _ Hinv Hp Hd) as (x & Hx & Ed & Hs').
  destruct (pi_map _ _ Hinv _ _ Hx) as [_ Hg]. rewrite Ed. cbn. rewrite Hg. intros <- <-.
  assert (p = p') as -> by congruence. by rewrite Ed.
Qed.

Lemma fresh_slot ok ar o q m s n : queue_inv ok ar o q m → slot o s n ≠ Some (length ar).
Proof.
  intros Hq E. destruct (qi_slot _ _ _ _ _ Hq _ _ _ E) as (d & Hd & _).
  apply lookup_lt_Some in Hd. lia.
Qed.

Lemma slot_after_new o d p : slot (slots_after o d p) (td_sender d) (td_nonce d) = Some p.
Proof. by rewrite slot_after, decide_True. Qed.

(** What a package takes from the queue: submitted transactions, one per sender
    and nonce, whose hashes are keys of [tx_map]. *)
Lemma packaged_txs ok pool limit :
  pool_inv ok pool →
  ∃ stxs, take limit (live_hashes (arena pool) (real_queue (drain_co_queue pool))) = stx_hash <$> stxs ∧
    (length stxs ≤ limit)%nat ∧ NoDup ((λ stx, (stx_sender stx, stx_nonce stx)) <$> stxs) ∧
    ∀ stx, stx ∈ stxs → ok stx ∧ is_Some (tx_map pool !! stx_hash stx).
Proof.
  intros Hinv. pose proof (drained_inv _ _ Hinv) as Hq. set (q := real_queue (drain_co_queue pool)) in *.
  assert (∃ stxs, live_digests (arena pool) q = TxDigest_from <$> stxs ∧
            Forall (λ stx, ok stx ∧ is_Some (tx_map pool !! stx_hash stx)) stxs) as (l & El & Hl).
  { assert (Forall (λ d, ∃ stx, d = TxDigest_from stx ∧ ok stx ∧ is_Some (tx_map pool !! stx_hash stx))
        (live_digests (arena pool) q)) as Hf.
    { apply Forall_forall. intros d (p & Hp & Hlive & <-)%live_digests_elem.
      destruct (live_ptr _ _ _ _ _ _ Hq Hp Hlive) as (stx & Hok & Hm & -> & _). eauto. }
    induction Hf as [|d ds (stx & -> & Hstx) _ (l & -> & Hl)]; [by exists []|].
    exists (stx :: l). by split; [|constructor]. }
  pose proof (live_digests_slots _ _ _ _ _ Hq) as Hnd. rewrite El in Hnd.
  rewrite <-list_fmap_compose in Hnd. exists (take limit l). split_and!.
  - rewrite live_hashes_digests, El, <-list_fmap_compose, fmap_take. done.
  - rewrite length_take. lia.
  - rewrite fmap_take. eapply sublist_NoDup; [exact Hnd|apply sublist_take].
  - intros stx Hx. eapply elem_of_sublist in Hx; [|apply sublist_take]. by eapply Forall_forall in Hl.
Qed.

(** ** Properties *)

(** C1: in every state the pool can reach, whatever was submitted, [package]
    does not panic; it returns one hash for each system script bucket, then at
    most [limit] more, the hashes of submitted transactions no two of which
    share sender and nonce, and each is found by [get_by_hash] under its own
    hash.  When moreover a hash determines the submitted transaction (which the
    pool does not enforce), the system script hashes are distinct and found as
    well, and the transactions found for the others are exactly those of the
    queue, so no two found transactions share sender and nonce. *)
Theorem package_sound ok pool g limit :
  reachable_by ok pool →
  ∃ sys stxs, snd (package g limit pool) = Ok (sys ++ (stx_hash <$> stxs)) ∧
    let found h stx := get_by_hash (fst (package g limit pool)) h = Some stx ∧ stx_hash stx = h in
    length sys = size (tx_buckets (sys_tx_bucket pool)) ∧
    (length stxs ≤ limit)%nat ∧ Forall ok stxs ∧
    NoDup ((λ stx, (stx_sender stx, stx_nonce stx)) <$> stxs) ∧
    (∀ stx, stx ∈ stxs → ∃ stx', found (stx_hash stx) stx') ∧
    (determined ok → NoDup sys ∧ (∀ h, h ∈ sys → ∃ stx, found h stx) ∧
       ∀ stx, stx ∈ stxs → found (stx_hash stx) stx).
Proof.
  intros Hinv%reachable_inv. destruct (package_eq _ _ g limit Hinv) as (sys & Hs & ->).
  destruct (bucket_package_ok _ _ (pi_bucket _ _ Hinv)) as (sys' & Hs' & Hlen & Hdet).
  rewrite Hs in Hs'. injection Hs' as <-. cbn [fst snd].
  destruct (packaged_txs _ _ limit Hinv) as (stxs & Hpk & Hle & Hnd & Hin).
  exists sys, stxs. cbn zeta. rewrite <-Hpk.
  assert (∀ h stx, tx_map pool !! h = Some stx → get_by_hash (drain_co_queue pool) h = Some stx ∧ stx_hash stx = h)
    as Hget.
  { intros h stx E. unfold get_by_hash. cbn [tx_map drain_co_queue]. rewrite E.
    by destruct (pi_map _ _ Hinv _ _ E). }
  split_and!; [done|done|done| |done| |].
  - apply Forall_forall. intros stx Hx. by apply Hin.
  - intros stx Hx. destruct (Hin _ Hx) as [_ [y Hy]]. eauto.
  - intros Hd. destruct (Hdet Hd) as [Hnds Hsys]. split_and!; [done| |].
    + intros h Hh. destruct (Hsys _ Hh) as (stx & Hb & Hx). unfold get_by_hash.
      cbn [tx_map drain_co_queue sys_tx_bucket]. destruct (tx_map pool !! h) as [x|] eqn:E; [|eauto].
      exists x. by destruct (pi_map _ _ Hinv _ _ E).
    + intros stx Hx. destruct (Hin _ Hx) as [Hok [y Hy]]. apply Hget. rewrite Hy.
      destruct (pi_map _ _ Hinv _ _ Hy) as [Eh Hoky]. f_equal. by apply Hd.
Qed.

Lemma package_sound_witness :
  ∃ stxs, snd (package 0 2 (sample_pool 5 [33; 1; 34; 18])) = Ok (stx_hash <$> stxs) ∧ stxs ≠ [] ∧
    (length stxs ≤ 2)%nat ∧ NoDup ((λ stx, (stx_sender stx, stx_nonce stx)) <$> stxs).
Proof.
  destruct (package_sound (genuine sample_txOf) (sample_pool 5 [33; 1; 34; 18]) 0 2
              (sample_pool_reachable 5 [33; 1; 34; 18] ltac:(lia)))
    as (sys & rest & Hp & Hl & Hr & _ & Hnd & _).
  apply length_zero_iff_nil in Hl as ->. exists rest. split_and!; [exact Hp| |exact Hr|exact Hnd].
  intros ->. vm_compute in Hp. discriminate Hp.
Defined.

(** The pool is bounded: it never holds more than its capacity plus one
    transactions, and an insertion into a pool above its capacity changes
    nothing and reports [ReachLimit] with the current length. *)
Theorem pool_bounded txOf pool stx :
  reachable txOf pool →
  (pool_len pool ≤ S (co_capacity pool))%nat ∧ (length (co_queue pool) ≤ co_capacity pool)%nat ∧
  (pool_len pool = S (co_capacity pool) →
     pool_insert stx pool = (pool, Err (PE_Mempool (ReachLimit (Z.of_nat (pool_len pool)))))) ∧
  ((pool_len pool < S (co_capacity pool))%nat → snd (pool_insert stx pool) = Ok tt).
Proof.
  intros Hinv%reachable_inv. pose proof (pi_size _ _ Hinv). pose proof (pi_co _ _ Hinv).
  split_and!; [done..| |]; unfold pool_len; intros Hl.
  - unfold pool_insert, reach_limit, pool_len. rewrite bool_decide_true by lia. done.
  - rewrite insert_ok_eq; [done|]. unfold reach_limit, pool_len. apply bool_decide_eq_false. lia.
Qed.

Lemma pool_bounded_witness :
  pool_insert (sample_txOf 99) (sample_pool 1 [1; 5]) =
  (sample_pool 1 [1; 5], Err (PE_Mempool (ReachLimit 2))).
Proof.
  apply (pool_bounded sample_txOf (sample_pool 1 [1; 5]) (sample_txOf 99)
           (sample_pool_reachable 1 [1; 5] ltac:(lia))).
  vm_compute. reflexivity.
Defined.

(** C25: in a pool of transactions that their hashes determine, a flush keeps
    exactly the transactions that were not flushed, are not the transaction of
    a superseded pointer and pass the nonce check; no flushed hash is contained
    in the pool any more, system script transactions included; and every kept
    transaction's sender and nonce is represented by a live pointer of the
    queue, so it is packaged. *)
Theorem flush_correct txOf pool hashes check :
  reachable txOf pool →
  let pool' := pool_flush pool hashes check in
  (∀ h stx, tx_map pool' !! h = Some stx ↔
     tx_map pool !! h = Some stx ∧ (h ∉ hashes) ∧ check stx = true ∧
     ∀ p, p ∈ (real_queue pool ++ co_queue pool) → is_dropped (arena pool) p = true →
          td_hash (deref (arena pool) p) ≠ h) ∧
  (∀ h, h ∈ hashes → pool_contains pool' h = false) ∧ co_queue pool' = [] ∧
  (∀ h stx, tx_map pool' !! h = Some stx → ∃ h', h' ∈ live_hashes (arena pool') (real_queue pool') ∧
     stx_sender (txOf h') = stx_sender stx ∧ stx_nonce (txOf h') = stx_nonce stx).
Proof.
  intros Hinv%reachable_inv pool'. destruct (flush_frame pool hashes check) as (Em & Ec & Eb).
  pose proof (flush_inv _ _ hashes check Hinv) as Hinv'. fold pool' in Em, Ec, Eb, Hinv'.
  split; [intros; rewrite Em; apply residual_map_lookup|]. split; [|split; [done|]].
  - intros h Hh. unfold pool_contains, bucket_contains. rewrite Eb.
    rewrite bucket_flush_removes by by left. rewrite bool_decide_false; [done|].
    rewrite Em. intros [stx (_ & ? & _)%residual_map_lookup]. done.
  - intros h stx Hh. rewrite Em in Hh.
    destruct (requeue_all_slots (snd <$> map_to_list (residual_map pool hashes check))
      (mkPool (arena pool) (bucket_flush (sys_tx_bucket pool) hashes) ∅ [] (co_capacity pool) []
         (residual_map pool hashes check)) (stx_sender stx) (stx_nonce stx)) as (p & Hs & Hp).
    { left. exists stx. split; [|done]. apply list_elem_of_fmap. exists (h, stx).
      by rewrite elem_of_map_to_list. }
    fold (pool_flush pool hashes check) in Hs, Hp. fold pool' in Hs, Hp.
    destruct (qi_slot _ _ _ _ _ (pi_queue _ _ Hinv') _ _ _ Hs) as (d & Hd & Es & En & Hl).
    exists (td_hash d). split.
    { apply live_hashes_elem. exists p. unfold is_dropped. by rewrite (deref_Some _ _ _ Hd). }
    destruct (live_genuine _ _ p Hinv') as (x & Hx & Ex & _).
    { rewrite elem_of_app. by left. }
    { unfold is_dropped. by rewrite (deref_Some _ _ _ Hd). }
    rewrite (deref_Some _ _ _ Hd) in Ex. subst d. destruct (pi_map _ _ Hinv' _ _ Hx) as [_ Hg].
    cbn in *. by rewrite Hg.
Qed.

Lemma flush_correct_witness :
  pool_contains (pool_flush (sample_pool 5 [1; 5; 9]) [5] (λ _, true)) 5 = false ∧
  ∃ h', h' ∈ live_hashes (arena (pool_flush (sample_pool 5 [1; 5; 9]) [5] (λ _, true)))
               (real_queue (pool_flush (sample_pool 5 [1; 5; 9]) [5] (λ _, true))) ∧
        stx_sender (sample_txOf h') = 2.
Proof.
  destruct (flush_correct sample_txOf (sample_pool 5 [1; 5; 9]) [5] (λ _, true)
    (sample_pool_reachable 5 [1; 5; 9] ltac:(lia))) as (_ & Hc & _ & Hl).
  split; [apply Hc; left|].
  destruct (Hl 9 (sample_txOf 9)) as (h' & Hh & Hs & _); [vm_compute; reflexivity|eauto].
Defined.

(** An accepted transaction takes over its sender's nonce: it is stored,
    and from then on no other transaction of that sender and nonce is live in
    the queues; it is live itself unless [co_queue] was full. *)
Theorem insert_replaces txOf pool stx :
  reachable txOf pool → genuine txOf stx → reach_limit pool = false →
  let pool' := fst (pool_insert stx pool) in
  let live := live_hashes (arena pool') (real_queue pool' ++ co_queue pool') in
  tx_map pool' !! stx_hash stx = Some stx ∧
  (∀ h, h ∈ live → stx_sender (txOf h) = stx_sender stx → stx_nonce (txOf h) = stx_nonce stx →
     h = stx_hash stx) ∧
  (stx_hash stx ∈ live ↔ (length (co_queue pool) < co_capacity pool)%nat).
Proof.
  intros Hinv%reachable_inv Hg Hl pool' live. subst live.
  pose proof (insert_inv _ _ stx Hg Hinv) as Hinv'. fold pool' in Hinv'.
  set (p := length (arena pool)).
  assert (slot (occupied_nonce pool') (stx_sender stx) (stx_nonce stx) = Some p) as Hs.
  { unfold pool'. rewrite insert_ok_eq by done. apply (slot_after_new _ (TxDigest_from stx)). }
  assert (arena pool' !! p = Some (TxDigest_from stx)) as Hd.
  { unfold pool'. rewrite insert_ok_eq by done. eapply arena_after_new, fresh_slot, pi_queue; eauto. }
  assert (p ∉ real_queue pool ++ co_queue pool) as Hfresh.
  { intros Hp%(queue_inv_lt _ _ _ _ _ _ (pi_queue _ _ Hinv)). unfold p in Hp. lia. }
  split; [unfold pool'; rewrite insert_ok_eq by done; apply lookup_insert_eq|]. split.
  - intros h Hh Es En. destruct (live_holds _ _ _ _ _ _ Hinv' Hs Hh Es En) as [_ ->].
    by rewrite (deref_Some _ _ _ Hd).
  - rewrite live_hashes_elem. split.
    + intros Hh%live_hashes_elem. rewrite <-Hg in Hs.
      destruct (live_holds _ _ _ _ _ _ Hinv' Hs Hh eq_refl eq_refl) as [Hp _]. revert Hp.
      unfold pool'. rewrite insert_ok_eq by done. cbn -[decide]. case_decide; done.
    + intros Hlen. exists p. unfold is_dropped. rewrite (deref_Some _ _ _ Hd). split_and!; try done.
      unfold pool'. rewrite insert_ok_eq by done. cbn -[decide]. case_decide; [|done].
      rewrite !elem_of_app, list_elem_of_singleton. by right; right.
Qed.

Lemma insert_replaces_witness :
  let pool' := fst (pool_insert (sample_txOf 2) (sample_pool 5 [1])) in
  stx_nonce (sample_txOf 1) = stx_nonce (sample_txOf 2) ∧
  ∀ h, h ∈ live_hashes (arena pool') (real_queue pool' ++ co_queue pool') →
    stx_sender (sample_txOf h) = 0 → stx_nonce (sample_txOf h) = 0 → h = 2.
Proof.
  split; [vm_compute; reflexivity|].
  apply (insert_replaces sample_txOf (sample_pool 5 [1]) (sample_txOf 2)
    (sample_pool_reachable 5 [1] ltac:(lia)) eq_refl). vm_compute. reflexivity.
Defined.

(** Resubmitting a queued transaction loses it: the second insertion is
    accepted, marks the pointer of the first as dropped, and the next flush,
    whatever it flushes, deletes the transaction by the dropped pointer's
    hash. *)
Theorem duplicate_insert_lost txOf pool stx hashes check :
  reachable txOf pool → genuine txOf stx → reach_limit pool = false →
  stx_hash stx ∈ live_hashes (arena pool) (real_queue pool ++ co_queue pool) →
  snd (pool_insert stx pool) = Ok tt ∧
  tx_map (pool_flush (fst (pool_insert stx pool)) hashes check) !! stx_hash stx = None.
Proof.
  intros Hinv%reachable_inv Hg Hl (p & Hp & Hd & Eh)%live_hashes_elem.
  destruct (live_genuine _ _ _ Hinv Hp Hd) as (x & Hx & Ed & Hs).
  assert (x = stx) as ->.
  { destruct (pi_map _ _ Hinv _ _ Hx) as [_ Hgx]. rewrite Ed in Eh. cbn in Eh. unfold genuine in *. congruence. }
  destruct (qi_ptr _ _ _ _ _ (pi_queue _ _ Hinv) p Hp) as (d & Hdp & _).
  rewrite (deref_Some _ _ _ Hdp) in Ed. subst d.
  rewrite insert_ok_eq by done. split; [done|]. cbn [fst].
  destruct (flush_frame (fst (pool_insert stx pool)) hashes check) as (Em & _).
  rewrite insert_ok_eq in Em by done. cbn [fst] in Em. rewrite Em. apply eq_None_not_Some.
  intros [y Hy]. apply residual_map_lookup in Hy as (_ & _ & _ & Hy).
  apply (Hy p); cbn -[decide TxDigest_from].
  - revert Hp. rewrite !elem_of_app. case_decide; rewrite ?elem_of_app; tauto.
  - unfold is_dropped. erewrite deref_Some by (by apply arena_after_old).
    by rewrite decide_True.
  - erewrite deref_Some by (by apply arena_after_old). by rewrite decide_True.
Qed.

Lemma duplicate_insert_lost_witness :
  snd (pool_insert (sample_txOf 1) (sample_pool 5 [1])) = Ok tt ∧
  tx_map (pool_flush (fst (pool_insert (sample_txOf 1) (sample_pool 5 [1]))) [] (λ _, true)) !! 1 = None.
Proof.
  apply (duplicate_insert_lost sample_txOf (sample_pool 5 [1]) (sample_txOf 1) [] (λ _, true)
    (sample_pool_reachable 5 [1] ltac:(lia)) eq_refl); vm_compute; [reflexivity|left].
Defined.

(** [get_tx_count_by_address] is the number of nonces the sender
    occupies: no occupied nonce is held by a dropped pointer. *)
Theorem tx_count_exact txOf pool address :
  reachable txOf pool →
  get_tx_count_by_address pool address =
  size (default ∅ (occupied_nonce pool !! address)).
Proof.
  intros Hinv%reachable_inv. unfold get_tx_count_by_address.
  destruct (occupied_nonce pool !! address) as [m|] eqn:E; cbn; [|by rewrite map_size_empty].
  rewrite filter_all; [apply length_map_to_list|].
  intros [n p] Hnp%elem_of_map_to_list. cbn. unfold is_dropped.
  destruct (qi_slot _ _ _ _ _ (pi_queue _ _ Hinv) address n p) as (d & Hd & _ & _ & Hl).
  { unfold slot. by rewrite E. }
  by rewrite (deref_Some _ _ _ Hd).
Qed.

Lemma tx_count_exact_witness :
  get_tx_count_by_address (sample_pool 5 [1; 17; 2; 5]) 0 = 2%nat.
Proof.
  rewrite (tx_count_exact sample_txOf (sample_pool 5 [1; 17; 2; 5]) 0
    (sample_pool_reachable 5 [1; 17; 2; 5] ltac:(lia))). vm_compute. reflexivity.
Defined.

(** The queue is a heap on (gas price, then lower nonce): when the
    transaction at its top has not been superseded, it is packaged first and
    has at least the priority of every other packaged transaction. *)
Theorem package_head_best txOf pool g limit top :
  reachable txOf pool → real_queue (drain_co_queue pool) !! 0%nat = Some top →
  is_dropped (arena pool) top = false → limit ≠ 0%nat →
  ∃ sys h rest, bucket_package (sys_tx_bucket pool) = Ok sys ∧
    snd (package g limit pool) = Ok (sys ++ h :: rest) ∧
    ∀ h', h' ∈ rest → TxDigest_le (TxDigest_from (txOf h')) (TxDigest_from (txOf h)) = true.
Proof.
  intros Hinv%reachable_inv Htop Hlive Hlim.
  destruct (package_eq _ _ g limit Hinv) as (sys & Hs & ->). cbn [snd].
  pose proof (drained_inv _ _ Hinv) as Hq. pose proof (pi_heap _ _ (drain_inv _ _ Hinv)) as Hheap.
  destruct (real_queue (drain_co_queue pool)) as [|p q]; [done|]. injection Htop as ->.
  assert (∀ p, p ∈ top :: q → is_dropped (arena pool) p = false →
    TxDigest_from (txOf (td_hash (deref (arena pool) p))) = deref (arena pool) p) as Hdig.
  { intros p' Hp' Hl. 
    destruct (live_ptr_map _ _ _ _ _ _ (genuine_determined _) (pi_map _ _ Hinv) Hq Hp' Hl) as (x & Hx & Ex & _).
    rewrite Ex. cbn. destruct (pi_map _ _ Hinv _ _ Hx) as [_ Hg]. by rewrite Hg. }
  destruct limit as [|n]; [done|]. exists sys, (td_hash (deref (arena pool) top)).
  exists (take n (live_hashes (arena pool) q)).
  unfold live_hashes at 1. cbn -[drain_co_queue]. rewrite Hlive. split_and!; [done..|].
  intros h' Hh'. eapply elem_of_sublist in Hh'; [|apply sublist_take].
  apply live_hashes_elem in Hh' as (p' & Hp' & Hl & <-).
  rewrite !Hdig by (done || by (left || right)).
  apply list_elem_of_lookup in Hp' as [i Hi].
  by apply (heap_head_max (ptr_le (arena pool)) (ptr_le_trans _) _ top (S i) p' Hheap (ptr_le_refl _ _)).
Qed.

Lemma package_head_best_witness :
  ∃ h rest, snd (package 0 3 (sample_pool 5 [1; 7; 10])) = Ok (h :: rest) ∧
    ∀ h', h' ∈ rest → TxDigest_le (TxDigest_from (sample_txOf h')) (TxDigest_from (sample_txOf h)) = true.
Proof.
  destruct (package_head_best sample_txOf (sample_pool 5 [1; 7; 10]) 0 3 1%nat
    (sample_pool_reachable 5 [1; 7; 10] ltac:(lia))) as (sys & h & rest & Hs & Hp & Hle);
    [vm_compute; reflexivity..|done|].
  vm_compute in Hs. injection Hs as <-. by exists h, rest.
Defined.

(** Beyond its head a package does not follow the priority: the heap is
    read in storage order, so with a limit a transaction is left out in favour
    of a cheaper one. *)
Theorem package_not_by_priority :
  snd (package 0 2 (sample_pool 5 [3; 5; 10])) = Ok [3; 5] ∧
  TxDigest_le (TxDigest_from (sample_txOf 10)) (TxDigest_from (sample_txOf 5)) = false ∧
  pool_contains (sample_pool 5 [3; 5; 10]) 10 = true.
Proof. vm_compute. done. Qed.
