(* ===== verification/Executor.v ===== *)
(** * Executor

    [core/executor/src]: the native token script every system transaction runs
    ([system.rs]), over the [Backend]/[ApplyBackend] traits of the [evm] crate,
    of which class [Backend] keeps the calls made here; the state trie handle
    ([adapter/trie.rs]), the world state the EVM runs on ([adapter/mod.rs]), the
    EVM driver ([vm.rs]) and [AxonExecutor] ([lib.rs]).  The [cita_trie] crate is
    class [PatriciaTrie] with its documented behaviour as laws about the
    key-value content of a trie; the [evm] crate is class [Evm]; the Merkle tree
    crate is class [StaticMerkleTree]. *)

From S2P Require Import Prelude Types Codec Traits.

Local Open Scope Z_scope.

(** [evm::backend::{Basic, Apply}] *)
Record Basic := mkBasic { basic_balance : U256; basic_nonce : U256 }.

Inductive Apply : Type :=
| Modify (address : H160) (basic : Basic) (code : option bytes) (storage : list (H256 * H256))
    (reset_storage : bool)
| Delete (address : H160).

Class Backend (B : Type) := {
  be_basic : B → H160 → Basic;
  be_apply : list Apply → list Log → bool → M B ProtocolError unit
}.

Definition NATIVE_TOKEN_ISSUE_ADDRESS : H160 := 2 ^ 160 - 1.

(** [core/executor/src/lib.rs] *)
Definition is_call_system_script (action : TransactionAction) : bool :=
  match action with
  | Call addr => addr =? NATIVE_TOKEN_ISSUE_ADDRESS
  | Create => false
  end.

Inductive SystemScriptCategory : Type := NativeToken.

Definition classify_script (action : TransactionAction) : ProtocolResult SystemScriptCategory :=
  match action with
  | Call _addr => Ok NativeToken
  | Create => Panic
  end.

Definition revert_resp (gas_limit : U256) : ProtocolResult TxResp :=
  g ← u256_sub gas_limit 1;
  remain ← as_u64 g;
  Ok (mkTxResp (Revert Reverted) [] 1 remain [] None).

Section exec.
Context `{R : Rlp} {B : Type} `{!Backend B}.

Definition call_native_token (stx : SignedTransaction) : M B ProtocolError TxResp :=
  let tx := utx_unsigned (stx_transaction stx) in
  match tx_data tx with
  | dir :: rest =>
      if (Nat.ltb (length (dir :: rest)) 21 || (1 <? Z_of_byte dir))%bool
      then lift (revert_resp (tx_gas_limit tx)) else
      let direction := Z_of_byte dir =? 0 in
      let l2_addr := from_be_bytes (take 20 rest) in
      account ← gets (λ b, be_basic b l2_addr);
      if (negb direction && (basic_balance account <? tx_value tx))%bool
      then lift (revert_resp (tx_gas_limit tx)) else
      balance ← lift (if direction then u256_add (basic_balance account) (tx_value tx)
                      else u256_sub (basic_balance account) (tx_value tx));
      nonce ← lift (u256_add (basic_nonce account) 1);
      be_apply [Modify l2_addr (mkBasic balance nonce) None [] false] [] false;;
      remain ← lift (as_u64 (tx_gas_limit tx));
      mret (mkTxResp (Succeed Returned) (encode c_u256 balance) 0 remain [] None)
  | [] => lift (revert_resp (tx_gas_limit tx))
  end.

Definition sys_inner_exec (tx : SignedTransaction) : M B ProtocolError TxResp :=
  category ← lift (classify_script (stx_action tx));
  match category with
  | NativeToken => call_native_token tx
  end.
End exec.

(** ** [cita_trie] *)
Class PatriciaTrie := {
  trie_db : Type;
  ptrie : Type;
  pt_new : ptrie;
  pt_from : trie_db → Hash → outcome Z ptrie;
  pt_get : trie_db → ptrie → bytes → outcome Z (option bytes);
  pt_contains : trie_db → ptrie → bytes → outcome Z bool;
  pt_insert : trie_db → ptrie → bytes → bytes → outcome Z ptrie;
  pt_remove : trie_db → ptrie → bytes → outcome Z (ptrie * bool);
  pt_root : trie_db → ptrie → trie_db * outcome Z (ptrie * Hash);

  (** The content of a trie whose nodes are all present. *)
  pt_view : trie_db → ptrie → option (gmap bytes bytes);

  pt_view_new d : pt_view d pt_new = Some ∅;
  (** [RLP_NULL] is the root of the empty trie: a database that has no node for
      it reports an error, and one that has opens the empty trie. *)
  pt_from_null d :
    match pt_from d RLP_NULL with Ok t => pt_view d t = Some ∅ | Err _ => True | Panic => False end;
  pt_get_view d t m k : pt_view d t = Some m → pt_get d t k = Ok (m !! k);
  pt_contains_view d t m k :
    pt_view d t = Some m → pt_contains d t k = Ok (bool_decide (is_Some (m !! k)));
  pt_insert_view d t m k v :
    pt_view d t = Some m → v ≠ [] →
    ∃ t', pt_insert d t k v = Ok t' ∧ pt_view d t' = Some (<[k := v]> m);
  pt_remove_view d t m k :
    pt_view d t = Some m →
    ∃ t', pt_remove d t k = Ok (t', bool_decide (is_Some (m !! k))) ∧
          pt_view d t' = Some (delete k m);
  (** A committed root opens the same content from then on.  Roots are opaque
      identifiers here: two contents never share one, so no width is assumed
      of them. *)
  pt_root_view d t m :
    pt_view d t = Some m →
    ∃ d' t' r, pt_root d t = (d', Ok (t', r)) ∧ pt_view d' t' = Some m ∧
      (∃ t'', pt_from d' r = Ok t'' ∧ pt_view d' t'' = Some m) ∧
      (r = RLP_NULL ↔ m = ∅) ∧
      (∀ r0 t0 m0, pt_from d r0 = Ok t0 → pt_view d t0 = Some m0 →
         ∃ t1, pt_from d' r0 = Ok t1 ∧ pt_view d' t1 = Some m0) ∧
      (∀ t0 m0, pt_view d t0 = Some m0 → pt_view d' t0 = Some m0)
}.

(** ** [evm] *)
Record EvmCall := mkEvmCall {
  ev_caller : H160;
  ev_to : option H160;
  ev_value : U256;
  ev_data : bytes;
  ev_gas_limit : Z;
  ev_access_list : list (H160 * list H256);
  ev_precompiles : bool
}.

(** What the stack executor leaves: its exit, [gas()], [used_gas()], and the
    state changes [into_state().deconstruct()] yields. *)
Record EvmResult := mkEvmResult {
  er_exit : ExitReason;
  er_ret : bytes;
  er_gas : Z;
  er_used_gas : Z;
  er_values : list Apply;
  er_evm_logs : list Log;
  er_create_address : H160
}.

Class Evm (B : Type) := { transact : B → EvmCall → EvmResult }.

(** [static_merkle_tree::Tree::from_hashes(..).get_root_hash()] *)
Class StaticMerkleTree := { tree_root_hash : (Hash → Hash → Hash) → list Hash → option Hash }.

Section merkle.
Context `{K : Keccak} `{!StaticMerkleTree}.

(** [common/merkle/src/lib.rs] *)
Definition merge (left right : Hash) : Hash := digest (to_be_bytes 32 left ++ to_be_bytes 32 right).
Definition merkle_root (hashes : list Hash) : option Hash := tree_root_hash merge hashes.
End merkle.

(** [MPTTrieError] as a [ProtocolError] *)
Definition trie_err (code : Z) : ProtocolError := PE_Executor code.
Definition RemoveFailed : Z := -1.

Section trie.
Context `{!PatriciaTrie}.

Record MPTTrie := mkMPT { mpt_root : MerkleRoot; mpt_trie : ptrie }.

Definition MPTTrie_new : MPTTrie := mkMPT 0 pt_new.
Definition MPTTrie_from_root (root : MerkleRoot) (db : trie_db) : ProtocolResult MPTTrie :=
  t ← map_err trie_err (pt_from db root); Ok (mkMPT root t).
Definition MPTTrie_get (db : trie_db) (t : MPTTrie) (key : bytes) : ProtocolResult (option bytes) :=
  map_err trie_err (pt_get db (mpt_trie t) key).
Definition MPTTrie_contains (db : trie_db) (t : MPTTrie) (key : bytes) : ProtocolResult bool :=
  map_err trie_err (pt_contains db (mpt_trie t) key).
Definition MPTTrie_insert (db : trie_db) (t : MPTTrie) (key value : bytes) : ProtocolResult MPTTrie :=
  t' ← map_err trie_err (pt_insert db (mpt_trie t) key value); Ok (mkMPT (mpt_root t) t').

(** [remove] also hands back the handle: the key is gone even when the caller
    is told it was not there. *)
Definition MPTTrie_remove (db : trie_db) (t : MPTTrie) (key : bytes)
    : MPTTrie * ProtocolResult unit :=
  match pt_remove db (mpt_trie t) key with
  | Ok (t', true) => (mkMPT (mpt_root t) t', Ok tt)
  | Ok (t', false) => (mkMPT (mpt_root t) t', Err (trie_err RemoveFailed))
  | Err e => (t, Err (trie_err e))
  | Panic => (t, Panic)
  end.
Definition MPTTrie_commit (db : trie_db) (t : MPTTrie) : trie_db * MPTTrie * ProtocolResult MerkleRoot :=
  match pt_root db (mpt_trie t) with
  | (db', Ok (t', root)) => (db', mkMPT root t', Ok root)
  | (db', Err e) => (db', t, Err (trie_err e))
  | (db', Panic) => (db', t, Panic)
  end.
End trie.

(** ** [adapter/mod.rs] *)
Section adapter.
Context `{R : Rlp} `{K : Keccak} `{!PatriciaTrie} {St : Type} `{!Storage St}.

Record AxonExecutorAdapter := mkExecAdapter {
  exec_ctx : ExecutorContext;
  ea_trie : MPTTrie;
  ea_storage : St;
  ea_db : trie_db
}.

Definition set_ea_trie (a : AxonExecutorAdapter) (db : trie_db) (t : MPTTrie) : AxonExecutorAdapter :=
  mkExecAdapter (exec_ctx a) t (ea_storage a) db.

Definition address_bytes (a : H160) : bytes := to_be_bytes 20 a.

(** [Account::decode(raw)] as a [ProtocolResult] *)
Definition account_decode (raw : bytes) : ProtocolResult Account :=
  map_err PE_Codec (decode c_account raw).

(** [res.unwrap()] *)
Definition expect {A} (o : ProtocolResult A) : ProtocolResult A :=
  match o with Err _ => Panic | _ => o end.

Definition empty_account : Account := mkAccount 0 0 RLP_NULL NIL_DATA.

(** [impl ExecutorAdapter] *)
Definition set_gas_price (gas_price : U256) (a : AxonExecutorAdapter) : AxonExecutorAdapter :=
  let c := exec_ctx a in
  mkExecAdapter (mkExecutorContext (ec_block_number c) (ec_block_hash c) (ec_block_coinbase c)
    (ec_block_timestamp c) (ec_chain_id c) (ec_difficulty c) (ec_origin c) gas_price
    (ec_block_gas_limit c) (ec_block_base_fee_per_gas c) (ec_logs c))
    (ea_trie a) (ea_storage a) (ea_db a).

Definition set_logs (logs : list Log) (a : AxonExecutorAdapter) : AxonExecutorAdapter :=
  let c := exec_ctx a in
  mkExecAdapter (mkExecutorContext (ec_block_number c) (ec_block_hash c) (ec_block_coinbase c)
    (ec_block_timestamp c) (ec_chain_id c) (ec_difficulty c) (ec_origin c) (ec_gas_price c)
    (ec_block_gas_limit c) (ec_block_base_fee_per_gas c) logs)
    (ea_trie a) (ea_storage a) (ea_db a).

Definition get_logs : M AxonExecutorAdapter ProtocolError (list Log) := λ a,
  (set_logs [] a, Ok (ec_logs (exec_ctx a))).

Definition state_root (a : AxonExecutorAdapter) : MerkleRoot := mpt_root (ea_trie a).

Definition adapter_get (a : AxonExecutorAdapter) (key : bytes) : option bytes :=
  match MPTTrie_get (ea_db a) (ea_trie a) key with Ok o => o | _ => None end.

(** [impl Backend] *)
Definition exists_account (a : AxonExecutorAdapter) (address : H160) : bool :=
  match MPTTrie_contains (ea_db a) (ea_trie a) (address_bytes address) with
  | Ok b => b
  | _ => false
  end.

Definition basic (a : AxonExecutorAdapter) (address : H160) : Basic :=
  match MPTTrie_get (ea_db a) (ea_trie a) (address_bytes address) with
  | Ok (Some raw) =>
      match account_decode raw with
      | Ok account => mkBasic (acc_balance account) (acc_nonce account)
      | _ => mkBasic 0 0
      end
  | _ => mkBasic 0 0
  end.

Definition code (address : H160) : M AxonExecutorAdapter ProtocolError bytes := λ a,
  match expect (MPTTrie_get (ea_db a) (ea_trie a) (address_bytes address)) with
  | Ok (Some raw) =>
      match expect (account_decode raw) with
      | Ok account =>
          if acc_code_hash account =? NIL_DATA then (a, Ok [])
          else match st_get_code_by_hash ∅ (acc_code_hash account) (ea_storage a) with
               | (s, o) => (mkExecAdapter (exec_ctx a) (ea_trie a) s (ea_db a),
                            r ← expect o; unwrap r)
               end
      | _ => (a, Panic)
      end
  | Ok None => (a, Ok [])
  | _ => (a, Panic)
  end.

(** [H256::from_slice] panics on another length than 32. *)
Definition h256_from_slice (b : bytes) : ProtocolResult H256 :=
  if decide (length b = 32%nat) then Ok (from_be_bytes b) else Panic.

Definition storage (a : AxonExecutorAdapter) (address : H160) (index : H256) : ProtocolResult H256 :=
  match MPTTrie_get (ea_db a) (ea_trie a) (address_bytes address) with
  | Ok (Some raw) =>
      match account_decode raw with
      | Ok account =>
          if acc_storage_root account =? RLP_NULL then Ok 0
          else match MPTTrie_from_root (acc_storage_root account) (ea_db a) with
               | Ok trie => match MPTTrie_get (ea_db a) trie (to_be_bytes 32 index) with
                            | Ok (Some res) => h256_from_slice res
                            | _ => Ok 0
                            end
               | _ => Ok 0
               end
      | _ => Ok 0
      end
  | _ => Ok 0
  end.

(** The inner [apply]: one account rewritten; the result is whether it is
    empty. *)
Definition insert_slots (db : trie_db) (t : MPTTrie) (slots : list (H256 * H256)) : MPTTrie :=
  fold_left (λ t kv,
    match MPTTrie_insert db t (to_be_bytes 32 kv.1) (to_be_bytes 32 kv.2) with
    | Ok t' => t'
    | _ => t
    end) slots t.

Definition old_account_of (a : AxonExecutorAdapter) (address : H160) : ProtocolResult Account :=
  match MPTTrie_get (ea_db a) (ea_trie a) (address_bytes address) with
  | Ok (Some raw) => expect (account_decode raw)
  | _ => Ok empty_account
  end.

Definition open_storage (a : AxonExecutorAdapter) (old : Account) (reset_storage : bool)
    : ProtocolResult MPTTrie :=
  let storage_root := if reset_storage then RLP_NULL else acc_storage_root old in
  if storage_root =? RLP_NULL then Ok MPTTrie_new
  else expect (MPTTrie_from_root (acc_storage_root old) (ea_db a)).

(** The new code, stored when its hash changed. *)
Definition store_code (address : H160) (old_hash : Hash) (code : option bytes)
    : M AxonExecutorAdapter ProtocolError Hash := λ a,
  match code with
  | Some c =>
      let new_code_hash := digest c in
      if new_code_hash =? old_hash then (a, Ok old_hash)
      else match st_insert_code ∅ address new_code_hash c (ea_storage a) with
           | (s, o) => (mkExecAdapter (exec_ctx a) (ea_trie a) s (ea_db a),
                        _ ← expect o; Ok new_code_hash)
           end
  | None => (a, Ok old_hash)
  end.

(** [self.trie.insert(..).unwrap(); self.trie.commit().unwrap()] *)
Definition put_account (address : H160) (account : Account)
    : M AxonExecutorAdapter ProtocolError unit := λ a,
  match expect (MPTTrie_insert (ea_db a) (ea_trie a) (address_bytes address)
                  (encode c_account account)) with
  | Ok t =>
      let '(db, t, r) := MPTTrie_commit (ea_db a) t in
      (set_ea_trie a db t, _ ← expect r; Ok tt)
  | Err e => (a, Err e)
  | Panic => (a, Panic)
  end.

Definition apply_account (address : H160) (basic : Basic) (code : option bytes)
    (slots : list (H256 * H256)) (reset_storage : bool) : M AxonExecutorAdapter ProtocolError bool :=
  a ← gets id;
  old_account ← lift (old_account_of a address);
  storage_trie ← lift (open_storage a old_account reset_storage);
  let storage_trie := insert_slots (ea_db a) storage_trie slots in
  let '(db, storage_trie, r) := MPTTrie_commit (ea_db a) storage_trie in
  new_storage_root ← lift (match r with Ok root => Ok root | Err _ => Ok RLP_NULL | Panic => Panic end);
  modify (λ a, set_ea_trie a db (ea_trie a));;
  code_hash ← store_code address (acc_code_hash old_account) code;
  let new_account :=
    mkAccount (basic_nonce basic) (basic_balance basic) new_storage_root code_hash in
  put_account address new_account;;
  mret ((basic_balance basic =? 0) && (basic_nonce basic =? 0) && (code_hash =? 0)).

(** [self.trie.remove(..).unwrap(); self.trie.commit().unwrap()] *)
Definition remove_account (address : H160) : M AxonExecutorAdapter ProtocolError unit := λ a,
  match MPTTrie_remove (ea_db a) (ea_trie a) (address_bytes address) with
  | (t, Ok tt) =>
      let '(db, t, r) := MPTTrie_commit (ea_db a) t in
      (set_ea_trie a db t, _ ← expect r; Ok tt)
  | (t, _) => (set_ea_trie a (ea_db a) t, Panic)
  end.

Definition apply_value (delete_empty : bool) (v : Apply) : M AxonExecutorAdapter ProtocolError unit :=
  match v with
  | Modify address basic code slots reset_storage =>
      is_empty ← apply_account address basic code slots reset_storage;
      if (is_empty && delete_empty)%bool then remove_account address else mret tt
  | Delete address => λ a,
      match MPTTrie_remove (ea_db a) (ea_trie a) (address_bytes address) with
      | (t, Panic) => (set_ea_trie a (ea_db a) t, Panic)
      | (t, _) => (set_ea_trie a (ea_db a) t, Ok tt)
      end
  end.

(** [impl ApplyBackend] *)
Definition backend_apply (values : list Apply) (logs : list Log) (delete_empty : bool)
    : M AxonExecutorAdapter ProtocolError unit :=
  for_each (apply_value delete_empty) values;;
  modify (set_logs logs).

#[global] Instance exec_backend : Backend AxonExecutorAdapter := {|
  be_basic := basic;
  be_apply := backend_apply |}.

Definition ExecutorAdapter_from_root (state_root : MerkleRoot) (db : trie_db) (storage : St)
    (ctx : ExecutorContext) : ProtocolResult AxonExecutorAdapter :=
  trie ← MPTTrie_from_root state_root db;
  Ok (mkExecAdapter ctx trie storage db).

Definition ExecutorAdapter_new (db : trie_db) (storage : St) (ctx : ExecutorContext)
    : AxonExecutorAdapter := mkExecAdapter ctx MPTTrie_new storage db.
End adapter.
Arguments AxonExecutorAdapter {_} St.

(** ** [vm.rs] and [lib.rs] *)
Section executor.
Context `{R : Rlp} `{K : Keccak} `{!StaticMerkleTree} `{!PatriciaTrie} {St : Type} `{!Storage St}
  `{!Evm (AxonExecutorAdapter St)}.
Local Abbreviation adapter := (AxonExecutorAdapter St).

Definition code_address (sender : H160) (nonce : U256) : H256 :=
  digest (rlp_out (rlp_list [enc c_h160 sender; enc c_u256 nonce])).

Definition evm_call_of (tx : SignedTransaction) (gas_limit : Z) : EvmCall :=
  let t := utx_unsigned (stx_transaction tx) in
  mkEvmCall (stx_sender tx) (get_to tx) (tx_value t) (tx_data t) gas_limit
    (map (λ x, (ali_address x, ali_storage_keys x)) (tx_access_list t)) true.

(** [EvmExecutor::inner_exec]: the state changes are applied only when the
    EVM exits with success. *)
Definition evm_inner_exec (tx : SignedTransaction) : M adapter ProtocolError TxResp :=
  backend ← gets id;
  let old_nonce := basic_nonce (basic backend (stx_sender tx)) in
  gas_limit ← lift (as_u64 (tx_gas_limit (utx_unsigned (stx_transaction tx))));
  let r := transact backend (evm_call_of tx gas_limit) in
  code_address ←
    (if is_succeed (er_exit r) then
       backend_apply (er_values r) (er_evm_logs r) true;;
       mret (if decide (stx_action tx = Create) then Some (code_address (stx_sender tx) old_nonce)
             else None)
     else mret None);
  mret (mkTxResp (er_exit r) (er_ret r) (er_used_gas r) (er_gas r) [] code_address).

(** One turn of the loop of [exec]. *)
Definition exec_one (tx : SignedTransaction) : M adapter ProtocolError TxResp :=
  modify (set_gas_price (stx_gas_price tx));;
  r ← (if is_call_system_script (stx_action tx) then sys_inner_exec tx else evm_inner_exec tx);
  logs ← get_logs;
  mret (mkTxResp (tr_exit_reason r) (tr_ret r) (tr_gas_used r) (tr_remain_gas r) logs
          (tr_code_address r)).

(** The loop: [gas_use] is a [u64]. *)
Fixpoint exec_loop (txs : list SignedTransaction) (res : list TxResp) (gas_use : Z)
    : M adapter ProtocolError (list TxResp * Z) :=
  match txs with
  | [] => mret (res, gas_use)
  | tx :: txs' =>
      r ← exec_one tx;
      gas_use ← lift (u64_add gas_use (tr_gas_used r));
      exec_loop txs' (res ++ [r]) gas_use
  end.

Definition exec (txs : list SignedTransaction) : M adapter ProtocolError ExecResp :=
  '(res, gas_use) ← exec_loop txs [] 0;
  root ← gets state_root;
  mret (mkExecResp root (default 0 (merkle_root (map (λ r, digest (tr_ret r)) res))) gas_use res).

(** [AxonExecutor::call]: a query, its state changes dropped. *)
Definition call (backend : adapter) (from to : option H160) (data : bytes) : TxResp :=
  let r := transact backend (mkEvmCall (default 0 from) to 0 data (2 ^ 64 - 1) [] false) in
  mkTxResp (er_exit r) (er_ret r) (er_used_gas r) (er_gas r) []
    (match to with None => Some (er_create_address r) | Some _ => None end).

Definition get_account (backend : adapter) (address : H160) : ProtocolResult Account :=
  match adapter_get backend (address_bytes address) with
  | Some raw => expect (account_decode raw)
  | None => Ok empty_account
  end.
End executor.

(** [From<Proposal> for ExecutorContext], [From<&Header>] *)
Section context.
Context `{R : Rlp} `{K : Keccak}.

Definition ExecutorContext_from_Proposal (h : Proposal) : ExecutorContext :=
  mkExecutorContext (p_number h) (digest (encode Proposal_codec h)) (p_proposer h) (p_timestamp h)
    (p_chain_id h) 1 (p_proposer h) 1 (p_gas_limit h) (p_base_fee_per_gas h) [].

Definition ExecutorContext_from_Header (h : Header) : ExecutorContext :=
  mkExecutorContext (h_number h) (digest (encode Header_codec h)) (h_proposer h) (h_timestamp h)
    (h_chain_id h) 1 (h_proposer h) 1 (h_gas_limit h) (h_base_fee_per_gas h) [].
End context.
