(* ===== verification/MemPool.v ===== *)
(** * Mempool

    [core/mempool/src/lib.rs], [context.rs] and the message handlers of
    [adapter/message.rs].  Class [MemPoolAdapter] is the trait of
    [protocol/src/traits/mempool.rs]; [MemPoolImpl] is written against it and
    its state holds the pool and the adapter.  Tasks given to [tokio::spawn] run
    in the order they are spawned, and a task that panics is a [JoinError] of
    its handle, not a panic of the spawner. *)

From S2P Require Import Prelude Types Codec Traits Heap Pool Executor.

Local Open Scope Z_scope.

(** ** [context.rs] *)

Definition TXS_ORIGINAL_KEY : string := "txs_original".
Definition NETWORK_TXS : Z := 1.

Definition mark_network_origin_new_txs (ctx : Context) : Context :=
  <[TXS_ORIGINAL_KEY := NETWORK_TXS]> ctx.
Definition is_network_origin_txs (ctx : Context) : bool :=
  bool_decide (ctx !! TXS_ORIGINAL_KEY = Some NETWORK_TXS).

(** ** The adapter trait *)
Class MemPoolAdapter (A : Type) := {
  pull_txs : Context → option Z → list Hash → M A ProtocolError (list SignedTransaction);
  broadcast_tx : Context → SignedTransaction → M A ProtocolError unit;
  check_authorization : Context → SignedTransaction → M A ProtocolError unit;
  check_transaction : Context → SignedTransaction → M A ProtocolError unit;
  check_storage_exist : Context → Hash → M A ProtocolError unit;
  get_latest_height : Context → M A ProtocolError Z;
  get_transactions_from_storage :
    Context → option Z → list Hash → M A ProtocolError (list (option SignedTransaction));
  adapter_set_args : Context → MerkleRoot → Z → Z → M A ProtocolError unit;
  report_good : Context → M A ProtocolError unit
}.

Record MemPoolImpl (A : Type) := mkMemPool { mp_pool : PriorityPool; mp_adapter : A }.
Arguments mkMemPool {A} mp_pool mp_adapter.
Arguments mp_pool {A} m.
Arguments mp_adapter {A} m.

Definition check_dup_order_hashes (order_tx_hashes : list Hash) : ProtocolResult unit :=
  (fix go (dup_set : gset Hash) (l : list Hash) : ProtocolResult unit :=
     match l with
     | [] => Ok tt
     | hash :: l' =>
         if decide (hash ∈ dup_set) then Err (PE_Mempool (EnsureDup hash))
         else go ({[hash]} ∪ dup_set) l'
     end) ∅ order_tx_hashes.

Section mempool.
Context {A : Type} `{!MemPoolAdapter A}.

Definition on_adapter {X} (m : M A ProtocolError X) : M (MemPoolImpl A) ProtocolError X :=
  zoom mp_adapter (λ a s, mkMemPool (mp_pool s) a) m.
Definition on_pool {X} (m : M PriorityPool ProtocolError X) : M (MemPoolImpl A) ProtocolError X :=
  zoom mp_pool (λ p s, mkMemPool p (mp_adapter s)) m.

Definition show_unknown_txs (pool : PriorityPool) (tx_hashes : list Hash) : list Hash :=
  filter (λ hash, pool_contains pool hash = false) tx_hashes.

Definition initial_insert (ctx : Context) (stx : SignedTransaction)
    : M (MemPoolImpl A) ProtocolError unit :=
  on_adapter (check_storage_exist ctx (stx_hash stx));;
  on_pool (pool_insert stx).

(** [MemPoolImpl::new]: a refused initial transaction is only logged. *)
Definition mempool_new (pool_size : nat) (adapter : A) (initial_txs : list SignedTransaction)
    : ProtocolResult (MemPoolImpl A) :=
  pool ← pool_new pool_size;
  match for_each (λ tx, try (initial_insert ∅ tx);; mret tt) initial_txs (mkMemPool pool adapter) with
  | (s, Panic) => Panic
  | (s, _) => Ok s
  end.

Definition insert_tx (ctx : Context) (tx : SignedTransaction) (is_system_script : bool)
    : M (MemPoolImpl A) ProtocolError unit :=
  s ← gets id;
  if reach_limit (mp_pool s)
  then throw (PE_Mempool (ReachLimit (Z.of_nat (pool_size (mp_pool s))))) else
  on_adapter (check_authorization ctx tx);;
  on_adapter (check_transaction ctx tx);;
  on_adapter (check_storage_exist ctx (stx_hash tx));;
  (if is_system_script then on_pool (modify (λ p, insert_system_script_tx p tx))
   else on_pool (pool_insert tx));;
  if negb (is_network_origin_txs ctx) then on_adapter (broadcast_tx ctx tx)
  else on_adapter (report_good ctx).

(** The body of one verification task. *)
Definition verify_tx (ctx : Context) (tx : SignedTransaction) : M A ProtocolError unit :=
  check_authorization ctx tx;;
  check_transaction ctx tx;;
  check_storage_exist ctx (stx_hash tx).

(** A spawned task awaited through its handle: [inl] is the value the task
    returned, its own error included, [inr] a [JoinError]. *)
Definition spawn {S X} (m : M S ProtocolError X)
    : M S ProtocolError (outcome ProtocolError X + unit) := λ s,
  match m s with
  | (s', Panic) => (s', Ok (inr tt))
  | (s', o) => (s', Ok (inl o))
  end.

Fixpoint spawn_all {S X} (f : X → M S ProtocolError unit) (l : list X) : M S ProtocolError bool :=
  match l with
  | [] => mret true
  | x :: l' =>
      r ← spawn (f x);
      ok ← spawn_all f l';
      mret (match r with inl _ => ok | inr _ => false end)
  end.

(** [try_join_all] over the handles fails on a [JoinError] only; what the
    tasks returned is dropped. *)
Definition verify_tx_in_parallel (ctx : Context) (txs : list SignedTransaction)
    : M (MemPoolImpl A) ProtocolError unit :=
  ok ← on_adapter (spawn_all (verify_tx ctx) txs);
  if (ok : bool) then mret tt else throw (PE_Mempool VerifyBatchTransactions).

(** ** [impl MemPool for MemPoolImpl] *)
Definition mempool_insert (ctx : Context) (tx : SignedTransaction)
    : M (MemPoolImpl A) ProtocolError unit :=
  insert_tx ctx tx (is_call_system_script (stx_action tx)).

Definition mempool_package (ctx : Context) (gas_limit : U256) (tx_num_limit : Z)
    : M (MemPoolImpl A) ProtocolError (list Hash) :=
  on_pool (package gas_limit (Z.to_nat tx_num_limit)).

(** The verdicts of [nonce_check] on the transactions [retain] visits; the
    closure runs [check_authorization] on the shared adapter. *)
Fixpoint nonce_verdicts (l : list (Hash * SignedTransaction)) : M A ProtocolError (gset Hash) :=
  match l with
  | [] => mret ∅
  | (h, tx) :: l' =>
      r ← try (check_authorization ∅ tx);
      kept ← nonce_verdicts l';
      mret (if is_ok r then {[h]} ∪ kept else kept)
  end.

Definition mempool_flush (ctx : Context) (tx_hashes : list Hash)
    : M (MemPoolImpl A) ProtocolError unit :=
  s ← gets id;
  kept ← on_adapter (nonce_verdicts (map_to_list (remaining_map (mp_pool s) tx_hashes)));
  on_pool (modify (λ p, pool_flush p tx_hashes (λ tx, bool_decide (stx_hash tx ∈ kept)))).

Definition get_full_txs (ctx : Context) (height : option Z) (tx_hashes : list Hash)
    : M (MemPoolImpl A) ProtocolError (list SignedTransaction) :=
  s ← gets id;
  let full_txs := omap (get_by_hash (mp_pool s)) tx_hashes in
  let missing_hashes := filter (λ h, get_by_hash (mp_pool s) h = None) tx_hashes in
  full_txs ← match missing_hashes with
             | [] => mret full_txs
             | _ => stored ← on_adapter (get_transactions_from_storage ctx height missing_hashes);
                    mret (full_txs ++ omap id stored)
             end;
  if decide (length full_txs = length tx_hashes) then mret full_txs
  else throw (PE_Mempool (MisMatch (Z.of_nat (length tx_hashes)) (Z.of_nat (length full_txs)))).

Definition ensure_order_txs (ctx : Context) (height : option Z) (order_tx_hashes : list Hash)
    : M (MemPoolImpl A) ProtocolError unit :=
  lift (check_dup_order_hashes order_tx_hashes);;
  s ← gets id;
  match show_unknown_txs (mp_pool s) order_tx_hashes with
  | [] => mret tt
  | unknown_hashes =>
      txs ← on_adapter (pull_txs ctx height unknown_hashes);
      if decide (length txs = length unknown_hashes) then
        verify_tx_in_parallel ctx txs;;
        for_each (λ signed_tx, on_pool (pool_insert signed_tx)) txs;;
        on_adapter (report_good ctx)
      else throw (PE_Mempool (EnsureBreak (Z.of_nat (length unknown_hashes))
                                (Z.of_nat (length txs))))
  end.

Definition mempool_get_tx_count_by_address (ctx : Context) (address : H160)
    : M (MemPoolImpl A) ProtocolError nat :=
  gets (λ s, get_tx_count_by_address (mp_pool s) address).

Definition mempool_set_args (ctx : Context) (state_root : MerkleRoot) (gas_limit max_tx_size : Z)
    : M (MemPoolImpl A) ProtocolError unit :=
  on_adapter (adapter_set_args ctx state_root gas_limit max_tx_size).

(** ** Message handlers *)
(** [NewTxsHandler::process]: each transaction is inserted in a task of its
    own, whose outcome is only counted. *)
Definition new_txs_process (ctx : Context) (batch_stxs : list SignedTransaction)
    : M (MemPoolImpl A) ProtocolError TrustFeedback :=
  let ctx := mark_network_origin_new_txs ctx in
  spawn_all (λ stx, try (mempool_insert ctx stx);; mret tt) batch_stxs;;
  mret Neutral.

(** [PullTxsHandler::process], [response] being the network's. *)
Definition pull_txs_process
    (response : Context → ProtocolResult (list SignedTransaction) → ProtocolResult unit)
    (ctx : Context) (height : option Z) (hashes : list Hash)
    : M (MemPoolImpl A) ProtocolError TrustFeedback :=
  ret ← try (get_full_txs ctx height hashes);
  match response ctx ret with
  | Panic => lift Panic
  | _ => mret Neutral
  end.
End mempool.
