(* ===== verification/ExecRefine.v ===== *)
(** * The world state as a map of accounts

    The trie-backed world state of [Executor.v] represents an abstract map from
    addresses to accounts with their storage slots; reads answer from the
    abstract map and [apply] updates it. *)

From S2P Require Import Prelude Types Codec Traits Executor.

Local Open Scope Z_scope.

(** ** The abstract world *)
Record WAccount := mkWAccount {
  w_nonce : U256;
  w_balance : U256;
  w_code_hash : Hash;
  w_slots : gmap H256 H256
}.

Abbreviation World := (gmap H160 WAccount).

Definition w_empty : WAccount := mkWAccount 0 0 NIL_DATA ∅.
Definition w_lookup (W : World) (a : H160) : WAccount := default w_empty (W !! a).

(** Slots written in order, the last write of a key wins. *)
Definition w_write (kvs : list (H256 * H256)) (s : gmap H256 H256) : gmap H256 H256 :=
  fold_left (λ s kv, <[kv.1 := kv.2]> s) kvs s.

Definition w_apply (W : World) (address : H160) (b : Basic) (code_hash : Hash)
    (kvs : list (H256 * H256)) (reset : bool) : World :=
  <[address := mkWAccount (basic_nonce b) (basic_balance b) code_hash
                 (w_write kvs (if reset then ∅ else w_slots (w_lookup W address)))]> W.

(** The code hash [apply] leaves. *)
Definition new_code_hash `{K : Keccak} (old : Hash) (code : option bytes) : Hash :=
  match code with Some c => digest c | None => old end.

Definition kvs_ok (kvs : list (H256 * H256)) : Prop :=
  Forall (λ kv : H256 * H256, h256_ok kv.1 ∧ h256_ok kv.2) kvs.

(** The account a system script transaction with a well-formed payload names. *)
Lemma token_address rest : (20 ≤ length rest)%nat → h160_ok (from_be_bytes (take 20 rest)).
Proof.
  intros Hl. pose proof (from_be_bytes_range (take 20 rest)) as Hr. rewrite length_take_le in Hr by done.
  exact Hr.
Qed.

Section represents.
Context `{R : Rlp} `{K : Keccak} `{!PatriciaTrie} {St : Type} `{!Storage St}.
Local Abbreviation adapter := (AxonExecutorAdapter St).
Local Abbreviation be32 := (to_be_bytes 32).

(** A root opens a trie with the given content. *)
Definition opens (db : trie_db) (root : Hash) (m : gmap bytes bytes) : Prop :=
  ∃ t, pt_from db root = Ok t ∧ pt_view db t = Some m.

Definition slots_as (sm : gmap bytes bytes) (s : gmap H256 H256) : Prop :=
  ∀ k, h256_ok k → sm !! be32 k = be32 <$> s !! k.

Definition slots_wf (s : gmap H256 H256) : Prop := ∀ k v, s !! k = Some v → h256_ok k ∧ h256_ok v.

Definition abs_storage (db : trie_db) (root : Hash) (s : gmap H256 H256) : Prop :=
  slots_wf s ∧
  if root =? RLP_NULL then s = ∅ else ∃ sm, opens db root sm ∧ slots_as sm s.

Definition abs_account (db : trie_db) (raw : option bytes) (w : option WAccount) : Prop :=
  match w with
  | None => raw = None
  | Some w => ∃ acc, raw = Some (encode c_account acc) ∧ account_wf acc ∧
      acc_nonce acc = w_nonce w ∧ acc_balance acc = w_balance w ∧
      acc_code_hash acc = w_code_hash w ∧ abs_storage db (acc_storage_root acc) (w_slots w)
  end.

Definition represents (a : adapter) (W : World) : Prop :=
  ∃ m, pt_view (ea_db a) (mpt_trie (ea_trie a)) = Some m ∧
       ∀ addr, h160_ok addr → abs_account (ea_db a) (m !! address_bytes addr) (W !! addr).

(** ** Lemmas *)
Lemma be_bytes_inj n x y : in_width (8 * Z.of_nat n) x → in_width (8 * Z.of_nat n) y →
  to_be_bytes n x = to_be_bytes n y → x = y.
Proof.
  unfold in_width. rewrite Z.pow_mul_r by lia. intros Hx Hy. by apply to_be_bytes_inj.
Qed.

Lemma address_bytes_inj x y : h160_ok x → h160_ok y → address_bytes x = address_bytes y → x = y.
Proof. intros. by apply (be_bytes_inj 20). Qed.

Lemma be32_inj x y : h256_ok x → h256_ok y → be32 x = be32 y → x = y.
Proof. intros. by apply (be_bytes_inj 32). Qed.

Lemma be32_from x : h256_ok x → h256_from_slice (be32 x) = Ok x.
Proof.
  intros Hx. unfold h256_from_slice. rewrite decide_True by apply length_to_be_bytes.
  by rewrite from_to_be_bytes_id.
Qed.

Lemma account_decode_encode acc : account_wf acc → account_decode (encode c_account acc) = Ok acc.
Proof.
  intros Hacc. unfold account_decode. by rewrite (decode_encode_lawful account_wf) by auto using c_account_ok.
Qed.

Lemma opens_mono db db' root m :
  (∀ r0 t0 m0, pt_from db r0 = Ok t0 → pt_view db t0 = Some m0 → opens db' r0 m0) →
  opens db root m → opens db' root m.
Proof. intros Hm (t & Ht & Hv). by eapply Hm. Qed.

Lemma abs_account_mono db db' raw w :
  (∀ r0 t0 m0, pt_from db r0 = Ok t0 → pt_view db t0 = Some m0 → opens db' r0 m0) →
  abs_account db raw w → abs_account db' raw w.
Proof.
  intros Hm. destruct w as [w|]; [|done]. intros (acc & Hr & Hwf & Hn & Hb & Hc & Hs).
  exists acc. split_and!; try done. destruct Hs as [Hswf Hs]. split; [done|].
  destruct (acc_storage_root acc =? RLP_NULL); [done|]. destruct Hs as (sm & Ho & Hsm).
  exists sm. split; [by eapply opens_mono|done].
Qed.

(** [commit] on a trie with content [m]. *)
Lemma commit_view db t m :
  pt_view db (mpt_trie t) = Some m →
  ∃ db' t' root, MPTTrie_commit db t = (db', t', Ok root) ∧ mpt_root t' = root ∧
    pt_view db' (mpt_trie t') = Some m ∧ opens db' root m ∧ (root = RLP_NULL ↔ m = ∅) ∧
    (∀ r0 t0 m0, pt_from db r0 = Ok t0 → pt_view db t0 = Some m0 → opens db' r0 m0) ∧
    (∀ t0 m0, pt_view db t0 = Some m0 → pt_view db' t0 = Some m0).
Proof.
  intros Hv. destruct (pt_root_view db _ m Hv) as (db' & t' & r & Hr & Hv' & Ho & Hn & Hm & Hk).
  exists db', (mkMPT r t'), r. unfold MPTTrie_commit. by rewrite Hr.
Qed.

(** Writing slots into a storage trie. *)
Lemma insert_slots_view db t sm s kvs :
  pt_view db (mpt_trie t) = Some sm → slots_as sm s → kvs_ok kvs → slots_wf s →
  ∃ sm', pt_view db (mpt_trie (insert_slots db t kvs)) = Some sm' ∧
    slots_as sm' (w_write kvs s) ∧ slots_wf (w_write kvs s) ∧ (sm' = ∅ → sm = ∅ ∧ kvs = []).
Proof.
  intros Hv Hs Hk. revert t sm s Hv Hs. unfold insert_slots, w_write.
  induction Hk as [|[k v] kvs [Hk Hv'] Hkvs IH]; intros t sm s Hv Hs Hwf; cbn [fold_left fst snd]; [by exists sm|].
  destruct (pt_insert_view db (mpt_trie t) sm (be32 k) (be32 v) Hv) as (t' & Ht & Hv2); [done|].
  assert (MPTTrie_insert db t (be32 k) (be32 v) = Ok (mkMPT (mpt_root t) t')) as ->
    by (unfold MPTTrie_insert; by rewrite Ht).
  destruct (IH (mkMPT (mpt_root t) t') (<[be32 k := be32 v]> sm) (<[k := v]> s)) as (sm' & ? & ? & ? & He).
  - done.
  - intros k' Hk'. cbn [fst snd] in *. destruct (decide (k' = k)) as [->|Hne].
    + by rewrite !lookup_insert_eq.
    + rewrite !lookup_insert_ne; [by apply Hs|done|]. intros E. apply Hne. by apply be32_inj.
  - intros k' v2. rewrite lookup_insert. case_decide; [intros [= <-]; by subst|apply Hwf].
  - exists sm'. split_and!; try done. intros E. destruct (He E) as [E' _].
    by apply insert_non_empty in E'.
Qed.

Lemma represents_old (a : adapter) W addr :
  represents a W → h160_ok addr →
  ∃ acc, old_account_of a addr = Ok acc ∧ account_wf acc ∧
    acc_nonce acc = w_nonce (w_lookup W addr) ∧ acc_balance acc = w_balance (w_lookup W addr) ∧
    acc_code_hash acc = w_code_hash (w_lookup W addr) ∧
    abs_storage (ea_db a) (acc_storage_root acc) (w_slots (w_lookup W addr)).
Proof.
  intros (m & Hv & Hm) Ha. specialize (Hm addr Ha). unfold old_account_of, MPTTrie_get, w_lookup.
  rewrite (pt_get_view _ _ _ _ Hv). cbn [map_err].
  destruct (W !! addr) as [w|]; cbn [abs_account default] in Hm |- *.
  - destruct Hm as (acc & -> & Hwf & Hn & Hb & Hc & Hs). rewrite account_decode_encode by done.
    by exists acc.
  - rewrite Hm. exists empty_account. split_and!; try done.
Qed.

Lemma open_storage_view (a : adapter) acc s reset :
  abs_storage (ea_db a) (acc_storage_root acc) s →
  ∃ t sm, open_storage a acc reset = Ok t ∧ pt_view (ea_db a) (mpt_trie t) = Some sm ∧
    slots_as sm (if reset then ∅ else s).
Proof.
  intros [Hwf Hs]. unfold open_storage.
  assert (slots_as ∅ ∅) as He by (intros k _; by rewrite !lookup_empty).
  destruct reset; [rewrite Z.eqb_refl; exists MPTTrie_new, ∅; split_and!; [done|apply pt_view_new|done]|].
  destruct (acc_storage_root acc =? RLP_NULL) eqn:E.
  - subst s. exists MPTTrie_new, ∅. split_and!; [done|apply pt_view_new|done].
  - destruct Hs as (sm & (t & Ht & Hv) & Hsm). exists (mkMPT (acc_storage_root acc) t), sm.
    unfold MPTTrie_from_root. by rewrite Ht.
Qed.

Lemma put_account_view (a : adapter) addr acc m :
  pt_view (ea_db a) (mpt_trie (ea_trie a)) = Some m → account_wf acc →
  ∃ db t, put_account addr acc a = (set_ea_trie a db t, Ok tt) ∧
    pt_view db (mpt_trie t) = Some (<[address_bytes addr := encode c_account acc]> m) ∧
    opens db (mpt_root t) (<[address_bytes addr := encode c_account acc]> m) ∧
    (∀ r0 t0 m0, pt_from (ea_db a) r0 = Ok t0 → pt_view (ea_db a) t0 = Some m0 → opens db r0 m0).
Proof.
  intros Hv Hwf. unfold put_account, MPTTrie_insert.
  destruct (pt_insert_view _ _ _ (address_bytes addr) (encode c_account acc) Hv) as (t & Ht & Hv');
    [apply rlp_out_non_empty|].
  rewrite Ht. cbn [map_err mbind outcome_bind expect].
  destruct (commit_view (ea_db a) (mkMPT (mpt_root (ea_trie a)) t) _ Hv')
    as (db' & t' & r & Hc & Hr & Hv2 & Ho & _ & Hm & _).
  rewrite Hc. exists db', t'. rewrite Hr. by cbn.
Qed.

Definition code_ok (addr : H160) (code : option bytes) : Prop :=
  ∀ c s, code = Some c → snd (st_insert_code ∅ addr (digest c) c s) = Ok tt.

Lemma store_code_ok (a : adapter) addr old code :
  code_ok addr code →
  ∃ s, store_code addr old code a =
    (mkExecAdapter (exec_ctx a) (ea_trie a) s (ea_db a), Ok (new_code_hash old code)).
Proof.
  intros Hc. unfold store_code, new_code_hash.
  destruct code as [c|]; [|exists (ea_storage a); by destruct a].
  destruct (Z.eqb_spec (digest c) old) as [->|]; [exists (ea_storage a); by destruct a|].
  destruct (st_insert_code ∅ addr (digest c) c (ea_storage a)) as [s o] eqn:E.
  exists s. pose proof (Hc c (ea_storage a) eq_refl) as Ho. rewrite E in Ho. cbn in Ho. by subst o.
Qed.

(** Inserting the new account keeps the relation everywhere. *)
Lemma abs_account_insert (db : trie_db) (m : gmap bytes bytes) (W : World) addr acc w :
  h160_ok addr →
  (∀ x, h160_ok x → abs_account db (m !! address_bytes x) (W !! x)) →
  abs_account db (Some (encode c_account acc)) (Some w) →
  ∀ x, h160_ok x →
    abs_account db (<[address_bytes addr := encode c_account acc]> m !! address_bytes x)
      (<[addr := w]> W !! x).
Proof.
  intros Ha Hm Hw x Hx. destruct (decide (x = addr)) as [->|Hne]; [by rewrite !lookup_insert_eq|].
  rewrite !lookup_insert_ne; [by apply Hm|done|]. intros E. apply Hne. by apply address_bytes_inj.
Qed.

(** [apply_account] implements [w_apply], and the new state root opens it. *)
Lemma apply_account_sim (a : adapter) W addr b code kvs reset :
  represents a W → h160_ok addr → u256_ok (basic_nonce b) → u256_ok (basic_balance b) →
  kvs_ok kvs → code_ok addr code →
  let hash := new_code_hash (w_code_hash (w_lookup W addr)) code in
  let W' := w_apply W addr b hash kvs reset in
  ∃ a', apply_account addr b code kvs reset a =
      (a', Ok ((basic_balance b =? 0) && (basic_nonce b =? 0) && (hash =? 0))) ∧
    represents a' W' ∧ exec_ctx a' = exec_ctx a ∧
    ∃ a2, ExecutorAdapter_from_root (state_root a') (ea_db a') (ea_storage a') (exec_ctx a') = Ok a2 ∧
          represents a2 W'.
Proof.
  intros Hrep Ha Hn Hb Hk Hc hash W'.
  destruct (represents_old a W addr Hrep Ha) as (old & Hold & Hwf & _ & _ & Hch & Hs).
  destruct (open_storage_view a old _ reset Hs) as (st & sm & Hst & Hsv & Hsm).
  destruct (insert_slots_view _ st sm _ kvs Hsv Hsm Hk) as (sm' & Hsv' & Hsm' & Hswf & _).
  { destruct reset; [intros k v; by rewrite lookup_empty|apply Hs]. }
  destruct (commit_view _ _ _ Hsv') as (db1 & st' & root & Hcm & _ & _ & Ho1 & Hnull & Hm1 & Hk1).
  destruct Hrep as (m & Hv & Hm).
  set (a1 := set_ea_trie a db1 (ea_trie a)).
  destruct (store_code_ok a1 addr (acc_code_hash old) code Hc) as (s & Hsc).
  set (a2 := mkExecAdapter _ _ s _) in Hsc. set (acc := mkAccount (basic_nonce b) (basic_balance b) root
    (new_code_hash (acc_code_hash old) code)).
  assert (account_wf acc) as Hwfa.
  { split_and!; try done. cbn. destruct code; [apply digest_range|apply Hwf]. }
  destruct (put_account_view a2 addr acc m (Hk1 _ _ Hv) Hwfa) as (db2 & t2 & Hput & Hv2 & Ho2 & Hm2).
  exists (set_ea_trie a2 db2 t2). split; [|].
  { unfold apply_account. msteps. unfold id. rewrite Hold. msteps. rewrite Hst. msteps.
    rewrite Hcm. msteps. fold a1. mrun Hsc. fold acc. mrun Hput. unfold hash. by rewrite <-Hch. }
  assert (∀ x, h160_ok x → abs_account db2
    (<[address_bytes addr := encode c_account acc]> m !! address_bytes x) (W' !! x)) as Habs.
  { apply abs_account_insert; [done| |].
    - intros x Hx. eapply abs_account_mono; [exact Hm2|]. eapply abs_account_mono; [exact Hm1|]. by apply Hm.
    - eapply abs_account_mono; [exact Hm2|]. exists acc. split_and!; try done.
      + cbn. unfold hash. by rewrite Hch.
      + split; [done|]. cbn [acc_storage_root acc ea_db a2 a1 set_ea_trie].
        destruct (Z.eqb_spec root RLP_NULL) as [E|E]; [|by exists sm'].
        apply Hnull in E. subst sm'. apply map_empty. intros k.
        destruct (decide (h256_ok k)) as [Hk'|Hk'].
        * specialize (Hsm' k Hk'). rewrite lookup_empty in Hsm'. cbn in Hsm' |- *. by destruct (_ !! k).
        * cbn. destruct (_ !! k) eqn:E; [|done]. by destruct (Hswf _ _ E). }
  split; [by exists (<[address_bytes addr := encode c_account acc]> m)|]. split; [done|].
  destruct Ho2 as (t3 & Ht3 & Hv3). unfold ExecutorAdapter_from_root, MPTTrie_from_root, state_root.
  cbn [set_ea_trie ea_db ea_trie ea_storage exec_ctx]. rewrite Ht3. eexists. split; [done|].
  by exists (<[address_bytes addr := encode c_account acc]> m).
Qed.
End represents.
