(* ===== verification/Storage.v ===== *)
(** * Storage

    [core/storage/src/lib.rs], [cache.rs], the in-memory adapter
    [adapter/memory.rs] and the RocksDB one [adapter/rocks.rs].  [ImplStorage]
    is written against class [StorageAdapter], the trait of
    [protocol/src/traits/storage.rs], and class [LruCrate], the cache crate. *)

From S2P Require Import Prelude Types Codec Traits.

Local Open Scope Z_scope.

(** ** [ProtocolCodec] *)
Record pcodec (A : Type) := mkPCodec {
  pc_encode : A → ProtocolResult bytes;
  pc_decode : bytes → ProtocolResult A
}.
Arguments mkPCodec {A} pc_encode pc_decode.
Arguments pc_encode {A} p a.
Arguments pc_decode {A} p b.

(** ** The adapter trait *)
Inductive StorageCategory : Type :=
| SC_Block | SC_BlockHeader | SC_Receipt | SC_SignedTransaction | SC_Wal | SC_HashHeight | SC_Code.
#[global] Instance StorageCategory_eq_dec : EqDecision StorageCategory.
Proof. solve_decision. Defined.

Record StorageSchema (K V : Type) := mkSchema {
  category : StorageCategory;
  key_codec : pcodec K;
  val_codec : pcodec V
}.
Arguments mkSchema {K V} category key_codec val_codec.
Arguments category {K V} s.
Arguments key_codec {K V} s.
Arguments val_codec {K V} s.

Inductive StorageBatchModify (V : Type) : Type :=
| BatchRemove
| BatchInsert (v : V).
Arguments BatchRemove {V}.
Arguments BatchInsert {V} v.

(** [sa_iter s prefix] is what the iterator of [prepare_iter(prefix)] yields. *)
Class StorageAdapter (Db : Type) := {
  sa_insert : ∀ {K V}, StorageSchema K V → K → V → M Db ProtocolError unit;
  sa_get : ∀ {K V}, StorageSchema K V → K → M Db ProtocolError (option V);
  sa_remove : ∀ {K V}, StorageSchema K V → K → M Db ProtocolError unit;
  sa_contains : ∀ {K V}, StorageSchema K V → K → M Db ProtocolError bool;
  sa_batch_modify : ∀ {K V}, StorageSchema K V → list K → list (StorageBatchModify V) →
    M Db ProtocolError unit;
  sa_iter : ∀ {K V}, StorageSchema K V → bytes → M Db ProtocolError (list (ProtocolResult (K * V)))
}.

(** The default method of the trait. *)
Fixpoint get_batch {Db K V} `{!StorageAdapter Db} (s : StorageSchema K V) (keys : list K)
    : M Db ProtocolError (list (option V)) :=
  match keys with
  | [] => mret []
  | key :: keys' => v ← sa_get s key; vs ← get_batch s keys'; mret (v :: vs)
  end.

(** ** [adapter/memory.rs] *)

(** Iteration order of a [HashMap]. *)
Class HashOrder := {
  hash_iter : gmap bytes bytes → list (bytes * bytes);
  hash_iter_perm m : hash_iter m ≡ₚ map_to_list m
}.

Definition MemoryAdapter : Type := StorageCategory → gmap bytes bytes.
Definition MemoryAdapter_new : MemoryAdapter := λ _, ∅.

Definition db_update (c : StorageCategory) (f : gmap bytes bytes → gmap bytes bytes)
    (db : MemoryAdapter) : MemoryAdapter := λ c', if decide (c' = c) then f (db c') else db c'.

Section memory.
Context `{!HashOrder}.

Definition memory_insert {K V} (s : StorageSchema K V) (key : K) (val : V)
    : M MemoryAdapter ProtocolError unit :=
  kb ← lift (pc_encode (key_codec s) key);
  vb ← lift (pc_encode (val_codec s) val);
  modify (db_update (category s) (<[kb := vb]>)).

Definition memory_get {K V} (s : StorageSchema K V) (key : K)
    : M MemoryAdapter ProtocolError (option V) :=
  kb ← lift (pc_encode (key_codec s) key);
  opt_bytes ← gets (λ db, db (category s) !! kb);
  match opt_bytes with
  | Some b => val ← lift (pc_decode (val_codec s) b); mret (Some val)
  | None => mret None
  end.

Definition memory_remove {K V} (s : StorageSchema K V) (key : K)
    : M MemoryAdapter ProtocolError unit :=
  kb ← lift (pc_encode (key_codec s) key);
  modify (db_update (category s) (delete kb)).

Definition memory_contains {K V} (s : StorageSchema K V) (key : K)
    : M MemoryAdapter ProtocolError bool :=
  kb ← lift (pc_encode (key_codec s) key);
  gets (λ db, bool_decide (is_Some (db (category s) !! kb))).

(** The pairs of [batch_modify], encoded before anything is written. *)
Definition encode_pair {K V} (s : StorageSchema K V) (kv : K * StorageBatchModify V)
    : ProtocolResult (bytes * option bytes) :=
  key ← pc_encode (key_codec s) kv.1;
  value ← match kv.2 with
          | BatchInsert v => Some <$> pc_encode (val_codec s) v
          | BatchRemove => Ok None
          end;
  Ok (key, value).

Definition write_pair (m : gmap bytes bytes) (p : bytes * option bytes) : gmap bytes bytes :=
  match p.2 with Some v => <[p.1 := v]> m | None => delete p.1 m end.

Definition memory_batch_modify {K V} (s : StorageSchema K V) (keys : list K)
    (vals : list (StorageBatchModify V)) : M MemoryAdapter ProtocolError unit :=
  if decide (length keys = length vals) then
    pairs ← lift (traverse (encode_pair s) (zip keys vals));
    modify (db_update (category s) (λ m, fold_left write_pair pairs m))
  else throw (PE_StorageAdapter BatchLengthMismatch).

(** [MemoryIterator::next] *)
Definition decode_entry {K V} (s : StorageSchema K V) (kv : bytes * bytes) : ProtocolResult (K * V) :=
  key ← pc_decode (key_codec s) kv.1;
  val ← pc_decode (val_codec s) kv.2;
  Ok (key, val).

(** The prefix is ignored. *)
Definition memory_iter {K V} (s : StorageSchema K V) (_prefix : bytes)
    : M MemoryAdapter ProtocolError (list (ProtocolResult (K * V))) :=
  gets (λ db, map (decode_entry s) (hash_iter (db (category s)))).

#[global] Instance memory_adapter : StorageAdapter MemoryAdapter := {|
  sa_insert := @memory_insert;
  sa_get := @memory_get;
  sa_remove := @memory_remove;
  sa_contains := @memory_contains;
  sa_batch_modify := @memory_batch_modify;
  sa_iter := @memory_iter |}.
End memory.

(** ** [adapter/rocks.rs] *)

(** The [rocksdb] crate: column families of a database. *)
Class RocksDB := {
  rdb : Type;
  cf_handle : rdb → string → bool;
  put_cf : rdb → string → bytes → bytes → rdb * outcome Z unit;
  get_cf : rdb → string → bytes → outcome Z (option bytes);
  delete_cf : rdb → string → bytes → rdb * outcome Z unit;
  write_batch : rdb → string → list (bytes * option bytes) → rdb * outcome Z unit;
  prefix_iterator_cf : rdb → string → bytes → outcome Z (list (bytes * bytes))
}.

Definition C_BLOCKS : string := "c1".
Definition C_BLOCK_HEADER : string := "c2".
Definition C_SIGNED_TRANSACTIONS : string := "c3".
Definition C_RECEIPTS : string := "c4".
Definition C_WALS : string := "c5".
Definition C_HASH_HEIGHT_MAP : string := "c6".
Definition C_EVM_CODE_MAP : string := "c7".

Definition map_category (c : StorageCategory) : string :=
  match c with
  | SC_Block => C_BLOCKS
  | SC_BlockHeader => C_BLOCK_HEADER
  | SC_Receipt => C_RECEIPTS
  | SC_SignedTransaction => C_SIGNED_TRANSACTIONS
  | SC_Wal => C_WALS
  | SC_HashHeight => C_HASH_HEIGHT_MAP
  | SC_Code => C_EVM_CODE_MAP
  end.

Section rocks.
Context `{!RocksDB}.

Definition rocks_err (code : Z) : ProtocolError := PE_StorageAdapter (RocksDBError code).

Definition get_column {K V} (s : StorageSchema K V) : M rdb ProtocolError string := λ db,
  let category := map_category (category s) in
  if cf_handle db category then (db, Ok category)
  else (db, Err (PE_StorageAdapter (CategoryNotFound category))).

(** A call of the crate that may change the database. *)
Definition rocks_write (f : rdb → rdb * outcome Z unit) : M rdb ProtocolError unit := λ db,
  let '(db', r) := f db in (db', map_err rocks_err r).

Definition rocks_insert {K V} (s : StorageSchema K V) (key : K) (val : V) : M rdb ProtocolError unit :=
  column ← get_column s;
  kb ← lift (pc_encode (key_codec s) key);
  vb ← lift (pc_encode (val_codec s) val);
  rocks_write (λ db, put_cf db column kb vb).

Definition rocks_get {K V} (s : StorageSchema K V) (key : K) : M rdb ProtocolError (option V) :=
  column ← get_column s;
  kb ← lift (pc_encode (key_codec s) key);
  r ← gets (λ db, map_err rocks_err (get_cf db column kb));
  opt_bytes ← lift r;
  match opt_bytes with
  | Some b => val ← lift (pc_decode (val_codec s) b); mret (Some val)
  | None => mret None
  end.

Definition rocks_remove {K V} (s : StorageSchema K V) (key : K) : M rdb ProtocolError unit :=
  column ← get_column s;
  kb ← lift (pc_encode (key_codec s) key);
  rocks_write (λ db, delete_cf db column kb).

Definition rocks_contains {K V} (s : StorageSchema K V) (key : K) : M rdb ProtocolError bool :=
  column ← get_column s;
  kb ← lift (pc_encode (key_codec s) key);
  r ← gets (λ db, map_err rocks_err (get_cf db column kb));
  val ← lift r;
  mret (bool_decide (is_Some val)).

Definition rocks_batch_modify {K V} (s : StorageSchema K V) (keys : list K)
    (vals : list (StorageBatchModify V)) : M rdb ProtocolError unit :=
  if decide (length keys = length vals) then
    column ← get_column s;
    pairs ← lift (traverse (encode_pair s) (zip keys vals));
    rocks_write (λ db, write_batch db column pairs)
  else throw (PE_StorageAdapter BatchLengthMismatch).

(** [prepare_iter] then [RocksIntoIterator::into_iter], which panics when the
    crate refuses an iterator. *)
Definition rocks_iter {K V} (s : StorageSchema K V) (prefix : bytes)
    : M rdb ProtocolError (list (ProtocolResult (K * V))) :=
  column ← get_column s;
  r ← gets (λ db, prefix_iterator_cf db column prefix);
  match r with
  | Ok entries => mret (map (decode_entry s) entries)
  | _ => lift Panic
  end.

#[global] Instance rocks_adapter : StorageAdapter rdb := {|
  sa_insert := @rocks_insert;
  sa_get := @rocks_get;
  sa_remove := @rocks_remove;
  sa_contains := @rocks_contains;
  sa_batch_modify := @rocks_batch_modify;
  sa_iter := @rocks_iter |}.
End rocks.

(** ** Keys *)
Section keys.
Context `{R : Rlp} `{K : Keccak}.

Definition rlp_pcodec {A} (c : codec item A) : pcodec A :=
  mkPCodec (λ a, Ok (encode c a)) (λ b, map_err PE_Codec (decode c b)).

Definition SignedTransaction_pcodec : pcodec SignedTransaction :=
  mkPCodec (λ stx, map_err PE_Codec (SignedTransaction_encode stx))
    (λ b, map_err PE_Codec (SignedTransaction_decode_bytes b)).

(** [DBBytes] *)
Definition DBBytes_pcodec : pcodec bytes := mkPCodec (λ b, Ok b) (λ b, Ok b).

(** [CommonPrefix]: the block height, big endian *)
Record CommonPrefix := mkPrefix { block_height : bytes }.
Definition CommonPrefix_new (height : Z) : CommonPrefix := mkPrefix (to_be_bytes 8 height).
Definition prefix_height (p : CommonPrefix) : Z := from_be_bytes (block_height p).
Definition make_hash_key (p : CommonPrefix) (hash : Hash) : bytes :=
  block_height p ++ to_be_bytes 32 hash.

(** [CommonPrefix::from(&[u8])]: the slice [0..8] panics on a shorter one. *)
Definition CommonPrefix_from (b : bytes) : ProtocolResult CommonPrefix :=
  if decide (8 ≤ length b)%nat then Ok (mkPrefix (take 8 b)) else Panic.

Definition CommonPrefix_pcodec : pcodec CommonPrefix :=
  mkPCodec (λ p, Ok (block_height p)) CommonPrefix_from.

Record CommonHashKey := mkHashKey { hk_prefix : CommonPrefix; hk_hash : Hash }.
Definition CommonHashKey_new (height : Z) (hash : Hash) : CommonHashKey :=
  mkHashKey (CommonPrefix_new height) hash.
Definition hashkey_height (k : CommonHashKey) : Z := prefix_height (hk_prefix k).

(** [Hash::from_slice] panics unless it is given 32 bytes. *)
Definition CommonHashKey_decode (b : bytes) : ProtocolResult CommonHashKey :=
  prefix ← CommonPrefix_from b;
  let rest := drop 8 b in
  if decide (length rest = 32%nat) then Ok (mkHashKey prefix (from_be_bytes rest)) else Panic.

Definition CommonHashKey_pcodec : pcodec CommonHashKey :=
  mkPCodec (λ k, Ok (make_hash_key (hk_prefix k) (hk_hash k))) CommonHashKey_decode.

(** ** Schemas *)
Definition hash_pcodec : pcodec Hash := rlp_pcodec c_h256.
Definition TransactionSchema := mkSchema SC_SignedTransaction CommonHashKey_pcodec SignedTransaction_pcodec.
Definition TransactionBytesSchema := mkSchema SC_SignedTransaction CommonHashKey_pcodec DBBytes_pcodec.
Definition BlockSchema := mkSchema SC_Block CommonPrefix_pcodec (rlp_pcodec Block_codec).
Definition BlockHeaderSchema := mkSchema SC_BlockHeader CommonPrefix_pcodec (rlp_pcodec Header_codec).
Definition BlockHashNumberSchema := mkSchema SC_HashHeight hash_pcodec (rlp_pcodec c_u64).
Definition ReceiptSchema := mkSchema SC_Receipt CommonHashKey_pcodec (rlp_pcodec Receipt_codec).
Definition ReceiptBytesSchema := mkSchema SC_Receipt CommonHashKey_pcodec DBBytes_pcodec.
Definition TxHashNumberSchema := mkSchema SC_HashHeight hash_pcodec (rlp_pcodec c_u64).
Definition LatestBlockSchema := mkSchema SC_Block hash_pcodec (rlp_pcodec Block_codec).
Definition LatestProofSchema := mkSchema SC_Block hash_pcodec (rlp_pcodec Proof_codec).
Definition OverlordWalSchema := mkSchema SC_Wal hash_pcodec (rlp_pcodec c_bytes).
Definition EvmCodeSchema := mkSchema SC_Code hash_pcodec (rlp_pcodec c_bytes).
Definition EvmCodeAddressSchema := mkSchema SC_Code hash_pcodec (rlp_pcodec c_h256).

Definition bytes_of_string (s : string) : bytes := String.list_byte_of_string s.
Definition LATEST_BLOCK_KEY : Hash := digest (bytes_of_string "latest_hash").
Definition LATEST_PROOF_KEY : Hash := digest (bytes_of_string "latest_proof").
End keys.

(** ** [cache.rs] *)

(** The [lru] crate.  Every key of the storage caches is a number or a hash. *)
Class LruCrate := {
  lru : Type → Type;
  lru_new : ∀ {V}, nat → lru V;
  lru_get : ∀ {V}, Z → lru V → lru V * option V;
  lru_put : ∀ {V}, Z → V → lru V → lru V;
  (** The entries a cache holds. *)
  lru_view : ∀ {V}, lru V → gmap Z V;
  lru_view_new V n : lru_view (lru_new (V:=V) n) = ∅;
  lru_get_view V k (c : lru V) :
    ∃ c', lru_get k c = (c', lru_view c !! k) ∧ lru_view c' = lru_view c;
  lru_put_view V k (v : V) c : lru_view (lru_put k v c) ⊆ <[k := v]> (lru_view c)
}.

Definition LRU_CAPACITY : nat := 200.

Section cache.
Context `{!LruCrate}.

Record StorageCache := mkCache {
  c_blocks : lru Block;
  c_block_numbers : lru Z;
  c_headers : lru Header;
  c_transactions : lru SignedTransaction;
  c_codes : lru bytes;
  c_receipts : lru Receipt
}.

Definition StorageCache_default : StorageCache :=
  mkCache (lru_new LRU_CAPACITY) (lru_new LRU_CAPACITY) (lru_new LRU_CAPACITY)
    (lru_new LRU_CAPACITY) (lru_new LRU_CAPACITY) (lru_new LRU_CAPACITY).

(** One cache of the record. *)
Record cache_of (V : Type) := mkCacheOf {
  co_get : StorageCache → lru V;
  co_set : lru V → StorageCache → StorageCache
}.
Arguments mkCacheOf {V} co_get co_set.
Arguments co_get {V} c s.
Arguments co_set {V} c l s.

Definition blocks : cache_of Block := mkCacheOf c_blocks (λ l c,
  mkCache l (c_block_numbers c) (c_headers c) (c_transactions c) (c_codes c) (c_receipts c)).
Definition block_numbers : cache_of Z := mkCacheOf c_block_numbers (λ l c,
  mkCache (c_blocks c) l (c_headers c) (c_transactions c) (c_codes c) (c_receipts c)).
Definition headers : cache_of Header := mkCacheOf c_headers (λ l c,
  mkCache (c_blocks c) (c_block_numbers c) l (c_transactions c) (c_codes c) (c_receipts c)).
Definition transactions : cache_of SignedTransaction := mkCacheOf c_transactions (λ l c,
  mkCache (c_blocks c) (c_block_numbers c) (c_headers c) l (c_codes c) (c_receipts c)).
Definition codes : cache_of bytes := mkCacheOf c_codes (λ l c,
  mkCache (c_blocks c) (c_block_numbers c) (c_headers c) (c_transactions c) l (c_receipts c)).
Definition receipts : cache_of Receipt := mkCacheOf c_receipts (λ l c,
  mkCache (c_blocks c) (c_block_numbers c) (c_headers c) (c_transactions c) (c_codes c) l).
End cache.
Arguments mkCacheOf {_ V} co_get co_set.
Arguments co_get {_ V} c s.
Arguments co_set {_ V} c l s.

(** ** [ImplStorage] *)
Record ImplStorage `{!LruCrate} (Db : Type) := mkStorage {
  is_adapter : Db;
  is_cache : StorageCache;
  latest_block : option Block;
  latest_proof : option Proof
}.
Arguments mkStorage {_ Db} is_adapter is_cache latest_block latest_proof.
Arguments is_adapter {_ Db} i.
Arguments is_cache {_ Db} i.
Arguments latest_block {_ Db} i.
Arguments latest_proof {_ Db} i.

Section storage.
Context `{R : Rlp} `{K : Keccak} `{!LruCrate} {Db : Type} `{!StorageAdapter Db}.
Local Abbreviation SM := (M (ImplStorage Db) ProtocolError).

Definition ImplStorage_new (adapter : Db) : ImplStorage Db :=
  mkStorage adapter StorageCache_default None None.

Definition on_db {A} (m : M Db ProtocolError A) : SM A :=
  zoom is_adapter (λ d s, mkStorage d (is_cache s) (latest_block s) (latest_proof s)) m.

Definition cache_get {V} (c : cache_of V) (key : Z) : SM (option V) := λ s,
  let '(l, r) := lru_get key (co_get c (is_cache s)) in
  (mkStorage (is_adapter s) (co_set c l (is_cache s)) (latest_block s) (latest_proof s), Ok r).

Definition cache_put {V} (c : cache_of V) (key : Z) (val : option V) : SM unit := λ s,
  match val with
  | Some v => (mkStorage (is_adapter s)
                 (co_set c (lru_put key v (co_get c (is_cache s))) (is_cache s))
                 (latest_block s) (latest_proof s), Ok tt)
  | None => (s, Ok tt)
  end.

(** [get_cache!] then the rest of the method when the cache has no entry. *)
Definition get_cache {V} (c : cache_of V) (key : Z) (miss : SM (option V)) : SM (option V) :=
  r ← cache_get c key;
  match r with Some ret => mret (Some ret) | None => miss end.

(** [get!] with a cache, and [ensure_get!]. *)
Definition get_into {Key V} (sch : StorageSchema Key V) (key : Key) (c : cache_of V) (ckey : Z)
    : SM (option V) :=
  res ← on_db (sa_get sch key);
  cache_put c ckey res;;
  mret res.

Definition ensure_get {Key V} (sch : StorageSchema Key V) (key : Key) : SM V :=
  opt ← on_db (sa_get sch key);
  match opt with Some v => mret v | None => throw (PE_Storage GetNone) end.

Definition get_block_number_by_hash (hash : Hash) : SM (option Z) :=
  get_cache block_numbers hash (get_into BlockHashNumberSchema hash block_numbers hash).

Definition batch_insert_stxs (stxs : list SignedTransaction) (block_number : Z) : SM unit :=
  on_db (sa_batch_modify TransactionSchema
           (map (λ s, CommonHashKey_new block_number (stx_hash s)) stxs) (map BatchInsert stxs));;
  on_db (sa_batch_modify TxHashNumberSchema (map stx_hash stxs)
           (map (λ _, BatchInsert block_number) stxs)).

Definition batch_insert_receipts (rs : list Receipt) (block_number : Z) : SM unit :=
  on_db (sa_batch_modify ReceiptSchema
           (map (λ r, CommonHashKey_new block_number (rc_tx_hash r)) rs) (map BatchInsert rs));;
  on_db (sa_batch_modify TxHashNumberSchema (map rc_tx_hash rs)
           (map (λ _, BatchInsert block_number) rs)).

(** [Header::hash], [Block::header_hash] *)
Definition Header_hash (h : Header) : Hash := digest (encode Header_codec h).
Definition header_hash (b : Block) : Hash := Header_hash (b_header b).

(** *** [CommonStorage] *)
Definition set_block (ctx : Context) (b : Block) : SM unit :=
  let key := CommonPrefix_new (h_number (b_header b)) in
  on_db (sa_insert BlockSchema key b);;
  on_db (sa_insert BlockHeaderSchema key (b_header b));;
  on_db (sa_insert BlockHashNumberSchema (header_hash b) (h_number (b_header b))).

Definition set_latest_block (ctx : Context) (b : Block) : SM unit :=
  on_db (sa_insert LatestBlockSchema LATEST_BLOCK_KEY b);;
  modify (λ s, mkStorage (is_adapter s) (is_cache s) (Some b) (latest_proof s)).

Definition insert_block (ctx : Context) (b : Block) : SM unit :=
  set_block ctx b;; set_latest_block ctx b.

Definition get_block (ctx : Context) (height : Z) : SM (option Block) :=
  get_cache blocks height (get_into BlockSchema (CommonPrefix_new height) blocks height).

Definition get_block_header (ctx : Context) (height : Z) : SM (option Header) :=
  get_cache headers height
    (opt_header ← on_db (sa_get BlockHeaderSchema (CommonPrefix_new height));
     match opt_header with
     | Some h => cache_put headers height (Some h);; mret (Some h)
     | None => b ← get_block ctx height; mret (b_header <$> b)
     end).

Definition remove_block (ctx : Context) (height : Z) : SM unit :=
  on_db (sa_remove BlockSchema (CommonPrefix_new height)).

Definition get_latest_block (ctx : Context) : SM Block :=
  b ← gets latest_block;
  match b with Some b => mret b | None => ensure_get LatestBlockSchema LATEST_BLOCK_KEY end.

Definition get_latest_block_header (ctx : Context) : SM Header :=
  b ← gets latest_block;
  match b with
  | Some b => mret (b_header b)
  | None => b ← ensure_get LatestBlockSchema LATEST_BLOCK_KEY; mret (b_header b)
  end.

(** *** [Storage] *)
Definition insert_transactions (ctx : Context) (height : Z) (stxs : list SignedTransaction) : SM unit :=
  batch_insert_stxs stxs height.

Definition get_block_by_hash (ctx : Context) (block_hash : Hash) : SM (option Block) :=
  num ← get_block_number_by_hash block_hash;
  match num with Some num => get_block ctx num | None => mret None end.

(** The scan of [get_transactions] and [get_receipts]: [count] matches at
    most, an entry of another height ends it. *)
Fixpoint scan (items : list (ProtocolResult (CommonHashKey * bytes))) (height : Z)
    (hashes : list Hash) (count : nat) : ProtocolResult (list (Hash * bytes)) :=
  match count, items with
  | O, _ | _, [] => Ok []
  | S count', it :: items' =>
      '(key, v) ← it;
      if negb (hashkey_height key =? height) then Ok []
      else if decide (hk_hash key ∈ hashes) then
        found ← scan items' height hashes count'; Ok ((hk_hash key, v) :: found)
      else scan items' height hashes count
  end.

(** [hashes.iter().map(|h| found.remove(h))] *)
Fixpoint remove_each {V} (hashes : list Hash) (found : gmap Hash V) : list (option V) :=
  match hashes with
  | [] => []
  | h :: hashes' => (found !! h) :: remove_each hashes' (delete h found)
  end.

(** [collect::<HashMap<_, _>>()]: the later entry of a key wins. *)
Definition collect_map {V} (l : list (Hash * V)) : gmap Hash V :=
  fold_left (λ m kv, <[kv.1 := kv.2]> m) l ∅.

(** [slice.chunks(n)] *)
Fixpoint chunks {A} (fuel n : nat) (l : list A) : list (list A) :=
  match fuel, l with
  | O, _ | _, [] => []
  | S fuel', _ => take n l :: chunks fuel' n (drop n l)
  end.

Definition BATCH_VALUE_DECODE_NUMBER : nat := 1000.

Definition is_panic {E A} (o : outcome E A) : bool := match o with Panic => true | _ => false end.

(** Many values are decoded in one task per chunk; a task that panics fails the
    batch. *)
Definition decode_found {V} (dec : bytes → ProtocolResult V) (found : list (Hash * bytes))
    : ProtocolResult (list (Hash * V)) :=
  let dec_kv := λ kv : Hash * bytes, v ← dec kv.2; Ok (kv.1, v) in
  if decide (length found ≤ BATCH_VALUE_DECODE_NUMBER)%nat then traverse dec_kv found
  else
    let tasks := map (traverse dec_kv) (chunks (length found) BATCH_VALUE_DECODE_NUMBER found) in
    if existsb is_panic tasks then Err (PE_Storage BatchDecode)
    else ls ← traverse id tasks; Ok (concat ls).

Definition get_many {V} (sch : StorageSchema CommonHashKey bytes) (dec : bytes → ProtocolResult V)
    (height : Z) (hashes : list Hash) : SM (list (option V)) :=
  items ← on_db (sa_iter sch (block_height (CommonPrefix_new height)));
  found ← lift (scan items height hashes (length hashes));
  found ← lift (decode_found dec found);
  mret (remove_each hashes (collect_map found)).

Definition get_transactions (ctx : Context) (height : Z) (hashes : list Hash)
    : SM (list (option SignedTransaction)) :=
  get_many TransactionBytesSchema (pc_decode SignedTransaction_pcodec) height hashes.

Definition insert_code (ctx : Context) (code_address : H256) (code_hash : Hash) (c : bytes) : SM unit :=
  on_db (sa_insert EvmCodeSchema code_hash c);;
  on_db (sa_insert EvmCodeAddressSchema code_address code_hash).

Definition get_code_by_hash (ctx : Context) (hash : Hash) : SM (option bytes) :=
  get_cache codes hash (get_into EvmCodeSchema hash codes hash).

Definition get_code_by_address (ctx : Context) (address : H256) : SM (option bytes) :=
  code_hash ← on_db (sa_get EvmCodeAddressSchema address);
  match code_hash with Some hash => get_code_by_hash ctx hash | None => mret None end.

Definition get_transaction_by_hash (ctx : Context) (hash : Hash) : SM (option SignedTransaction) :=
  get_cache transactions hash
    (h ← on_db (sa_get TxHashNumberSchema hash);
     match h with
     | Some height => get_into TransactionSchema (CommonHashKey_new height hash) transactions hash
     | None => mret None
     end).

Definition insert_receipts (ctx : Context) (height : Z) (rs : list Receipt) : SM unit :=
  batch_insert_receipts rs height.

Definition get_receipt_by_hash (ctx : Context) (hash : Hash) : SM (option Receipt) :=
  get_cache receipts hash
    (h ← on_db (sa_get TxHashNumberSchema hash);
     match h with
     | Some height => get_into ReceiptSchema (CommonHashKey_new height hash) receipts hash
     | None => mret None
     end).

Definition get_receipts (ctx : Context) (height : Z) (hashes : list Hash)
    : SM (list (option Receipt)) :=
  match hashes with
  | [] => mret []
  | _ => get_many ReceiptBytesSchema (pc_decode (rlp_pcodec Receipt_codec)) height hashes
  end.

Definition update_latest_proof (ctx : Context) (proof : Proof) : SM unit :=
  on_db (sa_insert LatestProofSchema LATEST_PROOF_KEY proof);;
  modify (λ s, mkStorage (is_adapter s) (is_cache s) (latest_block s) (Some proof)).

Definition get_latest_proof (ctx : Context) : SM Proof :=
  p ← gets latest_proof;
  match p with Some p => mret p | None => ensure_get LatestProofSchema LATEST_PROOF_KEY end.

#[global] Instance impl_storage : Storage (ImplStorage Db) := {|
  st_insert_block := insert_block;
  st_get_block := get_block;
  st_get_block_header := get_block_header;
  st_set_block := set_block;
  st_remove_block := remove_block;
  st_get_latest_block := get_latest_block;
  st_set_latest_block := set_latest_block;
  st_get_latest_block_header := get_latest_block_header;
  st_insert_transactions := insert_transactions;
  st_get_block_by_hash := get_block_by_hash;
  st_get_transactions := get_transactions;
  st_get_transaction_by_hash := get_transaction_by_hash;
  st_insert_receipts := insert_receipts;
  st_insert_code := insert_code;
  st_get_code_by_hash := get_code_by_hash;
  st_get_code_by_address := get_code_by_address;
  st_get_receipt_by_hash := get_receipt_by_hash;
  st_get_receipts := get_receipts;
  st_update_latest_proof := update_latest_proof;
  st_get_latest_proof := get_latest_proof |}.
End storage.
