(* ===== verification/StorageLaws.v ===== *)
(** * What the storage relies on, and what its caches keep

    [StoreLaws] is the contract of a storage adapter: its categories are maps
    of encoded keys to encoded values.  The in-memory adapter and a list LRU
    cache discharge the contracts.  [coherent] is the invariant that a cached
    value is the one the adapter would return; under it every read of
    [ImplStorage] answers from the adapter's content. *)

From S2P Require Import Prelude Types Codec Traits Storage.

Local Open Scope Z_scope.

(** ** The contract of an adapter *)
Class StoreLaws (Db : Type) `{!StorageAdapter Db} := {
  sa_view : Db → StorageCategory → gmap bytes bytes;
  law_insert K V (s : StorageSchema K V) k v kb vb db :
    pc_encode (key_codec s) k = Ok kb → pc_encode (val_codec s) v = Ok vb →
    ∃ db', sa_insert s k v db = (db', Ok tt) ∧
      ∀ c, sa_view db' c = if decide (c = category s) then <[kb := vb]> (sa_view db c)
                           else sa_view db c;
  law_get K V (s : StorageSchema K V) k kb db :
    pc_encode (key_codec s) k = Ok kb →
    ∃ db', sa_get s k db =
        (db', match sa_view db (category s) !! kb with
              | Some b => Some <$> pc_decode (val_codec s) b
              | None => Ok None
              end) ∧ ∀ c, sa_view db' c = sa_view db c;
  law_remove K V (s : StorageSchema K V) k kb db :
    pc_encode (key_codec s) k = Ok kb →
    ∃ db', sa_remove s k db = (db', Ok tt) ∧
      ∀ c, sa_view db' c = if decide (c = category s) then delete kb (sa_view db c)
                           else sa_view db c;
  law_batch K V (s : StorageSchema K V) ks vs ps db :
    length ks = length vs → traverse (encode_pair s) (zip ks vs) = Ok ps →
    ∃ db', sa_batch_modify s ks vs db = (db', Ok tt) ∧
      ∀ c, sa_view db' c = if decide (c = category s) then fold_left write_pair ps (sa_view db c)
                           else sa_view db c
}.

#[global] Instance memory_laws `{!HashOrder} : StoreLaws MemoryAdapter.
Proof.
  refine {| sa_view db c := db c |}.
  - intros K V s k v kb vb db Hk Hv. eexists. cbn. unfold memory_insert.
    rewrite Hk, bind_lift_ok, Hv, bind_lift_ok. split; [done|]. done.
  - intros K V s k kb db Hk. exists db. cbn. unfold memory_get.
    rewrite Hk, bind_lift_ok, bind_gets. split; [|done].
    destruct (db (category s) !! kb) as [b|]; [|done].
    by destruct (pc_decode (val_codec s) b).
  - intros K V s k kb db Hk. eexists. cbn. unfold memory_remove. rewrite Hk, bind_lift_ok.
    split; [done|]. done.
  - intros K V s ks vs ps db Hl Hp. eexists. cbn. unfold memory_batch_modify.
    rewrite decide_True by done. rewrite Hp, bind_lift_ok. split; [done|]. done.
Defined.

(** An iteration order. *)
#[global] Instance list_order : HashOrder.
Proof. by refine {| hash_iter := map_to_list |}. Defined.

(** ** A list cache *)
Record list_lru (V : Type) := mkLru { lru_cap : nat; lru_items : list (Z * V) }.
Arguments mkLru {V} lru_cap lru_items.
Arguments lru_cap {V} l.
Arguments lru_items {V} l.

Definition drop_key {V} (k : Z) (l : list (Z * V)) : list (Z * V) := filter (λ kv, kv.1 ≠ k) l.

Definition list_lru_view {V} (c : list_lru V) : gmap Z V := list_to_map (lru_items c).

(** A hit moves its entry to the front. *)
Definition list_lru_get {V} (k : Z) (c : list_lru V) : list_lru V * option V :=
  match list_lru_view c !! k with
  | Some v => (mkLru (lru_cap c) ((k, v) :: drop_key k (lru_items c)), Some v)
  | None => (c, None)
  end.
Definition list_lru_put {V} (k : Z) (v : V) (c : list_lru V) : list_lru V :=
  mkLru (lru_cap c) (take (lru_cap c) ((k, v) :: drop_key k (lru_items c))).

Lemma drop_key_lookup {V} k (l : list (Z * V)) :
  (list_to_map (drop_key k l) : gmap Z V) = delete k (list_to_map l).
Proof.
  unfold drop_key. induction l as [|[k' v] l IH]; [by cbn; rewrite delete_empty|].
  rewrite list_to_map_cons. destruct (decide (k' = k)) as [->|Hne].
  - rewrite filter_cons_False by (by intros []). by rewrite IH, delete_insert_eq.
  - rewrite filter_cons_True by done. by rewrite list_to_map_cons, IH, delete_insert_ne.
Qed.

Lemma take_lookup {V} n (l : list (Z * V)) :
  (list_to_map (take n l) : gmap Z V) ⊆ list_to_map l.
Proof.
  revert n. induction l as [|[k v] l IH]; intros [|n]; cbn; [done|done|apply map_empty_subseteq|].
  by apply insert_mono.
Qed.

#[global] Instance list_lru_crate : LruCrate.
Proof.
  refine {| lru := list_lru; lru_new V n := mkLru n []; lru_get V := list_lru_get;
            lru_put V := list_lru_put; lru_view V := list_lru_view |}.
  - done.
  - intros V k c. unfold list_lru_get. destruct (list_lru_view c !! k) as [v|] eqn:E; [|by exists c].
    eexists. split; [done|]. unfold list_lru_view in *. cbn. rewrite drop_key_lookup.
    rewrite insert_delete_eq. by apply insert_id.
  - intros V k v c. unfold list_lru_put, list_lru_view. cbn [lru_items].
    etrans; [apply take_lookup|]. cbn. rewrite drop_key_lookup. by rewrite insert_delete_eq.
Defined.

(** ** Reading through the caches *)
Section laws.
Context `{R : Rlp} `{K : Keccak} `{!LruCrate} {Db : Type} `{!StorageAdapter Db} `{!StoreLaws Db}.
Local Abbreviation storage := (ImplStorage Db).

(** What the adapter of [s] answers to a [get]. *)
Definition db_get {Key V} (s : storage) (sch : StorageSchema Key V) (key : Key)
    : ProtocolResult (option V) :=
  kb ← pc_encode (key_codec sch) key;
  match sa_view (is_adapter s) (category sch) !! kb with
  | Some b => Some <$> pc_decode (val_codec sch) b
  | None => Ok None
  end.

(** Two stores with the same content. *)
Definition same_db (s s' : storage) : Prop :=
  ∀ c, sa_view (is_adapter s') c = sa_view (is_adapter s) c.

Definition cached_by {V} (c : cache_of V) (P : Z → V → Prop) (s : storage) : Prop :=
  ∀ k v, lru_view (co_get c (is_cache s)) !! k = Some v → P k v.

(** A transaction or receipt found through the hash index. *)
Definition db_indexed {V} (s : storage) (sch : StorageSchema CommonHashKey V) (hash : Hash)
    : ProtocolResult (option V) :=
  h ← db_get s TxHashNumberSchema hash;
  match h with
  | Some height => db_get s sch (CommonHashKey_new height hash)
  | None => Ok None
  end.

(** The caches, each with what a cached value stands for. *)
Inductive field : ∀ {V : Type}, cache_of V → (storage → Z → V → Prop) → Prop :=
| f_blocks : field blocks (λ s h b, db_get s BlockSchema (CommonPrefix_new h) = Ok (Some b))
| f_numbers : field block_numbers (λ s h n, db_get s BlockHashNumberSchema h = Ok (Some n))
| f_headers : field headers (λ s h b, db_get s BlockHeaderSchema (CommonPrefix_new h) = Ok (Some b))
| f_transactions : field transactions (λ s h t, db_indexed s TransactionSchema h = Ok (Some t))
| f_codes : field codes (λ s h c, db_get s EvmCodeSchema h = Ok (Some c))
| f_receipts : field receipts (λ s h r, db_indexed s ReceiptSchema h = Ok (Some r)).

Record coherent (s : storage) : Prop := {
  co_cache : ∀ V (c : cache_of V) P, field c P → cached_by c (P s) s;
  co_latest : ∀ b, latest_block s = Some b → db_get s LatestBlockSchema LATEST_BLOCK_KEY = Ok (Some b);
  co_proof : ∀ p, latest_proof s = Some p → db_get s LatestProofSchema LATEST_PROOF_KEY = Ok (Some p)
}.

Definition set_cache (s : storage) (c : StorageCache) : storage :=
  mkStorage (is_adapter s) c (latest_block s) (latest_proof s).

Lemma coherent_new db : coherent (ImplStorage_new db).
Proof.
  split; [|done..]. intros V c P Hf. destruct Hf; intros k v; cbn; by rewrite lru_view_new, lookup_empty.
Qed.

Lemma same_db_trans s1 s2 s3 : same_db s1 s2 → same_db s2 s3 → same_db s1 s3.
Proof. intros H1 H2 c. by rewrite H2, H1. Qed.

Lemma db_get_same {Key V} s s' (sch : StorageSchema Key V) key :
  same_db s s' → db_get s' sch key = db_get s sch key.
Proof. intros Hs. unfold db_get. destruct (pc_encode _ key); [cbn|done..]. by rewrite Hs. Qed.

Lemma db_indexed_same {V} s s' (sch : StorageSchema _ V) h :
  same_db s s' → db_indexed s' sch h = db_indexed s sch h.
Proof.
  intros Hs. unfold db_indexed. rewrite (db_get_same s s') by done.
  destruct (db_get s TxHashNumberSchema h) as [[]| |]; cbn; [|done..]. by apply db_get_same.
Qed.

Lemma field_same {V} (c : cache_of V) P s s' k v : field c P → same_db s s' → P s k v → P s' k v.
Proof.
  intros Hf Hs. revert k v. destruct Hf; intros k v; by rewrite ?(db_get_same s s'), ?(db_indexed_same s s').
Qed.

(** Replacing one cache by another whose entries are right. *)
Lemma coherent_set_cache {V} (c : cache_of V) P l s :
  field c P → coherent s → (∀ k v, lru_view l !! k = Some v → P s k v) →
  coherent (set_cache s (co_set c l (is_cache s))).
Proof.
  intros Hf [Hc Hl Hp] Hn. split; [|exact Hl|exact Hp].
  intros V' c' P' Hf'. destruct Hf; destruct Hf'; intros k v; cbn;
    first [apply Hn | apply (Hc _ _ _ f_blocks) | apply (Hc _ _ _ f_numbers) | apply (Hc _ _ _ f_headers)
          | apply (Hc _ _ _ f_transactions) | apply (Hc _ _ _ f_codes) | apply (Hc _ _ _ f_receipts)].
Qed.

Lemma coherent_same_db s s' :
  same_db s s' → is_cache s' = is_cache s → latest_block s' = latest_block s →
  latest_proof s' = latest_proof s → coherent s → coherent s'.
Proof.
  intros Hs E1 E2 E3 [Hc Hl Hp]. split.
  - intros V c P Hf k v. rewrite E1. intros Hv. eapply field_same; [done..|]. by apply (Hc _ _ _ Hf).
  - intros b. rewrite E2. rewrite (db_get_same s s') by done. apply Hl.
  - intros p. rewrite E3. rewrite (db_get_same s s') by done. apply Hp.
Qed.

Lemma on_db_get {Key V} (sch : StorageSchema Key V) key kb s :
  pc_encode (key_codec sch) key = Ok kb →
  ∃ s', on_db (sa_get sch key) s = (s', db_get s sch key) ∧ same_db s s' ∧
    (coherent s → coherent s') ∧ is_cache s' = is_cache s.
Proof.
  intros Hk. destruct (law_get _ _ sch key kb (is_adapter s) Hk) as (db' & Hg & Hv).
  exists (mkStorage db' (is_cache s) (latest_block s) (latest_proof s)).
  unfold on_db, zoom, db_get. rewrite Hg, Hk. split_and!; [done|done| |done].
  by apply coherent_same_db.
Qed.

Lemma get_cache_spec {V} (c : cache_of V) P key s miss res :
  field c P → coherent s →
  (∀ s1, coherent s1 → same_db s s1 → ∃ s2, miss s1 = (s2, res) ∧ coherent s2 ∧ same_db s s2) →
  (∀ v, P s key v → res = Ok (Some v)) →
  ∃ s', get_cache c key miss s = (s', res) ∧ coherent s' ∧ same_db s s'.
Proof.
  intros Hf Hs Hmiss Hhit.
  destruct (lru_get_view _ key (co_get c (is_cache s))) as (l & Hl & Hv).
  set (s1 := set_cache s (co_set c l (is_cache s))).
  assert (cache_get c key s = (s1, Ok (lru_view (co_get c (is_cache s)) !! key))) as Hget
    by (unfold cache_get; by rewrite Hl).
  assert (coherent s1) as Hs1.
  { apply (coherent_set_cache c P); [done..|]. intros k v. rewrite Hv. apply (co_cache _ Hs _ _ _ Hf). }
  unfold get_cache. mrun Hget.
  destruct (lru_view (co_get c (is_cache s)) !! key) as [v|] eqn:E; [|by apply Hmiss].
  exists s1. rewrite (Hhit v) by (by apply (co_cache _ Hs _ _ _ Hf)). done.
Qed.

Lemma get_into_spec {Key V} (sch : StorageSchema Key V) key kb (c : cache_of V) P ckey s :
  field c P → coherent s → pc_encode (key_codec sch) key = Ok kb →
  (∀ v, db_get s sch key = Ok (Some v) → P s ckey v) →
  ∃ s', get_into sch key c ckey s = (s', db_get s sch key) ∧ coherent s' ∧ same_db s s'.
Proof.
  intros Hf Hs Hk HP. destruct (on_db_get sch key kb s Hk) as (s1 & Hg & Hsame & Hc1 & Hch).
  unfold get_into. destruct (db_get s sch key) as [[v|]|e|]; mrun Hg; [|by eauto..].
  eexists. split; [done|]. split; [|done].
  apply (coherent_set_cache c P _ s1 Hf (Hc1 Hs)). intros k w Hw.
  pose proof (lookup_weaken _ _ _ _ Hw (lru_put_view _ ckey v _)) as Hw'.
  rewrite lookup_insert in Hw'. case_decide as Ek.
  - injection Hw' as <-. subst k. eapply field_same; [done..|]. by apply HP.
  - by apply (co_cache _ (Hc1 Hs) _ _ _ Hf).
Qed.
End laws.

(** ** Writing *)
Section writes.
Context `{R : Rlp} `{K : Keccak} `{!LruCrate} {Db : Type} `{!StorageAdapter Db} `{!StoreLaws Db}.
Local Abbreviation storage := (ImplStorage Db).

(** The entries outside [L] stay. *)
Definition keeps (L : StorageCategory → bytes → Prop) (s s' : storage) : Prop :=
  ∀ c kb vb, ¬ L c kb → sa_view (is_adapter s) c !! kb = Some vb →
             sa_view (is_adapter s') c !! kb = Some vb.

(** Nothing but the adapter differs. *)
Definition only_db (s s' : storage) : Prop :=
  is_cache s' = is_cache s ∧ latest_block s' = latest_block s ∧ latest_proof s' = latest_proof s.

Lemma on_db_insert {Key V} (sch : StorageSchema Key V) key v kb vb s :
  pc_encode (key_codec sch) key = Ok kb → pc_encode (val_codec sch) v = Ok vb →
  ∃ s', on_db (sa_insert sch key v) s = (s', Ok tt) ∧ only_db s s' ∧
    ∀ c, sa_view (is_adapter s') c =
         if decide (c = category sch) then <[kb := vb]> (sa_view (is_adapter s) c)
         else sa_view (is_adapter s) c.
Proof.
  intros Hk Hv. destruct (law_insert _ _ sch key v kb vb (is_adapter s) Hk Hv) as (db' & Hi & Hview).
  exists (mkStorage db' (is_cache s) (latest_block s) (latest_proof s)).
  unfold on_db, zoom. by rewrite Hi.
Qed.

Lemma on_db_batch {Key V} (sch : StorageSchema Key V) ks vs ps s :
  length ks = length vs → traverse (encode_pair sch) (zip ks vs) = Ok ps →
  ∃ s', on_db (sa_batch_modify sch ks vs) s = (s', Ok tt) ∧ only_db s s' ∧
    ∀ c, sa_view (is_adapter s') c =
         if decide (c = category sch) then fold_left write_pair ps (sa_view (is_adapter s) c)
         else sa_view (is_adapter s) c.
Proof.
  intros Hl Hp. destruct (law_batch _ _ sch ks vs ps (is_adapter s) Hl Hp) as (db' & Hi & Hview).
  exists (mkStorage db' (is_cache s) (latest_block s) (latest_proof s)).
  unfold on_db, zoom. by rewrite Hi.
Qed.

Lemma db_get_keeps {Key V} L s s' (sch : StorageSchema Key V) key v :
  keeps L s s' → (∀ kb, pc_encode (key_codec sch) key = Ok kb → ¬ L (category sch) kb) →
  db_get s sch key = Ok (Some v) → db_get s' sch key = Ok (Some v).
Proof.
  intros Hk HL. unfold db_get. destruct (pc_encode _ key) as [kb| |]; cbn; [|done..].
  destruct (sa_view (is_adapter s) (category sch) !! kb) as [b|] eqn:E; [|done].
  by rewrite (Hk _ _ _ (HL kb eq_refl) E).
Qed.

Lemma db_indexed_keeps {V} L s s' (sch : StorageSchema CommonHashKey V) h v :
  keeps L s s' → (∀ kb, ¬ L SC_HashHeight kb) → (∀ kb, ¬ L (category sch) kb) →
  db_indexed s sch h = Ok (Some v) → db_indexed s' sch h = Ok (Some v).
Proof.
  intros Hk H1 H2. unfold db_indexed.
  destruct (db_get s TxHashNumberSchema h) as [[n|]| |] eqn:E;
    cbn [mbind outcome_bind]; [|done..].
  rewrite (db_get_keeps L s s' TxHashNumberSchema h n Hk (λ _ _, H1 _) E). cbn [mbind outcome_bind].
  apply (db_get_keeps L); [done|]. intros kb _. apply H2.
Qed.

(** Rewriting entries of the block category that are no block keys leaves the
    caches right. *)
Lemma coherent_keeps L s s' :
  keeps L s s' → is_cache s' = is_cache s → (∀ c kb, L c kb → c = SC_Block ∧ length kb ≠ 8%nat) →
  (∀ b, latest_block s' = Some b → db_get s' LatestBlockSchema LATEST_BLOCK_KEY = Ok (Some b)) →
  (∀ p, latest_proof s' = Some p → db_get s' LatestProofSchema LATEST_PROOF_KEY = Ok (Some p)) →
  coherent s → coherent s'.
Proof.
  intros Hk Ec HL Hl Hp [Hc _ _]. split; [|done..]. intros V c P Hf k v. rewrite Ec. intros Hv.
  apply (Hc _ _ _ Hf) in Hv. revert Hv.
  destruct Hf; try (apply (db_get_keeps L); [done|]; intros kb E HLkb; destruct (HL _ _ HLkb) as [E1 E2]);
    try discriminate E1; try (apply (db_indexed_keeps L); [done|..]; intros kb HLkb;
                              destruct (HL _ _ HLkb) as [E1 _]; discriminate E1).
  injection E as <-. by apply E2.
Qed.
End writes.
