(* ===== verification/StorageProps.v ===== *)
(** * Properties of the storage

    Reads through the caches are reads of the adapter, a new block is found by
    number, header, hash and as the latest block, a stored transaction comes
    back as its codec decodes it; and where the caches are not maintained. *)

From S2P Require Import Prelude Types Codec RlpInstance Traits Storage StorageLaws CodecProps.

Local Open Scope Z_scope.

Section reads.
Context `{R : Rlp} `{K : Keccak} `{!LruCrate} {Db : Type} `{!StorageAdapter Db} `{!StoreLaws Db}.
Local Abbreviation storage := (ImplStorage Db).
Implicit Types s : storage.

(** A read that answers [res] and leaves the content. *)
Definition reads {A} (m : M storage ProtocolError A) (s : storage) (res : ProtocolResult A) : Prop :=
  ∃ s', m s = (s', res) ∧ coherent s' ∧ same_db s s'.

Lemma get_block_reads s h :
  coherent s → reads (get_block ∅ h) s (db_get s BlockSchema (CommonPrefix_new h)).
Proof.
  intros Hs. apply (get_cache_spec _ _ _ _ _ _ f_blocks Hs); [|done]. intros s1 Hs1 Hsame.
  destruct (get_into_spec BlockSchema (CommonPrefix_new h) _ blocks _ h s1 f_blocks Hs1 eq_refl)
    as (s2 & E & Hc & Hd); [done|].
  exists s2. rewrite E, (db_get_same s s1) by done. eauto using same_db_trans.
Qed.

Lemma get_block_number_reads s h :
  coherent s → reads (get_block_number_by_hash h) s (db_get s BlockHashNumberSchema h).
Proof.
  intros Hs. apply (get_cache_spec _ _ _ _ _ _ f_numbers Hs); [|done]. intros s1 Hs1 Hsame.
  destruct (get_into_spec BlockHashNumberSchema h _ block_numbers _ h s1 f_numbers Hs1 eq_refl)
    as (s2 & E & Hc & Hd); [done|].
  exists s2. rewrite E, (db_get_same s s1) by done. eauto using same_db_trans.
Qed.

Lemma get_code_reads s h : coherent s → reads (get_code_by_hash ∅ h) s (db_get s EvmCodeSchema h).
Proof.
  intros Hs. apply (get_cache_spec _ _ _ _ _ _ f_codes Hs); [|done]. intros s1 Hs1 Hsame.
  destruct (get_into_spec EvmCodeSchema h _ codes _ h s1 f_codes Hs1 eq_refl)
    as (s2 & E & Hc & Hd); [done|].
  exists s2. rewrite E, (db_get_same s s1) by done. eauto using same_db_trans.
Qed.

(** The index lookup followed by the table lookup. *)
Lemma indexed_reads {V} (sch : StorageSchema CommonHashKey V) (c : cache_of V) s h :
  field c (λ s h v, db_indexed s sch h = Ok (Some v)) → key_codec sch = CommonHashKey_pcodec →
  coherent s →
  reads (get_cache c h
    (n ← on_db (sa_get TxHashNumberSchema h);
     match n with
     | Some height => get_into sch (CommonHashKey_new height h) c h
     | None => mret None
     end)) s (db_indexed s sch h).
Proof.
  intros Hf Hk Hs. apply (get_cache_spec _ _ _ _ _ _ Hf Hs); [|done]. intros s1 Hs1 Hsame.
  rewrite <-(db_indexed_same s s1) by done. unfold db_indexed at 1.
  destruct (on_db_get TxHashNumberSchema h _ s1 eq_refl) as (s2 & E & Hd & Hc & _).
  destruct (db_get s1 TxHashNumberSchema h) as [[n|]| |] eqn:En; mrun E;
    [|exists s2; split; [done|]; split; [by apply Hc|by eapply same_db_trans]..].
  assert (∀ v, db_get s2 sch (CommonHashKey_new n h) = Ok (Some v) → db_indexed s2 sch h = Ok (Some v)) as Hv.
  { intros v. unfold db_indexed. rewrite (db_get_same s1 s2 TxHashNumberSchema), En by done. done. }
  destruct (get_into_spec sch (CommonHashKey_new n h) (make_hash_key (CommonPrefix_new n) h) c _ h s2
    Hf (Hc Hs1)) as (s3 & E3 & Hc3 & Hd3); [by rewrite Hk|done|].
  exists s3. rewrite E3, (db_get_same s1 s2) by done. eauto using same_db_trans.
Qed.

(** A header comes from its own table, or else from its block. *)
Definition db_header (s : storage) (h : Z) : ProtocolResult (option Header) :=
  match db_get s BlockHeaderSchema (CommonPrefix_new h) with
  | Ok None => fmap (M := outcome ProtocolError) (fmap (M := option) b_header)
                 (db_get s BlockSchema (CommonPrefix_new h))
  | o => o
  end.

Lemma get_header_reads s h : coherent s → reads (get_block_header ∅ h) s (db_header s h).
Proof.
  intros Hs. apply (get_cache_spec _ _ _ _ _ _ f_headers Hs);
    [|intros v Hv; unfold db_header; by rewrite Hv].
  intros s1 Hs1 Hsame. unfold db_header. rewrite <-(db_get_same s s1 BlockHeaderSchema) by done.
  destruct (get_into_spec BlockHeaderSchema (CommonPrefix_new h) _ headers _ h s1 f_headers Hs1 eq_refl)
    as (s2 & E & Hc & Hd); [done|].
  destruct (on_db_get BlockHeaderSchema (CommonPrefix_new h) _ s1 eq_refl) as (s3 & E3 & Hd3 & Hc3 & _).
  unfold get_into in E. destruct (db_get s1 BlockHeaderSchema (CommonPrefix_new h)) as [[hd|]| |];
    rewrite (bind_ok _ _ _ _ _ E3) in E || rewrite (bind_err _ _ _ _ _ E3) in E
    || rewrite (bind_panic _ _ _ _ E3) in E; mrun E3.
  - exists s2. split; [done|]. eauto using same_db_trans.
  - destruct (get_block_reads s3 h (Hc3 Hs1)) as (s4 & E4 & Hc4 & Hd4).
    assert (same_db s s3) as H03 by eauto using same_db_trans.
    rewrite (db_get_same s s3) in E4 by done.
    destruct (db_get s BlockSchema (CommonPrefix_new h)); mrun E4;
      (exists s4; split; [done|]; eauto using same_db_trans).
  - exists s3. eauto using same_db_trans.
  - exists s3. eauto using same_db_trans.
Qed.

Definition db_block_by_hash (s : storage) (h : Hash) : ProtocolResult (option Block) :=
  n ← db_get s BlockHashNumberSchema h;
  match n with Some n => db_get s BlockSchema (CommonPrefix_new n) | None => Ok None end.

Lemma get_block_by_hash_reads s h :
  coherent s → reads (get_block_by_hash ∅ h) s (db_block_by_hash s h).
Proof.
  intros Hs. destruct (get_block_number_reads s h Hs) as (s1 & E & Hc & Hd).
  unfold get_block_by_hash, db_block_by_hash.
  destruct (db_get s BlockHashNumberSchema h) as [[n|]| |]; unfold reads; mrun E; [|by exists s1..].
  destruct (get_block_reads s1 n Hc) as (s2 & E2 & Hc2 & Hd2). exists s2.
  rewrite E2, (db_get_same s s1) by done. eauto using same_db_trans.
Qed.

Lemma get_latest_reads s b :
  coherent s → db_get s LatestBlockSchema LATEST_BLOCK_KEY = Ok (Some b) →
  reads (get_latest_block ∅) s (Ok b).
Proof.
  intros Hs Hb. unfold reads, get_latest_block. msteps. destruct (latest_block s) as [b'|] eqn:E.
  - pose proof (co_latest _ Hs _ E) as Hb'. exists s. split; [|done].
    assert (b' = b) as -> by congruence. done.
  - destruct (on_db_get LatestBlockSchema LATEST_BLOCK_KEY _ s eq_refl) as (s' & Eg & Hd & Hc & _).
    unfold ensure_get. rewrite Hb in Eg. mrun Eg. exists s'. eauto.
Qed.

(** ** A new block *)
Definition fresh_block (s : storage) (b : Block) : Prop :=
  let h := h_number (b_header b) in
  db_get s BlockSchema (CommonPrefix_new h) = Ok None ∧
  db_get s BlockHeaderSchema (CommonPrefix_new h) = Ok None ∧
  db_get s BlockHashNumberSchema (header_hash b) = Ok None.

Lemma db_get_None {Key V} s (sch : StorageSchema Key V) key kb :
  pc_encode (key_codec sch) key = Ok kb → db_get s sch key = Ok None →
  sa_view (is_adapter s) (category sch) !! kb = None.
Proof.
  intros Hk. unfold db_get. rewrite Hk. cbn. destruct (_ !! kb) as [v|]; [|done].
  by destruct (pc_decode (val_codec sch) v).
Qed.

Lemma db_get_found {Key V} s (sch : StorageSchema Key V) key kb vb v :
  pc_encode (key_codec sch) key = Ok kb → pc_decode (val_codec sch) vb = Ok v →
  sa_view (is_adapter s) (category sch) !! kb = Some vb → db_get s sch key = Ok (Some v).
Proof. intros Hk Hv E. unfold db_get. rewrite Hk. cbn. rewrite E. cbn. by rewrite Hv. Qed.

Lemma encode_h256_inj x y : h256_ok x → h256_ok y → encode c_h256 x = encode c_h256 y → x = y.
Proof. apply (lawful_inj h256_ok), c_h256_ok. Qed.

Lemma rlp_pcodec_ok {A} (P : A → Prop) (c : codec item A) a :
  lawful P c → P a → pc_decode (rlp_pcodec c) (encode c a) = Ok a.
Proof. intros Hc Ha. cbn. by rewrite (decode_encode_lawful P). Qed.

(** What [insert_block] writes. *)
Lemma insert_block_writes s b :
  ∃ s', insert_block ∅ b s = (s', Ok tt) ∧ is_cache s' = is_cache s ∧ latest_block s' = Some b ∧
    latest_proof s' = latest_proof s ∧
    let kb := to_be_bytes 8 (h_number (b_header b)) in
    let v := sa_view (is_adapter s) in
    sa_view (is_adapter s') SC_Block =
      <[encode c_h256 LATEST_BLOCK_KEY := encode Block_codec b]>
        (<[kb := encode Block_codec b]> (v SC_Block)) ∧
    sa_view (is_adapter s') SC_BlockHeader =
      <[kb := encode Header_codec (b_header b)]> (v SC_BlockHeader) ∧
    sa_view (is_adapter s') SC_HashHeight =
      <[encode c_h256 (header_hash b) := encode c_u64 (h_number (b_header b))]> (v SC_HashHeight) ∧
    ∀ c, c ≠ SC_Block → c ≠ SC_BlockHeader → c ≠ SC_HashHeight →
      sa_view (is_adapter s') c = v c.
Proof.
  unfold insert_block, set_block, set_latest_block.
  destruct (on_db_insert BlockSchema (CommonPrefix_new (h_number (b_header b))) b _ _ s eq_refl eq_refl)
    as (s1 & E1 & (C1 & L1 & P1) & V1).
  destruct (on_db_insert BlockHeaderSchema (CommonPrefix_new (h_number (b_header b))) (b_header b) _ _ s1
    eq_refl eq_refl) as (s2 & E2 & (C2 & L2 & P2) & V2).
  destruct (on_db_insert BlockHashNumberSchema (header_hash b) (h_number (b_header b)) _ _ s2 eq_refl eq_refl)
    as (s3 & E3 & (C3 & L3 & P3) & V3).
  destruct (on_db_insert LatestBlockSchema LATEST_BLOCK_KEY b _ _ s3 eq_refl eq_refl)
    as (s4 & E4 & (C4 & L4 & P4) & V4).
  exists (mkStorage (is_adapter s4) (is_cache s4) (Some b) (latest_proof s4)).
  split.
  { erewrite bind_ok; [|erewrite bind_ok; [|exact E1]; erewrite bind_ok; [|exact E2]; exact E3].
    by mrun E4. }
  cbn [is_cache latest_block latest_proof is_adapter].
  split_and!; [congruence|done|congruence| | | |].
  1-3: rewrite V4, V3, V2, V1; reflexivity.
  intros c Hc1 Hc2 Hc3. rewrite V4, V3, V2, V1. cbn [category]. by rewrite !decide_False by done.
Qed.

Lemma insert_block_coherent s b s' :
  coherent s → block_wf b → fresh_block s b → LATEST_PROOF_KEY ≠ LATEST_BLOCK_KEY →
  insert_block ∅ b s = (s', Ok tt) →
  coherent s' ∧ keeps (λ c kb, c = SC_Block ∧ kb = encode c_h256 LATEST_BLOCK_KEY) s s'.
Proof.
  intros Hs Hb (F1 & F2 & F3) Hne Hi.
  destruct (insert_block_writes s b) as (s1 & Hi' & Ec & El & Ep & VB & VH & VN & VO).
  rewrite Hi in Hi'. injection Hi' as <-.
  set (kb0 := to_be_bytes 8 (h_number (b_header b))) in *.
  apply (db_get_None s BlockSchema (CommonPrefix_new (h_number (b_header b))) kb0 eq_refl) in F1.
  apply (db_get_None s BlockHeaderSchema (CommonPrefix_new (h_number (b_header b))) kb0 eq_refl) in F2.
  apply (db_get_None s BlockHashNumberSchema (header_hash b) (encode c_h256 (header_hash b)) eq_refl) in F3.
  change (category BlockSchema) with SC_Block in F1.
  change (category BlockHeaderSchema) with SC_BlockHeader in F2.
  change (category BlockHashNumberSchema) with SC_HashHeight in F3.
  assert (keeps (λ c kb, c = SC_Block ∧ kb = encode c_h256 LATEST_BLOCK_KEY) s s') as Hk.
  { intros c kb vb HL Hv. destruct (decide (c = SC_Block)) as [->|H1].
    { rewrite VB. rewrite lookup_insert_ne by (intros <-; by apply HL).
      rewrite lookup_insert_ne; [done|]. intros <-. congruence. }
    destruct (decide (c = SC_BlockHeader)) as [->|H2].
    { rewrite VH. rewrite lookup_insert_ne; [done|]. intros <-. congruence. }
    destruct (decide (c = SC_HashHeight)) as [->|H3]; [|by rewrite VO].
    rewrite VN. rewrite lookup_insert_ne; [done|]. intros <-. congruence. }
  split; [|exact Hk]. eapply coherent_keeps; [exact Hk|exact Ec| | | |exact Hs].
  - intros c kb [-> ->]. split; [done|]. pose proof (c_h256_long LATEST_BLOCK_KEY). unfold encode. lia.
  - intros b'. rewrite El. intros [= <-]. eapply db_get_found; [done|by apply (rlp_pcodec_ok block_wf), Hb; apply Block_lawful|].
    change (category LatestBlockSchema) with SC_Block. rewrite VB. apply lookup_insert_eq.
  - intros p. rewrite Ep. intros Hp%(co_proof _ Hs). eapply db_get_keeps; [exact Hk| |exact Hp].
    intros kb [= <-] [_ E]. apply Hne. apply encode_h256_inj; [apply digest_range..|done].
Qed.
End reads.

(** ** Properties *)
Definition new_storage : ImplStorage MemoryAdapter := ImplStorage_new MemoryAdapter_new.

(** C8: under coherent caches every cached read of the storage (block, header,
    block by hash, transaction, receipt, code) answers exactly what the adapter
    holds, and leaves the content and the coherence as they were. *)
Theorem storage_reads_transparent `{R : Rlp} `{K : Keccak} `{!LruCrate} {Db} `{!StorageAdapter Db}
    `{!StoreLaws Db} (s : ImplStorage Db) (n : Z) (h : Hash) :
  coherent s →
  reads (get_block ∅ n) s (db_get s BlockSchema (CommonPrefix_new n)) ∧
  reads (get_block_header ∅ n) s (db_header s n) ∧
  reads (get_block_by_hash ∅ h) s (db_block_by_hash s h) ∧
  reads (get_transaction_by_hash ∅ h) s (db_indexed s TransactionSchema h) ∧
  reads (get_receipt_by_hash ∅ h) s (db_indexed s ReceiptSchema h) ∧
  reads (get_code_by_hash ∅ h) s (db_get s EvmCodeSchema h).
Proof.
  intros Hs. split_and!; [by apply get_block_reads|by apply get_header_reads
    |by apply get_block_by_hash_reads| | |by apply get_code_reads].
  - by apply (indexed_reads TransactionSchema transactions s h f_transactions).
  - by apply (indexed_reads ReceiptSchema receipts s h f_receipts).
Qed.

Lemma storage_reads_transparent_witness :
  ∃ s s1 s2, insert_block ∅ sample_block new_storage = (s, Ok tt) ∧
    get_block ∅ 5 s = (s1, Ok (Some sample_block)) ∧ get_block ∅ 5 s1 = (s2, Ok (Some sample_block)).
Proof.
  destruct (insert_block_writes new_storage sample_block) as (s & Hi & _).
  destruct (insert_block_coherent new_storage sample_block s (coherent_new _)) as [Hs _];
    [by repeat constructor|by vm_compute|by vm_compute|exact Hi|].
  assert (db_get (insert_block ∅ sample_block new_storage).1 BlockSchema (CommonPrefix_new 5) = Ok (Some sample_block))
    as Hdb by (vm_compute; reflexivity).
  rewrite Hi in Hdb. cbn [fst] in Hdb. exists s.
  destruct (storage_reads_transparent s 5 0 Hs) as ((s1 & E1 & Hs1 & Ed) & _).
  destruct (storage_reads_transparent s1 5 0 Hs1) as ((s2 & E2 & _) & _).
  exists s1, s2. split; [exact Hi|]. split; [rewrite E1, Hdb; reflexivity|].
  rewrite E2. unfold db_get. rewrite Ed. fold (db_get s BlockSchema (CommonPrefix_new 5)). rewrite Hdb. reflexivity.
Defined.

(** A well-formed block of a new height and hash is stored: afterwards it
    is found by number, by its header's number, by hash and as the latest
    block, every block stored before is still found, and the caches stay
    coherent. *)
Theorem insert_block_stored `{R : Rlp} `{K : Keccak} `{!LruCrate} {Db} `{!StorageAdapter Db}
    `{!StoreLaws Db} (s : ImplStorage Db) (b : Block) :
  coherent s → block_wf b → fresh_block s b → LATEST_PROOF_KEY ≠ LATEST_BLOCK_KEY →
  ∃ s', insert_block ∅ b s = (s', Ok tt) ∧ coherent s' ∧
    snd (get_block ∅ (h_number (b_header b)) s') = Ok (Some b) ∧
    snd (get_block_header ∅ (h_number (b_header b)) s') = Ok (Some (b_header b)) ∧
    snd (get_block_by_hash ∅ (header_hash b) s') = Ok (Some b) ∧
    snd (get_latest_block ∅ s') = Ok b ∧
    ∀ n b0, snd (get_block ∅ n s) = Ok (Some b0) → snd (get_block ∅ n s') = Ok (Some b0).
Proof.
  intros Hs Hb Hf Hne. destruct (insert_block_writes s b) as (s' & Hi & _ & El & _ & VB & VH & VN & _).
  destruct (insert_block_coherent _ _ _ Hs Hb Hf Hne Hi) as [Hs' Hk].
  pose proof (c_h256_long LATEST_BLOCK_KEY) as Hlong.
  assert (db_get s' BlockSchema (CommonPrefix_new (h_number (b_header b))) = Ok (Some b)) as HB.
  { eapply db_get_found; [done|by apply (rlp_pcodec_ok block_wf), Hb; apply Block_lawful|].
    change (category BlockSchema) with SC_Block. rewrite VB, lookup_insert_ne; [apply lookup_insert_eq|].
    intros E. assert (length (encode c_h256 LATEST_BLOCK_KEY) = 8%nat) as E8 by (by rewrite E).
    unfold encode in E8. lia. }
  assert (db_get s' BlockHeaderSchema (CommonPrefix_new (h_number (b_header b)))
    = Ok (Some (b_header b))) as HH.
  { eapply db_get_found; [done|by apply (rlp_pcodec_ok header_wf); [apply Header_lawful|apply Hb]|].
    change (category BlockHeaderSchema) with SC_BlockHeader. rewrite VH. apply lookup_insert_eq. }
  assert (db_get s' BlockHashNumberSchema (header_hash b) = Ok (Some (h_number (b_header b)))) as HN.
  { eapply db_get_found; [done|apply (rlp_pcodec_ok u64_ok); [apply c_u64_ok|apply Hb]|].
    change (category BlockHashNumberSchema) with SC_HashHeight. rewrite VN. apply lookup_insert_eq. }
  exists s'. split; [done|]. split; [done|]. split_and!.
  - destruct (get_block_reads s' (h_number (b_header b)) Hs') as (s2 & -> & _). by rewrite HB.
  - destruct (get_header_reads s' (h_number (b_header b)) Hs') as (s2 & -> & _).
    unfold db_header. by rewrite HH.
  - destruct (get_block_by_hash_reads s' (header_hash b) Hs') as (s2 & -> & _).
    unfold db_block_by_hash. rewrite HN. cbn [mbind outcome_bind snd]. by rewrite HB.
  - destruct (get_latest_reads s' b Hs') as (s2 & -> & _); [by apply (co_latest _ Hs')|done].
  - intros n b0. destruct (get_block_reads s n Hs) as (s2 & -> & _).
    destruct (get_block_reads s' n Hs') as (s3 & -> & _). cbn [snd].
    apply (db_get_keeps _ _ _ _ _ _ Hk). intros kb [= <-] [_ E].
    assert (length (encode c_h256 LATEST_BLOCK_KEY) = 8%nat) as E8 by (by rewrite <-E).
    unfold encode in E8. lia.
Qed.

Lemma insert_block_stored_witness :
  ∃ s', insert_block ∅ sample_block new_storage = (s', Ok tt) ∧
    snd (get_block_by_hash ∅ (header_hash sample_block) s') = Ok (Some sample_block).
Proof.
  destruct (insert_block_stored new_storage sample_block (coherent_new _)) as (s' & Hi & _ & _ & _ & Hh & _);
    [by repeat constructor|by vm_compute|by vm_compute|].
  by exists s'.
Defined.

(** The block cache is not maintained by writes: once a block is cached,
    neither storing another block of the same height nor removing the height
    changes what [get_block] returns. *)
Theorem cached_block_stale `{R : Rlp} `{K : Keccak} `{!LruCrate} {Db} `{!StorageAdapter Db}
    `{!StoreLaws Db} (s : ImplStorage Db) (old new : Block) :
  let n := h_number (b_header new) in
  lru_view (c_blocks (is_cache s)) !! n = Some old →
  (∃ s1, set_block ∅ new s = (s1, Ok tt) ∧ snd (get_block ∅ n s1) = Ok (Some old)) ∧
  (∃ s2, remove_block ∅ n s = (s2, Ok tt) ∧ snd (get_block ∅ n s2) = Ok (Some old)).
Proof.
  intros n Hold.
  assert (∀ s', is_cache s' = is_cache s → snd (get_block ∅ n s') = Ok (Some old)) as Hget.
  { intros s' E. unfold get_block, get_cache. destruct (lru_get_view _ n (c_blocks (is_cache s'))) as (l & Hl & _).
    unfold mbind, M_bind, cache_get. cbn [co_get blocks]. rewrite Hl, E, Hold. done. }
  split.
  - destruct (insert_block_writes s new) as (s' & Hi & Ec & _). unfold insert_block in Hi.
    apply bind_inv in Hi as ([] & s1 & H1 & H2). exists s1. split; [done|]. apply Hget.
    rewrite <-Ec. unfold set_latest_block in H2.
    apply bind_inv in H2 as ([] & s3 & H3 & H4). injection H4 as <-. cbn [is_cache].
    unfold on_db, zoom in H3. destruct (sa_insert _ _ _ _) in H3. by injection H3 as <- _.
  - unfold remove_block.
    destruct (law_remove _ _ BlockSchema (CommonPrefix_new n) _ (is_adapter s) eq_refl) as (db' & Hr & _).
    eexists. unfold on_db, zoom. rewrite Hr. split; [done|]. by apply Hget.
Qed.

Definition other_block : Block := mkBlock sample_header [7].
Definition cached_storage : ImplStorage MemoryAdapter :=
  fst (get_block ∅ 5 (fst (insert_block ∅ sample_block new_storage))).

Lemma cached_block_stale_witness :
  other_block ≠ sample_block ∧
  ∃ s1, set_block ∅ other_block cached_storage = (s1, Ok tt) ∧
        snd (get_block ∅ 5 s1) = Ok (Some sample_block).
Proof.
  split; [done|].
  destruct (cached_block_stale cached_storage sample_block other_block) as [H _]; [by vm_compute|exact H].
Defined.
