(* ===== verification/StorageScan.v ===== *)
(** * Range scans of the storage

    [get_transactions] and [get_receipts] read the entries of a height from an
    iterator.  [IterLaws] is what they need of the adapter: the entries with
    the wanted prefix come first.  The RocksDB adapter provides it, because its
    iterator runs in key order from the prefix; the scan then agrees with one
    lookup per hash. *)

From S2P Require Import Prelude Types Codec RlpInstance Traits Storage StorageLaws.

Local Open Scope Z_scope.

Class IterLaws (Db : Type) `{!StorageAdapter Db} `{!StoreLaws Db} := {
  law_iter K V (s : StorageSchema K V) prefix db :
    ∃ db' front back,
      sa_iter s prefix db = (db', Ok (map (decode_entry s) (front ++ back))) ∧
      (∀ c, sa_view db' c = sa_view db c) ∧
      front ≡ₚ filter (λ kv, prefix `prefix_of` kv.1) (map_to_list (sa_view db (category s))) ∧
      Forall (λ kv, sa_view db (category s) !! kv.1 = Some kv.2 ∧ ¬ prefix `prefix_of` kv.1) back
}.

(** ** Chunked decoding *)
Lemma traverse_app {E A B} (f : A → outcome E B) l1 l2 :
  traverse f (l1 ++ l2) = (r1 ← traverse f l1; r2 ← traverse f l2; Ok (r1 ++ r2)).
Proof.
  induction l1 as [|x l1 IH]; cbn; [by destruct (traverse f l2)|].
  destruct (f x); cbn; [|done..]. rewrite IH. destruct (traverse f l1); cbn; [|done..].
  by destruct (traverse f l2).
Qed.

Lemma traverse_concat {E A B} (f : A → outcome E B) ls :
  traverse f (concat ls) = (rs ← traverse id (map (traverse f) ls); Ok (concat rs)).
Proof.
  induction ls as [|l ls IH]; [done|]. cbn [concat map traverse]. rewrite traverse_app, IH.
  change (id (traverse f l)) with (traverse f l).
  destruct (traverse f l); cbn [mbind outcome_bind]; [|done..].
  by destruct (traverse id (map (traverse f) ls)).
Qed.

Lemma chunks_concat {A} fuel n (l : list A) :
  n ≠ 0%nat → (length l ≤ fuel)%nat → concat (chunks fuel n l) = l.
Proof.
  intros Hn. revert l. induction fuel as [|fuel IH]; intros [|x l] Hl; try done; [cbn in Hl; lia|].
  cbn [chunks concat]. rewrite IH; [apply take_drop|]. rewrite length_drop. cbn in Hl |- *. lia.
Qed.

Lemma decode_found_eq {V} (dec : bytes → ProtocolResult V) found r :
  traverse (λ kv : Hash * bytes, v ← dec kv.2; Ok (kv.1, v)) found = Ok r →
  decode_found dec found = Ok r.
Proof.
  intros Hr. unfold decode_found. case_decide; [done|].
  set (f := λ kv : Hash * bytes, v ← dec kv.2; Ok (kv.1, v)) in *.
  pose proof (chunks_concat (length found) BATCH_VALUE_DECODE_NUMBER found ltac:(done) ltac:(lia)) as Ec.
  set (cs := chunks _ _ found) in *. clearbody cs. rewrite <-Ec, traverse_concat in Hr.
  destruct (traverse id (map (traverse f) cs)) as [rs| |] eqn:E; try done.
  assert (existsb is_panic (map (traverse f) cs) = false) as ->; [|done].
  apply traverse_Forall2 in E. clear -E. induction E as [|x y l l' Hxy _ IH]; [done|].
  cbn. unfold id in Hxy. by rewrite Hxy, IH.
Qed.

(** ** The scan *)
Section scan.
Context (c : StorageCategory) (height : Z) (hashes : list Hash).
Local Abbreviation entry := (bytes * bytes)%type.

Definition entry_hash (kv : entry) : Hash := from_be_bytes (drop 8 kv.1).
Definition wanted (front : list entry) : list (Hash * bytes) :=
  omap (λ kv, if decide (entry_hash kv ∈ hashes) then Some (entry_hash kv, kv.2) else None) front.

Definition of_height (kv : entry) : Prop :=
  length kv.1 = 40%nat ∧ to_be_bytes 8 height `prefix_of` kv.1.

Lemma wanted_cons kv front :
  wanted (kv :: front) =
  if decide (entry_hash kv ∈ hashes) then (entry_hash kv, kv.2) :: wanted front else wanted front.
Proof. unfold wanted. cbn [omap list_omap]. by case_decide. Qed.

Lemma decode_entry_40 (kv : entry) :
  length kv.1 = 40%nat →
  decode_entry (mkSchema c CommonHashKey_pcodec DBBytes_pcodec) kv =
  Ok (mkHashKey (mkPrefix (take 8 kv.1)) (entry_hash kv), kv.2).
Proof.
  intros Hl. unfold decode_entry. cbn [key_codec val_codec CommonHashKey_pcodec
    DBBytes_pcodec pc_decode]. unfold CommonHashKey_decode, CommonPrefix_from.
  rewrite decide_True by lia. cbn [mbind outcome_bind].
  rewrite decide_True by (rewrite length_drop; lia). done.
Qed.

Lemma of_height_key (kv : entry) :
  of_height kv → kv.1 = to_be_bytes 8 height ++ to_be_bytes 32 (entry_hash kv) ∧
  take 8 kv.1 = to_be_bytes 8 height.
Proof.
  intros [Hl [r Hr]]. unfold entry_hash. rewrite Hr in Hl |- *.
  rewrite length_app, length_to_be_bytes in Hl. rewrite drop_app_length', take_app_length' by done.
  split; [|done]. f_equal. replace 32%nat with (length r) by lia. by rewrite to_from_be_bytes.
Qed.

Lemma scan_front front back count :
  u64_ok height → Forall of_height front →
  Forall (λ kv : entry, length kv.1 = 40%nat ∧ ¬ to_be_bytes 8 height `prefix_of` kv.1) back →
  (length (wanted front) ≤ count)%nat →
  scan (map (decode_entry (mkSchema c CommonHashKey_pcodec DBBytes_pcodec)) (front ++ back)) height hashes count =
  Ok (wanted front).
Proof.
  intros Hh Hf Hb. revert count. induction Hf as [|kv front Hkv Hf IH]; intros count Hc; cbn [app map wanted].
  - destruct Hb as [|kv back [Hl Hp] Hb]; [by destruct count|].
    destruct count as [|count]; [done|]. cbn [map scan].
    rewrite decode_entry_40 by done. cbn [mbind outcome_bind].
    unfold hashkey_height, prefix_height. cbn [hk_prefix block_height].
    destruct (Z.eqb_spec (from_be_bytes (take 8 kv.1)) height) as [E|]; [|done].
    exfalso. apply Hp. exists (drop 8 kv.1). rewrite <-E.
    replace 8%nat with (length (take 8 kv.1)) at 1 by (rewrite length_take; lia).
    by rewrite to_from_be_bytes, take_drop.
  - destruct (of_height_key kv Hkv) as [_ Htake]. destruct Hkv as [Hl _].
    rewrite wanted_cons in *. destruct count as [|count]; cbn [scan].
    { case_decide; [cbn in Hc; lia|]. symmetry. f_equal. apply length_zero_iff_nil. lia. }
    rewrite decode_entry_40 by done. cbn [mbind outcome_bind].
    unfold hashkey_height, prefix_height. cbn [hk_prefix hk_hash block_height].
    rewrite Htake, from_to_be_bytes_id by done. rewrite Z.eqb_refl. cbn [negb].
    case_decide.
    + rewrite IH by (cbn in Hc; lia). done.
    + by apply IH.
Qed.

Lemma wanted_elem front h v :
  (h, v) ∈ wanted front ↔ h ∈ hashes ∧ ∃ kv, kv ∈ front ∧ entry_hash kv = h ∧ kv.2 = v.
Proof.
  unfold wanted. rewrite list_elem_of_omap. split.
  - intros (kv & Hkv & E). case_decide; [|done]. injection E as <- <-. eauto.
  - intros (Hh & kv & Hkv & <- & <-). exists kv. by rewrite decide_True.
Qed.

Lemma wanted_NoDup front :
  Forall of_height front → NoDup (front.*1) → NoDup ((wanted front).*1).
Proof.
  intros Hf Hnd. induction Hf as [|kv front Hkv Hf IH]; [constructor|].
  apply NoDup_cons in Hnd as [Hni Hnd]. rewrite wanted_cons.
  case_decide; [|by apply IH]. cbn. constructor; [|by apply IH].
  intros ([h v] & E & Hw)%list_elem_of_fmap. cbn in E. subst h.
  apply wanted_elem in Hw as [_ (kv' & Hkv' & Eh & _)].
  apply Hni. apply list_elem_of_fmap. exists kv'. split; [|done].
  rewrite Forall_forall in Hf. destruct (of_height_key kv Hkv) as [-> _].
  destruct (of_height_key kv' (Hf _ Hkv')) as [-> _]. by rewrite Eh.
Qed.

(** No more matches than hashes: the counter does not cut the scan. *)
Lemma wanted_length front :
  Forall of_height front → NoDup (front.*1) → (length (wanted front) ≤ length hashes)%nat.
Proof.
  intros Hf Hnd. rewrite <-(length_fmap fst). apply NoDup_incl_length; [by apply NoDup_ListNoDup, wanted_NoDup|].
  intros h Hh. apply list_elem_of_In in Hh. apply list_elem_of_In.
  apply list_elem_of_fmap in Hh as ([h' v] & -> & [Hh _]%wanted_elem). done.
Qed.
End scan.

Lemma remove_each_NoDup {V} hashes (m : gmap Hash V) :
  NoDup hashes → remove_each hashes m = map (λ h, m !! h) hashes.
Proof.
  intros Hnd. revert m. induction Hnd as [|h hashes Hni Hnd IH]; intros m; cbn; [done|].
  rewrite IH. f_equal. apply map_ext_in. intros h' Hh'%list_elem_of_In.
  apply lookup_delete_ne. congruence.
Qed.

Lemma collect_map_lookup {V} (l : list (Hash * V)) h v :
  NoDup (l.*1) → (collect_map l !! h = Some v ↔ (h, v) ∈ l).
Proof.
  intros Hnd. unfold collect_map.
  assert (fold_left (λ m kv, <[kv.1:=kv.2]> m) l ∅ = (list_to_map l : gmap Hash V)) as ->.
  { assert (∀ m : gmap Hash V, fold_left (λ m kv, <[kv.1:=kv.2]> m) l m = list_to_map l ∪ m) as E.
    { induction l as [|[k x] l IH]; intros m; cbn; [by rewrite map_empty_union|].
      apply NoDup_cons in Hnd as [Hni Hnd]. rewrite IH by done.
      rewrite <-insert_union_l, insert_union_r; [done|]. by apply not_elem_of_list_to_map_1. }
    rewrite E. by rewrite map_union_empty. }
  symmetry. by apply elem_of_list_to_map.
Qed.

(** ** The scan agrees with lookups *)
Section agree.
Context `{R : Rlp} `{K : Keccak} `{!LruCrate} {Db : Type} `{!StorageAdapter Db} `{!StoreLaws Db}
  `{!IterLaws Db}.
Local Abbreviation storage := (ImplStorage Db).

(** Keys of a table are heights followed by hashes. *)
Definition keys_40 (m : gmap bytes bytes) : Prop := ∀ kb vb, m !! kb = Some vb → length kb = 40%nat.

(** The entries of a height, as the iterator gives them. *)
Lemma front_facts m height front :
  keys_40 m →
  front ≡ₚ filter (λ kv, to_be_bytes 8 height `prefix_of` kv.1) (map_to_list m) →
  Forall (of_height height) front ∧ NoDup (front.*1) ∧
  ∀ kv, kv ∈ front ↔ m !! kv.1 = Some kv.2 ∧ to_be_bytes 8 height `prefix_of` kv.1.
Proof.
  intros H40 Hf.
  assert (∀ kv, kv ∈ front ↔ m !! kv.1 = Some kv.2 ∧ to_be_bytes 8 height `prefix_of` kv.1) as Hin.
  { intros [kb vb]. rewrite Hf, list_elem_of_filter, elem_of_map_to_list. cbn. tauto. }
  split_and!; [|rewrite Hf|done].
  - apply Forall_forall. intros kv [Hm Hp]%Hin. split; [by eapply H40|done].
  - eapply sublist_NoDup; [apply (NoDup_fst_map_to_list m)|].
    apply fmap_sublist, sublist_filter.
Qed.

Lemma wanted_lookup (m : gmap bytes bytes) height hashes front h v :
  Forall (of_height height) front →
  (∀ kv, kv ∈ front ↔ m !! kv.1 = Some kv.2 ∧ to_be_bytes 8 height `prefix_of` kv.1) →
  h ∈ hashes → h256_ok h →
  (h, v) ∈ wanted hashes front ↔ m !! make_hash_key (CommonPrefix_new height) h = Some v.
Proof.
  intros Hof Hin Hh Hok. rewrite wanted_elem. unfold make_hash_key. cbn [block_height CommonPrefix_new].
  split.
  - intros (_ & kv & Hkv & <- & <-). pose proof (proj1 (Hin kv) Hkv) as [Hm _].
    rewrite Forall_forall in Hof. destruct (of_height_key _ _ (Hof _ Hkv)) as [E _]. by rewrite <-E.
  - intros Hm. split; [done|]. exists (to_be_bytes 8 height ++ to_be_bytes 32 h, v). split_and!; [| |done].
    + apply Hin. split; [done|]. by eexists.
    + unfold entry_hash. cbn [fst]. rewrite drop_app_length' by (by rewrite length_to_be_bytes).
      by apply from_to_be_bytes_id.
Qed.

(** Decoding the found entries and looking each hash up gives what decoding
    each lookup gives. *)
Lemma decoded_lookup {V} (vc : pcodec V) (look : Hash → option bytes) found hashes r os :
  traverse (λ kv : Hash * bytes, v ← pc_decode vc kv.2; Ok (kv.1, v)) found = Ok r →
  NoDup (found.*1) → (∀ h v, h ∈ hashes → (h, v) ∈ found ↔ look h = Some v) →
  Forall2 (λ h o, match look h with
                  | Some b => Some <$> pc_decode vc b
                  | None => Ok None
                  end = Ok o) hashes os →
  map (λ h, collect_map r !! h) hashes = os.
Proof.
  intros Hr Hnd Hlook Hos. apply traverse_Forall2 in Hr.
  assert (r.*1 = found.*1) as E1.
  { clear -Hr. induction Hr as [|[k b] [k' v] l l' H _ IH]; [done|]. cbn in *.
    destruct (pc_decode vc b); [|done..]. injection H as <- <-. by f_equal. }
  assert (∀ h v, (h, v) ∈ r ↔ ∃ b, (h, b) ∈ found ∧ pc_decode vc b = Ok v) as E2.
  { clear -Hr. induction Hr as [|[k b] [k' v] l l' H _ IH]; intros h x; [split; [|intros (?&?&?)]; set_solver|].
    cbn in H. destruct (pc_decode vc b) as [w| |] eqn:Eb; [|done..]. injection H as <- <-.
    rewrite elem_of_cons, IH. setoid_rewrite elem_of_cons. split.
    - intros [[= -> ->]|(b' & ? & ?)]; eauto.
    - intros (b' & [[= -> ->]|?] & ?); [left; congruence|eauto]. }
  assert (∀ h o, h ∈ hashes → match look h with Some b => Some <$> pc_decode vc b | None => Ok None end = Ok o →
            collect_map r !! h = o) as E3.
  { intros h o Hh Ho. rewrite <-E1 in Hnd. destruct (look h) as [b|] eqn:El.
    - destruct (pc_decode vc b) as [v| |] eqn:Eb; [|done..]. injection Ho as <-.
      apply collect_map_lookup; [done|]. apply E2. exists b. split; [by apply Hlook|done].
    - injection Ho as <-. apply eq_None_not_Some. intros [v Hv].
      apply collect_map_lookup, E2 in Hv as (b & Hb & _); [|done]. apply Hlook in Hb; congruence. }
  clear -Hos E3. induction Hos as [|h o hashes os Ho Hos IH]; [done|]. cbn. f_equal.
  - apply E3; [left|done].
  - apply IH. intros. apply E3; [by right|done].
Qed.

Lemma get_many_lookup {V} (sch : StorageSchema CommonHashKey bytes) (tsch : StorageSchema CommonHashKey V)
    (s : storage) height hashes os :
  sch = mkSchema (category tsch) CommonHashKey_pcodec DBBytes_pcodec →
  key_codec tsch = CommonHashKey_pcodec →
  keys_40 (sa_view (is_adapter s) (category tsch)) →
  u64_ok height → NoDup hashes → Forall h256_ok hashes →
  traverse (λ h, db_get s tsch (CommonHashKey_new height h)) hashes = Ok os →
  snd (get_many sch (pc_decode (val_codec tsch)) height hashes s) = Ok os.
Proof.
  intros -> Hkc H40 Hh Hnd Hok Hos. set (m := sa_view (is_adapter s) (category tsch)) in *.
  destruct (law_iter _ _ (mkSchema (category tsch) CommonHashKey_pcodec DBBytes_pcodec)
    (to_be_bytes 8 height) (is_adapter s)) as (db' & front & back & Hit & _ & Hfront & Hback).
  cbn [category] in Hfront, Hback. fold m in Hfront, Hback.
  destruct (front_facts m height front H40 Hfront) as (Hof & Hnd1 & Hin).
  assert (∀ h v, h ∈ hashes → (h, v) ∈ wanted hashes front ↔
            m !! make_hash_key (CommonPrefix_new height) h = Some v) as Hw.
  { intros h v Hh'. rewrite Forall_forall in Hok. apply (wanted_lookup m height); auto. }
  assert (∀ h, h ∈ hashes → ∃ o, db_get s tsch (CommonHashKey_new height h) = Ok o) as Hdb.
  { apply traverse_Forall2 in Hos. intros h [i Hi]%list_elem_of_lookup.
    destruct (Forall2_lookup_l _ _ _ _ _ Hos Hi) as (o & _ & E). eauto. }
  destruct (traverse_total (λ kv : Hash * bytes, v ← pc_decode (val_codec tsch) kv.2; Ok (kv.1, v))
    (wanted hashes front)) as [r Hr].
  { intros [h v] Hhv. pose proof (proj1 (wanted_elem _ _ _ _) Hhv) as [Hh' _].
    destruct (Hdb h Hh') as [o Ho]. apply Hw in Hhv; [|done]. unfold db_get in Ho.
    rewrite Hkc in Ho. cbn [pc_encode CommonHashKey_pcodec mbind outcome_bind] in Ho.
    fold m in Ho. cbn [hk_prefix hk_hash CommonHashKey_new] in Ho. rewrite Hhv in Ho. cbn.
    destruct (pc_decode (val_codec tsch) v); [eexists; reflexivity|done..]. }
  unfold get_many, on_db, zoom, mbind, M_bind.
  change (block_height (CommonPrefix_new height)) with (to_be_bytes 8 height). rewrite Hit.
  rewrite scan_front; [|done|done|eapply Forall_impl; [exact Hback|]; cbn; intros kv [? ?]; eauto
    |by eapply wanted_length].
  cbn [lift]. rewrite (decode_found_eq _ _ _ Hr). cbn [lift mret M_ret snd]. f_equal.
  rewrite remove_each_NoDup by done.
  apply (decoded_lookup (val_codec tsch) (λ h, m !! make_hash_key (CommonPrefix_new height) h)
    (wanted hashes front) hashes r os Hr); [by eapply wanted_NoDup|done|].
  apply traverse_Forall2 in Hos. eapply Forall2_impl; [exact Hos|]. cbn. intros h o Ho.
  unfold db_get in Ho. rewrite Hkc in Ho. exact Ho.
Qed.
End agree.
