(* ===== verification/RocksLaws.v ===== *)
(** * The RocksDB adapter meets its contracts

    [RocksLaws] states the documented behaviour of a healthy RocksDB: column
    families are maps, and a prefix iterator yields the entries from the prefix
    on in key order.  The adapter of [adapter/rocks.rs] then satisfies
    [StoreLaws] and [IterLaws]; [map_rocks] shows the behaviour is possible. *)

From stdpp Require Import sorting.
From S2P Require Import Prelude Types Codec Traits Storage StorageLaws StorageScan.

Local Open Scope Z_scope.

(** Byte-wise lexicographic order, RocksDB's default comparator. *)
Fixpoint lex_le (a b : bytes) : bool :=
  match a, b with
  | [], _ => true
  | _ :: _, [] => false
  | x :: a', y :: b' =>
      if Z_of_byte x <? Z_of_byte y then true
      else if Z_of_byte x =? Z_of_byte y then lex_le a' b' else false
  end.

Class RocksLaws `{!RocksDB} := {
  rdb_view : rdb → string → gmap bytes bytes;
  r_cf db c : cf_handle db (map_category c) = true;
  r_put db cf k v : ∃ db', put_cf db cf k v = (db', Ok tt) ∧
    ∀ cf', rdb_view db' cf' = if decide (cf' = cf) then <[k := v]> (rdb_view db cf') else rdb_view db cf';
  r_get db cf k : get_cf db cf k = Ok (rdb_view db cf !! k);
  r_delete db cf k : ∃ db', delete_cf db cf k = (db', Ok tt) ∧
    ∀ cf', rdb_view db' cf' = if decide (cf' = cf) then delete k (rdb_view db cf') else rdb_view db cf';
  r_write db cf ps : ∃ db', write_batch db cf ps = (db', Ok tt) ∧
    ∀ cf', rdb_view db' cf' =
      if decide (cf' = cf) then fold_left write_pair ps (rdb_view db cf') else rdb_view db cf';
  r_iter db cf p : ∃ l, prefix_iterator_cf db cf p = Ok l ∧
    l ≡ₚ filter (λ kv, lex_le p kv.1 = true) (map_to_list (rdb_view db cf)) ∧
    StronglySorted (λ a b, lex_le a.1 b.1 = true) l
}.

(** ** The order *)
Lemma lex_le_prefix p k : p `prefix_of` k → lex_le p k = true.
Proof.
  intros [r ->]. induction p as [|x p IH]; cbn; [done|]. by rewrite Z.ltb_irrefl, Z.eqb_refl.
Qed.

(** A key from the prefix on that lacks it is above every key that has it. *)
Lemma lex_le_above p k k' :
  p `prefix_of` k → lex_le p k' = true → ¬ p `prefix_of` k' → lex_le k' k = false.
Proof.
  intros [r ->]. revert k'. induction p as [|x p IH]; intros [|y k']; cbn; try done.
  { intros _ []. apply prefix_nil. }
  destruct (Z.ltb_spec (Z_of_byte x) (Z_of_byte y)); cbn.
  - intros _ _. destruct (Z.ltb_spec (Z_of_byte y) (Z_of_byte x)); [lia|].
    by destruct (Z.eqb_spec (Z_of_byte y) (Z_of_byte x)); [lia|].
  - destruct (Z.eqb_spec (Z_of_byte x) (Z_of_byte y)) as [E|]; [|done]. intros Hle Hp.
    apply Z_of_byte_inj in E as ->. rewrite Z.ltb_irrefl, Z.eqb_refl. apply IH; [done|].
    intros Hp'. by apply Hp, prefix_cons.
Qed.

Lemma lex_le_total a b : lex_le a b = true ∨ lex_le b a = true.
Proof.
  revert b. induction a as [|x a IH]; intros [|y b]; cbn; auto.
  destruct (Z.ltb_spec (Z_of_byte x) (Z_of_byte y)); auto.
  destruct (Z.ltb_spec (Z_of_byte y) (Z_of_byte x)); auto.
  assert (Z_of_byte x = Z_of_byte y) as -> by lia. rewrite Z.eqb_refl. apply IH.
Qed.

Lemma lex_le_trans a b c : lex_le a b = true → lex_le b c = true → lex_le a c = true.
Proof.
  revert b c. induction a as [|x a IH]; intros [|y b] [|z c]; cbn; try done.
  destruct (Z.ltb_spec (Z_of_byte x) (Z_of_byte y)), (Z.ltb_spec (Z_of_byte y) (Z_of_byte z)),
    (Z.ltb_spec (Z_of_byte x) (Z_of_byte z)); try done; try lia;
    destruct (Z.eqb_spec (Z_of_byte x) (Z_of_byte y)), (Z.eqb_spec (Z_of_byte y) (Z_of_byte z)),
      (Z.eqb_spec (Z_of_byte x) (Z_of_byte z)); try done; try lia. apply IH.
Qed.

(** A sorted run from the prefix on starts with the entries that have it. *)
Lemma sorted_split p (l : list (bytes * bytes)) :
  StronglySorted (λ a b, lex_le a.1 b.1 = true) l → Forall (λ kv, lex_le p kv.1 = true) l →
  l = filter (λ kv, p `prefix_of` kv.1) l ++ filter (λ kv, ¬ p `prefix_of` kv.1) l.
Proof.
  induction 1 as [|kv l Hl IH Hkv]; intros Hp; [done|]. apply Forall_cons in Hp as [Hp0 Hp].
  destruct (decide (p `prefix_of` kv.1)) as [Hpre|Hpre].
  - rewrite filter_cons_True, (filter_cons_False (λ kv, ¬ _)) by (done || tauto). cbn. f_equal. by apply IH.
  - rewrite filter_cons_False, (filter_cons_True (λ kv, ¬ _)) by done.
    assert (filter (λ kv, p `prefix_of` kv.1) l = []) as E.
    { apply filter_none. intros kv' Hkv' Hpre'. rewrite Forall_forall in Hkv.
      specialize (Hkv _ Hkv'). rewrite (lex_le_above p) in Hkv by done. done. }
    rewrite E. cbn. f_equal. rewrite (IH Hp) at 1. by rewrite E.
Qed.

Lemma map_category_inj c c' : map_category c = map_category c' → c = c'.
Proof. by destruct c, c'. Qed.

(** ** The contracts *)
Section rocks.
Context `{!RocksDB} `{!RocksLaws}.

Lemma get_column_ok {K V} (s : StorageSchema K V) db :
  get_column s db = (db, Ok (map_category (category s))).
Proof. unfold get_column. by rewrite r_cf. Qed.

Lemma rocks_update (f : gmap bytes bytes → gmap bytes bytes) (v v' : string → gmap bytes bytes) c0 :
  (∀ cf', v' cf' = if decide (cf' = map_category c0) then f (v cf') else v cf') →
  ∀ c, v' (map_category c) = if decide (c = c0) then f (v (map_category c)) else v (map_category c).
Proof.
  intros Hv c. rewrite Hv. destruct (decide (c = c0)) as [->|Hne]; [by rewrite decide_True|].
  rewrite decide_False; [done|]. intros E. by apply Hne, map_category_inj.
Qed.

#[global] Instance rocks_store_laws : StoreLaws rdb.
Proof.
  refine {| sa_view db c := rdb_view db (map_category c) |}.
  - intros K V s k v kb vb db Hk Hv. destruct (r_put db (map_category (category s)) kb vb) as (db' & Hp & Hview).
    exists db'. cbn. unfold rocks_insert. rewrite (bind_ok _ _ _ _ _ (get_column_ok s db)).
    rewrite Hk, bind_lift_ok, Hv, bind_lift_ok. unfold rocks_write. rewrite Hp.
    split; [done|]. by apply rocks_update.
  - intros K V s k kb db Hk. exists db. cbn. unfold rocks_get.
    rewrite (bind_ok _ _ _ _ _ (get_column_ok s db)). rewrite Hk, bind_lift_ok, bind_gets, r_get.
    cbn [map_err]. rewrite bind_lift_ok. split; [|done].
    destruct (rdb_view db _ !! kb) as [b|]; [|done]. by destruct (pc_decode (val_codec s) b).
  - intros K V s k kb db Hk. destruct (r_delete db (map_category (category s)) kb) as (db' & Hp & Hview).
    exists db'. cbn. unfold rocks_remove. rewrite (bind_ok _ _ _ _ _ (get_column_ok s db)).
    rewrite Hk, bind_lift_ok. unfold rocks_write. rewrite Hp. split; [done|]. by apply rocks_update.
  - intros K V s ks vs ps db Hl Ht. destruct (r_write db (map_category (category s)) ps) as (db' & Hp & Hview).
    exists db'. cbn. unfold rocks_batch_modify. rewrite decide_True by done.
    rewrite (bind_ok _ _ _ _ _ (get_column_ok s db)). rewrite Ht, bind_lift_ok. unfold rocks_write.
    rewrite Hp. split; [done|]. by apply (rocks_update (fold_left write_pair ps)).
Defined.

#[global] Instance rocks_iter_laws : IterLaws rdb.
Proof.
  split. intros K V s p db. destruct (r_iter db (map_category (category s)) p) as (l & Hl & Hperm & Hsort).
  assert (Forall (λ kv, lex_le p kv.1 = true) l) as Hge.
  { rewrite Hperm. apply Forall_forall. intros kv. rewrite list_elem_of_filter. tauto. }
  exists db, (filter (λ kv, p `prefix_of` kv.1) l), (filter (λ kv, ¬ p `prefix_of` kv.1) l).
  rewrite <-(sorted_split p l Hsort Hge). cbn. unfold rocks_iter.
  rewrite (bind_ok _ _ _ _ _ (get_column_ok s db)), bind_gets, Hl. split_and!; [done|done| |].
  - rewrite Hperm, list_filter_filter. apply reflexive_eq, list_filter_iff. intros kv.
    split; [tauto|]. intros Hp. split; [done|by apply lex_le_prefix].
  - apply Forall_forall. intros [k v]. rewrite list_elem_of_filter, Hperm, list_elem_of_filter.
    rewrite elem_of_map_to_list. cbn. tauto.
Qed.
End rocks.

(** ** A database of maps *)
Definition entry_le (a b : bytes * bytes) : Prop := lex_le a.1 b.1 = true.
#[global] Instance entry_le_dec a b : Decision (entry_le a b).
Proof. unfold entry_le. apply _. Defined.
#[global] Instance entry_le_total : Total entry_le.
Proof. intros a b. apply lex_le_total. Qed.
#[global] Instance entry_le_trans : Transitive entry_le.
Proof. intros a b c. apply lex_le_trans. Qed.

Definition map_db : Type := string → gmap bytes bytes.
Definition cf_update (cf : string) (f : gmap bytes bytes → gmap bytes bytes) (db : map_db) : map_db :=
  λ cf', if decide (cf' = cf) then f (db cf') else db cf'.

#[global] Instance map_rocks : RocksDB := {|
  rdb := map_db;
  cf_handle _ _ := true;
  put_cf db cf k v := (cf_update cf (<[k := v]>) db, Ok tt);
  get_cf db cf k := Ok (db cf !! k);
  delete_cf db cf k := (cf_update cf (delete k) db, Ok tt);
  write_batch db cf ps := (cf_update cf (λ m, fold_left write_pair ps m) db, Ok tt);
  prefix_iterator_cf db cf p :=
    Ok (merge_sort entry_le (filter (λ kv, lex_le p kv.1 = true) (map_to_list (db cf)))) |}.

#[global] Instance map_rocks_laws : RocksLaws.
Proof.
  refine {| rdb_view (db : rdb) cf := (db : map_db) cf |}; try done; try by eexists.
  intros db cf p. eexists. split; [done|]. split; [apply merge_sort_Permutation|].
  apply (StronglySorted_merge_sort entry_le).
Defined.
