(* ===== verification/StorageTxProps.v ===== *)
(** * Properties of stored transactions

    Transactions written by [insert_transactions] are found again by hash and
    by range scan, as their codec decodes them; the scan needs an adapter that
    iterates in key order. *)

From S2P Require Import Prelude Types Codec RlpInstance Traits.
From S2P Require Import Storage StorageLaws StorageProps StorageScan RocksLaws CodecProps.

Local Open Scope Z_scope.

(** ** Batches *)
Lemma write_pairs_other (ps : list (bytes * option bytes)) (m : gmap bytes bytes) k :
  k ∉ ps.*1 → fold_left write_pair ps m !! k = m !! k.
Proof.
  revert m. induction ps as [|[k' o] ps IH]; intros m Hk; [done|]. cbn in Hk |- *.
  apply not_elem_of_cons in Hk as [Hne Hk]. rewrite IH by done. unfold write_pair. cbn.
  destruct o; [by apply lookup_insert_ne|by apply lookup_delete_ne].
Qed.

Lemma write_pairs_lookup (ps : list (bytes * option bytes)) (m : gmap bytes bytes) k v :
  NoDup (ps.*1) → (k, Some v) ∈ ps → fold_left write_pair ps m !! k = Some v.
Proof.
  revert m. induction ps as [|[k' o] ps IH]; intros m Hnd Hin; [by apply not_elem_of_nil in Hin|].
  cbn in Hnd |- *. apply NoDup_cons in Hnd as [Hni Hnd].
  apply elem_of_cons in Hin as [[= <- <-]|Hin]; [|by apply IH].
  rewrite write_pairs_other by done. apply lookup_insert_eq.
Qed.

(** The encoded pairs of a batch of insertions. *)
Lemma encode_pairs {A Key V} (sch : StorageSchema Key V) (key : A → Key) (val : A → V) kb xs vbs :
  (∀ x, pc_encode (key_codec sch) (key x) = Ok (kb x)) →
  Forall2 (λ x vb, pc_encode (val_codec sch) (val x) = Ok vb) xs vbs →
  traverse (encode_pair sch) (zip (map key xs) (map (λ x, BatchInsert (val x)) xs)) =
  Ok (zip_with (λ x vb, (kb x, Some vb)) xs vbs).
Proof.
  intros Hk. induction 1 as [|x vb xs vbs Hx _ IH]; [done|].
  assert (encode_pair sch (key x, BatchInsert (val x)) = Ok (kb x, Some vb)) as E.
  { unfold encode_pair. cbn [fst snd]. rewrite Hk. cbn [mbind outcome_bind]. by rewrite Hx. }
  cbn [map zip_with traverse]. rewrite E. cbn [mbind outcome_bind]. by rewrite IH.
Qed.

Lemma zip_with_keys {A B} (kb : A → bytes) (xs : list A) (vbs : list B) :
  length xs = length vbs → (zip_with (λ x vb, (kb x, Some vb)) xs vbs).*1 = kb <$> xs.
Proof. revert vbs. induction xs as [|x xs IH]; intros [|b vbs]; cbn; try done. intros [= E]. f_equal. by apply IH. Qed.

Lemma zip_with_elem {A B} (kb : A → bytes) xs (vbs : list B) i x vb :
  xs !! i = Some x → vbs !! i = Some vb →
  (kb x, Some vb) ∈ zip_with (λ x vb, (kb x, Some vb)) xs vbs.
Proof.
  intros Hx Hv. apply list_elem_of_lookup. exists i. by rewrite lookup_zip_with, Hx, Hv.
Qed.

Section stored.
Context `{R : Rlp} `{K : Keccak} `{!LruCrate} {Db : Type} `{!StorageAdapter Db} `{!StoreLaws Db}.
Local Abbreviation storage := (ImplStorage Db).

Definition fresh_tx (s : storage) (height : Z) (stx : SignedTransaction) : Prop :=
  h256_ok (stx_hash stx) ∧ db_get s TxHashNumberSchema (stx_hash stx) = Ok None ∧
  db_get s TransactionSchema (CommonHashKey_new height (stx_hash stx)) = Ok None.

Local Abbreviation tx_key height := (λ stx, make_hash_key (CommonPrefix_new height) (stx_hash stx)).
Local Abbreviation ix_key := (λ stx, encode c_h256 (stx_hash stx)).

Lemma tx_keys_NoDup height stxs :
  Forall (λ stx, h256_ok (stx_hash stx)) stxs → NoDup (stx_hash <$> stxs) →
  NoDup (tx_key height <$> stxs) ∧ NoDup (ix_key <$> stxs).
Proof.
  intros Hok Hnd. induction Hok as [|x xs Hx Hok IH]; [split; constructor|].
  cbn in Hnd. apply NoDup_cons in Hnd as [Hni Hnd]. destruct (IH Hnd) as [IH1 IH2].
  rewrite Forall_forall in Hok. cbn. split; (constructor; [|done]); intros (y & E & Hy)%list_elem_of_fmap;
    apply Hni, list_elem_of_fmap; exists y; (split; [|done]).
  - unfold make_hash_key in E. apply app_inj_1 in E as [_ E]; [|done].
    apply (to_be_bytes_inj 32); [apply Hx|by apply Hok|done].
  - apply (lawful_inj h256_ok c_h256); [apply c_h256_ok|done|by apply Hok|done].
Qed.

(** What [insert_transactions] writes. *)
Lemma insert_transactions_writes s height stxs bs :
  traverse SignedTransaction_encode stxs = Ok bs →
  ∃ s', insert_transactions ∅ height stxs s = (s', Ok tt) ∧ only_db s s' ∧
    let v := sa_view (is_adapter s) in
    sa_view (is_adapter s') SC_SignedTransaction =
      fold_left write_pair (zip_with (λ x b, (tx_key height x, Some b)) stxs bs) (v SC_SignedTransaction) ∧
    sa_view (is_adapter s') SC_HashHeight =
      fold_left write_pair (zip_with (λ x b, (ix_key x, Some b)) stxs
        (replicate (length stxs) (encode c_u64 height))) (v SC_HashHeight) ∧
    ∀ c, c ≠ SC_SignedTransaction → c ≠ SC_HashHeight → sa_view (is_adapter s') c = v c.
Proof.
  intros Hbs. apply traverse_Forall2 in Hbs.
  destruct (on_db_batch TransactionSchema (map (λ x, CommonHashKey_new height (stx_hash x)) stxs)
    (map BatchInsert stxs) (zip_with (λ x b, (tx_key height x, Some b)) stxs bs) s)
    as (s1 & E1 & (C1 & L1 & P1) & V1); [by rewrite !length_map| |].
  { apply (encode_pairs TransactionSchema _ id (tx_key height)); [done|].
    eapply Forall2_impl; [exact Hbs|]. cbn. intros x b E. unfold id. by rewrite E. }
  destruct (on_db_batch TxHashNumberSchema (map stx_hash stxs) (map (λ _, BatchInsert height) stxs)
    (zip_with (λ x b, (ix_key x, Some b)) stxs (replicate (length stxs) (encode c_u64 height))) s1)
    as (s2 & E2 & (C2 & L2 & P2) & V2); [by rewrite !length_map| |].
  { apply (encode_pairs TxHashNumberSchema stx_hash (λ _, height) ix_key); [done|].
    clear. induction stxs; cbn; constructor; done. }
  exists s2. split; [unfold insert_transactions, batch_insert_stxs; by mrun E1|].
  split; [split_and!; congruence|]. split_and!.
  1-2: rewrite V2, V1; reflexivity.
  intros c Hc1 Hc2. rewrite V2, V1. by rewrite !decide_False by done.
Qed.
End stored.

(** ** Properties *)
Definition new_rocks_storage : ImplStorage rdb := ImplStorage_new (λ _, ∅ : gmap bytes bytes).
Definition sample_bytes : bytes :=
  match SignedTransaction_encode (sample_stx x01) with Ok b => b | _ => [] end.
Definition two_blocks_of_txs : ImplStorage rdb :=
  fst (insert_transactions ∅ 7 [sample_stx x01] (fst (insert_transactions ∅ 8 [sample_stx x02]
    new_rocks_storage))).

(** Transactions of new hashes written at a height are found by hash
    afterwards, each as its own encoding decodes, and the caches stay
    coherent. *)
Theorem insert_transactions_stored `{R : Rlp} `{K : Keccak} `{!LruCrate} {Db} `{!StorageAdapter Db}
    `{!StoreLaws Db} (s : ImplStorage Db) height stxs bs :
  coherent s → u64_ok height → NoDup (stx_hash <$> stxs) → Forall (fresh_tx s height) stxs →
  traverse SignedTransaction_encode stxs = Ok bs →
  ∃ s', insert_transactions ∅ height stxs s = (s', Ok tt) ∧ coherent s' ∧
    Forall2 (λ stx b, snd (get_transaction_by_hash ∅ (stx_hash stx) s') =
               Some <$> map_err PE_Codec (SignedTransaction_decode_bytes b)) stxs bs.
Proof.
  intros Hs Hh Hnd Hf Hbs.
  destruct (insert_transactions_writes s height stxs bs Hbs) as (s' & Hi & (Ec & El & Ep) & VT & VH & VO).
  apply traverse_Forall2 in Hbs. pose proof (Forall2_length _ _ _ Hbs) as Hlen.
  destruct (tx_keys_NoDup height stxs) as [Hnd1 Hnd2];
    [eapply Forall_impl; [exact Hf|]; by intros x []|done|].
  assert (keeps (λ _ _, False) s s') as Hk.
  { rewrite Forall_forall in Hf. intros c kb vb _ Hv.
    destruct (decide (c = SC_SignedTransaction)) as [->|H1].
    { rewrite VT, write_pairs_other; [done|]. rewrite zip_with_keys by done.
      intros (x & -> & Hx)%list_elem_of_fmap. destruct (Hf x Hx) as (_ & _ & Hn).
      apply (db_get_None _ TransactionSchema _ _ eq_refl) in Hn. cbn in Hn, Hv. congruence. }
    destruct (decide (c = SC_HashHeight)) as [->|H2]; [|by rewrite VO].
    rewrite VH, write_pairs_other; [done|]. rewrite zip_with_keys by by rewrite length_replicate.
    intros (x & -> & Hx)%list_elem_of_fmap. destruct (Hf x Hx) as (_ & Hn & _).
    apply (db_get_None _ TxHashNumberSchema _ _ eq_refl) in Hn. cbn in Hn, Hv. congruence. }
  assert (coherent s') as Hs'.
  { eapply coherent_keeps; [exact Hk|exact Ec|by intros ? ? []|rewrite El|rewrite Ep|exact Hs];
      intros x Hx; (eapply db_get_keeps; [exact Hk|by intros ? _ []|]);
      [by apply (co_latest _ Hs)|by apply (co_proof _ Hs)]. }
  exists s'. split; [done|]. split; [done|]. apply Forall2_same_length_lookup. split; [done|].
  intros i stx b Hstx Hb.
  destruct (indexed_reads TransactionSchema transactions s' (stx_hash stx) f_transactions eq_refl Hs')
    as (s2 & E & _). unfold get_transaction_by_hash. rewrite E. cbn [snd]. unfold db_indexed.
  erewrite (db_get_found s' TxHashNumberSchema (stx_hash stx) _ (encode c_u64 height) height);
    [|done|apply (rlp_pcodec_ok u64_ok); [apply c_u64_ok|done]|].
  - cbn [mbind outcome_bind]. unfold db_get. cbn [key_codec TransactionSchema pc_encode CommonHashKey_pcodec
      mbind outcome_bind hk_prefix hk_hash CommonHashKey_new category val_codec].
    rewrite VT. erewrite write_pairs_lookup; [done|by rewrite zip_with_keys|].
    by eapply (zip_with_elem (λ stx, make_hash_key (CommonPrefix_new height) (stx_hash stx))).
  - change (category TxHashNumberSchema) with SC_HashHeight. rewrite VH.
    apply write_pairs_lookup; [by rewrite zip_with_keys by by rewrite length_replicate|].
    eapply (zip_with_elem (λ stx, encode c_h256 (stx_hash stx))); [exact Hstx|].
    apply lookup_replicate. split; [done|by eapply lookup_lt_Some].
Qed.

Lemma insert_transactions_stored_witness :
  ∃ s', insert_transactions ∅ 7 [sample_stx x01] new_rocks_storage = (s', Ok tt) ∧
        snd (get_transaction_by_hash ∅ (stx_hash (sample_stx x01)) s') = Ok (Some (sample_stx x01)).
Proof.
  destruct (insert_transactions_stored new_rocks_storage 7 [sample_stx x01] [sample_bytes] (coherent_new _))
    as (s' & Hi & _ & Hf); [done|by apply NoDup_singleton| |vm_compute; reflexivity|].
  { apply Forall_singleton. split_and!; vm_compute; done. }
  exists s'. split; [exact Hi|]. apply Forall2_cons in Hf as [-> _]. vm_compute. reflexivity.
Defined.

(** On an adapter that iterates in key order, the range scan of
    [get_transactions] returns for each hash exactly what one lookup at that
    height returns, in the order of the request. *)
Theorem get_transactions_scan `{R : Rlp} `{K : Keccak} `{!LruCrate} {Db} `{!StorageAdapter Db}
    `{!StoreLaws Db} `{!IterLaws Db} (s : ImplStorage Db) height hashes os :
  keys_40 (sa_view (is_adapter s) SC_SignedTransaction) →
  u64_ok height → NoDup hashes → Forall h256_ok hashes →
  traverse (λ h, db_get s TransactionSchema (CommonHashKey_new height h)) hashes = Ok os →
  snd (get_transactions ∅ height hashes s) = Ok os.
Proof.
  intros H40 Hh Hnd Hok Hos.
  exact (get_many_lookup TransactionBytesSchema TransactionSchema s height hashes os
           eq_refl eq_refl H40 Hh Hnd Hok Hos).
Qed.

Definition key_lengths_ok (m : gmap bytes bytes) : bool :=
  forallb (λ kv : bytes * bytes, Nat.eqb (length kv.1) 40) (map_to_list m).

Lemma key_lengths_ok_spec m : key_lengths_ok m = true → keys_40 m.
Proof.
  unfold key_lengths_ok. rewrite forallb_forall. intros Hall kb vb Hkv.
  apply Nat.eqb_eq. apply (Hall (kb, vb)). by apply list_elem_of_In, elem_of_map_to_list.
Qed.

Lemma get_transactions_scan_witness :
  snd (get_transactions ∅ 7 [stx_hash (sample_stx x02); stx_hash (sample_stx x01)] two_blocks_of_txs) =
  Ok [None; Some (sample_stx x01)].
Proof.
  apply get_transactions_scan; [|done| | |vm_compute; reflexivity].
  - apply key_lengths_ok_spec. vm_compute. reflexivity.
  - apply (bool_decide_unpack _). vm_compute. exact I.
  - apply (bool_decide_unpack _). vm_compute. exact I.
Defined.
