(* ===== verification/TrieInstance.v ===== *)
(** * A concrete instance of the external execution interfaces

    [map_trie] discharges class [PatriciaTrie] with maps identified by an
    injective code, [toy_evm] is an EVM whose transactions transfer their value,
    and [fold_merkle] folds hashes into a root.  The laws are satisfiable, and
    the theorems over the classes run on concrete data. *)

From S2P Require Import Prelude Types Codec RlpInstance Traits Executor.

Local Open Scope Z_scope.

Abbreviation content := (gmap bytes bytes).

Definition content_root (m : content) : Hash :=
  if decide (m = ∅) then RLP_NULL else RLP_NULL + Zpos (countable.encode m).

Definition content_from (r : Hash) : outcome Z content :=
  if r =? RLP_NULL then Ok ∅
  else match countable.decode (Z.to_pos (r - RLP_NULL)) with
       | Some m => Ok m
       | None => Err 1
       end.

Lemma content_from_root m : content_from (content_root m) = Ok m.
Proof.
  unfold content_from, content_root. case_decide as E; [by rewrite Z.eqb_refl, E|].
  destruct (Z.eqb_spec (RLP_NULL + Zpos (countable.encode m)) RLP_NULL); [lia|].
  replace (RLP_NULL + Zpos (countable.encode m) - RLP_NULL) with (Zpos (countable.encode m)) by lia.
  cbn [Z.to_pos]. by rewrite countable.decode_encode.
Qed.

Lemma content_root_null m : content_root m = RLP_NULL ↔ m = ∅.
Proof. unfold content_root. case_decide; [done|]. split; [lia|done]. Qed.

#[global] Instance map_trie : PatriciaTrie.
Proof.
  refine {|
    trie_db := unit; ptrie := content; pt_new := ∅;
    pt_from _ r := content_from r;
    pt_get _ m k := Ok (m !! k);
    pt_contains _ m k := Ok (bool_decide (is_Some (m !! k)));
    pt_insert _ m k v := Ok (<[k := v]> m);
    pt_remove _ m k := Ok (delete k m, bool_decide (is_Some (m !! k)));
    pt_root _ m := (tt, Ok (m, content_root m));
    pt_view _ m := Some m |}.
  - done.
  - done.
  - by intros _ t m k [= ->].
  - by intros _ t m k [= ->].
  - intros _ t m k v [= ->] _. by eexists.
  - intros _ t m k [= ->]. by eexists.
  - intros [] t m [= ->]. exists tt, m, (content_root m).
    split; [done|]. split; [done|]. split; [exists m; by rewrite content_from_root|].
    split; [apply content_root_null|]. split; [|done]. intros r0 t0 m0 Hr Hm. by exists t0.
Defined.

(** Another instance, with roots of the width of a hash: a committed content is
    numbered by its place in the database, [RLP_NULL] left out. *)
Definition place_root (i : nat) : Hash := if Z.of_nat i <? RLP_NULL then Z.of_nat i else Z.of_nat i + 1.
Definition root_place (r : Hash) : nat := Z.to_nat (if r <? RLP_NULL then r else r - 1).

Lemma root_place_root i : root_place (place_root i) = i ∧ place_root i ≠ RLP_NULL.
Proof.
  unfold root_place, place_root. destruct (Z.ltb_spec (Z.of_nat i) RLP_NULL) as [Hi|Hi].
  - rewrite (proj2 (Z.ltb_lt _ _) Hi). lia.
  - rewrite (proj2 (Z.ltb_ge _ _)) by lia. lia.
Qed.

Definition log_from (d : list content) (r : Hash) : outcome Z content :=
  if r =? RLP_NULL then Ok ∅ else match d !! root_place r with Some m => Ok m | None => Err 1 end.
Definition log_root (d : list content) (m : content) : list content * Hash :=
  if decide (m = ∅) then (d, RLP_NULL) else (d ++ [m], place_root (length d)).

Lemma log_from_grows d d' r m : log_from d r = Ok m → log_from (d ++ d') r = Ok m.
Proof.
  unfold log_from. destruct (r =? RLP_NULL); [done|]. destruct (d !! _) as [m'|] eqn:E; [|done].
  by rewrite (lookup_app_l_Some _ _ _ _ E).
Qed.

Definition log_trie : PatriciaTrie.
Proof.
  refine {|
    trie_db := list content; ptrie := content; pt_new := ∅;
    pt_from d r := log_from d r;
    pt_get _ m k := Ok (m !! k);
    pt_contains _ m k := Ok (bool_decide (is_Some (m !! k)));
    pt_insert _ m k v := Ok (<[k := v]> m);
    pt_remove _ m k := Ok (delete k m, bool_decide (is_Some (m !! k)));
    pt_root d m := ((log_root d m).1, Ok (m, (log_root d m).2));
    pt_view _ m := Some m |}.
  - done.
  - done.
  - by intros _ t m k [= ->].
  - by intros _ t m k [= ->].
  - intros _ t m k v [= ->] _. by eexists.
  - intros _ t m k [= ->]. by eexists.
  - intros d t m [= ->]. unfold log_root. destruct (root_place_root (length d)) as [Hp Hne]. case_decide as Em; cbn.
    + exists d, m, RLP_NULL. split_and!; try done; [by exists m; rewrite Em|]. intros r0 t0 m0 Hr Hm. by exists t0.
    + exists (d ++ [m]), m, (place_root (length d)). split_and!; try done; [|intros r0 t0 m0 Hr Hm; exists t0; by split; [apply log_from_grows|]].
      exists m. split; [|done]. unfold log_from. rewrite (proj2 (Z.eqb_neq _ _) Hne), Hp.
      by rewrite lookup_app_r, Nat.sub_diag.
Defined.

(** A third one, whose roots are those of [map_trie] but can be opened only when
    the database has the content. *)
Definition kept_from (d : list content) (r : Hash) : outcome Z content :=
  m ← content_from r; if decide (m = ∅ ∨ m ∈ d) then Ok m else Err 1.

Lemma kept_from_root d m : m = ∅ ∨ m ∈ d → kept_from d (content_root m) = Ok m.
Proof. intros Hm. unfold kept_from. rewrite content_from_root. cbn. by rewrite decide_True. Qed.

Definition kept_trie : PatriciaTrie.
Proof.
  refine {|
    trie_db := list content; ptrie := content; pt_new := ∅;
    pt_from d r := kept_from d r;
    pt_get _ m k := Ok (m !! k);
    pt_contains _ m k := Ok (bool_decide (is_Some (m !! k)));
    pt_insert _ m k v := Ok (<[k := v]> m);
    pt_remove _ m k := Ok (delete k m, bool_decide (is_Some (m !! k)));
    pt_root d m := (m :: d, Ok (m, content_root m));
    pt_view _ m := Some m |}.
  - done.
  - done.
  - by intros _ t m k [= ->].
  - by intros _ t m k [= ->].
  - intros _ t m k v [= ->] _. by eexists.
  - intros _ t m k [= ->]. by eexists.
  - intros d t m [= ->]. exists (m :: d), m, (content_root m). split; [done|]. split; [done|].
    split; [exists m; split; [|done]; apply kept_from_root; right; by left|].
    split; [apply content_root_null|]. split; [|done].
    intros r0 t0 m0 Hr Hm. exists t0. split; [|done]. unfold kept_from in *.
    destruct (content_from r0) as [m1| |]; [|done..]. cbn in *. case_decide as Ed; [|done]. injection Hr as <-.
    rewrite decide_True; [done|]. destruct Ed; [by left|right; by right].
Defined.

(** Whether the words of an [Apply] have the width of their types. *)
Definition in_range (w x : Z) : bool := (0 <=? x) && (x <? 2 ^ w).
Definition apply_in_range (v : Apply) : bool :=
  match v with
  | Modify address b _ _ _ =>
      in_range 160 address && in_range 256 (basic_balance b) && in_range 256 (basic_nonce b)
  | Delete address => in_range 160 address
  end.

(** Moves the value between the two accounts, or fails when the sender has too
    little. *)
Definition toy_moves {B} `{!Backend B} (b : B) (c : EvmCall) : list Apply :=
  let from := be_basic b (ev_caller c) in
  let dest := default 0 (ev_to c) in
  let to := be_basic b dest in
  [Modify (ev_caller c) (mkBasic (basic_balance from - ev_value c) (basic_nonce from + 1)) None [] false;
   Modify dest (mkBasic (basic_balance to + ev_value c) (basic_nonce to)) None [] false].
#[global] Instance toy_evm {B} `{!Backend B} : Evm B := {|
  transact b c :=
    if (ev_value c <=? basic_balance (be_basic b (ev_caller c))) && forallb apply_in_range (toy_moves b c) then
      mkEvmResult (Succeed Returned) (ev_data c) (ev_gas_limit c) 21000 (toy_moves b c) [] 0
    else mkEvmResult (Error OutOfGas) [] 0 21000 [] [] 0 |}.

#[global] Instance fold_merkle : StaticMerkleTree := {|
  tree_root_hash merge hashes :=
    match hashes with [] => None | h :: l => Some (fold_left merge l h) end |}.
