(* ===== verification/ExecProps.v ===== *)
(** * Properties of the executor

    Reads of the world state answer from the accounts it represents, [apply]
    updates them and commits a root that opens them, the system script moves
    exactly its value, a failed EVM transaction changes nothing; and where
    deletion falls short. *)

From S2P Require Import Prelude Types Codec RlpInstance Traits.
From S2P Require Import Executor ExecRefine Storage StorageLaws TrieInstance.

Local Open Scope Z_scope.

(** ** Sample world *)
Abbreviation sample_storage := (ImplStorage MemoryAdapter).
Definition sample_ctx : ExecutorContext := mkExecutorContext 1 2 3 4 5 1 3 1 1000000 7 [].
Definition empty_world : AxonExecutorAdapter sample_storage :=
  ExecutorAdapter_new tt (ImplStorage_new MemoryAdapter_new) sample_ctx.

Lemma empty_world_represents : represents empty_world ∅.
Proof. exists ∅. split; [done|]. intros addr _. cbn. by rewrite !lookup_empty. Qed.

Definition one_account : AxonExecutorAdapter sample_storage :=
  fst (apply_account 77 (mkBasic 500 3) None [(1, 2)] false empty_world).

Lemma one_account_represents :
  represents one_account (w_apply ∅ 77 (mkBasic 500 3) NIL_DATA [(1, 2)] false).
Proof.
  destruct (apply_account_sim empty_world ∅ 77 (mkBasic 500 3) None [(1, 2)] false) as (a' & E & Hr & _);
    [apply empty_world_represents|done|done|done|by repeat constructor|done|].
  unfold one_account. by rewrite E.
Qed.

Definition token_tx (dir : byte) (value : Z) : SignedTransaction :=
  mkSignedTransaction (mkUnverifiedTransaction
    (mkTransaction 0 0 1 30000 (Call NATIVE_TOKEN_ISSUE_ADDRESS) value (dir :: to_be_bytes 20 77) []) None 5 9)
    12 None.

Section props.
Context `{R : Rlp} `{K : Keccak} `{!PatriciaTrie} {St : Type} `{!Storage St}.
Local Abbreviation adapter := (AxonExecutorAdapter St).

Lemma represents_basic (a : adapter) W addr :
  represents a W → h160_ok addr →
  basic a addr = mkBasic (w_balance (w_lookup W addr)) (w_nonce (w_lookup W addr)).
Proof.
  intros (m & Hv & Hm) Ha. specialize (Hm addr Ha). unfold basic, MPTTrie_get, w_lookup.
  rewrite (pt_get_view _ _ _ _ Hv). cbn [map_err].
  destruct (W !! addr) as [w|]; cbn [abs_account from_option id] in Hm |- *; [|by rewrite Hm].
  destruct Hm as (acc & -> & Hwf & Hn & Hb & _). rewrite account_decode_encode by done. by rewrite Hn, Hb.
Qed.

Lemma represents_storage (a : adapter) W addr k :
  represents a W → h160_ok addr → h256_ok k →
  storage a addr k = Ok (default 0 (w_slots (w_lookup W addr) !! k)).
Proof.
  intros (m & Hv & Hm) Ha Hk. specialize (Hm addr Ha). unfold storage, MPTTrie_get at 1, w_lookup.
  rewrite (pt_get_view _ _ _ _ Hv). cbn [map_err].
  destruct (W !! addr) as [w|]; cbn [abs_account from_option id] in Hm |- *; [|by rewrite Hm].
  destruct Hm as (acc & -> & Hwf & _ & _ & _ & Hswf & Hs). rewrite account_decode_encode by done.
  destruct (acc_storage_root acc =? RLP_NULL); [by rewrite Hs, lookup_empty|].
  destruct Hs as (sm & (t & Ht & Htv) & Hsm). unfold MPTTrie_from_root. rewrite Ht.
  cbn [map_err mbind outcome_bind]. unfold MPTTrie_get. cbn [mpt_trie].
  rewrite (pt_get_view _ _ _ _ Htv), (Hsm k Hk). cbn [map_err].
  destruct (w_slots w !! k) as [v|] eqn:E; cbn; [|done]. apply be32_from. by destruct (Hswf _ _ E).
Qed.

Lemma represents_exists (a : adapter) W addr :
  represents a W → h160_ok addr → exists_account a addr = bool_decide (is_Some (W !! addr)).
Proof.
  intros (m & Hv & Hm) Ha. specialize (Hm addr Ha). unfold exists_account, MPTTrie_contains.
  rewrite (pt_contains_view _ _ _ _ Hv). cbn [map_err]. apply bool_decide_ext.
  destruct (W !! addr) as [w|]; cbn [abs_account] in Hm.
  - destruct Hm as (acc & -> & _). split; by eexists.
  - rewrite Hm. split; by intros [].
Qed.

(** One [Modify] that leaves no empty account, handed to [apply]. *)
Lemma backend_apply_one (a : adapter) W addr b code kvs reset logs del :
  represents a W → h160_ok addr → u256_ok (basic_nonce b) → u256_ok (basic_balance b) →
  kvs_ok kvs → code_ok addr code →
  (del && (basic_balance b =? 0) && (basic_nonce b =? 0) = false)%bool →
  ∃ a', backend_apply [Modify addr b code kvs reset] logs del a = (a', Ok tt) ∧
    represents a' (w_apply W addr b (new_code_hash (w_code_hash (w_lookup W addr)) code) kvs reset) ∧
    ec_logs (exec_ctx a') = logs.
Proof.
  intros Hr Ha Hn Hb Hk Hc Hdel.
  destruct (apply_account_sim a W addr b code kvs reset Hr Ha Hn Hb Hk Hc) as (a1 & E1 & Hr1 & _).
  exists (set_logs logs a1). split; [|split; [|done]].
  - unfold backend_apply, for_each, apply_value.
    erewrite bind_ok; [|erewrite bind_ok; [reflexivity|]]; [done|].
    rewrite (bind_ok _ _ _ _ _ E1).
    destruct del, (basic_balance b =? 0), (basic_nonce b =? 0); cbn in Hdel |- *;
      rewrite ?andb_false_r; done.
  - destruct Hr1 as (m & Hv & Hm). by exists m.
Qed.

Lemma set_gas_price_represents (a : adapter) W p : represents a W → represents (set_gas_price p a) W.
Proof. intros (m & Hv & Hm). by exists m. Qed.
End props.

Section exec.
Context `{R : Rlp} `{K : Keccak} `{!StaticMerkleTree} `{!PatriciaTrie} {St : Type} `{!Storage St}
  `{!Evm (AxonExecutorAdapter St)}.
Local Abbreviation adapter := (AxonExecutorAdapter St).

Lemma backend_apply_logs values logs del (a a' : adapter) :
  backend_apply values logs del a = (a', Ok tt) → ec_logs (exec_ctx a') = logs.
Proof. intros E. apply bind_inv in E as ([] & a1 & _ & E). by injection E as <-. Qed.

Lemma sys_exec_logs tx (a a' : adapter) r :
  ec_logs (exec_ctx a) = [] → sys_inner_exec tx a = (a', Ok r) → ec_logs (exec_ctx a') = [].
Proof.
  intros Ha E. apply bind_inv in E as (c & a1 & Ec & E). unfold lift in Ec. injection Ec as <- _.
  destruct c. unfold call_native_token in E. destruct (tx_data _) as [|dir rest].
  { by injection E as <- _. }
  destruct (_ || _)%bool in E; [by injection E as <- _|].
  rewrite bind_gets in E. destruct (_ && _)%bool in E; [by injection E as <- _|].
  apply bind_inv in E as (bal & a2 & E1 & E). apply bind_inv in E as (n & a3 & E2 & E).
  apply bind_inv in E as ([] & a4 & E3 & E). apply bind_inv in E as (g & a5 & E4 & E).
  apply backend_apply_logs in E3. unfold lift in E4. injection E4 as <- _. by injection E as <- _.
Qed.

Lemma evm_exec_logs tx (a a' : adapter) r :
  ec_logs (exec_ctx a) = [] → evm_inner_exec tx a = (a', Ok r) →
  is_succeed (tr_exit_reason r) = false → ec_logs (exec_ctx a') = [].
Proof.
  intros Ha E Hr. unfold evm_inner_exec in E. rewrite bind_gets in E.
  apply bind_inv in E as (g & a1 & E1 & E). unfold lift in E1. injection E1 as <- _.
  apply bind_inv in E as (ca & a2 & E2 & E). injection E as <- <-. unfold id in *. cbn in Hr. rewrite Hr in E2.
  by injection E2 as <- _.
Qed.

(** One transaction: its logs are drained, and none are reported for a failed
    one. *)
Lemma exec_one_logs tx (a a' : adapter) r :
  ec_logs (exec_ctx a) = [] → exec_one tx a = (a', Ok r) →
  ec_logs (exec_ctx a') = [] ∧ (is_succeed (tr_exit_reason r) = false → tr_logs r = []).
Proof.
  intros Ha E. unfold exec_one in E. rewrite bind_modify in E.
  apply bind_inv in E as (r0 & a1 & E1 & E). apply bind_inv in E as (logs & a2 & E2 & E).
  injection E2 as <- <-. injection E as <- <-. split; [done|]. cbn. intros Hr.
  destruct (is_call_system_script (stx_action tx)).
  - by eapply sys_exec_logs; [|exact E1].
  - by eapply evm_exec_logs; [|exact E1|].
Qed.

(** The transactions of a list run one after the other, each in the state the
    one before it left, with the response of each. *)
Inductive exec_run : adapter → list SignedTransaction → list TxResp → adapter → Prop :=
| exec_run_nil a : exec_run a [] [] a
| exec_run_cons a a1 a' tx txs r rs :
    exec_one tx a = (a1, Ok r) → exec_run a1 txs rs a' → exec_run a (tx :: txs) (r :: rs) a'.

Lemma exec_run_length a txs rs a' : exec_run a txs rs a' → length rs = length txs.
Proof. induction 1 as [|? ? ? ? ? ? ? _ _ IH]; cbn; [done|by rewrite IH]. Qed.

(** The transaction at an index runs in the state the earlier ones left. *)
Lemma exec_run_at a txs rs a' i tx r :
  exec_run a txs rs a' → txs !! i = Some tx → rs !! i = Some r →
  ∃ a1 a2, exec_run a (take i txs) (take i rs) a1 ∧ exec_one tx a1 = (a2, Ok r).
Proof.
  intros Hrun. revert i. induction Hrun as [|a a1 a' tx' txs r' rs H1 Hrun IH]; intros [|i] Ht Hr; [done..| |].
  - injection Ht as ->. injection Hr as ->. exists a, a1. split; [constructor|done].
  - destruct (IH i Ht Hr) as (b1 & b2 & Hb & H2). exists b1, b2. split; [|done].
    cbn. by econstructor.
Qed.

Definition total_gas (rs : list TxResp) : Z := foldr (λ r acc, tr_gas_used r + acc) 0 rs.

Lemma exec_loop_spec txs : ∀ res gas (a a' : adapter) res' gas',
  ec_logs (exec_ctx a) = [] → exec_loop txs res gas a = (a', Ok (res', gas')) →
  ∃ rs, res' = res ++ rs ∧ exec_run a txs rs a' ∧
    gas' = gas + total_gas rs ∧ (gas < 2 ^ 64 → gas' < 2 ^ 64) ∧
    Forall (λ r, is_succeed (tr_exit_reason r) = false → tr_logs r = []) rs.
Proof.
  induction txs as [|tx txs IH]; intros res gas a a' res' gas' Ha E; cbn [exec_loop] in E.
  - injection E as <- <- <-. exists []. rewrite app_nil_r, Z.add_0_r.
    split_and!; [done|constructor|done..].
  - apply bind_inv in E as (r & a1 & E1 & E). destruct (exec_one_logs _ _ _ _ Ha E1) as [Ha1 Hr].
    apply bind_lift_inv in E as (g & Eg & E). apply u64_add_ok in Eg as [-> Hlt].
    destruct (IH _ _ _ _ _ _ Ha1 E) as (rs & -> & Hl & Hg & Hb & Hf). exists (r :: rs).
    split_and!; [by rewrite <-app_assoc|by econstructor| |by auto|by constructor].
    rewrite Hg. cbn [total_gas foldr]. unfold total_gas. lia.
Qed.
End exec.

(** ** Properties *)

(** The reads the EVM makes of the world state (balance and nonce, code-less
    existence, storage slots) answer from the accounts it represents, absent
    accounts and unwritten slots reading as zero. *)
Theorem world_reads `{R : Rlp} `{K : Keccak} `{!PatriciaTrie} {St} `{!Storage St}
    (a : AxonExecutorAdapter St) W addr k :
  represents a W → h160_ok addr → h256_ok k →
  basic a addr = mkBasic (w_balance (w_lookup W addr)) (w_nonce (w_lookup W addr)) ∧
  exists_account a addr = bool_decide (is_Some (W !! addr)) ∧
  storage a addr k = Ok (default 0 (w_slots (w_lookup W addr) !! k)).
Proof. intros. split_and!; [by apply represents_basic|by apply represents_exists|by apply represents_storage]. Qed.

Lemma world_reads_witness :
  basic one_account 77 = mkBasic 500 3 ∧ storage one_account 77 1 = Ok 2 ∧ exists_account one_account 78 = false.
Proof.
  destruct (world_reads one_account _ 77 1 one_account_represents) as (Hb & _ & Hs);
    [unfold in_width; lia..|].
  destruct (world_reads one_account _ 78 1 one_account_represents) as (_ & He & _);
    [unfold in_width; lia..|].
  split_and!; [exact Hb|exact Hs|exact He].
Defined.

(** C5: [apply] refines the abstract update: nonce, balance, code hash and
    slots of the account become the given ones, every other account keeps its
    state, and the committed state root opens the updated world. *)
Theorem apply_refines `{R : Rlp} `{K : Keccak} `{!PatriciaTrie} {St} `{!Storage St}
    (a : AxonExecutorAdapter St) W addr b code kvs reset :
  represents a W → h160_ok addr → u256_ok (basic_nonce b) → u256_ok (basic_balance b) →
  kvs_ok kvs → code_ok addr code →
  let W' := w_apply W addr b (new_code_hash (w_code_hash (w_lookup W addr)) code) kvs reset in
  ∃ a' empty, apply_account addr b code kvs reset a = (a', Ok empty) ∧ represents a' W' ∧
    ∃ a2, ExecutorAdapter_from_root (state_root a') (ea_db a') (ea_storage a') (exec_ctx a') = Ok a2 ∧
          represents a2 W'.
Proof.
  intros Hr Ha Hn Hb Hk Hc W'.
  destruct (apply_account_sim a W addr b code kvs reset Hr Ha Hn Hb Hk Hc) as (a' & E & Hr' & _ & H2).
  eauto 10.
Qed.

Lemma apply_refines_witness :
  ∃ a' e, apply_account 78 (mkBasic 1 0) None [(4, 5)] true one_account = (a', Ok e) ∧
    represents a' (w_apply (w_apply ∅ 77 (mkBasic 500 3) NIL_DATA [(1, 2)] false)
                     78 (mkBasic 1 0) NIL_DATA [(4, 5)] true).
Proof.
  destruct (apply_refines one_account _ 78 (mkBasic 1 0) None [(4, 5)] true one_account_represents)
    as (a' & e & E & Hr & _);
    [unfold in_width; cbn; lia..|by repeat constructor|done|].
  exists a', e. split; [exact E|exact Hr].
Defined.

(** C30: when the new balance and nonce fit 256 bits and the gas limit 64, the
    system script issues (direction 0) or burns (direction 1) exactly the
    transaction's value on the account named in its data, bumps that account's
    nonce, charges no gas, returns the encoded new balance and leaves every
    other account alone.  A burn of more than the balance leaves the world
    untouched: it is reverted with one unit of gas used, no data and no logs
    when the gas limit is from 1 to 2^64, and panics on every other gas
    limit. *)
Theorem native_token_exact `{R : Rlp} `{K : Keccak} `{!PatriciaTrie} {St} `{!Storage St}
    (a : AxonExecutorAdapter St) W tx dir rest :
  represents a W → tx_data (utx_unsigned (stx_transaction tx)) = dir :: rest →
  (20 ≤ length rest)%nat → (dir = x00 ∨ dir = x01) → is_call_system_script (stx_action tx) = true →
  let t := utx_unsigned (stx_transaction tx) in
  let addr := from_be_bytes (take 20 rest) in
  let w := w_lookup W addr in
  let bal' := if decide (dir = x00) then w_balance w + tx_value t else w_balance w - tx_value t in
  (u256_ok bal' → u256_ok (w_nonce w + 1) → 0 ≤ w_nonce w → 0 ≤ w_balance w → u64_ok (tx_gas_limit t) →
   ∃ a', sys_inner_exec tx a =
       (a', Ok (mkTxResp (Succeed Returned) (encode c_u256 bal') 0 (tx_gas_limit t) [] None)) ∧
     represents a' (w_apply W addr (mkBasic bal' (w_nonce w + 1)) (w_code_hash w) [] false)) ∧
  (dir = x01 → w_balance w < tx_value t →
   (1 ≤ tx_gas_limit t ≤ 2 ^ 64 →
    sys_inner_exec tx a = (a, Ok (mkTxResp (Revert Reverted) [] 1 (tx_gas_limit t - 1) [] None))) ∧
   (tx_gas_limit t < 1 ∨ 2 ^ 64 < tx_gas_limit t → sys_inner_exec tx a = (a, Panic))).
Proof.
  intros Hr Hd Hl Hdir Hsys t addr w bal'. pose proof (token_address rest Hl) as Ha. fold addr in Ha.
  assert (sys_inner_exec tx a = call_native_token tx a) as ->.
  { unfold sys_inner_exec. destruct (stx_action tx); [done|discriminate Hsys]. }
  unfold call_native_token. fold t. change (tx_data t = dir :: rest) in Hd. rewrite Hd.
  assert ((Nat.ltb (length (dir :: rest)) 21 || (1 <? Z_of_byte dir))%bool = false) as ->.
  { cbn [length]. destruct (Nat.ltb_spec (S (length rest)) 21); [lia|]. by destruct Hdir as [-> | ->]. }
  fold addr. msteps. change (be_basic a addr) with (basic a addr). rewrite (represents_basic a W) by done.
  fold w. cbn [basic_balance basic_nonce]. split.
  - intros Hb' Hn' Hn0 Hb0 Hg.
    assert ((negb (Z_of_byte dir =? 0) && (w_balance w <? tx_value t))%bool = false) as ->.
    { destruct Hdir as [-> | ->]; [done|]. cbn. subst bal'. rewrite decide_False in Hb' by done.
      apply Z.ltb_ge. unfold in_width in Hb'. lia. }
    assert ((if Z_of_byte dir =? 0 then u256_add (w_balance w) (tx_value t)
             else u256_sub (w_balance w) (tx_value t)) = (Ok bal' : ProtocolResult Z)) as ->.
    { subst bal'. unfold in_width in Hb'. destruct Hdir as [-> | ->];
        [rewrite decide_True in Hb' |- * by done|rewrite decide_False in Hb' |- * by done];
        unfold u256_add, u256_sub.
      - change (Z_of_byte x00 =? 0) with true. cbn. destruct (Z.ltb_spec (w_balance w + tx_value t) (2 ^ 256)); [done|lia].
      - change (Z_of_byte x01 =? 0) with false. cbn. destruct (Z.leb_spec (tx_value t) (w_balance w)); [done|lia]. }
    msteps. unfold u256_add. destruct (Z.ltb_spec (w_nonce w + 1) (2 ^ 256)); [|unfold in_width in Hn'; lia].
    msteps. destruct (backend_apply_one a W addr (mkBasic bal' (w_nonce w + 1)) None [] false [] false)
      as (a' & E & Hr' & _); [done..|constructor|done|done|].
    exists a'. split; [|exact Hr']. change (be_apply ?v ?l ?d) with (backend_apply v l d). mrun E.
    unfold as_u64. destruct (Z.ltb_spec (tx_gas_limit t) (2 ^ 64)); [done|unfold in_width in Hg; lia].
  - intros -> Hlt. cbn -[revert_resp]. destruct (Z.ltb_spec (w_balance w) (tx_value t)); [|lia].
    unfold lift, revert_resp, u256_sub, as_u64.
    destruct (Z.leb_spec 1 (tx_gas_limit t)); cbn [mbind outcome_bind]; [|split; [lia|done]].
    destruct (Z.ltb_spec (tx_gas_limit t - 1) (2 ^ 64)); cbn [mbind outcome_bind]; split; (done || lia).
Qed.

Lemma native_token_exact_witness :
  (∃ a', sys_inner_exec (token_tx x00 25) one_account =
      (a', Ok (mkTxResp (Succeed Returned) (encode c_u256 525) 0 30000 [] None))) ∧
  sys_inner_exec (token_tx x01 501) one_account =
    (one_account, Ok (mkTxResp (Revert Reverted) [] 1 29999 [] None)).
Proof.
  split; [destruct (native_token_exact one_account _ (token_tx x00 25) x00 (to_be_bytes 20 77)
    one_account_represents) as [H _]; [done|by vm_compute|by left|by vm_compute|];
    destruct H as (a' & E & _); [by vm_compute..|exists a'; exact E]|].
  destruct (native_token_exact one_account _ (token_tx x01 501) x01 (to_be_bytes 20 77)
    one_account_represents) as [_ H]; [done|by vm_compute|by right|by vm_compute|].
  apply H; [done|by vm_compute|by vm_compute].
Defined.

(** C13: executing a list of transactions runs them one after the other, each in
    the state the one before it left, the last one leaving the final state; the
    response at each position is the one of the transaction at that position.
    The gas reported is the sum of their gas, which fits 64 bits, the receipt
    root the Merkle root of the digests of their return data in that order, and
    the state root that of the final state; a failed transaction reports no
    logs, whatever the transactions around it logged. *)
Theorem exec_accounting `{R : Rlp} `{K : Keccak} `{!StaticMerkleTree} `{!PatriciaTrie} {St} `{!Storage St}
    `{!Evm (AxonExecutorAdapter St)} (a a' : AxonExecutorAdapter St) txs r :
  ec_logs (exec_ctx a) = [] → exec txs a = (a', Ok r) →
  exec_run a txs (er_tx_resp r) a' ∧ length (er_tx_resp r) = length txs ∧
  (∀ i tx t, txs !! i = Some tx → er_tx_resp r !! i = Some t →
     ∃ a1 a2, exec_run a (take i txs) (take i (er_tx_resp r)) a1 ∧ exec_one tx a1 = (a2, Ok t)) ∧
  er_gas_used r = total_gas (er_tx_resp r) ∧ er_gas_used r < 2 ^ 64 ∧
  er_receipt_root r = default 0 (merkle_root (map (λ t, digest (tr_ret t)) (er_tx_resp r))) ∧
  er_state_root r = state_root a' ∧
  Forall (λ t, is_succeed (tr_exit_reason t) = false → tr_logs t = []) (er_tx_resp r).
Proof.
  intros Ha E. apply bind_inv in E as ([res gas] & a1 & E1 & E). injection E as <- <-.
  destruct (exec_loop_spec _ _ _ _ _ _ _ Ha E1) as (rs & -> & Hl & Hg & Hb & Hf).
  cbn [er_tx_resp er_gas_used er_receipt_root er_state_root app].
  split_and!; [done|by eapply exec_run_length| |lia|apply Hb; lia|done..].
  intros i tx t. by apply exec_run_at with a1.
Qed.

Definition transfer_tx (value : Z) : SignedTransaction :=
  mkSignedTransaction (mkUnverifiedTransaction
    (mkTransaction 4 0 1 30000 (Call 78) value [] []) None 5 10) 77 None.

Lemma exec_accounting_witness :
  ∃ a' r, exec [transfer_tx 100; transfer_tx 1000000; token_tx x00 1] one_account = (a', Ok r) ∧
    exec_run one_account [transfer_tx 100; transfer_tx 1000000; token_tx x00 1] (er_tx_resp r) a' ∧
    length (er_tx_resp r) = 3%nat ∧ er_gas_used r = total_gas (er_tx_resp r).
Proof.
  destruct (exec [transfer_tx 100; transfer_tx 1000000; token_tx x00 1] one_account) as [a' [r| |]] eqn:E.
  2-3: exfalso; assert (is_ok (snd (exec [transfer_tx 100; transfer_tx 1000000; token_tx x00 1] one_account))
         = true) as Hok by (vm_compute; reflexivity); rewrite E in Hok; discriminate Hok.
  destruct (exec_accounting one_account a' [transfer_tx 100; transfer_tx 1000000; token_tx x00 1] r)
    as (Hx & Hl & _ & Hg & _); [vm_compute; reflexivity|exact E|].
  exists a', r. split; [reflexivity|]. split; [exact Hx|]. split; [exact Hl|exact Hg].
Defined.

(** A transaction whose EVM run does not succeed leaves accounts, storage
    and code exactly as they were: not even its sender's nonce advances. *)
Theorem failed_tx_no_effect `{R : Rlp} `{K : Keccak} `{!StaticMerkleTree} `{!PatriciaTrie} {St} `{!Storage St}
    `{!Evm (AxonExecutorAdapter St)} (a : AxonExecutorAdapter St) tx :
  let gas_limit := tx_gas_limit (utx_unsigned (stx_transaction tx)) in
  is_call_system_script (stx_action tx) = false → u64_ok gas_limit →
  is_succeed (er_exit (transact (set_gas_price (stx_gas_price tx) a) (evm_call_of tx gas_limit))) = false →
  ∃ a' r, exec_one tx a = (a', Ok r) ∧ is_succeed (tr_exit_reason r) = false ∧
    ea_trie a' = ea_trie a ∧ ea_db a' = ea_db a ∧ ea_storage a' = ea_storage a ∧
    state_root a' = state_root a ∧ ∀ x, basic a' x = basic a x.
Proof.
  intros g Hs Hg Hf. unfold exec_one, evm_inner_exec. rewrite bind_modify, Hs.
  assert (as_u64 g = (Ok g : ProtocolResult Z)) as Eg.
  { unfold as_u64. destruct (Z.ltb_spec g (2 ^ 64)); [done|unfold in_width in Hg; lia]. }
  eexists _, _. split.
  { erewrite bind_ok; [reflexivity|]. rewrite bind_gets. unfold id. fold g. rewrite Eg, bind_lift_ok.
    rewrite Hf. reflexivity. }
  done.
Qed.

Lemma failed_tx_no_effect_witness :
  ∃ a' r, exec_one (transfer_tx 1000000) one_account = (a', Ok r) ∧ is_succeed (tr_exit_reason r) = false ∧
    basic a' 77 = basic one_account 77.
Proof.
  destruct (failed_tx_no_effect one_account (transfer_tx 1000000)) as (a' & r & E & Hr & _ & _ & _ & _ & Hb);
    [vm_compute; reflexivity|vm_compute; split; congruence|vm_compute; reflexivity|].
  exists a', r. split; [exact E|]. split; [exact Hr|apply Hb].
Defined.

(** The emptiness test of [apply] compares the code hash with zero, but an
    account without code carries [NIL_DATA]: asked to delete empty accounts,
    [apply] keeps one with zero balance, zero nonce and no code. *)
Theorem empty_account_kept `{R : Rlp} `{K : Keccak} `{!PatriciaTrie} {St} `{!Storage St}
    (a : AxonExecutorAdapter St) W addr reset :
  represents a W → h160_ok addr → w_code_hash (w_lookup W addr) = NIL_DATA →
  ∃ a', apply_value true (Modify addr (mkBasic 0 0) None [] reset) a = (a', Ok tt) ∧
        exists_account a' addr = true ∧ basic a' addr = mkBasic 0 0.
Proof.
  intros Hr Ha Hc. destruct (apply_account_sim a W addr (mkBasic 0 0) None [] reset Hr Ha)
    as (a' & E & Hr' & _); [done|done|constructor|done|].
  exists a'. split.
  - unfold apply_value. rewrite (bind_ok _ _ _ _ _ E). unfold new_code_hash. by rewrite Hc.
  - rewrite (represents_exists a' _ addr Hr') by done. rewrite (represents_basic a' _ addr Hr') by done.
    unfold w_lookup, w_apply. by rewrite lookup_insert_eq.
Qed.

Lemma empty_account_kept_witness :
  ∃ a', apply_value true (Modify 77 (mkBasic 0 0) None [] true) one_account = (a', Ok tt) ∧
        exists_account a' 77 = true.
Proof.
  destruct (empty_account_kept one_account _ 77 true one_account_represents) as (a' & E & He & _);
    [unfold in_width; lia|reflexivity|]. exists a'. split; [exact E|exact He].
Defined.

(** A deletion reaches the trie but is not committed: afterwards the
    account reads as absent, yet the reported state root is unchanged and opens
    the world in which the account still exists. *)
Theorem delete_not_committed `{R : Rlp} `{K : Keccak} `{!PatriciaTrie} {St} `{!Storage St}
    (a a0 : AxonExecutorAdapter St) W addr del :
  represents a W → h160_ok addr → is_Some (W !! addr) →
  ExecutorAdapter_from_root (state_root a) (ea_db a) (ea_storage a) (exec_ctx a) = Ok a0 →
  represents a0 W →
  ∃ a', apply_value del (Delete addr) a = (a', Ok tt) ∧ exists_account a' addr = false ∧
    state_root a' = state_root a ∧
    ExecutorAdapter_from_root (state_root a') (ea_db a') (ea_storage a') (exec_ctx a') = Ok a0 ∧
    exists_account a0 addr = true.
Proof.
  intros (m & Hv & Hm) Ha HW Hroot Hr0. cbn [apply_value].
  destruct (pt_remove_view _ _ _ (address_bytes addr) Hv) as (t & Ht & Hv').
  unfold MPTTrie_remove. rewrite Ht.
  exists (set_ea_trie a (ea_db a) (mkMPT (mpt_root (ea_trie a)) t)). split; [by case_bool_decide|].
  split; [|split; [done|split; [done|]]].
  - unfold exists_account, MPTTrie_contains. cbn [set_ea_trie ea_db ea_trie mpt_trie].
    rewrite (pt_contains_view _ _ _ _ Hv'). cbn. rewrite lookup_delete_eq. done.
  - rewrite (represents_exists a0 W addr Hr0 Ha). by apply bool_decide_true.
Qed.

Lemma delete_not_committed_witness :
  ∃ a', apply_value true (Delete 77) one_account = (a', Ok tt) ∧ exists_account a' 77 = false ∧
    state_root a' = state_root one_account.
Proof.
  destruct (apply_account_sim empty_world ∅ 77 (mkBasic 500 3) None [(1, 2)] false) as (a' & E & Hr & Hc & a0 & Ho & Hr0);
    [apply empty_world_represents|done|done|done|by repeat constructor|done|].
  assert (a' = one_account) as -> by (unfold one_account; by rewrite E).
  destruct (delete_not_committed one_account a0 _ 77 true Hr) as (a1 & E1 & He & Hs & _);
    [unfold in_width; lia|by eexists|exact Ho|exact Hr0|]. exists a1. split_and!; assumption.
Defined.
