(* ===== verification/Interoperation.v ===== *)
(** * Interoperation

    [core/interoperation/src/lib.rs]: signature types, the two process-wide
    tables (programs by code hash, code hashes by crypto name) and the
    [Interoperation] trait over them, with the VM of the [ckb-vm] crate as class
    [CkbVm]; and the key helpers of [protocol/src/types/transaction.rs]. *)

From S2P Require Import Prelude Types Codec Traits.

Local Open Scope Z_scope.

(** [ckb_vm]: ahead-of-time compilation of a program, and one run of it with
    its arguments and cycle limit.  Errors are [VMError] codes. *)
Class CkbVm := {
  AotCode : Type;
  aot_compile : bytes → outcome Z AotCode;
  vm_run : AotCode → bytes → list bytes → Z → outcome Z VMResp
}.

Definition GAS_TO_CYCLE_COEF : Z := 6000.
Definition gas_to_cycle {E} (gas : Z) : outcome E Z := u64_mul gas GAS_TO_CYCLE_COEF.
Definition cycle_to_gas (cycle : Z) : Z := cycle / GAS_TO_CYCLE_COEF.

Inductive SignatureType : Type := Secp256k1 | Ed25519.

Definition SignatureType_try_from (s : Z) : ProtocolResult SignatureType :=
  if (s =? 0) || (s =? 1) then Ok Secp256k1
  else if s =? 2 then Ok Ed25519
  else Err (PE_Interoperation (InvalidSignatureType s)).

Section impl.
Context `{!CkbVm}.

Record Program := mkProgram { prog_code : bytes; prog_aot : AotCode }.

(** [DISPATCHER] and [CODE_HASH_MAP] *)
Record InteroperationImpl := mkInterop {
  DISPATCHER : gmap H256 Program;
  CODE_HASH_MAP : gmap string H256
}.

(** [ProgramDispatcher::new] stops at the first program that does not
    compile. *)
Fixpoint dispatcher_new (programs : list (H256 * bytes)) : ProtocolResult (gmap H256 Program) :=
  match programs with
  | [] => Ok ∅
  | (code_hash, code) :: programs' =>
      aot ← map_err (λ e, PE_Interoperation (CkbVM e)) (aot_compile code);
      inner ← dispatcher_new programs';
      Ok (<[code_hash := mkProgram code aot]> inner)
  end.

Definition InteroperationImpl_new (code_hash_map : gmap string H256) (program_map : gmap H256 bytes)
    : ProtocolResult InteroperationImpl :=
  d ← dispatcher_new (map_to_list program_map);
  Ok (mkInterop d code_hash_map).

Definition get_program (st : InteroperationImpl) (code_hash : H256) : ProtocolResult Program :=
  ok_or (DISPATCHER st !! code_hash) (PE_Interoperation (GetProgram code_hash)).

Definition get_crypto_code_hash (code_hash_map : gmap string H256) (crypto : string)
    : ProtocolResult H256 :=
  ok_or (code_hash_map !! crypto) (PE_Interoperation (GetCryptoCodeHash crypto)).

Definition impl_verify_external_signature (ctx : Context) (tx : SignedTransaction)
    : ProtocolResult unit :=
  sig ← ok_or (utx_signature (stx_transaction tx)) (PE_Interoperation MissingSignature);
  _ ← SignatureType_try_from (sig_standard_v sig);
  Ok tt.

Definition impl_call_ckb_vm (st : InteroperationImpl) (ctx : Context) (code_hash : H256)
    (args : list bytes) (max_cycles : Z) : ProtocolResult VMResp :=
  program ← get_program st code_hash;
  map_err (λ e, PE_Interoperation (CkbVM e))
    (vm_run (prog_aot program) (prog_code program) args max_cycles).

Definition interoperation_impl (st : InteroperationImpl) : Interoperation := {|
  verify_external_signature := impl_verify_external_signature;
  call_ckb_vm := impl_call_ckb_vm st |}.
End impl.

(** [public_to_address], [recover_intact_pub_key] *)
Section keys.
Context `{K : Keccak}.

Definition public_to_address (public : Z) : H160 :=
  from_be_bytes (drop 12 (to_be_bytes 32 (digest (to_be_bytes 64 public)))).

Definition recover_intact_pub_key (public : Z) : bytes := x04 :: to_be_bytes 64 public.
End keys.
