(* ===== verification/DefaultAdapter.v ===== *)
(** * The mempool's adapter

    [core/mempool/src/adapter/mod.rs]: [DefaultMemPoolAdapter], the
    implementation of [MemPoolAdapter] over the storage, the metadata, the
    executor and the network, and the [IntervalTxsBroadcaster] task behind its
    channel.  The network's answers and the signature library are parameters;
    peer reports are recorded in the order they are made.  [CURRENT_STATE_ROOT]
    and [CODE_HASH_MAP], process-wide in the code, are fields. *)

From S2P Require Import Prelude Types Codec Traits.
From S2P Require Import Heap Pool Executor MemPool Interoperation.

Local Open Scope Z_scope.

(** ** What is external *)
(** [Rpc::call] on [RPC_PULL_TXS] *)
Class PullRpc := {
  call_pull_txs : Context → option Z → list Hash → ProtocolResult (list SignedTransaction)
}.

(** [Secp256k1Recoverable::verify_signature] of message, signature and public
    key; a failure is the text of its error. *)
Class Secp256k1Verify := { verify_signature : bytes → bytes → bytes → outcome string unit }.

(** [to_string] of the errors and [{:?}] of a hash, used in messages only. *)
Class ErrorText := { error_text : ProtocolError → string; hash_text : Hash → string }.

Definition ED25519 : string := "ed25519".

(** ** The adapter's state *)
Section adapter.
Context `{R : Rlp} `{K : Keccak} `{!PatriciaTrie} {St Mt : Type} `{!Storage St}
  `{!MetadataControl Mt} `{!Interoperation} `{!PullRpc} `{!Secp256k1Verify} `{!ErrorText}.

Record DefaultMemPoolAdapter := mkDefaultAdapter {
  da_storage : St;
  da_metadata : Mt;
  da_trie_db : trie_db;
  da_state_root : MerkleRoot;
  da_code_hash_map : gmap string H256;
  da_addr_nonce : gmap H160 U256;
  da_gas_limit : Z;
  da_max_tx_size : Z;
  da_chain_id : Z;
  (** unread messages of [stx_tx], [None] when the receiver is gone *)
  da_stx_tx : option (list SignedTransaction);
  da_err_rx : list ProtocolError;
  da_reports : list (Context * TrustFeedback)
}.
Local Abbreviation adapter := DefaultMemPoolAdapter.
Local Abbreviation AM := (M DefaultMemPoolAdapter ProtocolError).

Definition set_da_storage (s : St) (a : adapter) : adapter :=
  mkDefaultAdapter s (da_metadata a) (da_trie_db a) (da_state_root a) (da_code_hash_map a)
    (da_addr_nonce a) (da_gas_limit a) (da_max_tx_size a) (da_chain_id a) (da_stx_tx a)
    (da_err_rx a) (da_reports a).
Definition set_da_metadata (m : Mt) (a : adapter) : adapter :=
  mkDefaultAdapter (da_storage a) m (da_trie_db a) (da_state_root a) (da_code_hash_map a)
    (da_addr_nonce a) (da_gas_limit a) (da_max_tx_size a) (da_chain_id a) (da_stx_tx a)
    (da_err_rx a) (da_reports a).
Definition set_da_addr_nonce (n : gmap H160 U256) (a : adapter) : adapter :=
  mkDefaultAdapter (da_storage a) (da_metadata a) (da_trie_db a) (da_state_root a)
    (da_code_hash_map a) n (da_gas_limit a) (da_max_tx_size a) (da_chain_id a) (da_stx_tx a)
    (da_err_rx a) (da_reports a).
Definition set_da_channels (tx : option (list SignedTransaction)) (rx : list ProtocolError)
    (a : adapter) : adapter :=
  mkDefaultAdapter (da_storage a) (da_metadata a) (da_trie_db a) (da_state_root a)
    (da_code_hash_map a) (da_addr_nonce a) (da_gas_limit a) (da_max_tx_size a) (da_chain_id a)
    tx rx (da_reports a).
Definition set_da_reports (r : list (Context * TrustFeedback)) (a : adapter) : adapter :=
  mkDefaultAdapter (da_storage a) (da_metadata a) (da_trie_db a) (da_state_root a)
    (da_code_hash_map a) (da_addr_nonce a) (da_gas_limit a) (da_max_tx_size a) (da_chain_id a)
    (da_stx_tx a) (da_err_rx a) r.

Definition on_storage {X} (m : M St ProtocolError X) : AM X := zoom da_storage set_da_storage m.
Definition on_metadata {X} (m : M Mt ProtocolError X) : AM X := zoom da_metadata set_da_metadata m.

(** [network.report(ctx, feedback)] *)
Definition report (ctx : Context) (feedback : TrustFeedback) : AM unit :=
  modify (λ a, set_da_reports (da_reports a ++ [(ctx, feedback)]) a).
Definition report_if_network (ctx : Context) (feedback : TrustFeedback) : AM unit :=
  if is_network_origin_txs ctx then report ctx feedback else mret tt.

(** [DefaultMemPoolAdapter::new] *)
Definition DefaultMemPoolAdapter_new (storage : St) (db : trie_db) (metadata : Mt)
    (root : MerkleRoot) (code_hash_map : gmap string H256) (chain_id gas_limit max_tx_size : Z)
    : adapter :=
  mkDefaultAdapter storage metadata db root code_hash_map ∅ gas_limit max_tx_size chain_id
    (Some []) [] [].

(** ** Operations *)
Definition check_system_script_tx_authorization (ctx : Context) (stx : SignedTransaction) : AM unit :=
  block ← on_storage (st_get_latest_block ctx);
  next ← lift (u64_add (h_number (b_header block)) 1);
  metadata ← on_metadata (mc_get_metadata_unchecked ctx next);
  if existsb (λ ve, ve_address ve =? stx_sender stx) (md_verifier_list metadata) then mret tt
  else throw (PE_Mempool (CheckAuthorization (stx_hash stx) "Invalid system script transaction")).

Definition default_pull_txs (ctx : Context) (height : option Z) (tx_hashes : list Hash)
    : AM (list SignedTransaction) := lift (call_pull_txs ctx height tx_hashes).

(** [unbounded_send], then a look at the broadcaster's error channel. *)
Definition default_broadcast_tx (ctx : Context) (stx : SignedTransaction) : AM unit := λ a,
  match da_stx_tx a with
  | None => (a, Err (PE_MempoolAdapter IntervalBroadcasterDrop))
  | Some sent =>
      match da_err_rx a with
      | err :: rest => (set_da_channels (Some (sent ++ [stx])) rest a, Err err)
      | [] => (set_da_channels (Some (sent ++ [stx])) [] a, Ok tt)
      end
  end.

(** [MemPoolError::InvalidNonce], whose fields are [u64]. *)
Definition invalid_nonce (current tx_nonce : U256) : AM unit :=
  current ← lift (as_u64 current);
  tx_nonce ← lift (as_u64 tx_nonce);
  throw (PE_Mempool (InvalidNonce current tx_nonce)).

Definition default_context : ExecutorContext := mkExecutorContext 0 0 0 0 0 0 0 0 0 0 [].

Definition default_check_authorization (ctx : Context) (tx : SignedTransaction) : AM unit :=
  if is_call_system_script (stx_action tx) then check_system_script_tx_authorization ctx tx else
  a ← gets id;
  match da_addr_nonce a !! stx_sender tx with
  | Some current =>
      if stx_nonce tx <=? current then invalid_nonce current (stx_nonce tx) else mret tt
  | None =>
      backend ← lift (ExecutorAdapter_from_root (da_state_root a) (da_trie_db a) (da_storage a)
                        default_context);
      account ← lift (get_account backend (stx_sender tx));
      modify (λ a, set_da_addr_nonce
                     (<[stx_sender tx := acc_nonce account]> (da_addr_nonce a)) a);;
      if stx_nonce tx <=? acc_nonce account then invalid_nonce (acc_nonce account) (stx_nonce tx)
      else mret tt
  end.

(** The three limits of [check_transaction]: size, gas and chain. *)
Definition check_size (ctx : Context) (stx : SignedTransaction) : AM unit :=
  fixed_bytes ← lift (map_err PE_Codec (UnverifiedTransaction_rlp_bytes (stx_transaction stx)));
  a ← gets id;
  let size := Z.of_nat (length fixed_bytes) in
  if da_max_tx_size a <? size then
    report_if_network ctx
      (Bad ("Mempool exceed size limit of tx " +:+ hash_text (stx_hash stx)));;
    throw (PE_Mempool (ExceedSizeLimit (stx_hash stx) (da_max_tx_size a) size))
  else mret tt.

Definition check_gas (ctx : Context) (stx : SignedTransaction) : AM unit :=
  gas_limit_tx ← lift (as_u64 (tx_gas_limit (utx_unsigned (stx_transaction stx))));
  a ← gets id;
  if da_gas_limit a <? gas_limit_tx then
    report_if_network ctx
      (Bad ("Mempool exceed cycle limit of tx " +:+ hash_text (stx_hash stx)));;
    throw (PE_Mempool (ExceedGasLimit (stx_hash stx) (da_gas_limit a) gas_limit_tx))
  else mret tt.

Definition check_chain (ctx : Context) (stx : SignedTransaction) : AM unit :=
  a ← gets id;
  if da_chain_id a =? utx_chain_id (stx_transaction stx) then mret tt
  else
    report_if_network ctx (Worse ("Mempool wrong chain of tx " +:+ hash_text (stx_hash stx)));;
    throw (PE_Mempool (WrongChain (stx_hash stx))).

(** The signature: of an Ed25519 one the VM is asked, and only its failure to
    run is an error. *)
Definition check_secp256k1 (stx : SignedTransaction) (signature : SignatureComponents) (public : Z)
    : AM unit :=
  hash ← lift (map_err PE_Codec (signature_hash (stx_transaction stx)));
  lift (map_err (λ msg, PE_MempoolAdapter (VerifySignature msg))
          (verify_signature (to_be_bytes 32 hash) (SignatureComponents_as_bytes signature)
             (recover_intact_pub_key public))).

Definition check_ed25519 (stx : SignedTransaction) (signature : SignatureComponents) : AM unit :=
  a ← gets id;
  code_hash ← lift (get_crypto_code_hash (da_code_hash_map a) ED25519);
  hash ← lift (map_err PE_Codec (signature_hash (stx_transaction stx)));
  _ ← lift (map_err (λ err, PE_MempoolAdapter (VerifySignature (error_text err)))
              (call_ckb_vm ∅ code_hash [to_be_bytes 32 hash; sig_r signature; sig_s signature]
                 (2 ^ 64 - 1)));
  mret tt.

Definition check_signature (stx : SignedTransaction) (signature : SignatureComponents) (public : Z)
    : AM unit :=
  kind ← lift (SignatureType_try_from (sig_standard_v signature));
  match kind with
  | Secp256k1 => check_secp256k1 stx signature public
  | Ed25519 => check_ed25519 stx signature
  end.

Definition default_check_transaction (ctx : Context) (stx : SignedTransaction) : AM unit :=
  match utx_signature (stx_transaction stx), stx_public stx with
  | None, _ => throw (PE_MempoolAdapter (VerifySignature "missing signature"))
  | Some _, None => throw (PE_MempoolAdapter (VerifySignature "missing public key"))
  | Some signature, Some public =>
      check_size ctx stx;;
      check_gas ctx stx;;
      check_chain ctx stx;;
      check_signature stx signature public
  end.

Definition default_check_storage_exist (ctx : Context) (tx_hash : Hash) : AM unit :=
  r ← on_storage (st_get_transaction_by_hash ctx tx_hash);
  match r with
  | Some _ => throw (PE_Mempool (CommittedTx tx_hash))
  | None => mret tt
  end.

Definition default_get_latest_height (ctx : Context) : AM Z :=
  header ← on_storage (st_get_latest_block_header ctx); mret (h_number header).

(** [try_join_all] of the lookups, the first error ending it. *)
Fixpoint get_each (ctx : Context) (tx_hashes : list Hash) : M St ProtocolError (list (option SignedTransaction)) :=
  match tx_hashes with
  | [] => mret []
  | tx_hash :: tx_hashes' =>
      stx ← st_get_transaction_by_hash ctx tx_hash;
      rest ← get_each ctx tx_hashes';
      mret (stx :: rest)
  end.

Definition default_get_transactions_from_storage (ctx : Context) (block_height : option Z)
    (tx_hashes : list Hash) : AM (list (option SignedTransaction)) :=
  match block_height with
  | Some height => on_storage (st_get_transactions ctx height tx_hashes)
  | None => on_storage (get_each ctx tx_hashes)
  end.

Definition default_set_args (ctx : Context) (state_root : MerkleRoot) (gas_limit max_tx_size : Z)
    : AM unit :=
  modify (λ a, mkDefaultAdapter (da_storage a) (da_metadata a) (da_trie_db a) (da_state_root a)
    (da_code_hash_map a) ∅ gas_limit max_tx_size (da_chain_id a) (da_stx_tx a) (da_err_rx a)
    (da_reports a)).

Definition default_report_good (ctx : Context) : AM unit := report_if_network ctx Good.

#[global] Instance default_adapter : MemPoolAdapter DefaultMemPoolAdapter := {|
  pull_txs := default_pull_txs;
  broadcast_tx := default_broadcast_tx;
  check_authorization := default_check_authorization;
  check_transaction := default_check_transaction;
  check_storage_exist := default_check_storage_exist;
  get_latest_height := default_get_latest_height;
  get_transactions_from_storage := default_get_transactions_from_storage;
  adapter_set_args := default_set_args;
  report_good := default_report_good |}.
End adapter.
Arguments DefaultMemPoolAdapter {_} St Mt.

(** ** [IntervalTxsBroadcaster]

    What wakes the task is a transaction from the channel or a tick of the
    interval; the event carries what [gossip.broadcast] answers, were it
    called.  A closed channel is only logged, so it is no event. *)
Inductive BroadcastEvent : Type :=
| Received (stx : SignedTransaction) (gossip : ProtocolResult unit)
| Tick (gossip : ProtocolResult unit).

Record Broadcaster := mkBroadcaster {
  txs_cache : list SignedTransaction;
  gossiped : list (list SignedTransaction);
  err_tx : list ProtocolError
}.

Definition do_broadcast (ret : ProtocolResult unit) (b : Broadcaster) : Broadcaster :=
  match txs_cache b with
  | [] => b
  | batch_stxs =>
      mkBroadcaster [] (gossiped b ++ [batch_stxs])
        (err_tx b ++ match ret with Err err => [err] | _ => [] end)
  end.

Definition broadcast_step (tx_size : nat) (b : Broadcaster) (e : BroadcastEvent) : Broadcaster :=
  match e with
  | Received stx ret =>
      let b := mkBroadcaster (txs_cache b ++ [stx]) (gossiped b) (err_tx b) in
      if decide (length (txs_cache b) = tx_size) then do_broadcast ret b else b
  | Tick ret => do_broadcast ret b
  end.

Definition broadcast (tx_size : nat) (events : list BroadcastEvent) : Broadcaster :=
  fold_left (broadcast_step tx_size) events (mkBroadcaster [] [] []).
