(* ===== verification/Metadata.v ===== *)
(** * Metadata

    [core/metadata/src/lib.rs] and [adapter.rs]: the controller that reads the
    metadata contract through the EVM and keeps it by epoch, over the adapter
    trait [MetadataControlAdapter]; [Hex] of [protocol/src/types/primitive.rs].
    The ABI coder of [ethers] and the [faster_hex] crate are parameters;
    [EPOCH_LEN], process-wide in the code, is a field. *)

From S2P Require Import Prelude Types Codec Traits.
From S2P Require Import Executor.

Local Open Scope Z_scope.

(** ** [Hex] *)
(** [faster_hex::hex_string], and [hex_decode] into a buffer of half the
    length.  Encoding is lower case, two digits a byte, and decoding undoes
    it. *)
Class FasterHex := {
  hex_string : bytes → string;
  hex_decode_into : string → outcome unit bytes;
  hex_decode_string : ∀ b, hex_decode_into (hex_string b) = Ok b
}.

Definition HEX_PREFIX : string := "0x".
Definition HEX_PREFIX_UPPER : string := "0X".

Section hex.
Context `{!FasterHex}.

(** [codec::hex_decode] *)
Definition hex_decode (src : string) : ProtocolResult bytes :=
  if decide (src = EmptyString) then Ok []
  else map_err (λ _, PE_Types FromHex) (hex_decode_into src).

Definition Hex_encode (src : bytes) : Hex := mkHex (HEX_PREFIX +:+ hex_string src).

(** [&s[2..]], which panics on a shorter string; hex strings are ASCII. *)
Definition from_2 (s : string) : ProtocolResult string :=
  match s with
  | String _ (String _ rest) => Ok rest
  | _ => Panic
  end.

Definition is_prefixed (s : string) : bool :=
  String.prefix HEX_PREFIX s || String.prefix HEX_PREFIX_UPPER s.

Definition Hex_decode (s : string) : ProtocolResult bytes :=
  s ← (if is_prefixed s then from_2 s else Ok s);
  hex_decode s.

Definition Hex_from_string (s : string) : ProtocolResult Hex :=
  let s := if is_prefixed s then s else HEX_PREFIX +:+ s in
  digits ← from_2 s;
  _ ← hex_decode digits;
  Ok (mkHex s).

Definition Hex_as_bytes (h : Hex) : ProtocolResult bytes :=
  digits ← from_2 (hex_str h);
  match hex_decode digits with
  | Err _ => Panic
  | r => r
  end.

(** [From<ValidatorExtend> for Validator] *)
Definition Validator_from (ve : ValidatorExtend) : ProtocolResult Validator :=
  pub_key ← Hex_as_bytes (ve_pub_key ve);
  Ok (mkValidator pub_key (ve_propose_weight ve) (ve_vote_weight ve)).
End hex.

(** ** The contract's types, [metadata_abi.rs] *)
Record AbiValidatorExtend := mkAbiValidator {
  av_bls_pub_key : bytes;
  av_pub_key : bytes;
  av_address : H160;
  av_propose_weight : Z;
  av_vote_weight : Z
}.

Record AbiMetadata := mkAbiMetadata {
  am_version_start : Z;
  am_version_end : Z;
  am_epoch : Z;
  am_gas_limit : Z;
  am_gas_price : Z;
  am_interval : Z;
  am_verifier_list : list AbiValidatorExtend;
  am_propose_ratio : Z;
  am_prevote_ratio : Z;
  am_precommit_ratio : Z;
  am_brake_ratio : Z;
  am_tx_num_limit : Z;
  am_max_tx_size : Z;
  am_last_checkpoint_block_hash : bytes
}.

(** [GetMetadataCall { epoch }.encode()]; [abi::decode] followed by
    [from_token]. *)
Class MetadataAbi := {
  get_metadata_call : Z → bytes;
  abi_decode_metadata : bytes → outcome MetadataError AbiMetadata
}.

Section convert.
Context `{!FasterHex}.

Definition ValidatorExtend_from (v : AbiValidatorExtend) : ValidatorExtend :=
  mkValidatorExtend (Hex_encode (av_bls_pub_key v)) (Hex_encode (av_pub_key v)) (av_address v)
    (av_propose_weight v) (av_vote_weight v).

(** [Hash::from_slice] of a [[u8; 32]] *)
Definition Metadata_from (m : AbiMetadata) : Metadata :=
  mkMetadata (mkMetadataVersion (am_version_start m) (am_version_end m)) (am_epoch m)
    (am_gas_limit m) (am_gas_price m) (am_interval m)
    (map ValidatorExtend_from (am_verifier_list m)) (am_propose_ratio m) (am_prevote_ratio m)
    (am_precommit_ratio m) (am_brake_ratio m) (am_tx_num_limit m) (am_max_tx_size m)
    (from_be_bytes (am_last_checkpoint_block_hash m)).
End convert.

(** ** The controller *)
Class MetadataControlAdapter (A : Type) := {
  call_evm : A → Context → Header → H160 → bytes → ProtocolResult TxResp
}.

Section controller.
Context `{!FasterHex} `{!MetadataAbi} {A : Type} `{!MetadataControlAdapter A}.

Record MetadataController := mkController {
  mc_adapter : A;
  metadata_cache : gmap Z Metadata;
  metadata_address : H160;
  EPOCH_LEN : Z
}.
Local Abbreviation MM := (M MetadataController ProtocolError).

Definition MetadataController_new (adapter : A) (address : H160) (epoch_len : Z)
    : MetadataController := mkController adapter ∅ address epoch_len.

Definition set_metadata_cache (m : gmap Z Metadata) (c : MetadataController) : MetadataController :=
  mkController (mc_adapter c) m (metadata_address c) (EPOCH_LEN c).

(** Division by a zero [EPOCH_LEN] panics. *)
Definition calc_epoch (c : MetadataController) (block_number : Z) : ProtocolResult Z :=
  if EPOCH_LEN c =? 0 then Panic else Ok (block_number / EPOCH_LEN c).

Definition need_change_metadata (c : MetadataController) (block_number : Z) : ProtocolResult bool :=
  if EPOCH_LEN c =? 0 then Panic else Ok (block_number mod EPOCH_LEN c =? 0).

Definition decode_resp_metadata (data : bytes) : ProtocolResult Metadata :=
  m ← map_err PE_Contract (abi_decode_metadata data);
  Ok (Metadata_from m).

Definition query_evm_metadata (c : MetadataController) (epoch : Z) (header : Header)
    : ProtocolResult Metadata :=
  res ← call_evm (mc_adapter c) ∅ header (metadata_address c) (get_metadata_call epoch);
  if is_succeed (tr_exit_reason res) then decode_resp_metadata (tr_ret res)
  else Err (PE_Contract (CallEvm (tr_exit_reason res))).

Definition update_metadata (ctx : Context) (header : Header) : MM unit :=
  c ← gets id;
  epoch ← lift (calc_epoch c (h_number header));
  epoch ← lift (u64_add epoch 1);
  metadata ← lift (query_evm_metadata c epoch header);
  let boundary := saturating_sub epoch 20 in
  modify (λ c, set_metadata_cache
    (<[epoch := metadata]> (filter (λ kv, kv.1 < boundary) (metadata_cache c))) c).

Definition get_metadata (ctx : Context) (header : Header) : MM Metadata :=
  c ← gets id;
  epoch ← lift (calc_epoch c (h_number header));
  match metadata_cache c !! epoch with
  | Some res => mret res
  | None =>
      metadata ← lift (query_evm_metadata c epoch header);
      modify (λ c, set_metadata_cache (<[epoch := metadata]> (metadata_cache c)) c);;
      mret metadata
  end.

Definition get_metadata_unchecked (ctx : Context) (block_number : Z) : MM Metadata :=
  c ← gets id;
  epoch ← lift (calc_epoch c block_number);
  lift (unwrap (metadata_cache c !! epoch)).

#[global] Instance metadata_controller : MetadataControl MetadataController := {|
  mc_calc_epoch := calc_epoch;
  mc_need_change_metadata := need_change_metadata;
  mc_update_metadata := update_metadata;
  mc_get_metadata := get_metadata;
  mc_get_metadata_unchecked := get_metadata_unchecked |}.
End controller.
Arguments MetadataController A : clear implicits.

(** ** [MetadataAdapterImpl]: a query at the header's state root *)
Section adapter.
Context `{R : Rlp} `{K : Keccak} `{!PatriciaTrie} {St : Type} `{!Storage St}
  `{!Evm (AxonExecutorAdapter St)}.

Record MetadataAdapterImpl := mkMetadataAdapter { ma_storage : St; ma_trie_db : trie_db }.

Definition impl_call_evm (a : MetadataAdapterImpl) (ctx : Context) (header : Header) (addr : H160)
    (data : bytes) : ProtocolResult TxResp :=
  backend ← ExecutorAdapter_from_root (h_state_root header) (ma_trie_db a) (ma_storage a)
              (ExecutorContext_from_Header header);
  Ok (call backend None (Some addr) data).

#[global] Instance metadata_adapter : MetadataControlAdapter MetadataAdapterImpl := {|
  call_evm := impl_call_evm |}.
End adapter.
