(* ===== verification/MetadataProps.v ===== *)
(** * Properties of the metadata controller

    What [get_metadata] and [update_metadata] leave for
    [get_metadata_unchecked], the call the mempool and the consensus engine make
    for every block; with concrete instances of the ABI and hex crates. *)

From S2P Require Import Prelude Types Codec RlpInstance Traits.
From S2P Require Import Executor Metadata.

Local Open Scope Z_scope.

(** ** Instances the witnesses run *)
Definition hex_digit (n : Z) : Ascii.ascii :=
  Ascii.ascii_of_nat (Z.to_nat (if n <? 10 then 48 + n else 87 + n)).
Definition digit_value (c : Ascii.ascii) : option Z :=
  let n := Z.of_nat (Ascii.nat_of_ascii c) in
  if (48 <=? n) && (n <=? 57) then Some (n - 48)
  else if (97 <=? n) && (n <=? 102) then Some (n - 87)
  else if (65 <=? n) && (n <=? 70) then Some (n - 55)
  else None.

Fixpoint digits_of (b : bytes) : string :=
  match b with
  | [] => EmptyString
  | x :: b' => String (hex_digit (Z_of_byte x / 16))
                 (String (hex_digit (Z_of_byte x mod 16)) (digits_of b'))
  end.
Fixpoint bytes_of_digits (s : string) : outcome unit bytes :=
  match s with
  | EmptyString => Ok []
  | String hi (String lo s') =>
      match digit_value hi, digit_value lo with
      | Some h, Some l => rest ← bytes_of_digits s'; Ok (byte_of_Z (16 * h + l) :: rest)
      | _, _ => Err tt
      end
  | _ => Err tt
  end.

Lemma bytes_of_digits_of b : bytes_of_digits (digits_of b) = Ok b.
Proof.
  induction b as [|x b IH]; [done|]. cbn [digits_of bytes_of_digits].
  rewrite IH. destruct x; reflexivity.
Qed.

#[local] Instance plain_hex : FasterHex := {|
  hex_string := digits_of;
  hex_decode_into := bytes_of_digits;
  hex_decode_string := bytes_of_digits_of |}.

(** A contract whose answer is the epoch it was asked for. *)
#[local] Instance echo_abi : MetadataAbi := {|
  get_metadata_call := to_be_bytes 8;
  abi_decode_metadata := λ b,
    Ok (mkAbiMetadata 0 100 (from_be_bytes b) 30000000 1 3000 [] 15 10 10 10 20000 1024 []) |}.

#[local] Instance echo_evm : MetadataControlAdapter unit := {|
  call_evm := λ _ _ _ _ data, Ok (mkTxResp (Succeed Returned) data 0 0 [] None) |}.

Definition sample_controller : MetadataController unit :=
  mkController tt (list_to_map ((λ e, (e, Metadata_from (mkAbiMetadata 0 100 e 0 0 0 [] 0 0 0 0 0 0 [])))
    <$> [1; 28; 29; 30])) 5 100.

Definition header_at (number : Z) : Header :=
  mkHeader 0 0 0 0 0 0 0 0 0 number 0 0 [] None 0 0 (mkProof 0 0 0 [] []) 0 0.

Section props.
Context `{!FasterHex} `{!MetadataAbi} {A : Type} `{!MetadataControlAdapter A}.
Implicit Types c : MetadataController A.

Lemma calc_epoch_ok c n : EPOCH_LEN c ≠ 0 → calc_epoch c n = Ok (n / EPOCH_LEN c).
Proof. intros Hl. unfold calc_epoch. destruct (Z.eqb_spec (EPOCH_LEN c) 0); done. Qed.

Lemma unchecked_eq c n : EPOCH_LEN c ≠ 0 →
  get_metadata_unchecked ∅ n c = (c, unwrap (metadata_cache c !! (n / EPOCH_LEN c))).
Proof.
  intros Hl. unfold get_metadata_unchecked. msteps. cbn [id]. rewrite calc_epoch_ok by done. done.
Qed.
End props.

(** ** Properties *)
(** The metadata of a header is what the contract answers for its epoch:
    read from the cache when the epoch is there, queried and kept otherwise, so
    that [get_metadata_unchecked] gives the same for every block of the epoch;
    a failed query leaves the cache alone. *)
Theorem get_metadata_cached `{!FasterHex} `{!MetadataAbi} {A} `{!MetadataControlAdapter A}
    (c : MetadataController A) (h : Header) :
  EPOCH_LEN c ≠ 0 →
  let e := h_number h / EPOCH_LEN c in
  let answer := match metadata_cache c !! e with
                | Some m => Ok m
                | None => query_evm_metadata c e h
                end in
  ∃ c', get_metadata ∅ h c = (c', answer) ∧ EPOCH_LEN c' = EPOCH_LEN c ∧
    (is_ok answer = false → c' = c) ∧
    (∀ k, k ≠ e → metadata_cache c' !! k = metadata_cache c !! k) ∧
    ∀ m, answer = Ok m → ∀ n, n / EPOCH_LEN c = e →
      get_metadata_unchecked ∅ n c' = (c', Ok m).
Proof.
  intros Hl e answer. unfold get_metadata. msteps. cbn [id].
  rewrite calc_epoch_ok by done. msteps. fold e.
  destruct (metadata_cache c !! e) as [m|] eqn:He.
  - exists c. repeat split; try done. intros m' [= <-] n Hn.
    rewrite unchecked_eq by done. by rewrite Hn, He.
  - destruct (query_evm_metadata c e h) as [m|err|] eqn:Hq.
    + msteps. eexists. split; [reflexivity|]. repeat split; [done| |].
      * intros k Hk. cbn. by rewrite lookup_insert_ne.
      * intros m' [= <-] n Hn. rewrite unchecked_eq by done. cbn. by rewrite Hn, lookup_insert_eq.
    + exists c. repeat split; done.
    + exists c. repeat split; done.
Qed.

Lemma get_metadata_cached_witness :
  ∃ c', get_metadata ∅ (header_at 250) sample_controller = (c', Ok
      (Metadata_from (mkAbiMetadata 0 100 2 30000000 1 3000 [] 15 10 10 10 20000 1024 []))) ∧
    EPOCH_LEN c' = 100.
Proof.
  assert (Hl : EPOCH_LEN sample_controller ≠ 0) by discriminate.
  destruct (get_metadata_cached sample_controller (header_at 250) Hl) as (c' & Hg & He & _).
  exists c'. split; [exact Hg | exact He].
Defined.

(** [update_metadata] keeps the wrong side of the cache: it stores the next
    epoch but retains only epochs more than twenty below it, so afterwards
    [get_metadata_unchecked] panics on every block of the current epoch and of
    the nineteen before it, even where they were cached. *)
Theorem update_drops_recent `{!FasterHex} `{!MetadataAbi} {A} `{!MetadataControlAdapter A}
    (c : MetadataController A) (h : Header) (m : Metadata) :
  EPOCH_LEN c ≠ 0 → let e := h_number h / EPOCH_LEN c in 0 ≤ e < 2 ^ 64 - 1 →
  query_evm_metadata c (e + 1) h = Ok m →
  ∃ c', update_metadata ∅ h c = (c', Ok tt) ∧
    (∀ n, n / EPOCH_LEN c = e + 1 → get_metadata_unchecked ∅ n c' = (c', Ok m)) ∧
    (∀ n, e - 19 ≤ n / EPOCH_LEN c ≤ e → 0 ≤ n / EPOCH_LEN c →
       get_metadata_unchecked ∅ n c' = (c', Panic)) ∧
    (∀ k, k < e - 19 → 0 ≤ k → metadata_cache c' !! k = metadata_cache c !! k).
Proof.
  intros Hl e He Hq. unfold update_metadata. msteps. cbn [id].
  rewrite calc_epoch_ok by done. msteps. fold e.
  rewrite u64_add_small by lia. msteps. rewrite Hq. msteps.
  eexists. split; [reflexivity|]. split; [|split].
  - intros n Hn. rewrite unchecked_eq by done. cbn. by rewrite Hn, lookup_insert_eq.
  - intros n Hn Hn0. rewrite unchecked_eq by done. cbn.
    rewrite lookup_insert_ne by lia.
    rewrite (proj2 (map_lookup_filter_None _ _ _)); [done|].
    right. intros x _. cbn. unfold saturating_sub. lia.
  - intros k Hk Hk0. cbn. rewrite lookup_insert_ne by lia. apply option_eq. intros x.
    rewrite map_lookup_filter_Some. cbn. unfold saturating_sub. intuition lia.
Qed.

Lemma update_drops_recent_witness :
  ∃ c', update_metadata ∅ (header_at 3000) sample_controller = (c', Ok tt) ∧
    get_metadata_unchecked ∅ 3000 c' = (c', Panic) ∧
    snd (get_metadata_unchecked ∅ 3000 sample_controller) ≠ Panic.
Proof.
  assert (Hl : EPOCH_LEN sample_controller ≠ 0) by discriminate.
  destruct (update_drops_recent sample_controller (header_at 3000)
    (Metadata_from (mkAbiMetadata 0 100 31 30000000 1 3000 [] 15 10 10 10 20000 1024 [])) Hl)
    as (c' & Hu & _ & Hp & _); [vm_compute; split; congruence | reflexivity |].
  exists c'. split; [exact Hu|]. split; [|vm_compute; discriminate].
  apply Hp; vm_compute; [split|]; congruence.
Defined.
