(* ===== verification/MemPoolProps.v ===== *)
(** * Properties of the mempool

    The handlers of [MemPoolImpl] against any adapter: what an insertion does on
    each outcome, the order [get_full_txs] gives, what [ensure_order_txs] lets
    in; and the broadcaster task.  The witnesses run a small adapter. *)

From S2P Require Import Prelude Types Codec Traits.
From S2P Require Import Heap Pool PoolInv PoolProps Executor MemPool Interoperation.
From S2P Require Import DefaultAdapter.

Local Open Scope Z_scope.

(** ** A concrete adapter: the committed transactions, and a peer that answers
    a pull with a fixed list *)
Record ToyAdapter := mkToy { toy_stored : gmap Hash SignedTransaction; toy_peer : list SignedTransaction }.

#[local] Instance toy_adapter : MemPoolAdapter ToyAdapter := {|
  pull_txs := λ _ _ _, gets toy_peer;
  broadcast_tx := λ _ _, mret tt;
  check_authorization := λ _ tx, if stx_nonce tx <? 1 then throw (PE_Mempool (InvalidNonce 0 0)) else mret tt;
  check_transaction := λ _ _, mret tt;
  check_storage_exist := λ _ h a,
    if decide (is_Some (toy_stored a !! h)) then (a, Err (PE_Mempool (CommittedTx h))) else (a, Ok tt);
  get_latest_height := λ _, mret 0;
  get_transactions_from_storage := λ _ _ hs, gets (λ a, (toy_stored a !!.) <$> hs);
  adapter_set_args := λ _ _ _ _, mret tt;
  report_good := λ _, mret tt |}.

Definition sample_mempool (hs : list Hash) (stored peer : list Hash) : MemPoolImpl ToyAdapter :=
  mkMemPool (sample_pool 5 hs)
    (mkToy (list_to_map ((λ h, (h, sample_txOf h)) <$> stored)) (sample_txOf <$> peer)).

Lemma sample_stored_hash (stored : list Hash) h stx :
  (list_to_map ((λ h, (h, sample_txOf h)) <$> stored) : gmap Hash SignedTransaction) !! h = Some stx →
  stx_hash stx = h.
Proof. intros (h' & [= <- ->] & _)%elem_of_list_to_map_2%list_elem_of_fmap. done. Qed.

(** What the broadcaster took from its channel. *)
Definition received (events : list BroadcastEvent) : list SignedTransaction :=
  omap (λ e, match e with Received stx _ => Some stx | Tick _ => None end) events.

(** ** Lemmas *)
Lemma bucket_insert_contains b stx :
  bucket_get_tx_by_hash (bucket_insert b stx) (stx_hash stx) = Some stx ∧
  bucket_contains (bucket_insert b stx) (stx_hash stx) = true.
Proof.
  unfold bucket_get_tx_by_hash, bucket_contains, bucket_insert. cbn.
  rewrite !lookup_insert_eq. cbn. rewrite ?lookup_insert_eq. done.
Qed.

Lemma insert_contains pool stx : reach_limit pool = false →
  pool_contains (fst (pool_insert stx pool)) (stx_hash stx) = true.
Proof.
  intros Hr. rewrite insert_ok_eq by done. unfold pool_contains. cbn. by rewrite lookup_insert_eq.
Qed.

Lemma insert_contains_mono pool stx h : pool_contains pool h = true →
  pool_contains (fst (pool_insert stx pool)) h = true.
Proof.
  intros Hc. destruct (reach_limit pool) eqn:Hr; [unfold pool_insert; by rewrite Hr|].
  rewrite insert_ok_eq by done. revert Hc. unfold pool_contains. cbn.
  rewrite lookup_insert. case_decide; [done|auto].
Qed.

Lemma insert_len pool stx :
  (pool_len (fst (pool_insert stx pool)) ≤ S (pool_len pool))%nat ∧
  co_capacity (fst (pool_insert stx pool)) = co_capacity pool.
Proof.
  destruct (reach_limit pool) eqn:Hr; [unfold pool_insert; rewrite Hr; cbn; lia|].
  rewrite insert_ok_eq by done. unfold pool_len. cbn. rewrite map_size_insert.
  destruct (tx_map pool !! stx_hash stx); cbn; lia.
Qed.

Lemma get_by_hash_genuine txOf pool h stx :
  pool_inv (genuine txOf) pool → get_by_hash pool h = Some stx → stx_hash stx = h.
Proof.
  intros Hinv. unfold get_by_hash, bucket_get_tx_by_hash.
  destruct (tx_map pool !! h) eqn:Hm.
  - intros [= <-]. by apply (pi_map _ _ Hinv) in Hm as [? _].
  - case_match eqn:Hd; [|done]. case_match eqn:Hb; [|done]. intros Hs.
    by apply (pi_bucket _ _ Hinv _ _ Hb) in Hs as (? & _).
Qed.

(** [check_dup_order_hashes] accepts exactly the duplicate-free lists. *)
Lemma check_dup_ok hashes : NoDup hashes → check_dup_order_hashes hashes = Ok tt.
Proof.
  unfold check_dup_order_hashes. intros Hnd.
  assert (∀ h, h ∈ hashes → h ∉ (∅ : gset Hash)) as Hd by set_solver.
  revert Hd. generalize (∅ : gset Hash).
  induction Hnd as [|h l Hh Hnd IH]; intros s Hd; [done|]. cbn.
  rewrite decide_False by (apply Hd; left). apply IH. intros h' Hin.
  rewrite not_elem_of_union, not_elem_of_singleton. split; [by intros ->|apply Hd; by right].
Qed.

(** What a partial lookup finds, and what it misses. *)
Lemma omap_found {X Y} (f : X → option Y) (g : Y → X) (l : list X) :
  (∀ x y, f x = Some y → g y = x) → g <$> omap f l = filter (λ x, is_Some (f x)) l.
Proof.
  intros Hg. induction l as [|x l IH]; [done|]. rewrite filter_cons. unfold omap in *. cbn [list_omap].
  destruct (f x) as [y|] eqn:Hf.
  - rewrite decide_True by done. rewrite fmap_cons, IH, (Hg x y Hf). done.
  - rewrite decide_False by by intros []. done.
Qed.

Lemma omap_all {X Y} (g : Y → X) hs (l : list (option Y)) :
  Forall2 (λ h o, ∀ y, o = Some y → g y = h) hs l → length (omap id l) = length hs →
  g <$> omap id l = hs.
Proof.
  induction 1 as [|h o hs l Ho Hl IH]; [done|]. destruct o as [y|]; cbn.
  - intros [= Hlen]. rewrite (Ho y eq_refl). f_equal. by apply IH.
  - intros Hlen. assert (length (omap id l) ≤ length l)%nat as Hle.
    { clear. induction l as [|[]]; cbn; lia. }
    apply Forall2_length in Hl. exfalso. unfold omap in *. lia.
Qed.

Lemma found_missing {X Y} (f : X → option Y) (l : list X) :
  filter (λ x, is_Some (f x)) l ++ filter (λ x, f x = None) l ≡ₚ l.
Proof.
  rewrite <- (filter_app_complement (λ x, is_Some (f x)) l) at 3. f_equiv.
  apply reflexive_eq, list_filter_iff. intros x. cbn. by rewrite eq_None_not_Some.
Qed.

Section mempool.
Context {A : Type} `{!MemPoolAdapter A}.
Implicit Types s : MemPoolImpl A.

Lemma on_adapter_eq {X} (m : M A ProtocolError X) s :
  on_adapter m s = (mkMemPool (mp_pool s) (fst (m (mp_adapter s))), snd (m (mp_adapter s))).
Proof. unfold on_adapter, zoom. by destruct (m (mp_adapter s)). Qed.
Lemma on_pool_eq {X} (m : M PriorityPool ProtocolError X) s :
  on_pool m s = (mkMemPool (fst (m (mp_pool s))) (mp_adapter s), snd (m (mp_pool s))).
Proof. unfold on_pool, zoom. by destruct (m (mp_pool s)). Qed.

Lemma bind_on_adapter {X Y} (m : M A ProtocolError X) (k : X → M (MemPoolImpl A) ProtocolError Y) s :
  (on_adapter m ≫= k) s =
  match m (mp_adapter s) with
  | (a, Ok x) => k x (mkMemPool (mp_pool s) a)
  | (a, Err e) => (mkMemPool (mp_pool s) a, Err e)
  | (a, Panic) => (mkMemPool (mp_pool s) a, Panic)
  end.
Proof.
  unfold mbind, M_bind. rewrite on_adapter_eq. by destruct (m (mp_adapter s)) as [a []].
Qed.

(** The tasks of a batch are joined whatever they return. *)
Lemma spawn_all_joined {X} (f : X → M A ProtocolError unit) l a :
  (∀ x a, snd (f x a) ≠ Panic) → ∃ a', spawn_all f l a = (a', Ok true).
Proof.
  intros Hf. revert a. induction l as [|x l IH]; intros a; [by eexists|]. cbn [spawn_all].
  destruct (f x a) as [a1 o] eqn:E. assert (o ≠ Panic) as Ho by (specialize (Hf x a); by rewrite E in Hf).
  destruct (IH a1) as [a' E']. exists a'.
  assert (spawn (f x) a = (a1, Ok (inl o))) as Hs by (unfold spawn; rewrite E; by destruct o).
  mrun Hs. mrun E'. done.
Qed.

(** Inserting a batch with room for all of it. *)
Lemma insert_all_ok (txs : list SignedTransaction) s :
  (pool_len (mp_pool s) + length txs ≤ S (co_capacity (mp_pool s)))%nat →
  ∃ s', for_each (λ signed_tx, on_pool (pool_insert signed_tx)) txs s = (s', Ok tt) ∧
    mp_adapter s' = mp_adapter s ∧
    (∀ h, pool_contains (mp_pool s) h = true → pool_contains (mp_pool s') h = true) ∧
    (∀ tx, tx ∈ txs → pool_contains (mp_pool s') (stx_hash tx) = true).
Proof.
  revert s. induction txs as [|tx txs IH]; intros s Hlen; cbn [length] in Hlen; cbn [for_each].
  { exists s. split_and!; [done..|]. intros tx Htx. by apply elem_of_nil in Htx. }
  assert (reach_limit (mp_pool s) = false) as Hr.
  { unfold reach_limit. apply bool_decide_eq_false. lia. }
  assert (on_pool (pool_insert tx) s =
          (mkMemPool (fst (pool_insert tx (mp_pool s))) (mp_adapter s), Ok tt)) as Hi.
  { rewrite on_pool_eq. by rewrite insert_ok_eq. }
  mrun Hi. destruct (insert_len (mp_pool s) tx) as [Hl Hc].
  destruct (IH (mkMemPool (fst (pool_insert tx (mp_pool s))) (mp_adapter s)))
    as (s' & Hf & Ha & Hm & Ht); [cbn; lia|].
  exists s'. split_and!; [exact Hf|exact Ha| |].
  - intros h Hh. apply Hm. by apply insert_contains_mono.
  - intros t [->|Ht']%elem_of_cons; [|by apply Ht]. apply Hm. by apply insert_contains.
Qed.

Lemma insert_tx_pool (ctx : Context) tx (sys : bool) s :
  reach_limit (mp_pool s) = false →
  ∃ pool', (if sys then on_pool (modify (λ p, insert_system_script_tx p tx))
            else on_pool (pool_insert tx)) s = (mkMemPool pool' (mp_adapter s), Ok tt) ∧
    pool_contains pool' (stx_hash tx) = true.
Proof.
  intros Hr. destruct sys.
  - eexists. split; [reflexivity|]. unfold pool_contains. cbn.
    rewrite (proj2 (bucket_insert_contains _ _)). by rewrite orb_true_r.
  - exists (fst (pool_insert tx (mp_pool s))). rewrite on_pool_eq. split.
    + by rewrite insert_ok_eq by done.
    + by apply insert_contains.
Qed.
End mempool.

Lemma do_broadcast_spec ret b :
  concat (gossiped (do_broadcast ret b)) ++ txs_cache (do_broadcast ret b) =
    concat (gossiped b) ++ txs_cache b ∧
  txs_cache (do_broadcast ret b) = [] ∧
  ∃ new, gossiped (do_broadcast ret b) = gossiped b ++ new ∧
    Forall (λ batch, batch = txs_cache b ∧ batch ≠ []) new.
Proof.
  unfold do_broadcast. destruct (txs_cache b) as [|x l] eqn:Hc; cbn.
  - rewrite Hc. split_and!; [done..|]. exists []. by rewrite app_nil_r.
  - rewrite concat_app. cbn. rewrite !app_nil_r. split_and!; [done..|].
    exists [x :: l]. split; [done|]. repeat constructor. done.
Qed.

Lemma broadcast_step_spec tx_size b e :
  tx_size ≠ 0%nat → (length (txs_cache b) < tx_size)%nat →
  Forall (λ batch, (0 < length batch ≤ tx_size)%nat) (gossiped b) →
  let b' := broadcast_step tx_size b e in
  concat (gossiped b') ++ txs_cache b' = (concat (gossiped b) ++ txs_cache b) ++ received [e] ∧
  (length (txs_cache b') < tx_size)%nat ∧
  Forall (λ batch, (0 < length batch ≤ tx_size)%nat) (gossiped b').
Proof.
  intros Hn Hc Hg b'. subst b'. destruct e as [stx ret|ret]; cbn [broadcast_step received omap list_omap].
  - set (b1 := mkBroadcaster (txs_cache b ++ [stx]) (gossiped b) (err_tx b)).
    assert (length (txs_cache b1) = S (length (txs_cache b))) as Hl by (cbn; rewrite length_app; cbn; lia).
    case_decide as Hd.
    + destruct (do_broadcast_spec ret b1) as (He & Hnil & new & Hnew & Hf).
      rewrite He, Hnil, Hnew. cbn [b1 gossiped txs_cache]. split_and!; [by rewrite app_assoc|cbn; lia|].
      apply Forall_app. split; [done|]. eapply Forall_impl; [exact Hf|].
      intros batch [-> Hne]. rewrite Hl. lia.
    + rewrite Hl in Hd. cbn [b1 gossiped txs_cache]. split_and!; [by rewrite app_assoc|rewrite length_app; cbn; lia|done].
  - destruct (do_broadcast_spec ret b) as (He & Hnil & new & Hnew & Hf).
    rewrite He, Hnil, Hnew, app_nil_r. split_and!; [done|cbn; lia|].
    apply Forall_app. split; [done|]. eapply Forall_impl; [exact Hf|].
    intros batch [-> Hne]. destruct (txs_cache b); [done|cbn in *; lia].
Qed.

(** ** Properties *)
(** C15: an insertion that succeeds has passed authorization, the transaction
    check and the storage check, in that order, with room in the pool, and the
    pool contains the transaction; one that fails leaves the pool as it was,
    except when the transaction was inserted and only its announcement
    failed. *)
Theorem insert_outcome {A} `{!MemPoolAdapter A} (s s' : MemPoolImpl A) ctx tx r :
  mempool_insert ctx tx s = (s', r) → r ≠ Panic →
  (is_ok r = true ∨ mp_pool s' ≠ mp_pool s →
     reach_limit (mp_pool s) = false ∧ pool_contains (mp_pool s') (stx_hash tx) = true ∧
     ∃ a1 a2 a3, check_authorization ctx tx (mp_adapter s) = (a1, Ok tt) ∧
       check_transaction ctx tx a1 = (a2, Ok tt) ∧
       check_storage_exist ctx (stx_hash tx) a2 = (a3, Ok tt) ∧
       (if is_network_origin_txs ctx then report_good ctx else broadcast_tx ctx tx) a3 =
       (mp_adapter s', r)).
Proof.
  unfold mempool_insert, insert_tx. msteps. cbn [id].
  destruct (reach_limit (mp_pool s)) eqn:Hr.
  { intros [= <- <-] _ [?|?]; done. }
  rewrite bind_on_adapter.
  destruct (check_authorization ctx tx (mp_adapter s)) as [a1 [[]|e|]] eqn:H1;
    [|by intros [= <- <-] ? [?|?]..].
  rewrite bind_on_adapter. cbn [mp_adapter mp_pool].
  destruct (check_transaction ctx tx a1) as [a2 [[]|e|]] eqn:H2; [|by intros [= <- <-] ? [?|?]..].
  rewrite bind_on_adapter. cbn [mp_adapter mp_pool].
  destruct (check_storage_exist ctx (stx_hash tx) a2) as [a3 [[]|e|]] eqn:H3;
    [|by intros [= <- <-] ? [?|?]..].
  destruct (insert_tx_pool ctx tx (is_call_system_script (stx_action tx))
              (mkMemPool (mp_pool s) a3) Hr) as (pool' & Hp & Hc).
  mrun Hp. cbn [mp_adapter].
  assert (∀ m : M A ProtocolError unit, on_adapter m (mkMemPool pool' a3) = (s', r) →
            mp_pool s' = pool' ∧ m a3 = (mp_adapter s', r)) as Hlast.
  { intros m. rewrite on_adapter_eq. cbn. intros [= <- <-]. by destruct (m a3). }
  intros Hrun _ _. destruct (is_network_origin_txs ctx); cbn [negb] in Hrun;
    apply Hlast in Hrun as [-> ?]; eauto 10.
Qed.

Lemma insert_outcome_witness :
  let s := sample_mempool [33; 1] [18] [] in
  pool_contains (mp_pool (fst (mempool_insert ∅ (sample_txOf 34) s))) 34 = true ∧
  snd (mempool_insert ∅ (sample_txOf 18) s) = Err (PE_Mempool (CommittedTx 18)).
Proof.
  intros s. split; [|vm_compute; reflexivity].
  destruct (mempool_insert ∅ (sample_txOf 34) s) as [s' r] eqn:E.
  assert (r = Ok tt) as -> by (apply (f_equal snd) in E; vm_compute in E; symmetry; exact E).
  destruct (insert_outcome s s' ∅ (sample_txOf 34) (Ok tt) E ltac:(discriminate)
    (or_introl eq_refl)) as (_ & H & _). exact H.
Defined.

(** [get_full_txs] answers every requested hash or fails, but not in the
    requested order: first the transactions found in the pool, then those read
    from storage, each group in the order of the request; the pool is not
    changed. *)
Theorem get_full_txs_order {A} `{!MemPoolAdapter A} txOf (s s' : MemPoolImpl A) ctx height hashes txs :
  reachable txOf (mp_pool s) →
  (∀ hs a' l, get_transactions_from_storage ctx height hs (mp_adapter s) = (a', Ok l) →
     Forall2 (λ h o, ∀ stx, o = Some stx → stx_hash stx = h) hs l) →
  get_full_txs ctx height hashes s = (s', Ok txs) →
  stx_hash <$> txs = filter (λ h, is_Some (get_by_hash (mp_pool s) h)) hashes ++
                     filter (λ h, get_by_hash (mp_pool s) h = None) hashes ∧
  (stx_hash <$> txs) ≡ₚ hashes ∧ mp_pool s' = mp_pool s.
Proof.
  intros Hreach Hst. pose proof (reachable_inv _ _ Hreach) as Hinv.
  assert (Hpool := omap_found (get_by_hash (mp_pool s)) stx_hash hashes
    (λ h stx, get_by_hash_genuine _ _ h stx Hinv)).
  assert (Hperm := found_missing (get_by_hash (mp_pool s)) hashes).
  unfold get_full_txs. msteps. cbn [id].
  set (full := omap (get_by_hash (mp_pool s)) hashes) in *.
  set (missing := filter (λ h, get_by_hash (mp_pool s) h = None) hashes) in *.
  intros (full' & s1 & Hread & Hlast)%bind_inv.
  assert (s' = s1 ∧ txs = full' ∧ length full' = length hashes) as (-> & -> & Hlen).
  { revert Hlast. case_decide; [|done]. by intros [= <- <-]. }
  assert (mp_pool s1 = mp_pool s ∧ ∃ st, full' = full ++ st ∧
          (length st = length missing → stx_hash <$> st = missing)) as (Hp & st & -> & Hmiss).
  { destruct missing as [|m ms] eqn:Hms.
    - injection Hread as <- <-. split; [done|]. exists []. by rewrite app_nil_r.
    - rewrite bind_on_adapter in Hread.
      destruct (get_transactions_from_storage ctx height (m :: ms) (mp_adapter s)) as [a [l|e|]] eqn:Hg;
        [|done..]. injection Hread as <- <-. split; [done|]. exists (omap id l). split; [done|].
      apply omap_all. exact (Hst _ _ _ Hg). }
  rewrite <- Hperm, <- Hpool, !length_app, length_fmap in Hlen.
  rewrite fmap_app, Hpool, Hmiss by lia. split_and!; [done|done|exact Hp].
Qed.

Lemma get_full_txs_order_witness :
  let s := sample_mempool [33; 1] [18; 34] [] in
  ∃ txs, snd (get_full_txs ∅ None [18; 33; 34; 1] s) = Ok txs ∧ stx_hash <$> txs = [33; 1; 18; 34].
Proof.
  intros s. destruct (get_full_txs ∅ None [18; 33; 34; 1] s) as [s' r] eqn:E.
  destruct r as [txs|e|]; [|apply (f_equal snd) in E; vm_compute in E; discriminate E..].
  exists txs. split; [reflexivity|].
  destruct (get_full_txs_order sample_txOf s s' ∅ None [18; 33; 34; 1] txs
    (sample_pool_reachable 5 [33; 1] ltac:(lia))) as (H & _); [|exact E|].
  - intros hs a' l [= <- <-]. apply Forall2_fmap_r, Forall_Forall2_diag, Forall_true.
    intros h stx Hs. exact (sample_stored_hash [18; 34] h stx Hs).
  - rewrite H. vm_compute. reflexivity.
Defined.

(** [ensure_order_txs] on a duplicate-free order pulls what the pool lacks
    and inserts it, and when the peer answers with the hashes it was asked for
    every ordered transaction is then in the pool; but it does so whatever the
    verification of the pulled transactions returns, and whatever their hashes
    are: only their number is checked. *)
Theorem ensure_order_unverified {A} `{!MemPoolAdapter A} (s : MemPoolImpl A) ctx height hashes a1 txs :
  NoDup hashes → let unknown := show_unknown_txs (mp_pool s) hashes in unknown ≠ [] →
  pull_txs ctx height unknown (mp_adapter s) = (a1, Ok txs) → length txs = length unknown →
  (∀ tx a, snd (verify_tx ctx tx a) ≠ Panic) → (∀ a, snd (report_good ctx a) = Ok tt) →
  (pool_len (mp_pool s) + length txs ≤ S (co_capacity (mp_pool s)))%nat →
  ∃ s', ensure_order_txs ctx height hashes s = (s', Ok tt) ∧
    (∀ tx, tx ∈ txs → pool_contains (mp_pool s') (stx_hash tx) = true) ∧
    (stx_hash <$> txs = unknown → ∀ h, h ∈ hashes → pool_contains (mp_pool s') h = true).
Proof.
  intros Hnd unknown Hne Hpull Hlen Hv Hrep Hroom.
  destruct (spawn_all_joined (verify_tx ctx) txs a1 Hv) as [a2 Hsp].
  destruct (insert_all_ok txs (mkMemPool (mp_pool s) a2)) as (s3 & Hins & Ha & Hm & Hin);
    [exact Hroom|]. cbn [mp_pool mp_adapter] in *.
  exists (mkMemPool (mp_pool s3) (fst (report_good ctx a2))).
  split; [|split; [exact Hin|]].
  - unfold ensure_order_txs. rewrite check_dup_ok by done. do 2 msteps. cbn [id]. fold unknown.
    destruct unknown as [|u us] eqn:Hu; [done|].
    rewrite bind_on_adapter, Hpull, decide_True by done.
    assert (verify_tx_in_parallel ctx txs (mkMemPool (mp_pool s) a1) =
            (mkMemPool (mp_pool s) a2, Ok tt)) as Hvp.
    { unfold verify_tx_in_parallel. rewrite bind_on_adapter. cbn [mp_adapter]. by rewrite Hsp. }
    mrun Hvp. mrun Hins. rewrite on_adapter_eq, Ha, Hrep. done.
  - intros Hh h Hin'. cbn. destruct (pool_contains (mp_pool s) h) eqn:Hc; [by apply Hm|].
    assert (h ∈ unknown) as Hu by (apply list_elem_of_filter; done).
    rewrite <- Hh in Hu. apply list_elem_of_fmap in Hu as (tx & -> & Htx). by apply Hin.
Qed.

(** The peer is asked for transaction 34 and answers with transaction 2, which
    the nonce check refuses. *)
Lemma ensure_order_unverified_witness :
  let s := sample_mempool [33; 1] [] [2] in
  is_ok (snd (verify_tx ∅ (sample_txOf 2) (mp_adapter s))) = false ∧
  ∃ s', ensure_order_txs ∅ None [33; 34] s = (s', Ok tt) ∧ pool_contains (mp_pool s') 2 = true.
Proof.
  intros s. split; [vm_compute; reflexivity|].
  destruct (ensure_order_unverified s ∅ None [33; 34] (mp_adapter s) [sample_txOf 2])
    as (s' & He & Hin & _).
  - apply (bool_decide_unpack _). vm_compute. exact I.
  - vm_compute. discriminate.
  - reflexivity.
  - vm_compute. reflexivity.
  - intros tx a. unfold verify_tx. cbn [check_authorization check_transaction check_storage_exist toy_adapter].
    destruct (stx_nonce tx <? 1); [discriminate|].
    unfold mbind, M_bind, mret, M_ret. destruct (decide _); discriminate.
  - reflexivity.
  - vm_compute. lia.
  - exists s'. split; [exact He|]. apply (Hin (sample_txOf 2)). apply list_elem_of_singleton. reflexivity.
Defined.

(** The broadcaster gossips every transaction it receives exactly once and
    in order, in non-empty batches of at most [tx_size]; what it has not sent
    yet is shorter than a batch. *)
Theorem broadcast_exact tx_size events :
  tx_size ≠ 0%nat →
  let b := broadcast tx_size events in
  concat (gossiped b) ++ txs_cache b = received events ∧
  Forall (λ batch, (0 < length batch ≤ tx_size)%nat) (gossiped b) ∧
  (length (txs_cache b) < tx_size)%nat.
Proof.
  intros Hn. unfold broadcast.
  assert (∀ b, (length (txs_cache b) < tx_size)%nat →
    Forall (λ batch, (0 < length batch ≤ tx_size)%nat) (gossiped b) →
    let b' := fold_left (broadcast_step tx_size) events b in
    concat (gossiped b') ++ txs_cache b' = (concat (gossiped b) ++ txs_cache b) ++ received events ∧
    Forall (λ batch, (0 < length batch ≤ tx_size)%nat) (gossiped b') ∧
    (length (txs_cache b') < tx_size)%nat) as Hgen.
  { induction events as [|e events IH]; intros b Hc Hg; cbn [fold_left].
    - split_and!; [by rewrite app_nil_r|done..].
    - destruct (broadcast_step_spec tx_size b e Hn Hc Hg) as (He & Hc' & Hg').
      destruct (IH _ Hc' Hg') as (E & ? & ?). split_and!; [|done..].
      rewrite E, He, <- app_assoc. f_equal. unfold received. by rewrite <- omap_app. }
  apply Hgen; [cbn; lia|constructor].
Qed.

Lemma broadcast_exact_witness :
  let b := broadcast 2 [Received (sample_txOf 1) (Ok tt); Tick (Ok tt); Tick (Err (PE_Network 0));
    Received (sample_txOf 2) (Ok tt); Received (sample_txOf 3) (Ok tt); Received (sample_txOf 4) (Ok tt)] in
  concat (gossiped b) ++ txs_cache b = sample_txOf <$> [1; 2; 3; 4] ∧ gossiped b ≠ [].
Proof.
  intros b. split; [|vm_compute; discriminate].
  unfold b. rewrite (proj1 (broadcast_exact 2 _ ltac:(lia))). reflexivity.
Defined.
