(* ===== verification/AdapterProps.v ===== *)
(** * Properties of the default mempool adapter

    Exactly which transactions [check_transaction] accepts, and what follows
    for the sender field, which none of its checks reads. *)

From S2P Require Import Prelude Types Codec RlpInstance Traits CodecProps.
From S2P Require Import Heap Pool Executor MemPool Interoperation DefaultAdapter.
From S2P Require Import Storage StorageLaws StorageProps TrieInstance Metadata MetadataProps.
From S2P Require Import PoolInv PoolProps MemPoolProps.

Local Open Scope Z_scope.

(** The same transaction, claimed by another sender. *)
Definition with_sender (stx : SignedTransaction) (sender : H160) : SignedTransaction :=
  mkSignedTransaction (stx_transaction stx) sender (stx_public stx).

Section accepts.
Context `{R : Rlp} `{K : Keccak} `{!PatriciaTrie} {St Mt : Type} `{!Storage St}
  `{!MetadataControl Mt} `{!Interoperation} `{!PullRpc} `{!Secp256k1Verify} `{!ErrorText}.
Local Abbreviation adapter := (DefaultMemPoolAdapter St Mt).

(** A signature that is accepted: an Ethereum one verifies under the carried
    public key; for an Ed25519 one the VM ran, with any exit code. *)
Definition signature_accepted (a : adapter) (stx : SignedTransaction) (sc : SignatureComponents)
    (public : Z) : Prop :=
  ∃ hash, signature_hash (stx_transaction stx) = Ok hash ∧
    ((sig_standard_v sc = 0 ∨ sig_standard_v sc = 1) ∧
       verify_signature (to_be_bytes 32 hash) (SignatureComponents_as_bytes sc)
         (recover_intact_pub_key public) = Ok tt ∨
     sig_standard_v sc = 2 ∧ ∃ code_hash resp, da_code_hash_map a !! ED25519 = Some code_hash ∧
       call_ckb_vm ∅ code_hash [to_be_bytes 32 hash; sig_r sc; sig_s sc] (2 ^ 64 - 1) = Ok resp).

Definition accepts (a : adapter) (stx : SignedTransaction) : Prop :=
  ∃ sc public b, utx_signature (stx_transaction stx) = Some sc ∧ stx_public stx = Some public ∧
    UnverifiedTransaction_rlp_bytes (stx_transaction stx) = Ok b ∧
    Z.of_nat (length b) ≤ da_max_tx_size a ∧
    tx_gas_limit (utx_unsigned (stx_transaction stx)) < 2 ^ 64 ∧
    tx_gas_limit (utx_unsigned (stx_transaction stx)) ≤ da_gas_limit a ∧
    utx_chain_id (stx_transaction stx) = da_chain_id a ∧ signature_accepted a stx sc public.

Lemma bind_throw {X} (m : M adapter ProtocolError unit) (e : ProtocolError) a a' (x : X) :
  (m ≫= λ _, throw e) a = (a', Ok x) → False.
Proof. intros (? & ? & _ & ?)%bind_inv. done. Qed.

Lemma check_size_ok ctx stx (a a' : adapter) :
  check_size ctx stx a = (a', Ok tt) ↔ a' = a ∧ ∃ b,
    UnverifiedTransaction_rlp_bytes (stx_transaction stx) = Ok b ∧
    Z.of_nat (length b) ≤ da_max_tx_size a.
Proof.
  unfold check_size.
  destruct (UnverifiedTransaction_rlp_bytes (stx_transaction stx)) as [b| |].
  - cbn [map_err]. do 2 msteps. cbn [id]. case_match eqn:Hs; split.
    + by intros ?%bind_throw.
    + intros (_ & b' & [= <-] & ?). lia.
    + intros [= <-]. split; [done|]. exists b. split; [done|lia].
    + by intros (-> & _).
  - split; [done|]. by intros (_ & b & ? & _).
  - split; [done|]. by intros (_ & b & ? & _).
Qed.

Lemma check_gas_ok ctx stx (a a' : adapter) :
  check_gas ctx stx a = (a', Ok tt) ↔ a' = a ∧
    tx_gas_limit (utx_unsigned (stx_transaction stx)) < 2 ^ 64 ∧
    tx_gas_limit (utx_unsigned (stx_transaction stx)) ≤ da_gas_limit a.
Proof.
  unfold check_gas, as_u64. set (g := tx_gas_limit _). destruct (Z.ltb_spec g (2 ^ 64)).
  - do 2 msteps. cbn [id]. case_match eqn:Hs; split.
    + by intros ?%bind_throw.
    + lia.
    + intros [= <-]. split; [done|lia].
    + by intros (-> & _).
  - split; [done|lia].
Qed.

Lemma check_chain_ok ctx stx (a a' : adapter) :
  check_chain ctx stx a = (a', Ok tt) ↔
  a' = a ∧ utx_chain_id (stx_transaction stx) = da_chain_id a.
Proof.
  unfold check_chain. msteps. cbn [id]. case_match eqn:Hs; split.
  - intros [= <-]. split; [done|lia].
  - by intros (-> & _).
  - by intros ?%bind_throw.
  - lia.
Qed.

Lemma check_secp256k1_ok stx sc public (a a' : adapter) :
  check_secp256k1 stx sc public a = (a', Ok tt) ↔ a' = a ∧ ∃ hash,
    signature_hash (stx_transaction stx) = Ok hash ∧
    verify_signature (to_be_bytes 32 hash) (SignatureComponents_as_bytes sc)
      (recover_intact_pub_key public) = Ok tt.
Proof.
  unfold check_secp256k1. destruct (signature_hash (stx_transaction stx)) as [h| |] eqn:Eh;
    [|split; [done|by intros (_ & ? & ? & _)]..].
  cbn [map_err]. msteps. unfold lift. split.
  - intros [= <- Hv]. split; [done|]. exists h. split; [done|].
    by destruct (verify_signature _ _ _) as [[]| |].
  - by intros (-> & ? & [= <-] & ->).
Qed.

Lemma check_ed25519_ok stx sc (a a' : adapter) :
  check_ed25519 stx sc a = (a', Ok tt) ↔ a' = a ∧ ∃ hash,
    signature_hash (stx_transaction stx) = Ok hash ∧ ∃ code_hash resp,
    da_code_hash_map a !! ED25519 = Some code_hash ∧
    call_ckb_vm ∅ code_hash [to_be_bytes 32 hash; sig_r sc; sig_s sc] (2 ^ 64 - 1) = Ok resp.
Proof.
  unfold check_ed25519, get_crypto_code_hash. msteps. cbn [id].
  destruct (da_code_hash_map a !! ED25519) as [c|]; cbn [ok_or];
    [|split; [done|by intros (_ & ? & _ & ? & ? & ? & _)]].
  destruct (signature_hash (stx_transaction stx)) as [h| |] eqn:Eh; msteps;
    [|split; [done|by intros (_ & ? & ? & _)]..].
  cbn [map_err]. msteps. split.
  - intros (resp & a3 & [= -> Hr] & [= ->])%bind_inv. split; [done|]. exists h. split; [done|].
    exists c, resp. split; [done|]. by destruct (call_ckb_vm _ _ _ _); simplify_eq/=.
  - intros (-> & ? & [= <-] & ? & resp & [= <-] & ->). done.
Qed.

Lemma check_signature_ok stx sc public (a a' : adapter) :
  check_signature stx sc public a = (a', Ok tt) ↔ a' = a ∧ signature_accepted a stx sc public.
Proof.
  unfold check_signature, signature_accepted, SignatureType_try_from.
  destruct (Z.eqb_spec (sig_standard_v sc) 0), (Z.eqb_spec (sig_standard_v sc) 1),
    (Z.eqb_spec (sig_standard_v sc) 2); try lia; cbn [orb]; msteps;
    rewrite ?check_secp256k1_ok, ?check_ed25519_ok.
  4: split; [done|]; intros (_ & h & _ & [[? _]|[? _]]); lia.
  all: split; [intros (-> & h & Hh & Hv); split; [done|]; exists h; split; [done|]
              |intros (-> & h & Hh & [[? Hv]|[? Hv]]); try lia; eauto].
  1,2: left; split; [lia|done].
  right. split; [lia|done].
Qed.

Lemma check_transaction_spec ctx stx (a : adapter) :
  default_check_transaction ctx stx a = (a, Ok tt) ↔ accepts a stx.
Proof.
  unfold default_check_transaction, accepts.
  destruct (utx_signature (stx_transaction stx)) as [sc|], (stx_public stx) as [public|];
    try (split; [done|by intros (? & ? & ? & ? & ? & _)]).
  split.
  - intros ([] & a1 & [-> (b & Hb & Hl)]%check_size_ok & Hrun)%bind_inv.
    apply bind_inv in Hrun as ([] & a2 & [-> [Hg1 Hg2]]%check_gas_ok & Hrun).
    apply bind_inv in Hrun as ([] & a3 & [-> Hc]%check_chain_ok & [_ Hs]%check_signature_ok).
    exists sc, public, b. done.
  - intros (? & ? & b & [= <-] & [= <-] & Hb & Hl & Hg1 & Hg2 & Hc & Hs).
    rewrite (bind_ok _ _ _ a tt) by (apply check_size_ok; eauto).
    rewrite (bind_ok _ _ _ a tt) by (by apply check_gas_ok).
    rewrite (bind_ok _ _ _ a tt) by (by apply check_chain_ok).
    by apply check_signature_ok.
Qed.
End accepts.

(** ** Properties *)
(** C27: [check_transaction] accepts exactly the transactions that carry a
    signature and a public key, encode to at most the maximal size, ask for no
    more gas than the limit, name this chain, and whose signature verifies under
    the carried key; of an Ed25519 signature it only asks that the VM runs to
    an exit, whatever the exit code. *)
Theorem check_transaction_iff `{R : Rlp} `{K : Keccak} `{!PatriciaTrie} {St Mt} `{!Storage St}
    `{!MetadataControl Mt} `{!Interoperation} `{!PullRpc} `{!Secp256k1Verify} `{!ErrorText}
    ctx stx (a : DefaultMemPoolAdapter St Mt) :
  default_check_transaction ctx stx a = (a, Ok tt) ↔ accepts a stx.
Proof. apply check_transaction_spec. Qed.

(** The sender is taken on trust: a system script transaction whose own
    signature is accepted is inserted under the address of any validator of the
    coming epoch, so the authorization check on the sender proves nothing about
    who signed. *)
Theorem forged_sender_admitted `{R : Rlp} `{K : Keccak} `{!PatriciaTrie} {St Mt} `{!Storage St}
    `{!MetadataControl Mt} `{!Interoperation} `{!PullRpc} `{!Secp256k1Verify} `{!ErrorText}
    ctx stx ve (s : MemPoolImpl (DefaultMemPoolAdapter St Mt)) st1 st2 mt1 block metadata :
  let a := mp_adapter s in
  accepts a stx → is_call_system_script (stx_action stx) = true →
  st_get_latest_block ctx (da_storage a) = (st1, Ok block) →
  h_number (b_header block) + 1 < 2 ^ 64 →
  mc_get_metadata_unchecked ctx (h_number (b_header block) + 1) (da_metadata a) = (mt1, Ok metadata) →
  ve ∈ md_verifier_list metadata →
  st_get_transaction_by_hash ctx (stx_hash stx) st1 = (st2, Ok None) →
  reach_limit (mp_pool s) = false → is_network_origin_txs ctx = true →
  ∃ s', mempool_insert ctx (with_sender stx (ve_address ve)) s = (s', Ok tt) ∧
    bucket_get_tx_by_hash (sys_tx_bucket (mp_pool s')) (stx_hash stx) =
    Some (with_sender stx (ve_address ve)).
Proof.
  intros a Hacc Hsys Hb Hlt Hmd Hve Hst Hr Hnet. set (forged := with_sender stx (ve_address ve)).
  set (a1 := set_da_metadata mt1 (set_da_storage st1 a)). set (a2 := set_da_storage st2 a1).
  assert (check_authorization ctx forged (mp_adapter s) = (a1, Ok tt)) as Ha1.
  { change (default_check_authorization ctx forged a = (a1, Ok tt)).
    unfold default_check_authorization. change (stx_action forged) with (stx_action stx).
    rewrite Hsys. unfold check_system_script_tx_authorization.
    assert (on_storage (st_get_latest_block ctx) a = (set_da_storage st1 a, Ok block)) as E1
      by (unfold on_storage, zoom; by rewrite Hb).
    mrun E1. rewrite u64_add_small by done. msteps.
    assert (on_metadata (mc_get_metadata_unchecked ctx (h_number (b_header block) + 1))
              (set_da_storage st1 a) = (a1, Ok metadata)) as E2
      by (unfold on_metadata, zoom; cbn [da_metadata set_da_storage]; by rewrite Hmd).
    mrun E2. rewrite (proj2 (existsb_exists _ _)); [done|].
    exists ve. split; [by apply list_elem_of_In|]. cbn. apply Z.eqb_refl. }
  assert (check_transaction ctx forged a1 = (a1, Ok tt)) as Ha2
    by (by apply check_transaction_spec).
  assert (check_storage_exist ctx (stx_hash forged) a1 = (a2, Ok tt)) as Ha3.
  { change (default_check_storage_exist ctx (stx_hash forged) a1 = (a2, Ok tt)). unfold default_check_storage_exist.
    assert (on_storage (st_get_transaction_by_hash ctx (stx_hash forged)) a1 = (a2, Ok None)) as E
      by (unfold on_storage, zoom; cbn [da_storage a1 set_da_metadata set_da_storage];
          change (stx_hash forged) with (stx_hash stx); by rewrite Hst).
    by mrun E. }
  assert (report_good ctx a2 = (set_da_reports (da_reports a2 ++ [(ctx, Good)]) a2, Ok tt)) as Ha4.
  { change (report_if_network ctx Good a2 = (set_da_reports (da_reports a2 ++ [(ctx, Good)]) a2, Ok tt)).
    unfold report_if_network. by rewrite Hnet. }
  unfold mempool_insert, insert_tx. msteps. cbn [id]. rewrite Hr.
  change (stx_action forged) with (stx_action stx). rewrite Hsys, Hnet.
  rewrite bind_on_adapter, Ha1, bind_on_adapter. cbn [mp_adapter].
  rewrite Ha2, bind_on_adapter. cbn [mp_adapter]. rewrite Ha3.
  rewrite (bind_ok _ _ _ (mkMemPool (insert_system_script_tx (mp_pool s) forged) a2) tt) by done.
  cbn [negb]. rewrite on_adapter_eq. cbn [mp_adapter]. rewrite Ha4.
  eexists. split; [reflexivity|].
  exact (proj1 (bucket_insert_contains (sys_tx_bucket (mp_pool s)) forged)).
Qed.

(** A storage holding one block, a validator 77 of the next block's epoch, and
    crates that accept every signature. *)
#[local] Existing Instances plain_hex echo_abi echo_evm.
#[local] Instance any_interop : Interoperation := {|
  verify_external_signature := λ _ _, Ok tt;
  call_ckb_vm := λ _ _ _ _, Ok (mkVMResp (-1) 0) |}.
#[local] Instance any_secp : Secp256k1Verify := {| verify_signature := λ _ _ _, Ok tt |}.
#[local] Instance no_peer : PullRpc := {| call_pull_txs := λ _ _ _, Ok [] |}.
#[local] Instance no_text : ErrorText := {| error_text := λ _, EmptyString; hash_text := λ _, EmptyString |}.

Definition issue_tx : SignedTransaction :=
  mkSignedTransaction (mkUnverifiedTransaction
    (mkTransaction 1 0 1 21000 (Call NATIVE_TOKEN_ISSUE_ADDRESS) 10 (repeat x00 21) [])
    (Some (sample_sig x01)) 7 555) 12 (Some 88).

Definition one_validator : MetadataController unit :=
  mkController tt {[ 0 := mkMetadata (mkMetadataVersion 0 100) 0 0 0 0
    [mkValidatorExtend (mkHex "0x") (mkHex "0x") 77 1 1] 0 0 0 0 0 0 0 ]} 5 100.

Definition one_block_mempool
    : MemPoolImpl (DefaultMemPoolAdapter (ImplStorage MemoryAdapter) (MetadataController unit)) :=
  mkMemPool (sample_pool 5 [])
    (DefaultMemPoolAdapter_new (fst (insert_block ∅ sample_block new_storage)) tt
       one_validator 0 ∅ 7 30000 100000).

Lemma forged_sender_admitted_witness :
  ∃ s', mempool_insert (mark_network_origin_new_txs ∅) (with_sender issue_tx 77) one_block_mempool =
        (s', Ok tt).
Proof.
  set (ctx := mark_network_origin_new_txs ∅).
  destruct (forged_sender_admitted ctx issue_tx
    (mkValidatorExtend (mkHex "0x") (mkHex "0x") 77 1 1) one_block_mempool
    (fst (st_get_latest_block ctx (da_storage (mp_adapter one_block_mempool))))
    (fst (st_get_transaction_by_hash ctx 555
       (fst (st_get_latest_block ctx (da_storage (mp_adapter one_block_mempool))))))
    one_validator sample_block
    (mkMetadata (mkMetadataVersion 0 100) 0 0 0 0
       [mkValidatorExtend (mkHex "0x") (mkHex "0x") 77 1 1] 0 0 0 0 0 0 0)) as (s' & H & _).
  - exists (sample_sig x01), 88.
    destruct (UnverifiedTransaction_rlp_bytes (stx_transaction issue_tx)) as [b| |] eqn:Hb;
      [|apply (f_equal is_ok) in Hb; vm_compute in Hb; discriminate Hb..].
    exists b. split; [reflexivity|]. split; [reflexivity|]. split; [reflexivity|].
    assert ((Z.of_nat (length b) <=? 100000) = true) as Hl.
    { transitivity (match UnverifiedTransaction_rlp_bytes (stx_transaction issue_tx) with
                    | Ok b => Z.of_nat (length b) <=? 100000 | _ => true end);
        [rewrite Hb; reflexivity|vm_compute; reflexivity]. }
    split; [apply Z.leb_le; exact Hl|]. split; [reflexivity|]. split; [discriminate|].
    split; [reflexivity|]. eexists. split; [reflexivity|]. left. split; [right; reflexivity|reflexivity].
  - reflexivity.
  - apply injective_projections; [reflexivity|]. vm_compute. reflexivity.
  - reflexivity.
  - reflexivity.
  - left.
  - apply injective_projections; [reflexivity|]. vm_compute. reflexivity.
  - reflexivity.
  - reflexivity.
  - exists s'. exact H.
Defined.
