(* ===== verification/Overlord.v ===== *)
(** * Consensus data

    What the consensus crate takes from [overlord], the BLS and the bloom
    crates (classes), the types and pure functions of
    [core/consensus/src/{status,consensus,engine}.rs], [Block::new], and
    [OverlordCrypto] of [util.rs]. *)

From S2P Require Import Prelude Types Codec Traits.
From S2P Require Import Executor Metadata.

Local Open Scope Z_scope.

(** ** External crates *)
(** [overlord::types] *)
Record Node := mkNode { nd_address : bytes; nd_propose_weight : Z; nd_vote_weight : Z }.

Record DurationConfig := mkDuration {
  dc_propose_ratio : Z;
  dc_prevote_ratio : Z;
  dc_precommit_ratio : Z;
  dc_brake_ratio : Z
}.

Record Status := mkStatus {
  os_height : Z;
  os_interval : option Z;
  os_timer_config : option DurationConfig;
  os_authority_list : list Node
}.

Record OverlordProof := mkOverlordProof {
  op_height : Z;
  op_round : Z;
  op_block_hash : bytes;
  op_signature : bytes;
  op_address_bitmap : bytes
}.

Record Commit := mkCommit { cm_height : Z; cm_content : Proposal; cm_proof : OverlordProof }.

(** [Vec<Node>::sort]; [extract_voters], which sorts the list it is given and
    returns the addresses at the set bits; [rlp::encode] of a precommit
    [Vote].  Sorting permutes; the voters are nodes, at most once each. *)
Class Overlord := {
  node_sort : list Node → list Node;
  extract_voters : list Node → bytes → outcome unit (list bytes);
  precommit_vote : Z → Z → bytes → bytes;
  node_sort_perm l : node_sort l ≡ₚ l;
  extract_voters_nodes l bitmap voters : extract_voters l bitmap = Ok voters →
    ∃ ns, ns ⊆+ l ∧ voters = nd_address <$> ns
}.

(** [ethbloom::Bloom::from(BloomInput::Raw(..))] *)
Class EthBloom := { bloom_raw : bytes → Z }.

(** [ophelia_blst]; failures are error codes. *)
Class Bls := {
  BlsPublicKey : Type;
  BlsSignature : Type;
  BlsPrivateKey : Type;
  bls_pub_key_from : bytes → outcome Z BlsPublicKey;
  bls_sig_from : bytes → outcome Z BlsSignature;
  bls_sig_to_bytes : BlsSignature → bytes;
  bls_sign : BlsPrivateKey → bytes → BlsSignature;
  bls_verify : BlsSignature → bytes → BlsPublicKey → string → outcome Z unit;
  bls_aggregate : list BlsPublicKey → outcome Z BlsPublicKey;
  bls_combine : list (BlsSignature * BlsPublicKey) → outcome Z BlsSignature
}.

(** ** Types *)
Record CurrentStatus := mkCurrentStatus {
  cs_prev_hash : Hash;
  cs_last_number : BlockNumber;
  cs_last_state_root : MerkleRoot;
  cs_tx_num_limit : Z;
  cs_gas_limit : U256;
  cs_max_tx_size : U256;
  cs_base_fee_per_gas : U256;
  cs_proof : Proof;
  cs_last_checkpoint_block_hash : Hash
}.

Record NodeInfo := mkNodeInfo { ni_chain_id : Z; ni_self_pub_key : bytes; ni_self_address : H160 }.

Inductive MessageTarget : Type := Broadcast | Specified (pub_key : bytes).

(** ** Pure functions *)
Definition validate_timestamp (current_timestamp proposal_timestamp previous_timestamp : Z) : bool :=
  if proposal_timestamp <? previous_timestamp then false
  else if current_timestamp <? proposal_timestamp then false
  else true.

Section functions.
Context `{R : Rlp} `{K : Keccak} `{!Overlord} `{!EthBloom} `{!FasterHex}.

(** [Node { address: v.pub_key.as_bytes(), .. }] *)
Definition node_of (v : ValidatorExtend) : ProtocolResult Node :=
  address ← Hex_as_bytes (ve_pub_key v);
  Ok (mkNode address (ve_propose_weight v) (ve_vote_weight v)).

Definition convert_to_overlord_authority (validators : list ValidatorExtend)
    : ProtocolResult (list Node) :=
  authority ← traverse node_of validators;
  Ok (node_sort authority).

(** [From<Metadata> for DurationConfig] *)
Definition DurationConfig_from (m : Metadata) : DurationConfig :=
  mkDuration (md_propose_ratio m) (md_prevote_ratio m) (md_precommit_ratio m) (md_brake_ratio m).

Definition gen_overlord_status (height interval propose_ratio prevote_ratio precommit_ratio
    brake_ratio : Z) (validators : list Validator) : Status :=
  mkStatus height (Some interval)
    (Some (mkDuration propose_ratio prevote_ratio precommit_ratio brake_ratio))
    (node_sort (map (λ v, mkNode (v_pub_key v) (v_propose_weight v) (v_vote_weight v)) validators)).

(** [rlp::encode_list] of signed transactions *)
Definition encode_signed_txs (stxs : list SignedTransaction) : ProtocolResult bytes :=
  items ← map_err PE_Codec (traverse SignedTransaction_rlp_append stxs);
  Ok (rlp_out (rlp_list items)).

Definition digest_signed_transactions (stxs : list SignedTransaction) : ProtocolResult Hash :=
  b ← encode_signed_txs stxs; Ok (digest b).

Definition logs_bloom (logs : list Log) : Z := bloom_raw (rlp_out (rlp_list (map (enc c_log) logs))).

Definition Block_new (proposal : Proposal) (exec_resp : ExecResp) : Block :=
  let logs := map (λ r, logs_bloom (tr_logs r)) (er_tx_resp exec_resp) in
  mkBlock
    {| h_prev_hash := p_prev_hash proposal;
       h_proposer := p_proposer proposal;
       h_state_root := er_state_root exec_resp;
       h_transactions_root := p_transactions_root proposal;
       h_signed_txs_hash := p_signed_txs_hash proposal;
       h_receipts_root := er_receipt_root exec_resp;
       h_log_bloom := bloom_raw (rlp_out (rlp_list (map (enc c_bloom) logs)));
       h_difficulty := 1;
       h_timestamp := p_timestamp proposal;
       h_number := p_number proposal;
       h_gas_used := er_gas_used exec_resp;
       h_gas_limit := p_gas_limit proposal;
       h_extra_data := p_extra_data proposal;
       h_mixed_hash := p_mixed_hash proposal;
       h_nonce := 0;
       h_base_fee_per_gas := p_base_fee_per_gas proposal;
       h_proof := p_proof proposal;
       h_last_checkpoint_block_hash := p_last_checkpoint_block_hash proposal;
       h_chain_id := p_chain_id proposal |}
    (p_tx_hashes proposal).

(** [generate_receipts_and_logs]: [zip] stops at the shorter list, the index is
    cast to [u32]. *)
Definition receipt_of (block_number : Z) (block_hash state_root : Hash) (idx : nat)
    (tx : SignedTransaction) (res : TxResp) : Receipt := {|
  rc_tx_hash := stx_hash tx;
  rc_block_number := block_number;
  rc_block_hash := block_hash;
  rc_tx_index := Z.of_nat idx mod 2 ^ 32;
  rc_state_root := state_root;
  rc_used_gas := tr_gas_used res;
  rc_logs_bloom := logs_bloom (tr_logs res);
  rc_logs := tr_logs res;
  rc_code_address := tr_code_address res;
  rc_sender := stx_sender tx;
  rc_ret := tr_exit_reason res |}.

Definition generate_receipts_and_logs (block_number : Z) (block_hash state_root : Hash)
    (txs : list SignedTransaction) (resp : ExecResp) : list Receipt * list (list Log) :=
  let receipts := imap (λ idx '(tx, res), receipt_of block_number block_hash state_root idx tx res)
                    (zip txs (er_tx_resp resp)) in
  (receipts, map rc_logs receipts).
End functions.

(** ** [OverlordCrypto] *)
Section crypto.
Context `{K : Keccak} `{!Bls} `{!FasterHex}.

Record OverlordCrypto := mkCrypto {
  oc_private_key : BlsPrivateKey;
  oc_addr_pubkey : gmap bytes BlsPublicKey;
  oc_common_ref : string
}.

Definition crypto_err (code : Z) : ProtocolError := PE_Consensus CryptoErr.
Definition other_err (msg : string) : ProtocolError := PE_Consensus (CE_Other msg).

(** [HashValue::try_from], of 32 bytes *)
Definition hash_value (hash : bytes) : ProtocolResult bytes :=
  if decide (length hash = 32%nat) then Ok hash else Err (other_err "failed to convert hash value").

Definition lookup_pub_key (c : OverlordCrypto) (addr : bytes) : ProtocolResult BlsPublicKey :=
  ok_or (oc_addr_pubkey c !! addr) (other_err "lose public key").

Definition crypto_hash (msg : bytes) : bytes := to_be_bytes 32 (digest msg).

Definition crypto_sign (c : OverlordCrypto) (hash : bytes) : ProtocolResult bytes :=
  hash ← hash_value hash;
  Ok (bls_sig_to_bytes (bls_sign (oc_private_key c) hash)).

Definition crypto_verify_signature (c : OverlordCrypto) (signature hash voter : bytes)
    : ProtocolResult unit :=
  hash ← hash_value hash;
  pub_key ← lookup_pub_key c voter;
  signature ← map_err crypto_err (bls_sig_from signature);
  map_err crypto_err (bls_verify signature hash pub_key (oc_common_ref c)).

Definition aggregate_signatures (c : OverlordCrypto) (signatures voters : list bytes)
    : ProtocolResult bytes :=
  if negb (Nat.eqb (length signatures) (length voters))
  then Err (other_err "signatures length does not match voters length") else
  sigs_pubkeys ← traverse (λ sv : bytes * bytes,
      signature ← map_err crypto_err (bls_sig_from sv.1);
      pub_key ← lookup_pub_key c sv.2;
      Ok (signature, pub_key)) (zip signatures voters);
  sig ← map_err crypto_err (bls_combine sigs_pubkeys);
  Ok (bls_sig_to_bytes sig).

Definition inner_verify_aggregated_signature (c : OverlordCrypto) (hash : bytes)
    (pub_keys : list BlsPublicKey) (signature : bytes) : ProtocolResult unit :=
  aggregate_key ← map_err crypto_err (bls_aggregate pub_keys);
  aggregated_signature ← map_err crypto_err (bls_sig_from signature);
  hash ← hash_value hash;
  map_err crypto_err (bls_verify aggregated_signature hash aggregate_key (oc_common_ref c)).

Definition verify_aggregated_signature (c : OverlordCrypto) (aggregated_signature hash : bytes)
    (voters : list bytes) : ProtocolResult unit :=
  pub_keys ← traverse (lookup_pub_key c) voters;
  inner_verify_aggregated_signature c hash pub_keys aggregated_signature.

Definition crypto_update (c : OverlordCrypto) (new_addr_pubkey : gmap bytes BlsPublicKey)
    : OverlordCrypto := mkCrypto (oc_private_key c) new_addr_pubkey (oc_common_ref c).

Definition convert_hex_to_bls_pubkeys (hex : Hex) : ProtocolResult BlsPublicKey :=
  hex_pubkey ← Hex_as_bytes hex;
  map_err crypto_err (bls_pub_key_from hex_pubkey).

(** [generate_new_crypto_map], the later of two equal addresses winning *)
Definition generate_new_crypto_map (metadata : Metadata) : ProtocolResult (gmap bytes BlsPublicKey) :=
  pairs ← traverse (λ v,
      addr ← Hex_as_bytes (ve_pub_key v);
      hex_pubkey ← Hex_as_bytes (ve_bls_pub_key v);
      pubkey ← map_err (λ _, other_err "try from bls pubkey error") (bls_pub_key_from hex_pubkey);
      Ok (addr, pubkey)) (md_verifier_list metadata);
  Ok (fold_left (λ m kv, <[kv.1 := kv.2]> m) pairs ∅).
End crypto.
