(* ===== verification/Wal.v ===== *)
(** * Write-ahead logs

    [core/consensus/src/wal.rs].  [SignedTxsWAL] keeps the transactions of the
    blocks under way, one directory a height and one file an order root;
    [ConsensusWal] keeps the engine's own record, one file a write, named by its
    time.  Directories are maps; reads and writes of existing files succeed.  The
    theorems say what the engine's log gives back after a write, and what it does
    on a file a crash cut short. *)

From stdpp Require Import sorting.
From S2P Require Import Prelude Types Codec Traits.
From S2P Require Import Executor Metadata Overlord.
From S2P Require Import RlpInstance.

Local Open Scope Z_scope.

(** [H256::to_string] with the extension, the name of a file *)
Class WalName := { wal_name : Hash → string }.

Section signed_txs.
Context `{R : Rlp} `{K : Keccak} `{!WalName}.

Record SignedTxsWAL := mkTxsWal { wal_dirs : gmap Z (gmap string bytes) }.

Definition wal_err : ProtocolError := PE_Consensus WALErr.

(** [BatchSignedTxs::decode_msg]: [as_list] goes over the items. *)
Definition decode_signed_txs (b : bytes) : ProtocolResult (list SignedTransaction) :=
  let r := rlp_new b in
  match rlp_item_count r with
  | Ok n => map_err PE_Codec
              (traverse (λ i, x ← rlp_at r i; SignedTransaction_decode x) (seq 0 n))
  | _ => Ok []
  end.

(** The file is opened without truncation, so what it held beyond the new data
    stays. *)
Definition overwrite (old data : bytes) : bytes := data ++ drop (length data) old.

Definition wal_set (w : SignedTxsWAL) (number : Z) (name : string) (b : bytes) : SignedTxsWAL :=
  mkTxsWal (<[number := <[name := b]> (default ∅ (wal_dirs w !! number))]> (wal_dirs w)).

Definition wal_file (w : SignedTxsWAL) (number : Z) (name : string) : option bytes :=
  dir ← wal_dirs w !! number; dir !! name.

(** [save] *)
Definition wal_save (number : Z) (order_root : Hash) (txs : list SignedTransaction)
    : M SignedTxsWAL ProtocolError unit :=
  let name := wal_name order_root in
  w ← gets id;
  let old := default [] (wal_file w number name) in
  modify (λ w, wal_set w number name old);;
  data ← lift (encode_signed_txs txs);
  modify (λ w, wal_set w number name (overwrite old data)).

Definition recover_stxs (file : option bytes) : ProtocolResult (list SignedTransaction) :=
  read_buf ← ok_or file wal_err;
  decode_signed_txs read_buf.

(** [load] *)
Definition wal_load (w : SignedTxsWAL) (number : Z) (order_root : Hash)
    : ProtocolResult (list SignedTransaction) :=
  recover_stxs (wal_file w number (wal_name order_root)).

Definition load_by_number (w : SignedTxsWAL) (number : Z) : list SignedTransaction :=
  concat (map (λ kv : string * bytes,
                 match recover_stxs (Some kv.2) with Ok stxs => stxs | _ => [] end)
            (map_to_list (default ∅ (wal_dirs w !! number)))).

Definition available_number (w : SignedTxsWAL) : list Z := fst <$> map_to_list (wal_dirs w).

(** [remove]: every height up to the committed one *)
Definition wal_remove (committed_number : Z) (w : SignedTxsWAL) : SignedTxsWAL :=
  mkTxsWal (filter (λ kv, committed_number < kv.1) (wal_dirs w)).

Definition wal_remove_all (w : SignedTxsWAL) : SignedTxsWAL :=
  fold_left (λ w number, wal_remove number w) (available_number w) w.
End signed_txs.

(** ** [ConsensusWal] *)
Section consensus_wal.
Context `{K : Keccak}.

(** The files of the directory by the time in their name; [None] when it does
    not exist. *)
Record ConsensusWal := mkConsensusWal { wal_files : option (gmap Z bytes) }.

(** The clock is read until its value names no file. *)
Fixpoint fresh_timestamp (files : gmap Z bytes) (clock : list Z) : option Z :=
  match clock with
  | [] => None
  | t :: clock' => if decide (is_Some (files !! t)) then fresh_timestamp files clock' else Some t
  end.

(** [update_overlord_wal]: the checked record is written, then the older files
    are removed.  [None] while no fresh time was read. *)
Definition update_overlord_wal (clock : list Z) (info : bytes) (w : ConsensusWal)
    : option ConsensusWal :=
  let files := default ∅ (wal_files w) in
  timestamp ← fresh_timestamp files clock;
  let content := to_be_bytes 32 (digest info) ++ info in
  Some (mkConsensusWal
    (Some (filter (λ kv, timestamp ≤ kv.1) (<[timestamp := content]> files)))).

(** The loop of [load_overlord_wal] over the names, latest first: a file
    shorter than a checksum is tried again, a wrong checksum passes to the next
    file.  [None] is a loop that has not ended after [fuel] turns. *)
Fixpoint load_loop (fuel : nat) (files : gmap Z bytes) (names : list Z) (index : nat)
    : option (ProtocolResult (option bytes)) :=
  match fuel with
  | O => None
  | S fuel =>
      match names !! index with
      | None => Some (Ok None)
      | Some name =>
          match files !! name with
          | None => Some (Err (PE_Consensus WALErr))
          | Some info =>
              if Nat.ltb (length info) 32 then load_loop fuel files names index
              else
                let content := drop 32 info in
                if decide (take 32 info = to_be_bytes 32 (digest content))
                then Some (Ok (Some content))
                else load_loop fuel files names (S index)
          end
      end
  end.

(** [sort_by_key] on [Reverse] *)
Definition later (a b : Z) : Prop := b ≤ a.
#[global] Instance later_dec : RelDecision later.
Proof. intros a b. unfold later. apply _. Defined.

Definition latest_first (files : gmap Z bytes) : list Z :=
  merge_sort later (fst <$> map_to_list files).

Definition load_overlord_wal (fuel : nat) (w : ConsensusWal) : option (ProtocolResult bytes) :=
  match wal_files w with
  | None => Some (Err (PE_Consensus ConsensusWalDirNotExist))
  | Some files =>
      content ← load_loop fuel files (latest_first files) 0;
      Some (content ← content; ok_or content (PE_Consensus ConsensusWalNoWalFile))
  end.

(** [clear] *)
Definition consensus_wal_clear (w : ConsensusWal) : ConsensusWal :=
  mkConsensusWal (match wal_files w with Some _ => Some ∅ | None => None end).
End consensus_wal.

#[global] Instance later_trans : Transitive later.
Proof. intros a b c. unfold later. lia. Qed.
#[global] Instance later_total : Total later.
Proof. intros a b. unfold later. lia. Qed.

(** The names are the files', the latest in front. *)
Lemma latest_first_elem files t : t ∈ latest_first files ↔ is_Some (files !! t).
Proof.
  unfold latest_first. rewrite merge_sort_Permutation, list_elem_of_fmap. split.
  - intros ([k b] & -> & Hk%elem_of_map_to_list). by exists b.
  - intros [b Hb]. exists (t, b). split; [done|]. by apply elem_of_map_to_list.
Qed.

Lemma latest_first_head (files : gmap Z bytes) t :
  is_Some (files !! t) → (∀ t', is_Some (files !! t') → t' ≤ t) →
  ∃ rest, latest_first files = t :: rest.
Proof.
  intros Ht Hmax. pose proof (StronglySorted_merge_sort later (fst <$> map_to_list files)) as Hs.
  fold (latest_first files) in Hs. apply latest_first_elem in Ht.
  destruct (latest_first files) as [|x rest] eqn:Hl; [by apply elem_of_nil in Ht|].
  assert (x ≤ t) as Hx by (apply Hmax, latest_first_elem; rewrite Hl; left).
  apply elem_of_cons in Ht as [->|Hin]; [by exists rest|].
  apply StronglySorted_inv in Hs as [_ Hf]. rewrite Forall_forall in Hf.
  specialize (Hf t Hin). unfold later in Hf. exists rest. f_equal. lia.
Qed.

Section load.
Context `{K : Keccak}.

Lemma checked_record (info : bytes) :
  let content := to_be_bytes 32 (digest info) ++ info in
  length content = (32 + length info)%nat ∧ drop 32 content = info ∧
  take 32 content = to_be_bytes 32 (digest info).
Proof.
  cbn zeta. pose proof (length_to_be_bytes 32 (digest info)) as Hl.
  rewrite length_app, Hl. split_and!; [done|by rewrite drop_app_length'|by rewrite take_app_length'].
Qed.

Lemma fresh_timestamp_spec files clock t :
  fresh_timestamp files clock = Some t → files !! t = None ∧ t ∈ clock.
Proof.
  induction clock as [|t' clock IH]; [done|]. cbn. case_decide as Hd.
  - intros [? ?]%IH. split; [done|by right].
  - intros [= <-]. split; [|left]. destruct (files !! t'); [|done]. exfalso; eauto.
Qed.

(** A file shorter than a checksum holds the loop. *)
Lemma load_loop_short fuel files names index t info :
  names !! index = Some t → files !! t = Some info → (length info < 32)%nat →
  load_loop fuel files names index = None.
Proof.
  intros Hn Hf Hs. induction fuel as [|fuel IH]; [done|]. cbn [load_loop].
  rewrite Hn, Hf. rewrite (proj2 (Nat.ltb_lt _ _)) by done. exact IH.
Qed.

(** With files of at least a checksum, one turn a file is enough. *)
Lemma load_loop_ends files names index :
  (∀ t, t ∈ names → ∃ info, files !! t = Some info ∧ (32 ≤ length info)%nat) →
  ∃ r, load_loop (S (length names - index)) files names index = Some (Ok r).
Proof.
  intros Hall. remember (length names - index)%nat as n eqn:Hn. revert index Hn.
  induction n as [|n IH]; intros index Hn; cbn [load_loop];
    destruct (names !! index) as [t|] eqn:Ht; [| by eexists | |by eexists].
  - apply lookup_lt_Some in Ht. lia.
  - destruct (Hall t) as (info & Hi & Hlen); [by eapply list_elem_of_lookup_2|].
    rewrite Hi. rewrite (proj2 (Nat.ltb_ge _ _)) by done.
    case_decide; [by eexists|]. apply IH. lia.
Qed.
End load.

(** ** Properties *)
(** C31: what [update_overlord_wal] wrote is what [load_overlord_wal] returns, as
    long as the clock has not gone back behind a file; the older files are
    gone. *)
Theorem overlord_wal_roundtrip `{K : Keccak} (w w' : ConsensusWal) clock info t fuel :
  let files := default ∅ (wal_files w) in
  fresh_timestamp files clock = Some t → (∀ t', is_Some (files !! t') → t' < t) →
  update_overlord_wal clock info w = Some w' → (0 < fuel)%nat →
  load_overlord_wal fuel w' = Some (Ok info) ∧ wal_files w' = Some {[ t := to_be_bytes 32 (digest info) ++ info ]}.
Proof.
  intros files Hfresh Hmax. unfold update_overlord_wal. fold files. rewrite Hfresh. cbn [mbind option_bind].
  intros [= <-] Hfuel. destruct (checked_record info) as (Hlen & Hdrop & Htake).
  set (content := to_be_bytes 32 (digest info) ++ info) in *.
  match goal with |- context [filter ?P ?m] => assert (filter P m = {[t := content]}) as -> end.
  { apply map_eq. intros k. apply option_eq. intros b.
    rewrite map_lookup_filter_Some, lookup_insert_Some, lookup_singleton_Some. cbn. split.
    - intros [[[<- <-]|[Hne Hk]] Hle]; [done|]. assert (k < t) by (apply Hmax; eauto). lia.
    - intros [<- <-]. split; [by left|lia]. }
  split; [|done]. unfold load_overlord_wal. cbn [wal_files].
  destruct (latest_first_head {[t := content]} t) as [rest Hl].
  { rewrite lookup_singleton_eq. by eexists. }
  { intros t' [b [<- _]%lookup_singleton_Some]. lia. }
  rewrite Hl. destruct fuel as [|fuel]; [lia|]. cbn [load_loop lookup list_lookup].
  rewrite lookup_singleton_eq, (proj2 (Nat.ltb_ge _ _)) by (rewrite Hlen; lia).
  rewrite Hdrop, decide_True by done. done.
Qed.

Lemma overlord_wal_roundtrip_witness :
  let w := mkConsensusWal (Some {[ 5 := [x01] ]}) in
  ∃ w', update_overlord_wal [5; 7] [xaa; xbb] w = Some w' ∧
        load_overlord_wal 1 w' = Some (Ok [xaa; xbb]).
Proof.
  intros w. eexists. split; [reflexivity|].
  apply (overlord_wal_roundtrip w _ [5; 7] [xaa; xbb] 7 1).
  - reflexivity.
  - intros t' [b Hb]. cbn in Hb. apply lookup_singleton_Some in Hb as [<- _]. reflexivity.
  - reflexivity.
  - lia.
Defined.

(** C32: [load_overlord_wal] ends, within a turn for each file and one more, when
    every file holds at least a checksum; but when the latest file is shorter,
    as a crash between its creation and its write leaves it, the loop retries
    it forever. *)
Theorem overlord_wal_termination `{K : Keccak} (files : gmap Z bytes) :
  ((∀ t info, files !! t = Some info → (32 ≤ length info)%nat) →
     ∃ r, load_overlord_wal (S (length (latest_first files))) (mkConsensusWal (Some files)) = Some r) ∧
  (∀ t info, files !! t = Some info → (length info < 32)%nat →
     (∀ t', is_Some (files !! t') → t' ≤ t) →
     ∀ fuel, load_overlord_wal fuel (mkConsensusWal (Some files)) = None).
Proof.
  unfold load_overlord_wal. cbn [wal_files]. split.
  - intros Hall. destruct (load_loop_ends files (latest_first files) 0) as [r Hr].
    { intros t [info Hi]%latest_first_elem. eauto. }
    rewrite Nat.sub_0_r in Hr. rewrite Hr. by eexists.
  - intros t info Hi Hs Hmax fuel.
    destruct (latest_first_head files t) as [rest Hl]; [by eexists|done|].
    by rewrite (load_loop_short fuel files _ 0 t info) by (rewrite ?Hl; done).
Qed.

Lemma overlord_wal_termination_witness :
  load_overlord_wal 1000 (mkConsensusWal (Some {[ 9 := [x01; x02] ]})) = None.
Proof.
  refine (proj2 (overlord_wal_termination {[ 9 := [x01; x02] ]}) 9 [x01; x02] _ _ _ 1000%nat).
  - reflexivity.
  - cbn. lia.
  - intros t' [b Hb]. apply lookup_singleton_Some in Hb as [<- _]. reflexivity.
Defined.
