(* ===== verification/Engine.v ===== *)
(** * The consensus engine

    The adapter traits of [protocol/src/traits/consensus.rs] as classes and
    [core/consensus/src/engine.rs]: [ConsensusEngine], the callbacks the
    [overlord] state machine makes (propose, check, commit) and the status
    update behind a commit.  The time a callback reads is its argument; the
    engine's [lock] is taken or free; metrics and logs are left out. *)

From S2P Require Import Prelude Types Codec Traits.
From S2P Require Import Executor Storage Metadata Overlord Wal.

Local Open Scope Z_scope.

(** ** Traits *)
Class CommonConsensusAdapter (A : Type) := {
  ca_save_block : Context → Block → M A ProtocolError unit;
  ca_save_proof : Context → Proof → M A ProtocolError unit;
  ca_save_signed_txs : Context → Z → list SignedTransaction → M A ProtocolError unit;
  ca_save_receipts : Context → Z → list Receipt → M A ProtocolError unit;
  ca_flush_mempool : Context → list Hash → M A ProtocolError unit;
  ca_get_block_by_number : Context → Z → M A ProtocolError Block;
  ca_get_block_header_by_number : Context → Z → M A ProtocolError Header;
  ca_get_current_number : Context → M A ProtocolError Z;
  ca_get_txs_from_storage : Context → list Hash → M A ProtocolError (list SignedTransaction);
  ca_exec : Context → Hash → Proposal → list SignedTransaction → M A ProtocolError ExecResp;
  ca_need_change_metadata : Z → M A ProtocolError bool;
  ca_get_metadata_unchecked : Context → Z → M A ProtocolError Metadata;
  ca_get_metadata : Context → Header → M A ProtocolError Metadata;
  ca_update_metadata : Context → Header → M A ProtocolError unit;
  ca_broadcast_number : Context → Z → M A ProtocolError unit;
  ca_set_args : Context → MerkleRoot → Z → Z → M A ProtocolError unit;
  ca_tag_consensus : Context → list bytes → M A ProtocolError unit;
  ca_verify_proof : Context → Block → Proof → M A ProtocolError unit;
  ca_verify_block_header : Context → Proposal → M A ProtocolError unit;
  ca_notify_block_logs : Context → Z → Hash → list (list Log) → M A ProtocolError unit;
  ca_notify_checkpoint : Context → Block → Proof → M A ProtocolError unit;
  (** [CURRENT_STATE_ROOT.swap], a static the adapter's mempool reads *)
  ca_swap_state_root : MerkleRoot → M A ProtocolError unit
}.

Class ConsensusAdapter (A : Type) := {
  ca_common :: CommonConsensusAdapter A;
  ca_get_txs_from_mempool : Context → Z → U256 → Z → M A ProtocolError (list Hash);
  ca_get_full_txs : Context → list Hash → M A ProtocolError (list SignedTransaction);
  ca_transmit : Context → bytes → string → MessageTarget → M A ProtocolError unit;
  ca_pull_block : Context → Z → string → M A ProtocolError Block;
  ca_verify_txs : Context → Z → list Hash → M A ProtocolError unit
}.

Section engine.
Context `{R : Rlp} `{K : Keccak} `{!StaticMerkleTree} `{!Overlord} `{!EthBloom} `{!Bls}
  `{!FasterHex} `{!WalName} {A : Type} `{!ConsensusAdapter A}.

Record ConsensusEngine := mkEngine {
  ce_status : CurrentStatus;
  ce_node_info : NodeInfo;
  ce_metadata_address : H160;
  exemption_hash : gset Hash;
  ce_adapter : A;
  ce_txs_wal : SignedTxsWAL;
  ce_crypto : OverlordCrypto;
  (** the mutex is held, by the synchronization *)
  ce_locked : bool;
  cross_period_interval : Z;
  last_check_block_fail_reason : option ProtocolError
}.
Local Abbreviation EM := (M ConsensusEngine ProtocolError).

Definition set_ce_status (x : CurrentStatus) (e : ConsensusEngine) : ConsensusEngine :=
  mkEngine x (ce_node_info e) (ce_metadata_address e) (exemption_hash e) (ce_adapter e)
    (ce_txs_wal e) (ce_crypto e) (ce_locked e) (cross_period_interval e)
    (last_check_block_fail_reason e).
Definition set_exemption (x : gset Hash) (e : ConsensusEngine) : ConsensusEngine :=
  mkEngine (ce_status e) (ce_node_info e) (ce_metadata_address e) x (ce_adapter e)
    (ce_txs_wal e) (ce_crypto e) (ce_locked e) (cross_period_interval e)
    (last_check_block_fail_reason e).
Definition set_ce_adapter (x : A) (e : ConsensusEngine) : ConsensusEngine :=
  mkEngine (ce_status e) (ce_node_info e) (ce_metadata_address e) (exemption_hash e) x
    (ce_txs_wal e) (ce_crypto e) (ce_locked e) (cross_period_interval e)
    (last_check_block_fail_reason e).
Definition set_ce_txs_wal (x : SignedTxsWAL) (e : ConsensusEngine) : ConsensusEngine :=
  mkEngine (ce_status e) (ce_node_info e) (ce_metadata_address e) (exemption_hash e)
    (ce_adapter e) x (ce_crypto e) (ce_locked e) (cross_period_interval e)
    (last_check_block_fail_reason e).
Definition set_ce_crypto (x : OverlordCrypto) (e : ConsensusEngine) : ConsensusEngine :=
  mkEngine (ce_status e) (ce_node_info e) (ce_metadata_address e) (exemption_hash e)
    (ce_adapter e) (ce_txs_wal e) x (ce_locked e) (cross_period_interval e)
    (last_check_block_fail_reason e).
Definition set_fail_reason (x : option ProtocolError) (e : ConsensusEngine) : ConsensusEngine :=
  mkEngine (ce_status e) (ce_node_info e) (ce_metadata_address e) (exemption_hash e)
    (ce_adapter e) (ce_txs_wal e) (ce_crypto e) (ce_locked e) (cross_period_interval e) x.

(** [self.adapter], [self.txs_wal] *)
Definition ask {X} (m : M A ProtocolError X) : EM X := zoom ce_adapter set_ce_adapter m.
Definition on_wal {X} (m : M SignedTxsWAL ProtocolError X) : EM X :=
  zoom ce_txs_wal set_ce_txs_wal m.

(** [ConsensusEngine::new] *)
Definition ConsensusEngine_new (status : CurrentStatus) (metadata_address : H160)
    (node_info : NodeInfo) (wal : SignedTxsWAL) (adapter : A) (crypto : OverlordCrypto)
    (interval : Z) : ConsensusEngine :=
  mkEngine status node_info metadata_address ∅ adapter wal crypto false interval None.

(** The number of a proposal follows that of its proof.  The error names
    [proposal.number - 1]. *)
Definition check_proof_number (proposal : Proposal) : ProtocolResult unit :=
  next ← u64_add (pf_number (p_proof proposal)) 1;
  if negb (p_number proposal =? next)
  then
    expect ← u64_sub (p_number proposal) 1;
    Err (PE_Consensus (InvalidProof expect (pf_number (p_proof proposal))))
  else Ok tt.

(** ** [get_block]: make a proposal *)
Definition get_proposal (ctx : Context) (now next_number : Z) : EM (Proposal * bytes) :=
  e ← gets id;
  let status := ce_status e in
  txs ← ask (ca_get_txs_from_mempool ctx next_number (cs_gas_limit status) (cs_tx_num_limit status));
  signed_txs ← ask (ca_get_full_txs ctx txs);
  signed_txs_hash ← lift (digest_signed_transactions signed_txs);
  let proposal := {|
    p_prev_hash := cs_prev_hash status;
    p_proposer := ni_self_address (ce_node_info e);
    p_transactions_root := default 0 (merkle_root txs);
    p_signed_txs_hash := signed_txs_hash;
    p_timestamp := now;
    p_number := next_number;
    p_gas_limit := 100000000000;
    p_extra_data := [];
    p_mixed_hash := None;
    p_base_fee_per_gas := cs_base_fee_per_gas status;
    p_proof := cs_proof status;
    p_last_checkpoint_block_hash := cs_last_checkpoint_block_hash status;
    p_chain_id := ni_chain_id (ce_node_info e);
    p_tx_hashes := txs |} in
  lift (check_proof_number proposal);;
  let hash := digest (encode Proposal_codec proposal) in
  modify (λ e, set_exemption ({[hash]} ∪ exemption_hash e) e);;
  mret (proposal, to_be_bytes 32 hash).

(** ** [check_block] *)
Definition check_order_transactions (proposal : Proposal) (signed_txs : list SignedTransaction)
    : ProtocolResult unit :=
  let order_root := default 0 (merkle_root (p_tx_hashes proposal)) in
  stxs_hash ← digest_signed_transactions signed_txs;
  if negb (stxs_hash =? p_signed_txs_hash proposal)
  then Err (PE_Consensus
              (InvalidOrderSignedTransactionsHash stxs_hash (p_signed_txs_hash proposal)))
  else if negb (order_root =? p_transactions_root proposal)
  then Err (PE_Consensus (InvalidOrderRoot order_root (p_transactions_root proposal)))
  else Ok tt.

Definition inner_check_block (ctx : Context) (now : Z) (proposal : Proposal)
    : M A ProtocolError unit :=
  ca_verify_block_header ctx proposal;;
  prev_number ← lift (u64_sub (p_number proposal) 1);
  previous_block ← ca_get_block_by_number ctx prev_number;
  if negb (validate_timestamp now (p_timestamp proposal) (h_timestamp (b_header previous_block)))
  then throw (PE_Consensus InvalidTimestamp) else
  ca_verify_proof ctx previous_block (p_proof proposal);;
  ca_verify_txs ctx (p_number proposal) (p_tx_hashes proposal);;
  signed_txs ← ca_get_full_txs ctx (p_tx_hashes proposal);
  lift (check_order_transactions proposal signed_txs).

Definition check_block (ctx : Context) (now next_number : Z) (hash : bytes) (proposal : Proposal)
    : EM unit :=
  lift (check_proof_number proposal);;
  h ← lift (h256_from_slice hash);
  e ← gets id;
  (if decide (h ∈ exemption_hash e) then mret tt
   else
     r ← try (ask (inner_check_block ctx now proposal));
     match r with
     | Err err => modify (set_fail_reason (Some err));; throw err
     | _ => mret tt
     end);;
  txs ← ask (ca_get_full_txs ctx (p_tx_hashes proposal));
  on_wal (wal_save next_number (p_transactions_root proposal) txs).

(** ** [update_status] *)
Definition contains_change_metadata (metadata_address : H160) (txs : list SignedTransaction) : bool :=
  existsb (λ tx, bool_decide (stx_action tx = Call metadata_address)) txs.

Definition update_overlord_crypto (metadata : Metadata) : EM unit :=
  m ← lift (generate_new_crypto_map metadata);
  modify (λ e, set_ce_crypto (crypto_update (ce_crypto e) m) e).

(** The chain data and the notifications of a block. *)
Definition save_executed (ctx : Context) (resp : ExecResp) (block : Block) (proof : Proof)
    (txs : list SignedTransaction) : EM unit :=
  e ← gets id;
  let block_number := h_number (b_header block) in
  let block_hash := header_hash block in
  let '(receipts, logs) := generate_receipts_and_logs block_number block_hash
                             (h_state_root (b_header block)) txs resp in
  ask (ca_notify_block_logs ctx block_number block_hash logs);;
  (if cross_period_interval e =? 0 then lift Panic
   else if block_number mod cross_period_interval e =? 0
   then ask (ca_notify_checkpoint ctx block proof) else mret tt);;
  ask (ca_save_signed_txs ctx block_number txs);;
  ask (ca_save_receipts ctx block_number receipts);;
  ask (ca_save_block ctx block).

(** The metadata and the validators' keys for the next block. *)
Definition refresh_metadata (ctx : Context) (header : Header) (next_block_number : Z)
    (is_change_metadata : bool) : EM unit :=
  (if is_change_metadata then ask (ca_update_metadata ctx header) else mret tt);;
  change ← ask (ca_need_change_metadata next_block_number);
  if change : bool then
    metadata ← ask (ca_get_metadata_unchecked ctx next_block_number);
    pub_keys ← lift (traverse (λ v, Hex_as_bytes (ve_pub_key v)) (md_verifier_list metadata));
    ask (ca_tag_consensus ctx pub_keys);;
    update_overlord_crypto metadata
  else mret tt.

Definition update_status (ctx : Context) (resp : ExecResp) (proposal : Proposal) (proof : Proof)
    (txs : list SignedTransaction) : EM unit :=
  e ← gets id;
  let block := Block_new proposal resp in
  let block_hash := header_hash block in
  let is_change_metadata := contains_change_metadata (ce_metadata_address e) txs in
  next_block_number ← lift (u64_add (h_number (b_header block)) 1);
  save_executed ctx resp block proof txs;;
  refresh_metadata ctx (b_header block) next_block_number is_change_metadata;;
  last_status ← gets ce_status;
  let new_status := {|
    cs_prev_hash := block_hash;
    cs_last_number := h_number (b_header block);
    cs_last_state_root := er_state_root resp;
    cs_tx_num_limit := cs_tx_num_limit last_status;
    cs_gas_limit := cs_gas_limit last_status;
    cs_max_tx_size := cs_max_tx_size last_status;
    cs_base_fee_per_gas := h_base_fee_per_gas (b_header block);
    cs_proof := proof;
    cs_last_checkpoint_block_hash := cs_last_checkpoint_block_hash last_status |} in
  ask (ca_swap_state_root (er_state_root resp));;
  modify (set_ce_status new_status);;
  gas_limit ← lift (as_u64 (cs_gas_limit last_status));
  max_tx_size ← lift (as_u64 (cs_max_tx_size last_status));
  ask (ca_set_args ctx (er_state_root resp) gas_limit max_tx_size).

(** ** [commit] *)
Definition next_status (number : Z) (metadata : Metadata) : ProtocolResult Status :=
  authority_list ← convert_to_overlord_authority (md_verifier_list metadata);
  Ok (mkStatus number (Some (md_interval metadata)) (Some (DurationConfig_from metadata))
        authority_list).

Definition commit_proof (p : OverlordProof) : ProtocolResult Proof :=
  block_hash ← h256_from_slice (op_block_hash p);
  Ok (mkProof (op_height p) (op_round p) block_hash (op_signature p) (op_address_bitmap p)).

(** The transactions of the proposal, from the log when the mempool lacks
    them. *)
Definition committed_txs (ctx : Context) (current_number : Z) (proposal : Proposal)
    : EM (list SignedTransaction) :=
  r ← try (ask (ca_get_full_txs ctx (p_tx_hashes proposal)));
  match r with
  | Ok txs => mret txs
  | _ => e ← gets id;
         lift (wal_load (ce_txs_wal e) current_number (p_transactions_root proposal))
  end.

(** The commit up to the execution of its block. *)
Definition execute_commit (ctx : Context) (current_number : Z) (c : Commit)
    : EM (Proof * list SignedTransaction * ExecResp) :=
  let proposal := cm_content c in
  proof ← lift (commit_proof (cm_proof c));
  ask (ca_save_proof ctx proof);;
  signed_txs ← committed_txs ctx current_number proposal;
  status ← gets ce_status;
  resp ← ask (ca_exec ctx (cs_last_state_root status) proposal signed_txs);
  mret (proof, signed_txs, resp).

Definition commit_new (ctx : Context) (current_number : Z) (c : Commit) : EM Status :=
  let proposal := cm_content c in
  '(proof, signed_txs, resp) ← execute_commit ctx current_number c;
  update_status ctx resp proposal proof signed_txs;;
  ask (ca_flush_mempool ctx (p_tx_hashes proposal));;
  on_wal (modify (wal_remove (saturating_sub current_number 2)));;
  modify (set_exemption ∅);;
  next_block_number ← lift (u64_add current_number 1);
  metadata ← ask (ca_get_metadata_unchecked ctx next_block_number);
  st ← lift (next_status next_block_number metadata);
  ask (ca_broadcast_number ctx current_number);;
  mret st.

Definition commit (ctx : Context) (current_number : Z) (c : Commit) : EM Status :=
  e ← gets id;
  if ce_locked e then throw (PE_Consensus LockInSync) else
  next_number ← lift (u64_add current_number 1);
  metadata ← ask (ca_get_metadata_unchecked ctx next_number);
  if current_number =? cs_last_number (ce_status e)
  then lift (next_status next_number metadata)
  else
  expected ← lift (u64_add (cs_last_number (ce_status e)) 1);
  if negb (current_number =? expected)
  then throw (PE_Consensus (OutdatedCommit current_number (cs_last_number (ce_status e))))
  else commit_new ctx current_number c.

(** ** [get_authority_list] *)
Definition get_authority_list (ctx : Context) (next_number : Z) : EM (list Node) :=
  if next_number =? 0 then mret [] else
  current_metadata ← ask (ca_get_metadata_unchecked ctx next_number);
  old_metadata ← (if contains (md_version current_metadata) (next_number - 1)
                  then mret current_metadata
                  else ask (ca_get_metadata_unchecked ctx (next_number - 1)));
  lift (convert_to_overlord_authority (md_verifier_list old_metadata)).
End engine.
Arguments ConsensusEngine {_} A.
