(* ===== verification/ConsensusAdapterImpl.v ===== *)
(** * The consensus adapter

    [core/consensus/src/adapter.rs]: [OverlordConsensusAdapter], which gives the
    engine and the synchronization the mempool, the storage, the executor, the
    metadata and the network.  In the code these are [Arc]s shared with the
    mempool's adapter; here the mempool holds the one storage, trie database and
    metadata, and the adapter reaches them through it.  Network answers are
    parameters; what is sent to [overlord] and to the cross client is
    recorded. *)

From S2P Require Import Prelude Types Codec Traits.
From S2P Require Import Heap Pool Executor MemPool Storage Interoperation DefaultAdapter.
From S2P Require Import Metadata Overlord Wal Engine.

Local Open Scope Z_scope.

(** [Rpc::call] on the sync ends, [Gossip::broadcast]/[multicast] *)
Class ConsensusNet := {
  call_pull_block : Context → Z → string → ProtocolResult Block;
  call_sync_pull_txs : Context → Z → list Hash → ProtocolResult (list SignedTransaction);
  call_sync_pull_proof : Context → Z → ProtocolResult Proof;
  gossip_number : Context → Z → ProtocolResult unit;
  gossip_message : Context → bytes → string → MessageTarget → ProtocolResult unit
}.

Definition RPC_SYNC_PULL_BLOCK : string := "/rpc_call/consensus/sync_pull_block".

(** [SynchronizationAdapter] *)
Class SynchronizationAdapter (A : Type) := {
  sa_common :: CommonConsensusAdapter A;
  sa_update_status : Context → Z → Z → Z → Z → Z → Z → list Validator → M A ProtocolError unit;
  sa_get_block_from_remote : Context → Z → M A ProtocolError Block;
  sa_get_txs_from_remote : Context → Z → list Hash → M A ProtocolError (list SignedTransaction);
  sa_get_proof_from_remote : Context → Z → M A ProtocolError Proof
}.

(** [CrossClient] *)
Inductive CrossEvent : Type :=
| EvmLog (block_number : Z) (block_hash : Hash) (logs : list (list Log))
| Checkpoint (block : Block) (proof : Proof).

(** ** Weight of a proof *)
(** [collect::<HashMap<_, _>>()] of addresses and vote weights *)
Definition weight_map_of (nodes : list Node) : gmap bytes Z :=
  fold_left (λ m n, <[nd_address n := nd_vote_weight n]> m) nodes ∅.

(** [weight_map.iter().map(..).sum()], an addition that panics on overflow *)
Definition total_weight (weight_map : gmap bytes Z) : ProtocolResult Z :=
  map_fold (λ _ w acc, acc ← acc; u64_add acc w) (Ok 0) weight_map.

Fixpoint accumulate (block_number : Z) (weight_map : gmap bytes Z) (signed_voters : list bytes)
    (accumulator : Z) : ProtocolResult Z :=
  match signed_voters with
  | [] => Ok accumulator
  | voter :: voters =>
      match weight_map !! voter with
      | Some weight =>
          accumulator ← u64_add accumulator weight;
          accumulate block_number weight_map voters accumulator
      | None => Err (PE_Consensus (VerifyProof block_number BPF_Validator))
      end
  end.

Definition verify_proof_weight (block_number : Z) (weight_map : gmap bytes Z)
    (signed_voters : list bytes) : ProtocolResult unit :=
  total_validator_weight ← total_weight weight_map;
  accumulator ← accumulate block_number weight_map signed_voters 0;
  lhs ← u64_mul 3 accumulator;
  rhs ← u64_mul 2 total_validator_weight;
  if lhs <=? rhs
  then Err (PE_Consensus (VerifyProof block_number BPF_Weight))
  else Ok tt.

Section adapter.
Context `{R : Rlp} `{K : Keccak} `{!StaticMerkleTree} `{!PatriciaTrie} {St Mt : Type} `{!Storage St}
  `{!MetadataControl Mt} `{!Evm (AxonExecutorAdapter St)} `{!Interoperation} `{!PullRpc}
  `{!Secp256k1Verify} `{!ErrorText} `{!Overlord} `{!Bls} `{!FasterHex} `{!ConsensusNet}.

Record OverlordConsensusAdapter := mkConsensusAdapter {
  oa_mempool : MemPoolImpl (DefaultMemPoolAdapter St Mt);
  oa_crypto : OverlordCrypto;
  (** status messages sent to overlord; [None] before the handler is set *)
  oa_overlord_handler : option (list Status);
  oa_cross_client : list CrossEvent
}.
Local Abbreviation OM := (M OverlordConsensusAdapter ProtocolError).

Definition set_oa_mempool (m : MemPoolImpl (DefaultMemPoolAdapter St Mt))
    (o : OverlordConsensusAdapter) : OverlordConsensusAdapter :=
  mkConsensusAdapter m (oa_crypto o) (oa_overlord_handler o) (oa_cross_client o).
Definition set_oa_handler (h : option (list Status)) (o : OverlordConsensusAdapter)
    : OverlordConsensusAdapter :=
  mkConsensusAdapter (oa_mempool o) (oa_crypto o) h (oa_cross_client o).
Definition set_oa_cross (c : list CrossEvent) (o : OverlordConsensusAdapter)
    : OverlordConsensusAdapter :=
  mkConsensusAdapter (oa_mempool o) (oa_crypto o) (oa_overlord_handler o) c.

Definition on_mempool {X} (m : M (MemPoolImpl (DefaultMemPoolAdapter St Mt)) ProtocolError X) : OM X :=
  zoom oa_mempool set_oa_mempool m.
Definition on_shared {X} (m : M (DefaultMemPoolAdapter St Mt) ProtocolError X) : OM X :=
  on_mempool (on_adapter m).
Definition in_storage {X} (m : M St ProtocolError X) : OM X := on_shared (on_storage m).
Definition in_metadata {X} (m : M Mt ProtocolError X) : OM X := on_shared (on_metadata m).

(** [OverlordConsensusAdapter::new], [set_overlord_handler] *)
Definition OverlordConsensusAdapter_new (mempool : MemPoolImpl (DefaultMemPoolAdapter St Mt))
    (crypto : OverlordCrypto) : OverlordConsensusAdapter :=
  mkConsensusAdapter mempool crypto None [].
Definition set_overlord_handler (o : OverlordConsensusAdapter) : OverlordConsensusAdapter :=
  set_oa_handler (Some []) o.

(** ** [CommonConsensusAdapter] *)
Definition get_block_by_number (ctx : Context) (number : Z) : OM Block :=
  b ← in_storage (st_get_block ctx number);
  lift (ok_or b (PE_Consensus StorageItemNotFound)).

Definition get_block_header_by_number (ctx : Context) (number : Z) : OM Header :=
  h ← in_storage (st_get_block_header ctx number);
  lift (ok_or h (PE_Consensus StorageItemNotFound)).

Definition get_current_number (ctx : Context) : OM Z :=
  header ← in_storage (st_get_latest_block_header ctx); mret (h_number header).

Definition get_txs_from_storage (ctx : Context) (tx_hashes : list Hash)
    : OM (list SignedTransaction) :=
  txs ← in_storage (get_each ctx tx_hashes); mret (omap id txs).

(** [exec]: the backend works on the shared trie database and storage. *)
Definition set_backend (db : trie_db) (s : St) (a : DefaultMemPoolAdapter St Mt)
    : DefaultMemPoolAdapter St Mt :=
  mkDefaultAdapter s (da_metadata a) db (da_state_root a) (da_code_hash_map a) (da_addr_nonce a)
    (da_gas_limit a) (da_max_tx_size a) (da_chain_id a) (da_stx_tx a) (da_err_rx a) (da_reports a).

Definition exec_on_root (last_state_root : Hash) (proposal : Proposal)
    (signed_txs : list SignedTransaction) : M (DefaultMemPoolAdapter St Mt) ProtocolError ExecResp :=
  a ← gets id;
  backend ← lift (ExecutorAdapter_from_root last_state_root (da_trie_db a) (da_storage a)
                    (ExecutorContext_from_Proposal proposal));
  let '(backend, r) := exec signed_txs backend in
  modify (set_backend (ea_db backend) (ea_storage backend));;
  lift r.

Definition verify_block_header (ctx : Context) (proposal : Proposal) : OM unit :=
  prev_number ← lift (u64_sub (p_number proposal) 1);
  previous_block_header ← get_block_header_by_number ctx prev_number;
  if negb (Header_hash previous_block_header =? p_prev_hash proposal)
  then throw (PE_Consensus (VerifyBlockHeader (p_number proposal) PreviousBlockHash))
  else mret tt.

Definition verify_proof_signature (crypto : OverlordCrypto) (block_number : Z) (vote_hash : bytes)
    (aggregated_signature_bytes : bytes) (vote_keys : list Hex) : ProtocolResult unit :=
  pub_keys ← traverse convert_hex_to_bls_pubkeys vote_keys;
  map_err (λ _, PE_Consensus (VerifyProof block_number BPF_Signature))
    (inner_verify_aggregated_signature crypto vote_hash pub_keys aggregated_signature_bytes).

(** The BLS keys of the verifiers among the voters. *)
Definition voter_keys (verifier_list : list ValidatorExtend) (signed_voters : list bytes)
    : ProtocolResult (list Hex) :=
  addrs ← traverse (λ v, Hex_as_bytes (ve_pub_key v)) verifier_list;
  Ok (omap (λ '(v, addr), if decide (addr ∈ signed_voters) then Some (ve_bls_pub_key v) else None)
        (zip verifier_list addrs)).

(** The quorum behind a proof of the block with these validators. *)
Definition verify_quorum (crypto : OverlordCrypto) (number : Z) (verifier_list : list ValidatorExtend)
    (proof : Proof) : ProtocolResult unit :=
  authority_list ← traverse node_of verifier_list;
  signed_voters ← map_err (λ _, PE_Consensus (VerifyProof number BitMap))
                    (extract_voters authority_list (pf_bitmap proof));
  _ ← verify_proof_weight number (weight_map_of (node_sort authority_list)) signed_voters;
  hex_pubkeys ← voter_keys verifier_list signed_voters;
  let vote_hash := crypto_hash (precommit_vote (pf_number proof) (pf_round proof)
                                  (to_be_bytes 32 (pf_block_hash proof))) in
  verify_proof_signature crypto number vote_hash (pf_signature proof) hex_pubkeys.

Definition verify_proof (ctx : Context) (block : Block) (proof : Proof) : OM unit :=
  let number := h_number (b_header block) in
  if number =? 0 then mret tt
  else if negb (number =? pf_number proof)
  then throw (PE_Consensus (VerifyProof number (HeightMismatch number (pf_number proof))))
  else
  let proposal_hash := digest (encode Proposal_codec (Proposal_from_Block block)) in
  if negb (proposal_hash =? pf_block_hash proof)
  then throw (PE_Consensus (VerifyProof number HashMismatch))
  else
  metadata ← in_metadata (mc_get_metadata ctx (b_header block));
  if negb (contains (md_version metadata) number)
  then throw (PE_Consensus (ConfusedMetadata (mv_start (md_version metadata))
                              (mv_end (md_version metadata))))
  else
  o ← gets id;
  lift (verify_quorum (oa_crypto o) number (md_verifier_list metadata) proof).

Definition set_state_root (root : MerkleRoot) (a : DefaultMemPoolAdapter St Mt)
    : DefaultMemPoolAdapter St Mt :=
  mkDefaultAdapter (da_storage a) (da_metadata a) (da_trie_db a) root (da_code_hash_map a)
    (da_addr_nonce a) (da_gas_limit a) (da_max_tx_size a) (da_chain_id a) (da_stx_tx a)
    (da_err_rx a) (da_reports a).

Definition record_cross (ev : CrossEvent) : OM unit :=
  modify (λ o, set_oa_cross (oa_cross_client o ++ [ev]) o).

#[global] Instance overlord_common : CommonConsensusAdapter OverlordConsensusAdapter := {|
  ca_save_block := λ ctx block, in_storage (st_insert_block ctx block);
  ca_save_proof := λ ctx proof, in_storage (st_update_latest_proof ctx proof);
  ca_save_signed_txs := λ ctx number txs, in_storage (st_insert_transactions ctx number txs);
  ca_save_receipts := λ ctx number receipts, in_storage (st_insert_receipts ctx number receipts);
  ca_flush_mempool := λ ctx hashes, on_mempool (mempool_flush ctx hashes);
  ca_get_block_by_number := get_block_by_number;
  ca_get_block_header_by_number := get_block_header_by_number;
  ca_get_current_number := get_current_number;
  ca_get_txs_from_storage := get_txs_from_storage;
  ca_exec := λ ctx root proposal txs, on_shared (exec_on_root root proposal txs);
  ca_need_change_metadata := λ number,
    in_metadata (m ← gets id; lift (mc_need_change_metadata m number));
  ca_get_metadata_unchecked := λ ctx number, in_metadata (mc_get_metadata_unchecked ctx number);
  ca_get_metadata := λ ctx header, in_metadata (mc_get_metadata ctx header);
  ca_update_metadata := λ ctx header, in_metadata (mc_update_metadata ctx header);
  ca_broadcast_number := λ ctx number, lift (gossip_number ctx number);
  ca_set_args := λ ctx root gas_limit max_tx_size,
    on_mempool (mempool_set_args ctx root gas_limit max_tx_size);
  ca_tag_consensus := λ ctx pub_keys, mret tt;
  ca_verify_proof := verify_proof;
  ca_verify_block_header := verify_block_header;
  ca_notify_block_logs := λ ctx number hash logs, record_cross (EvmLog number hash logs);
  ca_notify_checkpoint := λ ctx block proof, record_cross (Checkpoint block proof);
  ca_swap_state_root := λ root, on_shared (modify (set_state_root root)) |}.

(** ** [ConsensusAdapter] *)
Definition verify_txs (ctx : Context) (number : Z) (txs : list Hash) : OM unit :=
  r ← try (on_mempool (ensure_order_txs ctx (Some number) txs));
  match r with
  | Err _ => throw (PE_Consensus (VerifyTransaction number))
  | _ => mret tt
  end.

#[global] Instance overlord_adapter : ConsensusAdapter OverlordConsensusAdapter := {|
  ca_common := overlord_common;
  ca_get_txs_from_mempool := λ ctx number gas_limit tx_num_limit,
    on_mempool (mempool_package ctx gas_limit tx_num_limit);
  ca_get_full_txs := λ ctx txs, on_mempool (get_full_txs ctx None txs);
  ca_transmit := λ ctx msg endpoint target, lift (gossip_message ctx msg endpoint target);
  ca_pull_block := λ ctx number endpoint, lift (call_pull_block ctx number endpoint);
  ca_verify_txs := verify_txs |}.

(** ** [SynchronizationAdapter] *)
Definition sync_update_status (ctx : Context) (number consensus_interval propose_ratio prevote_ratio
    precommit_ratio brake_ratio : Z) (validators : list Validator) : OM unit :=
  o ← gets id;
  match oa_overlord_handler o with
  | None => lift Panic
  | Some sent =>
      next ← lift (u64_add number 1);
      modify (set_oa_handler (Some (sent ++ [gen_overlord_status next
        consensus_interval propose_ratio prevote_ratio precommit_ratio brake_ratio validators])))
  end.

#[global] Instance overlord_sync : SynchronizationAdapter OverlordConsensusAdapter := {|
  sa_common := overlord_common;
  sa_update_status := sync_update_status;
  sa_get_block_from_remote := λ ctx number, lift (call_pull_block ctx number RPC_SYNC_PULL_BLOCK);
  sa_get_txs_from_remote := λ ctx number hashes, lift (call_sync_pull_txs ctx number hashes);
  sa_get_proof_from_remote := λ ctx number, lift (call_sync_pull_proof ctx number) |}.
End adapter.
Arguments OverlordConsensusAdapter {_} St Mt {_}.
