(* ===== verification/Sync.v ===== *)
(** * Synchronization

    [core/consensus/src/synchronization.rs] over the adapter trait: fetching,
    verifying and committing the blocks a remote height announces; and the
    answers of the pull handlers of [message.rs].  The status the engine may
    have reached while [need_sync] sleeps is an argument. *)

From S2P Require Import Prelude Types Codec Traits.
From S2P Require Import Heap Pool Executor MemPool Storage Interoperation DefaultAdapter.
From S2P Require Import Metadata Overlord Wal Engine ConsensusAdapterImpl.

Local Open Scope Z_scope.

Definition ONCE_SYNC_BLOCK_LIMIT : Z := 50.

(** ** [SyncStatus] *)
Inductive SyncStatus : Type :=
| NotSyncing
| Syncing (start current highest : U256).

Definition sync_start (start highest : Z) (s : SyncStatus) : SyncStatus := Syncing start start highest.
Definition sync_finish (s : SyncStatus) : SyncStatus := NotSyncing.

(** [match *self { Syncing { mut current, .. } => current += 1 }] binds a copy
    of the field: the sum is dropped. *)
Definition add_one (s : SyncStatus) : ProtocolResult SyncStatus :=
  match s with
  | NotSyncing => Ok s
  | Syncing start current highest => _ ← u256_add current 1; Ok s
  end.

Section sync.
Context `{R : Rlp} `{K : Keccak} `{!Overlord} `{!EthBloom} `{!FasterHex}
  {A : Type} `{!SynchronizationAdapter A}.

(** [sy_status] is the shared status, [sy_agent] the one a running sync
    advances; [sy_commit_locked] and [sy_syncing] say that the mutexes are
    held. *)
Record OverlordSynchronization := mkSync {
  sy_adapter : A;
  sy_status : CurrentStatus;
  sy_agent : CurrentStatus;
  sy_commit_locked : bool;
  sy_syncing : bool;
  sync_txs_chunk_size : nat;
  SYNC_STATUS : SyncStatus
}.
Local Abbreviation YM := (M OverlordSynchronization ProtocolError).

Definition set_sy_adapter (a : A) (y : OverlordSynchronization) : OverlordSynchronization :=
  mkSync a (sy_status y) (sy_agent y) (sy_commit_locked y) (sy_syncing y) (sync_txs_chunk_size y)
    (SYNC_STATUS y).
Definition set_sy_status (s : CurrentStatus) (y : OverlordSynchronization) : OverlordSynchronization :=
  mkSync (sy_adapter y) s (sy_agent y) (sy_commit_locked y) (sy_syncing y) (sync_txs_chunk_size y)
    (SYNC_STATUS y).
Definition set_sy_agent (s : CurrentStatus) (y : OverlordSynchronization) : OverlordSynchronization :=
  mkSync (sy_adapter y) (sy_status y) s (sy_commit_locked y) (sy_syncing y)
    (sync_txs_chunk_size y) (SYNC_STATUS y).
Definition set_sync_status (s : SyncStatus) (y : OverlordSynchronization) : OverlordSynchronization :=
  mkSync (sy_adapter y) (sy_status y) (sy_agent y) (sy_commit_locked y) (sy_syncing y)
    (sync_txs_chunk_size y) s.

Definition call_adapter {X} (m : M A ProtocolError X) : YM X := zoom sy_adapter set_sy_adapter m.

(** ** Fetching *)
Fixpoint get_chunks (ctx : Context) (number : Z) (hashes : list (list Hash))
    : M A ProtocolError (list SignedTransaction) :=
  match hashes with
  | [] => mret []
  | tx_hashes :: rest =>
      remote_txs ← sa_get_txs_from_remote ctx number tx_hashes;
      txs ← get_chunks ctx number rest;
      mret (remote_txs ++ txs)
  end.

(** [chunks(0)] panics. *)
Definition get_rich_block_from_remote (ctx : Context) (number : Z) (chunk_size : nat)
    : M A ProtocolError RichBlock :=
  block ← sa_get_block_from_remote ctx number;
  if decide (chunk_size = 0%nat) then lift Panic else
  txs ← get_chunks ctx number (chunks (length (b_tx_hashes block)) chunk_size (b_tx_hashes block));
  mret (mkRichBlock block txs).

(** ** Verifying *)
Definition verify_block (ctx : Context) (rich_block : RichBlock) : M A ProtocolError Proof :=
  let block := rb_block rich_block in
  let number := h_number (b_header block) in
  proof ← sa_get_proof_from_remote ctx number;
  ca_verify_proof ctx block proof;;
  ca_verify_block_header ctx (Proposal_from_Block block);;
  prev_number ← lift (u64_sub number 1);
  previous_block ← ca_get_block_by_number ctx prev_number;
  ca_verify_proof ctx previous_block (h_proof (b_header block));;
  signed_txs_hash ← lift (digest_signed_transactions (rb_txs rich_block));
  if negb (signed_txs_hash =? h_signed_txs_hash (b_header block))
  then throw (PE_Consensus (InvalidOrderSignedTransactionsHash signed_txs_hash
                              (h_signed_txs_hash (b_header block))))
  else mret proof.

(** ** Committing *)
(** The proof saved is the one in the block's header. *)
Definition save_chain_data (ctx : Context) (txs : list SignedTransaction) (receipts : list Receipt)
    (block : Block) : M A ProtocolError unit :=
  let number := h_number (b_header block) in
  ca_save_signed_txs ctx number txs;;
  ca_save_receipts ctx number receipts;;
  ca_save_proof ctx (h_proof (b_header block));;
  ca_save_block ctx block.

Definition synced_status (block : Block) (resp : ExecResp) (metadata : Metadata) (proof : Proof)
    : CurrentStatus := {|
  cs_prev_hash := header_hash block;
  cs_last_number := h_number (b_header block);
  cs_last_state_root := er_state_root resp;
  cs_tx_num_limit := md_tx_num_limit metadata;
  cs_gas_limit := md_gas_limit metadata;
  cs_max_tx_size := md_max_tx_size metadata;
  cs_base_fee_per_gas := h_base_fee_per_gas (b_header block);
  cs_proof := proof;
  cs_last_checkpoint_block_hash := md_last_checkpoint_block_hash metadata |}.

(** What is done with a block whose roots were found right. *)
Definition store_synced (ctx : Context) (rich_block : RichBlock) (proof : Proof) (resp : ExecResp) : YM unit :=
  let block := rb_block rich_block in
  let header := b_header block in
  let '(receipts, _) := generate_receipts_and_logs (h_number header) (header_hash block)
                          (h_state_root header) (rb_txs rich_block) resp in
  metadata ← call_adapter (ca_get_metadata ctx header);
  modify (set_sy_agent (synced_status block resp metadata proof));;
  call_adapter (save_chain_data ctx (rb_txs rich_block) receipts block);;
  call_adapter (ca_flush_mempool ctx (b_tx_hashes block)).

Definition commit_block (ctx : Context) (rich_block : RichBlock) (proof : Proof) : YM unit :=
  let block := rb_block rich_block in
  let header := b_header block in
  agent ← gets sy_agent;
  resp ← call_adapter (ca_exec ctx (cs_last_state_root agent) (Proposal_from_Block block)
                         (rb_txs rich_block));
  if negb (er_state_root resp =? h_state_root header)
  then throw (PE_Consensus (InvalidStateRoot (h_state_root header) (er_state_root resp)))
  else if negb (er_receipt_root resp =? h_receipts_root header)
  then throw (PE_Consensus (InvalidReceiptsRoot (h_receipts_root header) (er_receipt_root resp)))
  else store_synced ctx rich_block proof resp.

(** ** The loop *)
Definition sync_one (ctx : Context) (consenting_number : Z) : YM unit :=
  y ← gets id;
  rich_block ← call_adapter (get_rich_block_from_remote ctx consenting_number
                               (sync_txs_chunk_size y));
  proof ← call_adapter (verify_block ctx rich_block);
  commit_block ctx rich_block proof;;
  y ← gets id;
  s ← lift (add_one (SYNC_STATUS y));
  modify (set_sync_status s).

(** [while current_consented_number < remote_number], [n] turns of it *)
Fixpoint sync_loop (ctx : Context) (n : nat) (current_consented_number : Z) : YM unit :=
  match n with
  | O => mret tt
  | S n =>
      sync_one ctx (current_consented_number + 1);;
      sync_loop ctx n (current_consented_number + 1)
  end.

Definition sync_target {E} (current_number remote_number : Z) : outcome E Z :=
  limit ← u64_add current_number ONCE_SYNC_BLOCK_LIMIT;
  Ok (if remote_number <? limit then remote_number else limit).

Definition start_sync (ctx : Context) (current_number remote_number : Z) : YM unit :=
  remote_number ← lift (sync_target current_number remote_number);
  modify (λ y, set_sync_status (sync_start current_number remote_number (SYNC_STATUS y)) y);;
  sync_loop ctx (Z.to_nat (remote_number - current_number)) current_number.

(** ** [receive_remote_block] *)
Definition need_sync (ctx : Context) (after_sleep : CurrentStatus) (remote_number : Z) : YM bool :=
  y ← gets id;
  let current_number := cs_last_number (sy_status y) in
  if remote_number =? 0 then mret false
  else if remote_number <=? current_number then mret false
  else
  reached ← (if current_number =? remote_number - 1 then
               _ ← call_adapter (ca_get_metadata_unchecked ctx current_number);
               modify (set_sy_status after_sleep);;
               mret (cs_last_number after_sleep =? remote_number)
             else mret false);
  if reached : bool then mret false else
  block ← call_adapter (sa_get_block_from_remote ctx remote_number);
  mret (h_number (b_header block) =? remote_number).

Definition sync_update_engine (ctx : Context) : YM unit :=
  y ← gets id;
  let sync_status := sy_agent y in
  modify (set_sy_status sync_status);;
  next ← lift (u64_add (cs_last_number sync_status) 1);
  metadata ← call_adapter (ca_get_metadata_unchecked ctx next);
  validators ← lift (traverse Validator_from (md_verifier_list metadata));
  call_adapter (sa_update_status ctx (cs_last_number sync_status) (md_interval metadata)
    (md_propose_ratio metadata) (md_prevote_ratio metadata) (md_precommit_ratio metadata)
    (md_brake_ratio metadata) validators).

Definition receive_remote_block (ctx : Context) (after_sleep : CurrentStatus) (remote_number : Z)
    : YM unit :=
  y ← gets id;
  if sy_syncing y then mret tt else
  needed ← need_sync ctx after_sleep remote_number;
  if negb needed then mret tt else
  y ← gets id;
  if sy_commit_locked y then mret tt else
  let current_number := cs_last_number (sy_status y) in
  if remote_number <=? current_number then mret tt else
  modify (set_sy_agent (sy_status y));;
  start_sync ctx current_number remote_number;;
  sync_update_engine ctx;;
  modify (λ y, set_sync_status (sync_finish (SYNC_STATUS y)) y).

(** One turn of [polling_broadcast]; the loop ends at the first error. *)
Definition polling_broadcast : YM unit :=
  y ← gets id;
  if cs_last_number (sy_status y) =? 0 then mret tt
  else call_adapter (ca_broadcast_number ∅ (cs_last_number (sy_status y))).
End sync.
Arguments OverlordSynchronization A : clear implicits.

(** ** The pull handlers: what is sent back *)
Section handlers.
Context {St : Type} `{!Storage St}.

(** [PullBlockRpcHandler] *)
Definition pull_block_answer (ctx : Context) (number : Z) : M St ProtocolError Block :=
  b ← st_get_block ctx number;
  lift (ok_or b (PE_Storage GetNone)).

(** [PullProofRpcHandler]: the proof of a block is in its successor's header,
    that of the latest block is stored apart. *)
Definition pull_proof_answer (ctx : Context) (number : Z) : M St ProtocolError Proof :=
  latest ← try (st_get_latest_proof ctx);
  match latest with
  | Ok latest_proof =>
      if number <? pf_number latest_proof then
        next ← lift (u64_add number 1);
        h ← try (st_get_block_header ctx next);
        match h with
        | Ok (Some next_header) => mret (h_proof next_header)
        | _ => throw (PE_Storage GetNone)
        end
      else if number =? pf_number latest_proof then mret latest_proof
      else throw (PE_Storage GetNone)
  | _ => throw (PE_Storage GetNone)
  end.

(** [PullTxsRpcHandler] *)
Definition pull_txs_answer (ctx : Context) (height : Z) (hashes : list Hash)
    : M St ProtocolError (list SignedTransaction) :=
  txs ← st_get_transactions ctx height hashes;
  mret (omap id txs).
End handlers.
