(* ===== verification/QuorumProps.v ===== *)
(** * Quorums

    The weight check behind a proof: what it accepts, and that two accepted
    proofs of the same validators share more than a third of the weight. *)

From S2P Require Import Prelude Types Codec RlpInstance Traits.
From S2P Require Import Heap Pool Executor MemPool Storage Interoperation DefaultAdapter.
From S2P Require Import Metadata MetadataProps Overlord Wal Engine ConsensusAdapterImpl.

Local Open Scope Z_scope.

#[global] Instance Node_eq_dec : EqDecision Node.
Proof. solve_decision. Defined.

(** The vote weight of some nodes. *)
Definition weight (ns : list Node) : Z := foldr (λ n acc, nd_vote_weight n + acc) 0 ns.

Lemma weight_app a b : weight (a ++ b) = weight a + weight b.
Proof. unfold weight. induction a as [|n a IH]; cbn [app foldr]; lia. Qed.

#[global] Instance weight_perm : Proper ((≡ₚ) ==> eq) weight.
Proof. unfold weight. induction 1; cbn [foldr]; lia. Qed.

Definition weights_ok (ns : list Node) : Prop := Forall (λ n, 0 ≤ nd_vote_weight n < 2 ^ 32) ns.

Lemma weight_bounds ns : weights_ok ns → 0 ≤ weight ns ≤ Z.of_nat (length ns) * (2 ^ 32 - 1).
Proof. induction 1 as [|n ns Hn _ IH]; cbn [weight foldr length]; [lia|]. fold (weight ns). lia. Qed.

Lemma weight_submseteq a b : weights_ok b → a ⊆+ b → 0 ≤ weight a ≤ weight b.
Proof.
  intros Hb [k Hp]%submseteq_Permutation. rewrite Hp. unfold weights_ok in Hb. rewrite Hp in Hb.
  apply Forall_app in Hb as [Ha Hk]. rewrite weight_app.
  pose proof (weight_bounds a Ha). pose proof (weight_bounds k Hk). lia.
Qed.

Lemma part_NoDup {A} (ns a : list A) : NoDup ns → a ⊆+ ns → NoDup a.
Proof.
  intros Hnd [k Hp]%submseteq_Permutation. rewrite Hp in Hnd. by apply NoDup_app in Hnd as [? _].
Qed.

(** Two parts of a whole weigh together at most the whole and what they
    share. *)
Lemma weight_inclusion (ns a b : list Node) :
  weights_ok ns → NoDup ns → a ⊆+ ns → b ⊆+ ns →
  weight a + weight b ≤ weight ns + weight (filter (.∈ b) a).
Proof.
  intros Hw Hnd Ha Hb. pose proof (part_NoDup _ _ Hnd Ha) as Hna.
  pose proof (part_NoDup _ _ Hnd Hb) as Hnb.
  assert (weight a = weight (filter (.∈ b) a) + weight (filter (.∉ b) a)) as ->.
  { rewrite <- weight_app. by rewrite filter_app_complement. }
  assert (filter (.∉ b) a ++ b ⊆+ ns) as Hsub.
  { apply NoDup_submseteq; [|].
    - apply NoDup_app. split_and!; [by apply NoDup_filter| |done].
      intros n [? _]%list_elem_of_filter. done.
    - intros n [[_ Hn]%list_elem_of_filter|Hn]%elem_of_app.
      + by eapply elem_of_submseteq.
      + by eapply elem_of_submseteq. }
  apply weight_submseteq in Hsub; [|done]. rewrite weight_app in Hsub. lia.
Qed.

(** ** The weight map *)
Lemma weight_map_lookup nodes n :
  NoDup (nd_address <$> nodes) → n ∈ nodes → weight_map_of nodes !! nd_address n = Some (nd_vote_weight n).
Proof.
  intros Hnd Hn. unfold weight_map_of.
  assert (∀ (m : gmap bytes Z) l, nd_address n ∉ nd_address <$> l →
    fold_left (λ m n, <[nd_address n := nd_vote_weight n]> m) l m !! nd_address n = m !! nd_address n)
    as Hother.
  { intros m l. revert m. induction l as [|x l IH]; intros m Hx; [done|]. cbn.
    rewrite fmap_cons, not_elem_of_cons in Hx. destruct Hx as [Hne Hx].
    rewrite IH by done. by apply lookup_insert_ne. }
  generalize (∅ : gmap bytes Z). induction nodes as [|x nodes IH]; intros m; [by apply elem_of_nil in Hn|].
  rewrite fmap_cons in Hnd. apply NoDup_cons in Hnd as [Hx Hnd]. cbn [fold_left].
  apply elem_of_cons in Hn as [->|Hn]; [|by apply IH].
  rewrite Hother by done. apply lookup_insert_eq.
Qed.

Definition map_weight (m : gmap bytes Z) : Z := map_fold (λ _ w acc, w + acc) 0 m.

Lemma map_weight_insert (m : gmap bytes Z) k w : m !! k = None → map_weight (<[k := w]> m) = w + map_weight m.
Proof. intros Hk. unfold map_weight. rewrite map_fold_insert_L; [done|intros; lia|done]. Qed.

(** A sum that does not panic is the sum. *)
Lemma total_weight_ok m t : total_weight m = Ok t → t = map_weight m.
Proof.
  revert t. unfold total_weight.
  apply (map_fold_weak_ind (λ r m, ∀ t, r = Ok t → t = map_weight m)).
  { intros t [= <-]. unfold map_weight. by rewrite map_fold_empty. }
  intros k w m' r Hk IH t. destruct r as [acc| |]; cbn [mbind outcome_bind]; [|done..].
  rewrite u64_add_ok, map_weight_insert by done. intros [-> _]. rewrite (IH acc) by done. lia.
Qed.

Lemma weight_map_total nodes :
  NoDup (nd_address <$> nodes) → map_weight (weight_map_of nodes) = weight nodes.
Proof.
  unfold weight_map_of. intros Hnd.
  assert (∀ m : gmap bytes Z, (∀ n, n ∈ nodes → m !! nd_address n = None) →
    map_weight (fold_left (λ m n, <[nd_address n := nd_vote_weight n]> m) nodes m) =
    weight nodes + map_weight m) as Hgen.
  { induction nodes as [|n nodes IH]; intros m Hm; [done|].
    rewrite fmap_cons in Hnd. apply NoDup_cons in Hnd as [Hn Hnd]. cbn [fold_left weight foldr].
    rewrite IH; [|done|].
    - rewrite map_weight_insert by (apply Hm; left). fold (weight nodes). lia.
    - intros n' Hn'. rewrite lookup_insert_ne; [apply Hm; by right|].
      intros E. apply Hn. rewrite E. by apply list_elem_of_fmap_2. }
  rewrite Hgen by (intros; apply lookup_empty). unfold map_weight. rewrite map_fold_empty. lia.
Qed.

Lemma accumulate_nodes number nodes ns acc total :
  NoDup (nd_address <$> nodes) → (∀ n, n ∈ ns → n ∈ nodes) →
  accumulate number (weight_map_of nodes) (nd_address <$> ns) acc = Ok total → total = acc + weight ns.
Proof.
  intros Hnd. revert acc. induction ns as [|n ns IH]; intros acc Hin; cbn [weight foldr] in *.
  { cbn. intros [= <-]. lia. }
  fold (weight ns) in *. rewrite fmap_cons. cbn [accumulate].
  rewrite weight_map_lookup by (done || apply Hin; left).
  destruct (u64_add acc (nd_vote_weight n)) as [acc'| |] eqn:E; cbn [mbind outcome_bind]; [|done..].
  apply u64_add_ok in E as [-> _]. intros Hr. apply IH in Hr; [lia|]. intros n' Hn'. apply Hin. by right.
Qed.

(** The sums that do not panic do not wrap either: the check is the quorum rule. *)
Lemma verify_weight_sound number nodes ns :
  NoDup (nd_address <$> nodes) → ns ⊆+ nodes →
  verify_proof_weight number (weight_map_of nodes) (nd_address <$> ns) = Ok tt →
  2 * weight nodes < 3 * weight ns.
Proof.
  intros Hnd Hsub. unfold verify_proof_weight.
  destruct (total_weight (weight_map_of nodes)) as [t| |] eqn:Et; cbn [mbind outcome_bind]; [|done..].
  destruct (accumulate number (weight_map_of nodes) (nd_address <$> ns) 0) as [acc| |] eqn:Ea;
    cbn [mbind outcome_bind]; [|done..].
  apply total_weight_ok in Et. rewrite weight_map_total in Et by done.
  apply accumulate_nodes in Ea; [|done|intros n Hn; by eapply elem_of_submseteq].
  destruct (u64_mul 3 acc) as [l| |] eqn:El; cbn [mbind outcome_bind]; [|done..].
  destruct (u64_mul 2 t) as [r| |] eqn:Er; cbn [mbind outcome_bind]; [|done..].
  apply u64_mul_ok in El as [-> _], Er as [-> _].
  destruct (Z.leb_spec (3 * acc) (2 * t)); [done|]. intros _. lia.
Qed.

(** ** Property *)
(** C2: two proofs the quorum check accepts for the same validators have voters
    in common that weigh more than a third of all of them: whoever signed both
    is more than a third of the weight. *)
Theorem quorum_overlap `{K : Keccak} `{!Overlord} `{!Bls} `{!FasterHex}
    (c1 c2 : OverlordCrypto) n1 n2 verifiers nodes p1 p2 :
  traverse node_of verifiers = Ok nodes → NoDup (nd_address <$> nodes) → weights_ok nodes →
  verify_quorum c1 n1 verifiers p1 = Ok tt → verify_quorum c2 n2 verifiers p2 = Ok tt →
  ∃ voters1 voters2 common, extract_voters nodes (pf_bitmap p1) = Ok voters1 ∧
    extract_voters nodes (pf_bitmap p2) = Ok voters2 ∧ common ⊆+ nodes ∧
    (∀ n, n ∈ common → nd_address n ∈ voters1 ∧ nd_address n ∈ voters2) ∧
    weight nodes < 3 * weight common.
Proof.
  intros Hnodes Hnd Hw Hq1 Hq2.
  assert (∀ c n p, verify_quorum c n verifiers p = Ok tt → ∃ ns, ns ⊆+ nodes ∧
    extract_voters nodes (pf_bitmap p) = Ok (nd_address <$> ns) ∧ 2 * weight nodes < 3 * weight ns) as Hv.
  { intros c n p. unfold verify_quorum. rewrite Hnodes. cbn [mbind outcome_bind].
    destruct (extract_voters nodes (pf_bitmap p)) as [voters| |] eqn:He; cbn [map_err mbind outcome_bind]; [|done..].
    destruct (extract_voters_nodes _ _ _ He) as (ns & Hsub & ->).
    destruct (verify_proof_weight n (weight_map_of (node_sort nodes)) (nd_address <$> ns))
      as [[]| |] eqn:Hwt; cbn [mbind outcome_bind]; [|done..]. intros _.
    exists ns. split_and!; [done..|]. rewrite <- (node_sort_perm nodes).
    by apply verify_weight_sound in Hwt; [|rewrite node_sort_perm..]. }
  destruct (Hv _ _ _ Hq1) as (a & Ha & He1 & Hq1'), (Hv _ _ _ Hq2) as (b & Hb & He2 & Hq2').
  exists (nd_address <$> a), (nd_address <$> b), (filter (.∈ b) a). split_and!; [done..| | |].
  - etrans; [|exact Ha]. apply sublist_submseteq, sublist_filter.
  - intros n [Hnb Hna]%list_elem_of_filter. split; by apply list_elem_of_fmap_2.
  - pose proof (weight_inclusion nodes a b Hw (NoDup_fmap_1 _ _ Hnd) Ha Hb). lia.
Qed.

(** Four validators of equal weight, and a bitmap of one byte for each. *)
Fixpoint votes_of (l : list Node) (bitmap : bytes) : list Node :=
  match l, bitmap with
  | n :: l', b :: bitmap' => if decide (b = x01) then n :: votes_of l' bitmap' else votes_of l' bitmap'
  | _, _ => []
  end.

Lemma votes_of_nodes l bitmap : votes_of l bitmap ⊆+ l.
Proof.
  revert bitmap. induction l as [|n l IH]; intros [|b bitmap]; cbn; [done|apply submseteq_nil_l..|].
  case_decide; [by apply submseteq_skip|by apply submseteq_cons].
Qed.

#[local] Existing Instance plain_hex.
#[local] Instance list_overlord : Overlord.
Proof.
  refine {| node_sort := id; extract_voters := λ l bitmap, Ok (nd_address <$> votes_of l bitmap);
            precommit_vote := λ _ _ h, h |}.
  - done.
  - intros l bitmap voters [= <-]. exists (votes_of l bitmap). split; [apply votes_of_nodes|done].
Defined.

(** Signatures are the list of the signers' keys. *)
#[local] Instance list_bls : Bls := {|
  BlsPublicKey := bytes; BlsSignature := bytes; BlsPrivateKey := bytes;
  bls_pub_key_from := λ b, Ok b; bls_sig_from := λ b, Ok b; bls_sig_to_bytes := id;
  bls_sign := λ key _, key;
  bls_verify := λ sig _ key _, if decide (sig = key) then Ok tt else Err 0;
  bls_aggregate := λ keys, Ok (concat keys);
  bls_combine := λ l, Ok (concat (map fst l)) |}.

Definition list_crypto : @OverlordCrypto list_bls := @mkCrypto list_bls [] ∅ EmptyString.
Definition four_validators : list ValidatorExtend :=
  map (λ b, mkValidatorExtend (Hex_encode [b]) (Hex_encode [b]) 0 1 1) [x0a; x0b; x0c; x0d].
Definition signed_by (bitmap signature : bytes) : Proof := mkProof 5 0 77 signature bitmap.

Lemma quorum_overlap_witness :
  let nodes := map (λ b, mkNode [b] 1 1) [x0a; x0b; x0c; x0d] in
  ∃ common, common ⊆+ nodes ∧ weight nodes < 3 * weight common.
Proof.
  intros nodes.
  destruct (quorum_overlap list_crypto list_crypto 5 5 four_validators nodes
    (signed_by [x01; x01; x01; x00] [x0a; x0b; x0c]) (signed_by [x00; x01; x01; x01] [x0b; x0c; x0d]))
    as (_ & _ & common & _ & _ & Hsub & _ & Hw).
  - vm_compute. reflexivity.
  - apply (bool_decide_unpack _). vm_compute. exact I.
  - repeat constructor; cbn; lia.
  - vm_compute. reflexivity.
  - vm_compute. reflexivity.
  - exists common. split; [exact Hsub|exact Hw].
Defined.
