(* ===== verification/EngineProps.v ===== *)
(** * Properties of the consensus engine

    A proposal the engine makes is one it accepts; what an accepted proposal of
    another validator has been checked for; what a commit leaves. *)

From S2P Require Import Prelude Types Codec RlpInstance Traits CodecProps.
From S2P Require Import Heap Pool PoolProps Executor MemPool Storage Interoperation DefaultAdapter.
From S2P Require Import StorageLaws StorageProps ExecRefine TrieInstance Metadata MetadataProps AdapterProps.
From S2P Require Import Overlord Wal Engine ConsensusAdapterImpl QuorumProps.

Local Open Scope Z_scope.

(** The fields of a proposal no check reads. *)
Definition with_unchecked (p : Proposal) (proposer : H160) (gas_limit : U256) (extra_data : bytes)
    (mixed_hash : option Hash) (base_fee : U256) (checkpoint : Hash) (chain_id : Z) : Proposal := {|
  p_prev_hash := p_prev_hash p; p_proposer := proposer;
  p_transactions_root := p_transactions_root p; p_signed_txs_hash := p_signed_txs_hash p;
  p_timestamp := p_timestamp p; p_number := p_number p; p_gas_limit := gas_limit;
  p_extra_data := extra_data; p_mixed_hash := mixed_hash; p_base_fee_per_gas := base_fee;
  p_proof := p_proof p; p_last_checkpoint_block_hash := checkpoint; p_chain_id := chain_id;
  p_tx_hashes := p_tx_hashes p |}.

Section engine.
Context `{R : Rlp} `{K : Keccak} `{!StaticMerkleTree} `{!Overlord} `{!EthBloom} `{!Bls}
  `{!FasterHex} `{!WalName} {A : Type} `{!ConsensusAdapter A}.
Local Abbreviation engine := (ConsensusEngine A).
Local Abbreviation EM := (M (ConsensusEngine A) ProtocolError).

Lemma ask_eq {X} (m : M A ProtocolError X) (e : engine) :
  ask m e = (set_ce_adapter (fst (m (ce_adapter e))) e, snd (m (ce_adapter e))).
Proof. unfold ask, zoom. by destruct (m (ce_adapter e)). Qed.

Lemma ask_inv {X} (m : M A ProtocolError X) (e e' : engine) o :
  ask m e = (e', o) → m (ce_adapter e) = (ce_adapter e', o) ∧ e' = set_ce_adapter (ce_adapter e') e.
Proof. rewrite ask_eq. intros [= <- <-]. by destruct (m (ce_adapter e)). Qed.

(** Code that leaves the status alone. *)
Definition keeps_status {X} (m : EM X) : Prop :=
  ∀ e e' o, m e = (e', o) → ce_status e' = ce_status e.

Lemma keeps_ask {X} (m : M A ProtocolError X) : keeps_status (ask m).
Proof. intros e e' o [_ ->]%ask_inv. done. Qed.
Lemma keeps_lift {X} (o : ProtocolResult X) : keeps_status (lift o).
Proof. by intros e e' o' [= <- _]. Qed.
Lemma keeps_ret {X} (x : X) : keeps_status (mret x).
Proof. by intros e e' o' [= <- _]. Qed.
Lemma keeps_gets {X} (f : engine → X) : keeps_status (gets f).
Proof. by intros e e' o' [= <- _]. Qed.
Lemma keeps_on_wal {X} (m : M SignedTxsWAL ProtocolError X) : keeps_status (on_wal m).
Proof. intros e e' o. unfold on_wal, zoom. destruct (m _). by intros [= <- _]. Qed.
Lemma keeps_crypto (f : engine → OverlordCrypto) : keeps_status (modify (λ e, set_ce_crypto (f e) e)).
Proof. by intros e e' o' [= <- _]. Qed.
Lemma keeps_exemption (f : engine → gset Hash) : keeps_status (modify (λ e, set_exemption (f e) e)).
Proof. by intros e e' o' [= <- _]. Qed.
Lemma keeps_try {X} (m : EM X) : keeps_status m → keeps_status (try m).
Proof.
  intros Hm e e' o. unfold try. destruct (m e) as [e1 []] eqn:E; intros [= <- _]; by apply Hm in E.
Qed.
Lemma keeps_bind {X Y} (m : EM X) (k : X → EM Y) :
  keeps_status m → (∀ x, keeps_status (k x)) → keeps_status (m ≫= k).
Proof.
  intros Hm Hk e e' o. unfold mbind, M_bind. destruct (m e) as [e1 [x|err|]] eqn:E; apply Hm in E.
  - intros ?%Hk. congruence.
  - intros [= <- _]. done.
  - intros [= <- _]. done.
Qed.
End engine.

#[export] Hint Resolve keeps_ask keeps_lift keeps_ret keeps_gets keeps_on_wal keeps_crypto
  keeps_exemption keeps_try : axon.

(** Walks through the binds and tests of a definition. *)
Ltac keeps :=
  repeat first [ apply keeps_bind; [|intros ?] | case_match | solve [eauto with axon] ].

Section commit.
Context `{R : Rlp} `{K : Keccak} `{!StaticMerkleTree} `{!Overlord} `{!EthBloom} `{!Bls}
  `{!FasterHex} `{!WalName} {A : Type} `{!ConsensusAdapter A}.
Local Abbreviation engine := (ConsensusEngine A).

Lemma keeps_save_executed ctx resp block proof txs :
  keeps_status (A := A) (save_executed ctx resp block proof txs).
Proof. unfold save_executed, generate_receipts_and_logs. keeps. Qed.

Lemma keeps_refresh_metadata ctx header n b : keeps_status (A := A) (refresh_metadata ctx header n b).
Proof. unfold refresh_metadata, update_overlord_crypto. keeps. Qed.

Lemma keeps_committed_txs ctx n p : keeps_status (A := A) (committed_txs ctx n p).
Proof. unfold committed_txs. keeps. Qed.

(** The status a block leaves. *)
Lemma update_status_ok ctx resp p proof txs (e e' : engine) :
  update_status ctx resp p proof txs e = (e', Ok tt) →
  cs_prev_hash (ce_status e') = header_hash (Block_new p resp) ∧
  cs_last_number (ce_status e') = p_number p ∧
  cs_last_state_root (ce_status e') = er_state_root resp ∧
  cs_proof (ce_status e') = proof ∧
  cs_gas_limit (ce_status e') = cs_gas_limit (ce_status e) ∧
  cs_tx_num_limit (ce_status e') = cs_tx_num_limit (ce_status e).
Proof.
  unfold update_status. msteps. cbn [id].
  intros (next & _ & Hrun)%bind_lift_inv.
  apply bind_inv in Hrun as ([] & e1 & Hs1%keeps_save_executed & Hrun).
  apply bind_inv in Hrun as ([] & e2 & Hs2%keeps_refresh_metadata & Hrun).
  apply bind_inv in Hrun as (st & e3 & [= <- <-] & Hrun).
  apply bind_inv in Hrun as ([] & e4 & Hs4%keeps_ask & Hrun).
  apply bind_inv in Hrun as ([] & e5 & [= <-] & Hrun).
  apply bind_inv in Hrun as (g & e6 & [= <- _] & Hrun).
  apply bind_inv in Hrun as (m & e7 & [= <- _] & ->%keeps_ask).
  cbn. by rewrite Hs2, Hs1.
Qed.

Lemma u64_add_cases {E} a b :
  a + b < 2 ^ 64 ∧ u64_add a b = Ok (E := E) (a + b) ∨ 2 ^ 64 ≤ a + b ∧ u64_add a b = Panic (E := E).
Proof. unfold u64_add. destruct (Z.ltb_spec (a + b) (2 ^ 64)); auto. Qed.

Lemma next_status_height n md st : next_status n md = Ok st → os_height st = n.
Proof.
  unfold next_status. destruct (convert_to_overlord_authority _); cbn [mbind outcome_bind]; [|done..].
  by intros [= <-].
Qed.

Lemma check_proof_number_ok p :
  check_proof_number p = Ok tt ↔
  p_number p = pf_number (p_proof p) + 1 ∧ pf_number (p_proof p) + 1 < 2 ^ 64.
Proof.
  unfold check_proof_number. destruct (u64_add (pf_number (p_proof p)) 1) as [m| |] eqn:E; cbn [mbind outcome_bind].
  - apply u64_add_ok in E as [-> Hlt]. destruct (Z.eqb_spec (p_number p) (pf_number (p_proof p) + 1));
      cbn [negb]; [done|]. unfold u64_sub. destruct (1 <=? p_number p); cbn [mbind outcome_bind]; naive_solver.
  - unfold u64_add in E. by destruct (_ <? _).
  - split; [done|]. intros [_ Hlt]. by rewrite u64_add_small in E.
Qed.

(** A commit of the next block. *)
Lemma commit_new_ok ctx n c (e e' : engine) st :
  commit_new ctx n c e = (e', Ok st) →
  os_height st = n + 1 ∧ exemption_hash e' = ∅ ∧
  ∃ proof txs resp a a', commit_proof (cm_proof c) = Ok proof ∧
    ca_exec ctx (cs_last_state_root (ce_status e)) (cm_content c) txs a = (a', Ok resp) ∧
    cs_prev_hash (ce_status e') = header_hash (Block_new (cm_content c) resp) ∧
    cs_last_number (ce_status e') = p_number (cm_content c) ∧
    cs_last_state_root (ce_status e') = er_state_root resp ∧
    cs_proof (ce_status e') = proof.
Proof.
  unfold commit_new. intros ([[proof txs] resp] & e4 & Hexec & Hrun)%bind_inv.
  unfold execute_commit in Hexec. apply bind_inv in Hexec as (proof' & e0 & [= <- Hp] & Hexec).
  apply bind_inv in Hexec as ([] & e1 & Hs1%keeps_ask & Hexec).
  apply bind_inv in Hexec as (txs' & e2 & Hs2%keeps_committed_txs & Hexec).
  apply bind_inv in Hexec as (st0 & e3 & [= <- <-] & Hexec).
  apply bind_inv in Hexec as (resp' & e4' & [Hx He4]%ask_inv & [= -> -> -> ->]).
  apply bind_inv in Hrun as ([] & e5 & Hu%update_status_ok & Hrun).
  apply bind_inv in Hrun as ([] & e6 & Hs6%keeps_ask & Hrun).
  apply bind_inv in Hrun as ([] & e7 & Hs7%keeps_on_wal & Hrun).
  rewrite bind_modify in Hrun. apply bind_lift_inv in Hrun as (nx & [-> _]%u64_add_ok & Hrun).
  apply bind_inv in Hrun as (md & e8 & [_ He8]%ask_inv & Hrun).
  apply bind_inv in Hrun as (st' & e9 & [= <- Hst] & Hrun).
  apply bind_inv in Hrun as ([] & e10 & [_ He10]%ask_inv & [= <- <-]).
  assert (ce_status e10 = ce_status e5 ∧ exemption_hash e10 = ∅) as [-> ->].
  { rewrite He10, He8. cbn. by rewrite Hs7, Hs6. }
  split; [|split; [done|]].
  - by apply next_status_height in Hst.
  - rewrite Hs2, Hs1 in Hx. exists proof, txs, resp, (ce_adapter e2), (ce_adapter e4). tauto.
Qed.
End commit.

Section check.
Context `{R : Rlp} `{K : Keccak} `{!StaticMerkleTree} `{!PatriciaTrie} {St Mt : Type}
  `{!Storage St} `{!MetadataControl Mt} `{!Evm (AxonExecutorAdapter St)} `{!Interoperation}
  `{!PullRpc} `{!Secp256k1Verify} `{!ErrorText} `{!Overlord} `{!EthBloom} `{!Bls} `{!FasterHex}
  `{!ConsensusNet}.

Lemma validate_timestamp_spec now t prev : validate_timestamp now t prev = true ↔ prev ≤ t ≤ now.
Proof. unfold validate_timestamp. repeat case_match; lia. Qed.

Lemma verify_block_header_ok ctx p (o o' : OverlordConsensusAdapter St Mt) :
  verify_block_header ctx p o = (o', Ok tt) →
  ∃ header, get_block_header_by_number ctx (p_number p - 1) o = (o', Ok header) ∧
    Header_hash header = p_prev_hash p.
Proof.
  unfold verify_block_header. intros (prev & [-> _]%u64_sub_ok & Hrun)%bind_lift_inv.
  apply bind_inv in Hrun as (header & o1 & Hg & Hrun).
  destruct (Z.eqb_spec (Header_hash header) (p_prev_hash p)); cbn [negb] in Hrun; [|done].
  injection Hrun as <-. by exists header.
Qed.

Lemma check_order_ok p txs :
  check_order_transactions p txs = Ok tt →
  p_transactions_root p = default 0 (merkle_root (p_tx_hashes p)) ∧
  digest_signed_transactions txs = Ok (p_signed_txs_hash p).
Proof.
  unfold check_order_transactions. destruct (digest_signed_transactions txs) as [d| |];
    cbn [mbind outcome_bind]; [|done..].
  destruct (Z.eqb_spec d (p_signed_txs_hash p)) as [->|]; cbn [negb]; [|done].
  destruct (Z.eqb_spec (default 0 (merkle_root (p_tx_hashes p))) (p_transactions_root p)); by cbn [negb].
Qed.

Lemma inner_check_ok ctx now p (o o' : OverlordConsensusAdapter St Mt) :
  inner_check_block ctx now p o = (o', Ok tt) →
  ∃ header block txs a1 a2 a3 a4 a5,
    get_block_header_by_number ctx (p_number p - 1) o = (a1, Ok header) ∧
    Header_hash header = p_prev_hash p ∧
    get_block_by_number ctx (p_number p - 1) a1 = (a2, Ok block) ∧
    h_timestamp (b_header block) ≤ p_timestamp p ≤ now ∧
    verify_proof ctx block (p_proof p) a2 = (a3, Ok tt) ∧
    p_transactions_root p = default 0 (merkle_root (p_tx_hashes p)) ∧
    ca_get_full_txs ctx (p_tx_hashes p) a4 = (a5, Ok txs) ∧
    digest_signed_transactions txs = Ok (p_signed_txs_hash p).
Proof.
  unfold inner_check_block. intros ([] & a1 & Hh & Hrun)%bind_inv.
  apply verify_block_header_ok in Hh as (header & ? & ?).
  apply bind_lift_inv in Hrun as (prev & [-> _]%u64_sub_ok & Hrun).
  apply bind_inv in Hrun as (block & a2 & Hb & Hrun).
  destruct (validate_timestamp _ _ _) eqn:Ht; cbn [negb] in Hrun; [|done].
  apply validate_timestamp_spec in Ht.
  apply bind_inv in Hrun as ([] & a3 & Hv & Hrun).
  apply bind_inv in Hrun as ([] & a4 & _ & Hrun).
  apply bind_inv in Hrun as (txs & a5 & Hf & [= _ Hc]). apply check_order_ok in Hc as [? ?].
  exists header, block, txs, a1, a2, a3, a4, a5. done.
Qed.
End check.

(** ** Properties *)
(** The proposal an engine makes extends its last block: it has the
    requested number, one above its proof's, and the hash of the last block; it
    passes the check of its own transaction roots; and when it comes back to the
    engine, [check_block] recognises it and only fetches and logs its
    transactions. *)
Theorem proposal_accepted `{R : Rlp} `{K : Keccak} `{!StaticMerkleTree} `{!Overlord} `{!EthBloom}
    `{!Bls} `{!FasterHex} `{!WalName} {A : Type} `{!ConsensusAdapter A} ctx now n
    (e e' : ConsensusEngine A) p hash :
  get_proposal ctx now n e = (e', Ok (p, hash)) →
  p_number p = n ∧ n = pf_number (p_proof p) + 1 ∧ p_proof p = cs_proof (ce_status e) ∧
  p_prev_hash p = cs_prev_hash (ce_status e) ∧ ce_status e' = ce_status e ∧
  (∃ txs a a', ca_get_full_txs ctx (p_tx_hashes p) a = (a', Ok txs) ∧
     check_order_transactions p txs = Ok tt) ∧
  ∀ now' n', check_block ctx now' n' hash p e' =
    (txs ← ask (ca_get_full_txs ctx (p_tx_hashes p));
     on_wal (wal_save n' (p_transactions_root p) txs)) e'.
Proof.
  unfold get_proposal. rewrite bind_gets. cbn [id].
  intros (txs & e1 & [_ He1]%ask_inv & Hrun)%bind_inv.
  apply bind_inv in Hrun as (stxs & e2 & [Hf He2]%ask_inv & Hrun).
  apply bind_inv in Hrun as (h & e3 & [= <- Hh] & Hrun). cbn [p_number p_proof] in Hrun.
  apply bind_lift_inv in Hrun as ([] & Hn & Hrun). rewrite bind_modify in Hrun. injection Hrun as <- <- <-.
  split_and!; try done.
  - by apply check_proof_number_ok in Hn as [? _].
  - by rewrite He2, He1.
  - exists stxs, (ce_adapter e1), (ce_adapter e2). split; [done|].
    unfold check_order_transactions. rewrite Hh. cbn [mbind outcome_bind p_signed_txs_hash p_tx_hashes
      p_transactions_root]. by rewrite !Z.eqb_refl.
  - intros now' n'. unfold check_block. rewrite Hn, bind_lift_ok.
    rewrite be32_from by apply digest_range. rewrite bind_lift_ok, bind_gets. cbn [id].
    rewrite decide_True by (cbn; set_solver). done.
Qed.

(** C9: [commit] on an engine the synchronization has locked changes nothing and
    reports it.  Otherwise it first looks up the metadata of the number after
    the committed one: when that number overflows, or the lookup fails or
    panics (its epoch is not cached), that is the outcome, and nothing is saved.
    When the lookup succeeds, a commit of neither the last block nor the next
    one is reported as outdated and changes nothing but what the lookup did to
    the adapter.  A commit that returns answers with the next height and either
    repeats the last block, the status kept, or is the next block: the status
    then holds the executed block's hash, number, state root and proof, executed
    from the last state root, and no exemptions are left. *)
Theorem commit_outcome `{R : Rlp} `{K : Keccak} `{!StaticMerkleTree} `{!Overlord} `{!EthBloom}
    `{!Bls} `{!FasterHex} `{!WalName} {A : Type} `{!ConsensusAdapter A} ctx n c
    (e e' : ConsensusEngine A) o :
  commit ctx n c e = (e', o) →
  (ce_locked e = true → e' = e ∧ o = Err (PE_Consensus LockInSync)) ∧
  (ce_locked e = false → 2 ^ 64 ≤ n + 1 → e' = e ∧ o = Panic) ∧
  (ce_locked e = false → n + 1 < 2 ^ 64 →
     let '(a, r) := ca_get_metadata_unchecked ctx (n + 1) (ce_adapter e) in
     match r with
     | Err err => e' = set_ce_adapter a e ∧ o = Err err
     | Panic => e' = set_ce_adapter a e ∧ o = Panic
     | Ok _ => n ≠ cs_last_number (ce_status e) → n ≠ cs_last_number (ce_status e) + 1 →
         e' = set_ce_adapter a e ∧
         o = if cs_last_number (ce_status e) + 1 <? 2 ^ 64
             then Err (PE_Consensus (OutdatedCommit n (cs_last_number (ce_status e)))) else Panic
     end) ∧
  (∀ st, o = Ok st → os_height st = n + 1 ∧
     (n = cs_last_number (ce_status e) ∧ ce_status e' = ce_status e ∨
      n = cs_last_number (ce_status e) + 1 ∧ exemption_hash e' = ∅ ∧
      ∃ proof txs resp a a', commit_proof (cm_proof c) = Ok proof ∧
        ca_exec ctx (cs_last_state_root (ce_status e)) (cm_content c) txs a = (a', Ok resp) ∧
        cs_prev_hash (ce_status e') = header_hash (Block_new (cm_content c) resp) ∧
        cs_last_number (ce_status e') = p_number (cm_content c) ∧
        cs_last_state_root (ce_status e') = er_state_root resp ∧
        cs_proof (ce_status e') = proof)).
Proof.
  unfold commit. rewrite bind_gets. cbn [id]. destruct (ce_locked e) eqn:Hl; [by intros [= <- <-]|].
  destruct (u64_add_cases (E := ProtocolError) n 1) as [[Hlt ->]|[Hge ->]].
  2: { intros [= <- <-]. split_and!; [done|done|lia|done]. }
  rewrite bind_lift_ok. unfold mbind at 1, M_bind at 1. rewrite ask_eq.
  destruct (ca_get_metadata_unchecked ctx (n + 1) (ce_adapter e)) as [a [md|err|]]; cbn [fst snd];
    [|intros [= <- <-]; split_and!; (done || lia)..].
  set (e1 := set_ce_adapter _ e). destruct (Z.eqb_spec n (cs_last_number (ce_status e))) as [Hn|Hn].
  - intros [= <- <-]. split_and!; [done|lia|done|]. intros st Hst.
    split; [by apply next_status_height in Hst|by left].
  - destruct (u64_add_cases (E := ProtocolError) (cs_last_number (ce_status e)) 1) as [[Hlt' ->]|[Hge' ->]].
    2: { intros [= <- <-]. rewrite (proj2 (Z.ltb_ge _ _) Hge'). split_and!; [done|lia|done|done]. }
    rewrite bind_lift_ok, (proj2 (Z.ltb_lt _ _) Hlt'). destruct (Z.eqb_spec n (cs_last_number (ce_status e) + 1)) as [Hn'|Hn']; cbn [negb].
    2: { intros [= <- <-]. split_and!; [done|lia|done|done]. }
    intros Hrun. split_and!; [done|lia|done|]. intros st ->.
    apply commit_new_ok in Hrun as (? & ? & Hx). split; [done|]. right. by split_and!.
Qed.

(** C7: a proposal of another validator that [check_block] lets pass over the
    consensus adapter has the number after its proof's, the hash of the stored
    block below it, a timestamp between that block's and the local time, a
    proof [verify_proof] accepts for that block, and the transaction roots of
    its transactions.  Nothing else of it is checked: the proposal with any
    other proposer, gas limit, extra data, mixed hash, base fee, checkpoint and
    chain id passes the same checks. *)
Theorem check_block_sound `{R : Rlp} `{K : Keccak} `{!StaticMerkleTree} `{!PatriciaTrie} {St Mt : Type}
    `{!Storage St} `{!MetadataControl Mt} `{!Evm (AxonExecutorAdapter St)} `{!Interoperation}
    `{!PullRpc} `{!Secp256k1Verify} `{!ErrorText} `{!Overlord} `{!EthBloom} `{!Bls} `{!FasterHex}
    `{!WalName} `{!ConsensusNet} ctx now n hash h p
    (e e' : ConsensusEngine (OverlordConsensusAdapter St Mt)) :
  check_block ctx now n hash p e = (e', Ok tt) → h256_from_slice hash = Ok h →
  h ∉ exemption_hash e →
  p_number p = pf_number (p_proof p) + 1 ∧
  (∃ header block a1 a2 a3,
     get_block_header_by_number ctx (p_number p - 1) (ce_adapter e) = (a1, Ok header) ∧
     Header_hash header = p_prev_hash p ∧
     get_block_by_number ctx (p_number p - 1) a1 = (a2, Ok block) ∧
     h_timestamp (b_header block) ≤ p_timestamp p ≤ now ∧
     verify_proof ctx block (p_proof p) a2 = (a3, Ok tt)) ∧
  p_transactions_root p = default 0 (merkle_root (p_tx_hashes p)) ∧
  (∃ txs a a', ca_get_full_txs ctx (p_tx_hashes p) a = (a', Ok txs) ∧
     digest_signed_transactions txs = Ok (p_signed_txs_hash p)) ∧
  ∀ proposer gas_limit extra_data mixed_hash base_fee checkpoint chain_id,
    snd (inner_check_block ctx now (with_unchecked p proposer gas_limit extra_data mixed_hash base_fee
                                      checkpoint chain_id) (ce_adapter e)) = Ok tt.
Proof.
  unfold check_block. intros Hrun Hh Hex.
  apply bind_lift_inv in Hrun as ([] & [Hn _]%check_proof_number_ok & Hrun). rewrite Hh, bind_lift_ok, bind_gets in Hrun. cbn [id] in Hrun.
  rewrite decide_False in Hrun by done.
  apply bind_inv in Hrun as ([] & e1 & Hin & _). apply bind_inv in Hin as (r & e2 & Ht & Hr).
  assert (snd (inner_check_block ctx now p (ce_adapter e)) = Ok tt) as Hok.
  { unfold try in Ht. rewrite ask_eq in Ht.
    destruct (snd (inner_check_block ctx now p (ce_adapter e))) as [[]|err|]; [done| |done].
    injection Ht as _ <-. by apply bind_inv in Hr as (? & ? & _ & ?). }
  split; [done|]. split_and!; [..|by intros]; clear Hr Ht.
  all: destruct (inner_check_block ctx now p (ce_adapter e)) as [a o] eqn:Hi; cbn [snd] in Hok; subst o.
  all: apply inner_check_ok in Hi as (header & block & txs & a1 & a2 & a3 & a4 & a5 & ? & ? & ? & ? & ? & ? & ? & ?).
  - exists header, block, a1, a2, a3. done.
  - done.
  - by exists txs, a4, a5.
Qed.

(** A proposal numbered zero panics the check instead of failing it: the error
    it would return names the number before. *)
Theorem proposal_zero_panics `{R : Rlp} `{K : Keccak} `{!StaticMerkleTree} `{!Overlord} `{!EthBloom}
    `{!Bls} `{!FasterHex} `{!WalName} {A : Type} `{!ConsensusAdapter A} ctx now n hash p
    (e : ConsensusEngine A) :
  p_number p = 0 → 0 ≤ pf_number (p_proof p) → check_block ctx now n hash p e = (e, Panic).
Proof.
  intros Hp Hpf. unfold check_block. apply bind_panic. unfold lift, check_proof_number. f_equal. rewrite Hp.
  unfold u64_add. destruct (_ <? _); cbn [mbind outcome_bind]; [|done].
  by rewrite (proj2 (Z.eqb_neq 0 _)) by lia.
Qed.

Lemma run_is_ok {S E X} (m : M S E X) s : is_ok (snd (m s)) = true → ∃ s' x, m s = (s', Ok x).
Proof. destruct (m s) as [s' [x| |]]; [|done..]. eauto. Qed.

(** ** Witnesses *)
(** An engine over the stored sample block 5, whose proof three of the four
    validators signed, with an empty mempool. *)
#[local] Existing Instances plain_hex echo_abi echo_evm list_overlord list_bls.
#[local] Existing Instances any_interop any_secp no_peer no_text.
#[local] Instance zero_bloom : EthBloom := {| bloom_raw := λ _, 0 |}.
#[local] Instance one_name : WalName := {| wal_name := λ _, EmptyString |}.
#[local] Instance no_net : ConsensusNet := {|
  call_pull_block := λ _ _ _, Err (PE_Consensus StorageItemNotFound);
  call_sync_pull_txs := λ _ _ _, Ok [];
  call_sync_pull_proof := λ _ _, Err (PE_Consensus StorageItemNotFound);
  gossip_number := λ _ _, Ok tt;
  gossip_message := λ _ _ _ _, Ok tt |}.

Definition tip_proof : Proof :=
  mkProof 5 0 (digest (encode Proposal_codec (Proposal_from_Block sample_block)))
    [x0a; x0b; x0c] [x01; x01; x01; x00].

Definition four_metadata : MetadataController unit :=
  mkController tt {[ 0 := mkMetadata (mkMetadataVersion 0 100) 0 0 0 0 four_validators
                            0 0 0 0 0 0 0 ]} 5 100.

Abbreviation sample_adapter := (OverlordConsensusAdapter (ImplStorage MemoryAdapter) (MetadataController unit)).

Definition sample_engine (locked : bool) : ConsensusEngine sample_adapter :=
  mkEngine (mkCurrentStatus (header_hash sample_block) 5 RLP_NULL 10 30000000 1000000 1337
              tip_proof 0)
    (mkNodeInfo 7 [] 12) 99 ∅
    (OverlordConsensusAdapter_new
       (mkMemPool (sample_pool 5 [])
          (DefaultMemPoolAdapter_new (fst (insert_block ∅ sample_block new_storage)) tt
             four_metadata 0 ∅ 7 30000 100000)) list_crypto)
    (mkTxsWal ∅) list_crypto locked 100 None.

Definition next_proposal : Proposal :=
  match snd (get_proposal ∅ (2 ^ 40) 6 (sample_engine false)) with
  | Ok (p, _) => p
  | _ => Proposal_from_Block sample_block
  end.
Definition next_commit : Commit :=
  mkCommit 6 next_proposal (mkOverlordProof 6 0 (to_be_bytes 32 1) [] []).

Lemma proposal_accepted_witness :
  ∃ e' p hash, get_proposal ∅ (2 ^ 40) 6 (sample_engine false) = (e', Ok (p, hash)) ∧
    p_number p = 6 ∧ p_prev_hash p = header_hash sample_block.
Proof.
  destruct (run_is_ok (get_proposal ∅ (2 ^ 40) 6) (sample_engine false)) as (e' & [p hash] & Hp);
    [vm_compute; reflexivity|].
  exists e', p, hash. split; [exact Hp|].
  destruct (proposal_accepted ∅ (2 ^ 40) 6 (sample_engine false) e' p hash Hp) as (Hn & _ & _ & Hh & _).
  split; [exact Hn|exact Hh].
Defined.

Lemma commit_outcome_witness :
  ∃ e' st, commit ∅ 6 next_commit (sample_engine false) = (e', Ok st) ∧ os_height st = 7.
Proof.
  destruct (run_is_ok (commit ∅ 6 next_commit) (sample_engine false)) as (e' & st & Hc);
    [vm_compute; reflexivity|].
  exists e', st. split; [exact Hc|].
  destruct (commit_outcome ∅ 6 next_commit (sample_engine false) e' (Ok st) Hc) as (_ & _ & _ & Hst).
  exact (proj1 (Hst st eq_refl)).
Defined.

Lemma check_block_sound_witness :
  ∃ header, Header_hash header = p_prev_hash next_proposal.
Proof.
  destruct (run_is_ok (check_block ∅ (2 ^ 40) 6 (to_be_bytes 32 1) next_proposal) (sample_engine false))
    as (e' & [] & Hc); [vm_compute; reflexivity|].
  destruct (check_block_sound ∅ (2 ^ 40) 6 (to_be_bytes 32 1) 1 next_proposal (sample_engine false) e')
    as (_ & (header & _ & _ & _ & _ & _ & Hh & _) & _).
  - exact Hc.
  - vm_compute. reflexivity.
  - apply (bool_decide_unpack _). vm_compute. exact I.
  - exists header. exact Hh.
Defined.
