(* ===== verification/SyncProps.v ===== *)
(** * Properties of the synchronization

    What a finished synchronization has verified and where it leaves the
    statuses, and which proof a synchronized node can serve. *)

From S2P Require Import Prelude Types Codec RlpInstance Traits CodecProps.
From S2P Require Import Heap Pool PoolProps Executor MemPool Storage Interoperation DefaultAdapter.
From S2P Require Import StorageLaws StorageProps TrieInstance Metadata MetadataProps AdapterProps.
From S2P Require Import Overlord Wal Engine ConsensusAdapterImpl Sync QuorumProps EngineProps.

Local Open Scope Z_scope.

(** The chain tip's proof as the pull handler reads it. *)
Definition storage_of `{PatriciaTrie} `{Bls} {St Mt} (o : OverlordConsensusAdapter St Mt) : St :=
  da_storage (mp_adapter (oa_mempool o)).

Section sync.
Context `{R : Rlp} `{K : Keccak} `{!Overlord} `{!EthBloom} `{!FasterHex}
  {A : Type} `{!SynchronizationAdapter A}.
Local Abbreviation sync := (OverlordSynchronization A).

Lemma call_adapter_inv {X} (m : M A ProtocolError X) (y y' : sync) o :
  call_adapter m y = (y', o) →
  m (sy_adapter y) = (sy_adapter y', o) ∧ y' = set_sy_adapter (sy_adapter y') y.
Proof. unfold call_adapter, zoom. destruct (m (sy_adapter y)). by intros [= <- <-]. Qed.

(** A block that was fetched, verified and executed: the remote's proof passes
    for it, its header proves the block below, the transactions have the
    header's digest and executing them gives the header's roots. *)
Definition executed (ctx : Context) (number : Z) (root : MerkleRoot) (block : Block) (proof : Proof)
    (resp : ExecResp) : Prop :=
  ∃ txs prev a0 a1 a2 a3 a4 a5 a6 a7 a8,
    sa_get_block_from_remote ctx number a0 = (a1, Ok block) ∧
    ca_verify_proof ctx block proof a2 = (a3, Ok tt) ∧
    ca_verify_block_header ctx (Proposal_from_Block block) a3 = (a4, Ok tt) ∧
    ca_get_block_by_number ctx (h_number (b_header block) - 1) a4 = (a5, Ok prev) ∧
    ca_verify_proof ctx prev (h_proof (b_header block)) a5 = (a6, Ok tt) ∧
    digest_signed_transactions txs = Ok (h_signed_txs_hash (b_header block)) ∧
    ca_exec ctx root (Proposal_from_Block block) txs a7 = (a8, Ok resp) ∧
    er_state_root resp = h_state_root (b_header block) ∧
    er_receipt_root resp = h_receipts_root (b_header block).

Lemma get_rich_block_ok ctx number size a a' rich :
  get_rich_block_from_remote ctx number size a = (a', Ok rich) →
  ∃ a1, sa_get_block_from_remote ctx number a = (a1, Ok (rb_block rich)).
Proof.
  unfold get_rich_block_from_remote. intros (block & a1 & Hb & Hrun)%bind_inv. case_decide; [done|].
  apply bind_inv in Hrun as (txs & a2 & _ & [= _ <-]). by exists a1.
Qed.

Lemma verify_block_ok ctx rich a a' proof :
  verify_block ctx rich a = (a', Ok proof) →
  ∃ prev a2 a3 a4 a5,
    ca_verify_proof ctx (rb_block rich) proof a2 = (a3, Ok tt) ∧
    ca_verify_block_header ctx (Proposal_from_Block (rb_block rich)) a3 = (a4, Ok tt) ∧
    ca_get_block_by_number ctx (h_number (b_header (rb_block rich)) - 1) a4 = (a5, Ok prev) ∧
    ca_verify_proof ctx prev (h_proof (b_header (rb_block rich))) a5 = (a', Ok tt) ∧
    digest_signed_transactions (rb_txs rich) = Ok (h_signed_txs_hash (b_header (rb_block rich))).
Proof.
  unfold verify_block. intros (pf & a2 & _ & Hrun)%bind_inv.
  apply bind_inv in Hrun as ([] & a3 & Hv & Hrun).
  apply bind_inv in Hrun as ([] & a4 & Hh & Hrun).
  apply bind_lift_inv in Hrun as (number & [-> _]%u64_sub_ok & Hrun).
  apply bind_inv in Hrun as (prev & a5 & Hb & Hrun).
  apply bind_inv in Hrun as ([] & a6 & Hp & Hrun).
  apply bind_inv in Hrun as (d & a7 & [= <- Hd] & Hrun).
  destruct (Z.eqb_spec d (h_signed_txs_hash (b_header (rb_block rich)))) as [->|]; cbn [negb] in Hrun; [|done].
  injection Hrun as <- <-. exists prev, a2, a3, a4, a5. done.
Qed.

Lemma commit_block_ok ctx rich proof (y y' : sync) :
  commit_block ctx rich proof y = (y', Ok tt) →
  ∃ resp md a', ca_exec ctx (cs_last_state_root (sy_agent y)) (Proposal_from_Block (rb_block rich))
      (rb_txs rich) (sy_adapter y) = (a', Ok resp) ∧
    er_state_root resp = h_state_root (b_header (rb_block rich)) ∧
    er_receipt_root resp = h_receipts_root (b_header (rb_block rich)) ∧
    sy_agent y' = synced_status (rb_block rich) resp md proof ∧
    sy_status y' = sy_status y ∧ SYNC_STATUS y' = SYNC_STATUS y.
Proof.
  unfold commit_block, store_synced. rewrite bind_gets.
  intros (resp & y1 & [Hx Hy1]%call_adapter_inv & Hrun)%bind_inv.
  destruct (Z.eqb_spec (er_state_root resp) (h_state_root (b_header (rb_block rich)))); cbn [negb] in Hrun; [|done].
  destruct (Z.eqb_spec (er_receipt_root resp) (h_receipts_root (b_header (rb_block rich))));
    cbn [negb] in Hrun; [|done].
  destruct (generate_receipts_and_logs _ _ _ _ _) as [receipts logs].
  apply bind_inv in Hrun as (md & y2 & [_ Hy2]%call_adapter_inv & Hrun). rewrite bind_modify in Hrun.
  apply bind_inv in Hrun as ([] & y3 & [_ Hy3]%call_adapter_inv & [_ Hy4]%call_adapter_inv).
  assert (sy_agent y' = synced_status (rb_block rich) resp md proof ∧ sy_status y' = sy_status y ∧
    SYNC_STATUS y' = SYNC_STATUS y) as (Ea & Es & Ess) by (by rewrite Hy4, Hy3, Hy2, Hy1).
  clear Hy1 Hy2 Hy3 Hy4. by exists resp, md, (sy_adapter y1).
Qed.

Lemma add_one_same s s' : add_one s = Ok s' → s' = s.
Proof.
  destruct s as [|start current highest]; cbn [add_one]; [by intros [= <-]|].
  destruct (u256_add current 1); cbn [mbind outcome_bind]; [|done..]. by intros [= <-].
Qed.

Lemma sync_one_ok ctx number (y y' : sync) :
  sync_one ctx number y = (y', Ok tt) →
  sy_status y' = sy_status y ∧ SYNC_STATUS y' = SYNC_STATUS y ∧
  ∃ block proof resp md, sy_agent y' = synced_status block resp md proof ∧
    executed ctx number (cs_last_state_root (sy_agent y)) block proof resp.
Proof.
  unfold sync_one. rewrite bind_gets. cbn [id].
  intros (rich & y1 & [Hr Hy1]%call_adapter_inv & Hrun)%bind_inv.
  apply bind_inv in Hrun as (proof & y2 & [Hv Hy2]%call_adapter_inv & Hrun).
  apply bind_inv in Hrun as ([] & y3 & Hc & Hrun). rewrite bind_gets in Hrun.
  apply bind_inv in Hrun as (s & y4 & [= <- ->%add_one_same] & [= <-]). cbn [id].
  apply get_rich_block_ok in Hr as [a1 Hr].
  apply verify_block_ok in Hv as (prev & a2 & a3 & a4 & a5 & ? & ? & ? & ? & ?).
  apply commit_block_ok in Hc as (resp & md & a' & Hx & Hsr & Hrr & Hag & Hst & Hss).
  assert (sy_agent y2 = sy_agent y ∧ sy_status y2 = sy_status y ∧ SYNC_STATUS y2 = SYNC_STATUS y)
    as (Ea & Es & Ess) by (by rewrite Hy2, Hy1).
  cbn [sy_status SYNC_STATUS set_sync_status sy_agent]. split; [congruence|]. split; [congruence|].
  exists (rb_block rich), proof, resp, md. split; [done|]. rewrite Ea in Hx.
  unfold executed. by exists (rb_txs rich), prev, (sy_adapter y), a1, a2, a3, a4, a5, (sy_adapter y2),
    (sy_adapter y2), a'.
Qed.

Lemma sync_loop_ok ctx n c (y y' : sync) :
  sync_loop ctx n c y = (y', Ok tt) →
  sy_status y' = sy_status y ∧ SYNC_STATUS y' = SYNC_STATUS y ∧
  (n ≠ 0%nat → ∃ root block proof resp md, sy_agent y' = synced_status block resp md proof ∧
    executed ctx (c + Z.of_nat n) root block proof resp).
Proof.
  revert c y. induction n as [|n IH]; intros c y; cbn [sync_loop]; [by intros [= <-]|].
  intros ([] & y1 & (Hs1 & Hss1 & Hone)%sync_one_ok & Hrun)%bind_inv.
  apply IH in Hrun as Hrest. destruct Hrest as (Hs & Hss & Hex).
  split; [congruence|]. split; [congruence|]. intros _. destruct n as [|n].
  - injection Hrun as <-. destruct Hone as (block & proof & resp & md & ? & ?).
    exists (cs_last_state_root (sy_agent y)), block, proof, resp, md. done.
  - destruct Hex as (root & block & proof & resp & md & ? & ?); [done|].
    exists root, block, proof, resp, md. split; [done|].
    by replace (c + Z.of_nat (S (S n))) with (c + 1 + Z.of_nat (S n)) by lia.
Qed.
End sync.

Section proof.
Context `{R : Rlp} `{K : Keccak} `{!LruCrate} {Db : Type} `{!StorageAdapter Db} `{!StaticMerkleTree}
  `{!PatriciaTrie} {Mt : Type} `{!MetadataControl Mt} `{!Evm (AxonExecutorAdapter (ImplStorage Db))}
  `{!Interoperation} `{!PullRpc} `{!Secp256k1Verify} `{!ErrorText} `{!Overlord} `{!Bls}
  `{!FasterHex} `{!ConsensusNet}.

Lemma in_storage_inv {X} (m : M (ImplStorage Db) ProtocolError X)
    (o o' : OverlordConsensusAdapter (ImplStorage Db) Mt) r :
  in_storage m o = (o', r) → m (storage_of o) = (storage_of o', r).
Proof.
  unfold in_storage, on_shared, on_mempool, on_adapter, on_storage, zoom, storage_of.
  destruct (m _). by intros [= <- <-].
Qed.

Lemma on_db_keeps_proof {X} (m : M Db ProtocolError X) (s s' : ImplStorage Db) r :
  on_db m s = (s', r) → latest_proof s' = latest_proof s.
Proof. unfold on_db, zoom. destruct (m _). by intros [= <- _]. Qed.

Lemma insert_block_keeps_proof ctx b (s s' : ImplStorage Db) :
  insert_block ctx b s = (s', Ok tt) → latest_proof s' = latest_proof s.
Proof.
  unfold insert_block, set_block, set_latest_block. intros ([] & s1 & Hb & Hl)%bind_inv.
  apply bind_inv in Hb as ([] & s2 & E2%on_db_keeps_proof & Hb).
  apply bind_inv in Hb as ([] & s3 & E3%on_db_keeps_proof & E4%on_db_keeps_proof).
  apply bind_inv in Hl as ([] & s5 & E5%on_db_keeps_proof & [= <-]). cbn [latest_proof]. congruence.
Qed.

Lemma update_latest_proof_set ctx proof (s s' : ImplStorage Db) :
  update_latest_proof ctx proof s = (s', Ok tt) → latest_proof s' = Some proof.
Proof. unfold update_latest_proof. by intros ([] & s1 & _ & [= <-])%bind_inv. Qed.

Lemma save_chain_data_proof ctx txs receipts block
    (o o' : OverlordConsensusAdapter (ImplStorage Db) Mt) :
  save_chain_data ctx txs receipts block o = (o', Ok tt) →
  latest_proof (storage_of o') = Some (h_proof (b_header block)).
Proof.
  unfold save_chain_data. intros ([] & o1 & _ & Hrun)%bind_inv.
  apply bind_inv in Hrun as ([] & o2 & _ & Hrun).
  apply bind_inv in Hrun as ([] & o3 & Hp%in_storage_inv & Hb%in_storage_inv).
  apply (update_latest_proof_set ctx) in Hp. apply (insert_block_keeps_proof ctx) in Hb. congruence.
Qed.
End proof.

(** ** Properties *)
(** C10: a [start_sync] that returns has gone up to the remote height, or fifty
    blocks: the last block it fetched was asked for by that number, the remote's
    proof passes for it, and executing its transactions gave its header's state
    and receipt roots; the synchronization's status is that block's.  The
    status of the engine is untouched, and the progress it reports is still the
    height it started from. *)
Theorem start_sync_outcome `{R : Rlp} `{K : Keccak} `{!Overlord} `{!EthBloom} `{!FasterHex}
    {A : Type} `{!SynchronizationAdapter A} ctx current remote (y y' : OverlordSynchronization A) :
  start_sync ctx current remote y = (y', Ok tt) → 0 ≤ current < remote →
  let target := Z.min remote (current + ONCE_SYNC_BLOCK_LIMIT) in
  sy_status y' = sy_status y ∧ SYNC_STATUS y' = Syncing current current target ∧
  ∃ root block proof resp md, sy_agent y' = synced_status block resp md proof ∧
    executed ctx target root block proof resp.
Proof.
  intros Hrun Hc target. unfold start_sync in Hrun. apply bind_lift_inv in Hrun as (t & Ht & Hrun).
  assert (t = target) as ->.
  { unfold sync_target in Ht. destruct (u64_add current ONCE_SYNC_BLOCK_LIMIT) as [l| |] eqn:El;
      cbn [mbind outcome_bind] in Ht; [|done..]. apply u64_add_ok in El as [-> _]. injection Ht as <-.
    unfold target. destruct (Z.ltb_spec remote (current + ONCE_SYNC_BLOCK_LIMIT)); lia. }
  rewrite bind_modify in Hrun. apply sync_loop_ok in Hrun as (-> & -> & Hex).
  split; [done|]. split; [done|].
  assert (current < target) by (unfold target, ONCE_SYNC_BLOCK_LIMIT; lia).
  replace (current + Z.of_nat (Z.to_nat (target - current))) with target in Hex by lia.
  apply Hex. lia.
Qed.

(** A node that has just synchronized a block cannot serve its proof:
    [save_chain_data] stores the proof inside the block's header, which is the
    one of the block below, as the latest, and the pull handler answers with an
    error for every higher number, the new block's included. *)
Theorem synced_proof_missing `{R : Rlp} `{K : Keccak} `{!LruCrate} {Db : Type} `{!StorageAdapter Db}
    `{!StaticMerkleTree} `{!PatriciaTrie} {Mt : Type} `{!MetadataControl Mt}
    `{!Evm (AxonExecutorAdapter (ImplStorage Db))} `{!Interoperation} `{!PullRpc}
    `{!Secp256k1Verify} `{!ErrorText} `{!Overlord} `{!Bls} `{!FasterHex} `{!ConsensusNet}
    ctx txs receipts block number (o o' : OverlordConsensusAdapter (ImplStorage Db) Mt) :
  save_chain_data ctx txs receipts block o = (o', Ok tt) →
  pf_number (h_proof (b_header block)) < number →
  pull_proof_answer ctx number (storage_of o') = (storage_of o', Err (PE_Storage GetNone)).
Proof.
  intros Hp%save_chain_data_proof Hn. unfold pull_proof_answer.
  assert (get_latest_proof ctx (storage_of o') = (storage_of o', Ok (h_proof (b_header block)))) as Hg.
  { unfold get_latest_proof. rewrite bind_gets. by rewrite Hp. }
  assert (try (st_get_latest_proof ctx) (storage_of o') =
          (storage_of o', Ok (Ok (h_proof (b_header block))))) as Ht.
  { unfold try. cbn [st_get_latest_proof impl_storage]. by rewrite Hg. }
  mrun Ht. rewrite (proj2 (Z.ltb_ge _ _)), (proj2 (Z.eqb_neq _ _)) by lia. done.
Qed.

(** ** Witnesses *)
(** The adapter of the sample engine, and a peer that serves a block 6. *)
#[local] Existing Instances plain_hex echo_abi echo_evm list_overlord list_bls zero_bloom.
#[local] Existing Instances any_interop any_secp no_peer no_text one_name.

Definition next_resp : ExecResp :=
  match snd (exec_on_root RLP_NULL next_proposal [] (mp_adapter (oa_mempool (ce_adapter (sample_engine false))))) with
  | Ok resp => resp
  | _ => mkExecResp 0 0 0 []
  end.
Definition next_block : Block := Block_new next_proposal next_resp.
Definition next_proof : Proof :=
  mkProof 6 0 (digest (encode Proposal_codec (Proposal_from_Block next_block)))
    [x0b; x0c; x0d] [x00; x01; x01; x01].

#[local] Instance sync_net : ConsensusNet := {|
  call_pull_block := λ _ _ _, Ok next_block;
  call_sync_pull_txs := λ _ _ _, Ok [];
  call_sync_pull_proof := λ _ _, Ok next_proof;
  gossip_number := λ _ _, Ok tt;
  gossip_message := λ _ _ _ _, Ok tt |}.

Definition sample_sync : OverlordSynchronization sample_adapter :=
  mkSync (ce_adapter (sample_engine false)) (ce_status (sample_engine false))
    (ce_status (sample_engine false)) false false 10 NotSyncing.

Lemma start_sync_outcome_witness :
  ∃ y', start_sync ∅ 5 6 sample_sync = (y', Ok tt) ∧ SYNC_STATUS y' = Syncing 5 5 6.
Proof.
  destruct (run_is_ok (start_sync ∅ 5 6) sample_sync) as (y' & [] & Hs); [vm_compute; reflexivity|].
  exists y'. split; [exact Hs|].
  destruct (start_sync_outcome ∅ 5 6 sample_sync y' Hs) as (_ & Hss & _); [lia|exact Hss].
Defined.

Lemma synced_proof_missing_witness :
  ∃ o', save_chain_data ∅ [] [] next_block (ce_adapter (sample_engine false)) = (o', Ok tt) ∧
    snd (pull_proof_answer ∅ 6 (storage_of o')) = Err (PE_Storage GetNone).
Proof.
  destruct (run_is_ok (save_chain_data ∅ [] [] next_block) (ce_adapter (sample_engine false)))
    as (o' & [] & Hs); [vm_compute; reflexivity|].
  exists o'. split; [exact Hs|].
  rewrite (synced_proof_missing ∅ [] [] next_block 6 (ce_adapter (sample_engine false)) o' Hs);
    [reflexivity|vm_compute; reflexivity].
Defined.
