(* ===== verification/NetAddr.v ===== *)
(** * Network addresses

    IP and socket addresses of [std::net], what the node uses of the
    [tentacle], [multiaddr] and [ipnetwork] crates (classes), and the address
    records of [core/network/src/peer_manager/peer_store/types.rs] and
    [mod.rs].  The times the code reads from [faketime] are arguments. *)

From S2P Require Import Prelude Types Codec Traits Overlord.

Local Open Scope Z_scope.

(** ** [std::net] *)
(** The 32 or 128 bits of an address, most significant octet first. *)
Inductive IpAddr : Type := V4 (bits : Z) | V6 (bits : Z).
Record SocketAddr := mkSocketAddr { sa_ip : IpAddr; sa_port : Z }.

#[global] Instance IpAddr_eq_dec : EqDecision IpAddr.
Proof. solve_decision. Defined.
#[global] Instance IpAddr_countable : Countable IpAddr.
Proof.
  refine (inj_countable' (λ ip, match ip with V4 b => inl b | V6 b => inr b end)
            (λ s, match s with inl b => V4 b | inr b => V6 b end) _). by intros [].
Defined.
#[global] Instance SocketAddr_eq_dec : EqDecision SocketAddr.
Proof. solve_decision. Defined.
#[global] Instance SocketAddr_countable : Countable SocketAddr.
Proof.
  refine (inj_countable' (λ a, (sa_ip a, sa_port a)) (λ p, mkSocketAddr p.1 p.2) _). by intros [].
Defined.

Definition is_loopback (ip : IpAddr) : bool :=
  match ip with V4 b => b / 2 ^ 24 =? 127 | V6 b => b =? 1 end.
Definition is_unspecified (ip : IpAddr) : bool :=
  match ip with V4 b => b =? 0 | V6 b => b =? 0 end.

(** [Ipv6Addr::to_ipv4]: IPv4-compatible and IPv4-mapped addresses *)
Definition to_ipv4 (bits : Z) : option Z :=
  if (bits / 2 ^ 32 =? 0) || (bits / 2 ^ 32 =? 0xffff) then Some (bits mod 2 ^ 32) else None.

(** [a.saturating_add(b)] at width [w] *)
Definition saturating_add (w a b : Z) : Z := Z.min (2 ^ w - 1) (a + b).

(** ** Errors of [core/network/src/error.rs]
    Boxed causes are kept only where a theorem needs them.  The last
    constructor of [NetworkError] is not one of the enum's: it is what the codec
    of a message raised, boxed as the network's errors are in a
    [ProtocolError]. *)
Inductive ErrorKind : Type :=
| Offline (what : string)
| MissingProtocol (name : string)
| BadProtocolHandle (proto_id : Z)
| NotIdString
| BadMessage
| UnknownRpc (sid rid : Z)
| UnexpectedRpcSender
| MoreArcRpcSender
| NoSessionId
| NoRemotePeerId
| NoRpcId
| RpcDropped
| RpcTimeout
| NoReactor (endpoint : string)
| NoChainAddress
| PublicKeyNotMatchId
| Untaggable (reason : string)
| PeerStoreEvictionFailed
| PeerStoreSerde
| EK_Internal (msg : string).

Inductive NetworkError : Type :=
| IoError
| Busy
| SendError (blocked : option (list Z)) (other : bool)
| MultiCast (unconnected : option nat) (other : bool)
| Shutdown
| UnexpectedError
| InvalidPublicKey
| InvalidPrivateKey
| InvalidPeerId
| UnexpectedPeerAddr (addr : string)
| UnexpectedScheme (scheme : string)
| SerdeError
| NotEndpoint
| RemoteResponse (msg : string)
| InboundLimitEqualOrSmallerThanMaxConn
| NE_Internal (kind : ErrorKind)
| NE_Boxed (e : ProtocolError).

(** ** External crates *)
(** The components of a [Multiaddr] the node distinguishes. *)
Inductive Protocol : Type :=
| Ip4 (bits : Z)
| Ip6 (bits : Z)
| Dns4 (name : string)
| Dns6 (name : string)
| Tls (name : string)
| Tcp (port : Z)
| P2P (peer_id : bytes)
| OtherProtocol (code : Z) (data : bytes).

(** [multiaddr], [tentacle::secio::PeerId], [tentacle::utils] *)
Class Tentacle := {
  Multiaddr : Type;
  Multiaddr_eq_dec :: EqDecision Multiaddr;
  Multiaddr_countable :: Countable Multiaddr;
  PeerId : Type;
  PeerId_eq_dec :: EqDecision PeerId;
  PeerId_countable :: Countable PeerId;
  multiaddr_to_socketaddr : Multiaddr → option SocketAddr;
  extract_peer_id : Multiaddr → option PeerId;
  is_reachable : IpAddr → bool;
  multiaddr_iter : Multiaddr → list Protocol;
  multiaddr_collect : list Protocol → Multiaddr;
  multiaddr_to_vec : Multiaddr → bytes;
  multiaddr_try_from : bytes → option Multiaddr;
  peer_id_as_bytes : PeerId → bytes;
  peer_id_from_bytes : bytes → option PeerId
}.

(** [ipnetwork::IpNetwork]: [From<IpAddr>] gives the network of that address
    alone. *)
Class IpNetworks := {
  IpNetwork : Type;
  IpNetwork_eq_dec :: EqDecision IpNetwork;
  IpNetwork_countable :: Countable IpNetwork;
  network_from : IpAddr → IpNetwork;
  network_contains : IpNetwork → IpAddr → bool;
  network_from_contains ip ip' : network_contains (network_from ip) ip' = bool_decide (ip = ip')
}.

(** The random choices of [rand]: [gen_range(low, high)] at its [k]-th call, and
    [choose_multiple], a sample without repetition; and the iteration order of
    [HashMap] and [HashSet]. *)
Class Randomness := {
  gen_range : nat → nat → nat → nat;
  gen_range_bounds k low high : (low < high)%nat → (low ≤ gen_range k low high < high)%nat;
  choose_multiple : ∀ {A}, nat → list A → list A;
  choose_multiple_sub {A} n (l : list A) : choose_multiple n l ⊆+ l;
  choose_multiple_length {A} n (l : list A) : length (choose_multiple n l) = Nat.min n (length l);
  iter_order : ∀ {A}, list A → list A;
  iter_order_perm {A} (l : list A) : iter_order l ≡ₚ l
}.

(** [tentacle::service::SessionType]; [SessionId] and [ProtocolId] are
    numbers. *)
Inductive SessionType : Type := Outbound | Inbound.
#[global] Instance SessionType_eq_dec : EqDecision SessionType.
Proof. solve_decision. Defined.
Definition is_outbound (ty : SessionType) : bool := bool_decide (ty = Outbound).

(** ** Constants of [peer_store/mod.rs] and [ban_list.rs] *)
Definition ADDR_COUNT_LIMIT : nat := Z.to_nat 16384.
Definition ADDR_TIMEOUT_MS : Z := 7 * 24 * 3600 * 1000.
Definition ADDR_TRY_TIMEOUT_MS : Z := 3 * 24 * 3600 * 1000.
Definition DIAL_INTERVAL : Z := 15 * 1000.
Definition ADDR_MAX_RETRIES : Z := 3.
Definition ADDR_MAX_FAILURES : Z := 10.
Definition CLEAR_INTERVAL_COUNTER : Z := 1024.

Record PeerScoreConfig := mkScoreConfig {
  default_score : Z;
  ban_score : Z;
  ban_timeout_ms : Z
}.
Definition PeerScoreConfig_default : PeerScoreConfig := mkScoreConfig 100 40 (24 * 3600 * 1000).

Inductive PeerStatus : Type := Connected | Disconnected.
Inductive ReportResult : Type := ReportOk | Banned.

Section addrs.
Context `{!Tentacle} `{!IpNetworks}.

(** ** [AddrInfo] *)
Record AddrInfo := mkAddrInfo {
  ai_addr : Multiaddr;
  ai_score : Z;
  ai_last_connected_at_ms : Z;
  ai_last_tried_at_ms : Z;
  ai_attempts_count : Z;
  ai_random_id_pos : nat
}.

Definition AddrInfo_new (addr : Multiaddr) (last_connected_at_ms score : Z) : AddrInfo :=
  mkAddrInfo addr score last_connected_at_ms 0 0 0.

Definition set_random_id_pos (pos : nat) (a : AddrInfo) : AddrInfo :=
  mkAddrInfo (ai_addr a) (ai_score a) (ai_last_connected_at_ms a) (ai_last_tried_at_ms a)
    (ai_attempts_count a) pos.
Definition set_score (score : Z) (a : AddrInfo) : AddrInfo :=
  mkAddrInfo (ai_addr a) score (ai_last_connected_at_ms a) (ai_last_tried_at_ms a)
    (ai_attempts_count a) (ai_random_id_pos a).

(** [connected]: a test of the last connection's time *)
Definition connected (f : Z → bool) (a : AddrInfo) : bool := f (ai_last_connected_at_ms a).

Definition tried_in_last_minute (now_ms : Z) (a : AddrInfo) : bool :=
  saturating_sub now_ms 60000 <=? ai_last_tried_at_ms a.

Definition is_connectable (now_ms : Z) (a : AddrInfo) : bool :=
  if tried_in_last_minute now_ms a then true
  else if (ai_last_connected_at_ms a =? 0) && (ADDR_MAX_RETRIES <=? ai_attempts_count a) then false
  else if (ADDR_TIMEOUT_MS <? saturating_sub now_ms (ai_last_connected_at_ms a)) &&
          (ADDR_MAX_FAILURES <=? ai_attempts_count a) then false
  else true.

Definition mark_tried (tried_at_ms : Z) (a : AddrInfo) : AddrInfo :=
  mkAddrInfo (ai_addr a) (ai_score a) (ai_last_connected_at_ms a) tried_at_ms
    (saturating_add 32 (ai_attempts_count a) 1) (ai_random_id_pos a).

Definition mark_connected (connected_at_ms : Z) (a : AddrInfo) : AddrInfo :=
  mkAddrInfo (ai_addr a) (ai_score a) connected_at_ms (ai_last_tried_at_ms a) 0
    (ai_random_id_pos a).

(** ** [BannedAddr] and networks *)
Record BannedAddr := mkBannedAddr {
  ba_address : IpNetwork;
  ban_until : Z;
  ban_reason : string;
  ba_created_at : Z
}.

Definition ip_to_network (ip : IpAddr) : IpNetwork := network_from ip.

Definition multiaddr_to_ip_network (addr : Multiaddr) : option IpNetwork :=
  head (omap (λ p, match p with
                   | Ip4 bits => Some (network_from (V4 bits))
                   | Ip6 bits => Some (network_from (V6 bits))
                   | _ => None
                   end) (multiaddr_iter addr)).

(** ** [Group] *)
Inductive Group : Type :=
| GroupNone
| LocalNetwork
| GroupIP4 (prefix : Z)
| GroupIP6 (prefix : Z).

Definition Group_from (addr : Multiaddr) : Group :=
  match multiaddr_to_socketaddr addr with
  | Some socket_addr =>
      let ip := sa_ip socket_addr in
      if is_loopback ip then LocalNetwork else
      match ip with
      | V4 bits => GroupIP4 (bits / 2 ^ 16)
      | V6 bits =>
          match to_ipv4 bits with
          | Some v4 => GroupIP4 (v4 / 2 ^ 16)
          | None => GroupIP6 (bits / 2 ^ 96)
          end
      end
  | None => GroupNone
  end.
End addrs.

#[global] Instance Group_eq_dec : EqDecision Group.
Proof. solve_decision. Defined.

(** ** Concrete crates for examples
    An address is an IP address, a port and an optional peer id; nothing is
    random. *)
Definition plain_tentacle : Tentacle := {|
  Multiaddr := IpAddr * Z * option bytes;
  PeerId := bytes;
  multiaddr_to_socketaddr a := Some (mkSocketAddr a.1.1 a.1.2);
  extract_peer_id a := a.2;
  is_reachable ip := negb (is_loopback ip);
  multiaddr_iter a :=
    match a.1.1 with V4 b => Ip4 b | V6 b => Ip6 b end :: Tcp a.1.2 ::
      match a.2 with Some p => [P2P p] | None => [] end;
  multiaddr_collect l :=
    (default (V4 0) (head (omap (λ p, match p with Ip4 b => Some (V4 b) | Ip6 b => Some (V6 b) | _ => None end) l)),
     default 0 (head (omap (λ p, match p with Tcp t => Some t | _ => None end) l)),
     head (omap (λ p, match p with P2P i => Some i | _ => None end) l));
  multiaddr_to_vec a := [];
  multiaddr_try_from _ := None;
  peer_id_as_bytes p := p;
  peer_id_from_bytes b := Some b
|}.

Definition plain_randomness : Randomness.
Proof.
  refine {| gen_range _ low _ := low; choose_multiple A n l := take n l; iter_order A l := l |}; intros.
  - lia.
  - apply sublist_submseteq, sublist_take.
  - apply length_take.
  - done.
Defined.

Definition plain_networks : IpNetworks.
Proof.
  by refine {| IpNetwork := IpAddr; network_from ip := ip; network_contains n ip := bool_decide (n = ip) |}.
Defined.
