(* ===== verification/AddrManager.v ===== *)
(** * The address manager

    [Manager] of [core/network/src/peer_manager/peer_store/addr_manager.rs]:
    the table of known peer addresses, indexed by socket address, by number
    and by peer id, with a vector of the numbers that is shuffled in place to
    draw addresses at random. *)

From S2P Require Import Prelude Types Overlord NetAddr.

Local Open Scope Z_scope.

Section manager.
Context `{!Tentacle} `{!Randomness}.

Record Manager := mkManager {
  next_id : Z;
  addr_to_id : gmap SocketAddr Z;
  id_to_info : gmap Z AddrInfo;
  peer_id_to_id : gmap PeerId (gset Z);
  random_ids : list Z
}.
Definition Manager_default : Manager := mkManager 0 ∅ ∅ ∅ [].

Definition set_next_id v m :=
  mkManager v (addr_to_id m) (id_to_info m) (peer_id_to_id m) (random_ids m).
Definition set_addr_to_id v m :=
  mkManager (next_id m) v (id_to_info m) (peer_id_to_id m) (random_ids m).
Definition set_id_to_info v m :=
  mkManager (next_id m) (addr_to_id m) v (peer_id_to_id m) (random_ids m).
Definition set_peer_id_to_id v m :=
  mkManager (next_id m) (addr_to_id m) (id_to_info m) v (random_ids m).
Definition set_random_ids v m :=
  mkManager (next_id m) (addr_to_id m) (id_to_info m) (peer_id_to_id m) v.

Abbreviation MM := (M Manager NetworkError).

(** [self.id_to_info.get_mut(&id).expect("exists").random_id_pos = pos] *)
Definition move_id (id : Z) (pos : nat) : MM unit := λ m,
  match id_to_info m !! id with
  | Some info => (set_id_to_info (<[id := set_random_id_pos pos info]> (id_to_info m)) m, Ok tt)
  | None => (m, Panic)
  end.

(** Indexing [self.random_ids[i]] panics out of range. *)
Definition swap_random_id (i j : nat) : MM unit :=
  if decide (i = j) then mret tt else
  ids ← gets random_ids;
  id_i ← lift (unwrap (ids !! i));
  move_id id_i j;;
  id_j ← lift (unwrap (ids !! j));
  move_id id_j i;;
  modify (set_random_ids (<[j := id_i]> (<[i := id_j]> ids))).

Definition get (addr : Multiaddr) (m : Manager) : option AddrInfo :=
  key ← multiaddr_to_socketaddr addr;
  id ← addr_to_id m !! key;
  id_to_info m !! id.

(** A write through [get_mut]: nothing happens for an unknown address. *)
Definition get_mut (addr : Multiaddr) (f : AddrInfo → AddrInfo) (m : Manager) : Manager :=
  match multiaddr_to_socketaddr addr ≫= λ key, addr_to_id m !! key with
  | Some id => set_id_to_info (alter f id (id_to_info m)) m
  | None => m
  end.

Definition remove (addr : Multiaddr) : MM (option AddrInfo) :=
  match multiaddr_to_socketaddr addr with
  | None => mret None
  | Some key =>
      known ← gets (λ m, addr_to_id m !! key);
      match known with
      | None => mret None
      | Some id =>
          modify (λ m, set_addr_to_id (delete key (addr_to_id m)) m);;
          info ← gets (λ m, id_to_info m !! id);
          pos ← lift (ai_random_id_pos <$> unwrap info);
          len ← gets (λ m, length (random_ids m));
          (if decide (len = 0%nat) then lift Panic else swap_random_id pos (len - 1));;
          modify (λ m, set_random_ids (take (length (random_ids m) - 1) (random_ids m)) m);;
          (match extract_peer_id addr with
           | Some peer_id =>
               modify (λ m, set_peer_id_to_id (alter (λ set, set ∖ {[id]}) peer_id (peer_id_to_id m)) m)
           | None => mret tt
           end);;
          removed ← gets (λ m, id_to_info m !! id);
          modify (λ m, set_id_to_info (delete id (id_to_info m)) m);;
          mret removed
      end
  end.

(** The tail of [add], once the address is known to be new. *)
Definition add_fresh (key : SocketAddr) (peer_id : PeerId) (addr_info : AddrInfo) : MM unit :=
  id ← gets next_id;
  modify (λ m, set_addr_to_id (<[key := id]> (addr_to_id m)) m);;
  len ← gets (λ m, length (random_ids m));
  modify (λ m, set_id_to_info (<[id := set_random_id_pos len addr_info]> (id_to_info m)) m);;
  modify (λ m, set_peer_id_to_id
    (<[peer_id := {[id]} ∪ default ∅ (peer_id_to_id m !! peer_id)]> (peer_id_to_id m)) m);;
  modify (λ m, set_random_ids (random_ids m ++ [id]) m);;
  next ← lift (u64_add id 1);
  modify (set_next_id next).

Definition add (addr_info : AddrInfo) : MM unit :=
  match multiaddr_to_socketaddr (ai_addr addr_info) with
  | None => mret tt
  | Some key =>
      exists_ ← gets (get (ai_addr addr_info));
      stay ← (match exists_ with
              | Some old =>
                  if ai_last_connected_at_ms old <? ai_last_connected_at_ms addr_info
                  then remove (ai_addr addr_info);; mret true
                  else mret false
              | None => mret true
              end);
      if negb stay then mret tt else
      match extract_peer_id (ai_addr addr_info) with
      | Some peer_id => add_fresh key peer_id addr_info
      | None => mret tt
      end
  end.

(** The loop of [fetch_random] from index [i], [n] rounds before the end. *)
Fixpoint fetch_loop (now_ms : Z) (filter : AddrInfo → bool) (count n i : nat)
    (duplicate_ips : gset IpAddr) (addr_infos : list AddrInfo) : MM (list AddrInfo) :=
  match n with
  | O => mret addr_infos
  | S n' =>
      len ← gets (λ m, length (random_ids m));
      swap_random_id (gen_range i i len) i;;
      ids ← gets random_ids;
      id ← lift (unwrap (ids !! i));
      info ← gets (λ m, id_to_info m !! id);
      addr_info ← lift (unwrap info);
      match multiaddr_to_socketaddr (ai_addr addr_info) with
      | None => fetch_loop now_ms filter count n' (S i) duplicate_ips addr_infos
      | Some socket_addr =>
          let ip := sa_ip socket_addr in
          let is_unique_ip := bool_decide (ip ∉ duplicate_ips) in
          let is_test_ip := is_unspecified ip || is_loopback ip in
          let addr_infos :=
            if (is_test_ip || is_unique_ip) && is_connectable now_ms addr_info && filter addr_info
            then addr_infos ++ [addr_info] else addr_infos in
          if decide (length addr_infos = count) then mret addr_infos
          else fetch_loop now_ms filter count n' (S i) ({[ip]} ∪ duplicate_ips) addr_infos
      end
  end.

Definition fetch_random (now_ms : Z) (count : nat) (filter : AddrInfo → bool)
    : MM (list AddrInfo) :=
  len ← gets (λ m, length (random_ids m));
  fetch_loop now_ms filter count len 0 ∅ [].

Definition count (m : Manager) : nat := size (addr_to_id m).
Definition addrs_iter (m : Manager) : list AddrInfo :=
  iter_order (snd <$> map_to_list (id_to_info m)).

Definition get_by_peer_id (now_ms : Z) (peer_id : PeerId) (filter : AddrInfo → bool) (m : Manager)
    : outcome NetworkError (gset Multiaddr) :=
  match peer_id_to_id m !! peer_id with
  | None => Ok ∅
  | Some set =>
      infos ← traverse (λ id, unwrap (id_to_info m !! id)) (iter_order (elements set));
      Ok (list_to_set (omap (λ info,
            if is_connectable now_ms info && filter info then Some (ai_addr info) else None) infos))
  end.

(** [Manager::load] once the file's records are read, and the records
    [Manager::dump] writes. *)
Definition load (addrs : list AddrInfo) : outcome NetworkError Manager :=
  match for_each add addrs Manager_default with
  | (m, Ok _) => Ok m
  | (_, Err e) => Err e
  | (_, Panic) => Panic
  end.
Definition dump (m : Manager) : list AddrInfo := addrs_iter m.
End manager.
