(* ===== verification/AddrManagerProps.v ===== *)
(** * Correctness of the address manager

    The three indexes of [Manager] stay consistent under every operation, so
    that none of its [expect]s and indexings panics; the operations implement
    updates of one finite table of addresses; and what [fetch_random] draws. *)

From S2P Require Import Prelude Types Overlord NetAddr AddrManager.

Local Open Scope Z_scope.

Section props.
Context `{!Tentacle} `{!Randomness}.
Implicit Types (m : Manager) (info : AddrInfo) (key : SocketAddr).

(** ** The invariant *)
(** [random_ids] enumerates the known numbers, each at its [random_id_pos]. *)
Definition pos_of m (id : Z) : option nat := ai_random_id_pos <$> id_to_info m !! id.
Definition pos_inv m : Prop := ∀ i id, random_ids m !! i = Some id ↔ pos_of m id = Some i.

(** The address recorded under a number. *)
Definition addr_of m (id : Z) : option Multiaddr := ai_addr <$> id_to_info m !! id.

Record table_inv m : Prop := {
  inv_addr key id : addr_to_id m !! key = Some id ↔
    ∃ addr, addr_of m id = Some addr ∧ multiaddr_to_socketaddr addr = Some key;
  inv_sock id addr : addr_of m id = Some addr → is_Some (multiaddr_to_socketaddr addr);
  inv_next id addr : addr_of m id = Some addr → 0 ≤ id < next_id m;
  inv_peer id addr : addr_of m id = Some addr →
    ∃ p set, extract_peer_id addr = Some p ∧ peer_id_to_id m !! p = Some set ∧ id ∈ set;
  inv_stale p set id : peer_id_to_id m !! p = Some set → id ∈ set →
    0 ≤ id < next_id m ∧ ∀ addr, addr_of m id = Some addr → extract_peer_id addr = Some p
}.

Definition manager_inv m : Prop := pos_inv m ∧ table_inv m ∧ 0 ≤ next_id m < 2 ^ 64.

(** ** The abstract table *)
Definition strip info : AddrInfo := set_random_id_pos 0 info.
Definition lookup_key (key : SocketAddr) m : option AddrInfo :=
  strip <$> (addr_to_id m !! key ≫= λ id, id_to_info m !! id).

(** What [add] does to the table. *)
Definition table_add info (t : SocketAddr → option AddrInfo) (key : SocketAddr) : option AddrInfo :=
  if decide (multiaddr_to_socketaddr (ai_addr info) = Some key) then
    match t key with
    | Some old =>
        if ai_last_connected_at_ms old <? ai_last_connected_at_ms info
        then (λ _, strip info) <$> extract_peer_id (ai_addr info)
        else Some old
    | None => (λ _, strip info) <$> extract_peer_id (ai_addr info)
    end
  else t key.

(** What [remove] does to it. *)
Definition table_remove (addr : Multiaddr) (t : SocketAddr → option AddrInfo) (key : SocketAddr)
    : option AddrInfo :=
  if decide (multiaddr_to_socketaddr addr = Some key) then None else t key.

(** Two managers that differ only in the order of [random_ids]. *)
Record reordered m m' : Prop := {
  ro_next : next_id m' = next_id m;
  ro_addr : addr_to_id m' = addr_to_id m;
  ro_peer : peer_id_to_id m' = peer_id_to_id m;
  ro_len : length (random_ids m') = length (random_ids m);
  ro_info id : strip <$> id_to_info m' !! id = strip <$> id_to_info m !! id
}.

#[global] Instance reordered_refl : Reflexive reordered.
Proof. by split. Qed.
#[global] Instance reordered_trans : Transitive reordered.
Proof. intros m1 m2 m3 [] []. split; congruence. Qed.

Lemma reordered_addr_of m m' id : reordered m m' → addr_of m' id = addr_of m id.
Proof.
  intros Hr. pose proof (ro_info _ _ Hr id) as E. unfold addr_of.
  destruct (id_to_info m' !! id), (id_to_info m !! id); cbn in *; try done.
  by injection E as ->.
Qed.

Lemma reordered_table m m' : reordered m m' → table_inv m → table_inv m'.
Proof.
  intros Hr [Ha Hs Hn Hp Hst].
  assert (Hao := λ id, reordered_addr_of _ _ id Hr). destruct Hr as [E1 E2 E3 E4 E5].
  split; intros *; rewrite ?E1, ?E2, ?E3, ?Hao; eauto.
Qed.

Lemma reordered_lookup m m' key : reordered m m' → lookup_key key m' = lookup_key key m.
Proof.
  intros [E1 E2 E3 E4 E5]. unfold lookup_key. rewrite E2.
  destruct (addr_to_id m !! key) as [id|]; [|done]. cbn. apply E5.
Qed.

(** ** Swapping *)
Lemma pos_inv_inj m i j id : pos_inv m →
  random_ids m !! i = Some id → random_ids m !! j = Some id → i = j.
Proof. intros Hp Hi%Hp Hj%Hp. congruence. Qed.

Lemma pos_of_info m id i : pos_of m id = Some i →
  ∃ info, id_to_info m !! id = Some info ∧ ai_random_id_pos info = i.
Proof. unfold pos_of. destruct (id_to_info m !! id); cbn; [|done]. intros [= <-]. eauto. Qed.

Lemma lookup_swap {A} (l : list A) i j a b k : l !! i = Some a → l !! j = Some b →
  <[j := a]> (<[i := b]> l) !! k =
    if decide (k = j) then Some a else if decide (k = i) then Some b else l !! k.
Proof.
  intros Hi%lookup_lt_Some Hj%lookup_lt_Some. repeat case_decide; subst.
  - apply list_lookup_insert_eq. by rewrite length_insert.
  - rewrite list_lookup_insert_ne by done. by apply list_lookup_insert_eq.
  - by rewrite !list_lookup_insert_ne.
Qed.

(** The run of [swap_random_id] on two known positions. *)
Lemma swap_random_id_run m i j a b ia ib : i ≠ j → a ≠ b →
  random_ids m !! i = Some a → random_ids m !! j = Some b →
  id_to_info m !! a = Some ia → id_to_info m !! b = Some ib →
  swap_random_id i j m =
    (set_random_ids (<[j := a]> (<[i := b]> (random_ids m)))
       (set_id_to_info (<[b := set_random_id_pos i ib]> (<[a := set_random_id_pos j ia]> (id_to_info m))) m),
     Ok tt).
Proof.
  intros Hij Hab Ha Hb Hia Hib. unfold swap_random_id. rewrite decide_False by done.
  rewrite bind_gets, Ha. cbn [unwrap]. rewrite bind_lift_ok.
  rewrite (bind_ok _ _ _ (set_id_to_info (<[a:=set_random_id_pos j ia]> (id_to_info m)) m) tt)
    by (unfold move_id; by rewrite Hia).
  rewrite Hb. cbn [unwrap]. rewrite bind_lift_ok. erewrite bind_ok; [done|].
  unfold move_id. cbn. rewrite lookup_insert_ne, Hib by done. done.
Qed.

Lemma swap_random_id_ok m i j : pos_inv m →
  (i < length (random_ids m))%nat → (j < length (random_ids m))%nat →
  ∃ m', swap_random_id i j m = (m', Ok tt) ∧ pos_inv m' ∧ reordered m m' ∧
    (∀ k, k ≠ i → k ≠ j → random_ids m' !! k = random_ids m !! k) ∧
    random_ids m' !! i = random_ids m !! j ∧ random_ids m' !! j = random_ids m !! i.
Proof.
  intros Hp [a Ha]%lookup_lt_is_Some [b Hb]%lookup_lt_is_Some.
  destruct (decide (i = j)) as [->|Hij].
  { exists m. unfold swap_random_id. rewrite decide_True by done. split; [done|]. by split_and!. }
  pose proof (proj1 (Hp _ _) Ha) as (ia & Hia & Pa)%pos_of_info.
  pose proof (proj1 (Hp _ _) Hb) as (ib & Hib & Pb)%pos_of_info.
  assert (a ≠ b) as Hab by (intros ->; by pose proof (pos_inv_inj _ _ _ _ Hp Ha Hb)).
  rewrite (swap_random_id_run m i j a b ia ib) by done. eexists; split; [done|].
  set (m' := set_random_ids _ _).
  assert (∀ k, random_ids m' !! k = if decide (k = j) then Some a else
    if decide (k = i) then Some b else random_ids m !! k) as El by (intros; by apply lookup_swap).
  assert (∀ id, pos_of m' id = if decide (id = b) then Some i else
    if decide (id = a) then Some j else pos_of m id) as Ep.
  { intros id. unfold pos_of. cbn. rewrite !lookup_insert. repeat case_decide; subst; done. }
  split; [|split; [split|]]; try done.
  - intros k id. rewrite El, Ep. pose proof (Hp k id). pose proof (Hp i id). pose proof (Hp j id).
    repeat case_decide; subst; naive_solver congruence.
  - cbn. by rewrite !length_insert.
  - intros id. cbn. rewrite !lookup_insert. repeat case_decide; subst; by rewrite ?Hia, ?Hib.
  - rewrite !El. split; [intros k ? ?; rewrite El|]; repeat case_decide; naive_solver.
Qed.

(** ** Removing *)
(** The manager [remove] leaves when [id] is known under [key] and has been
    moved to the end of [random_ids]. *)
Definition removed (addr : Multiaddr) key (id : Z) m : Manager :=
  mkManager (next_id m) (delete key (addr_to_id m)) (delete id (id_to_info m))
    (match extract_peer_id addr with
     | Some p => alter (λ set, set ∖ {[id]}) p (peer_id_to_id m)
     | None => peer_id_to_id m
     end)
    (take (length (random_ids m) - 1) (random_ids m)).

Lemma removed_pos addr key id m :
  pos_inv m → random_ids m !! (length (random_ids m) - 1)%nat = Some id →
  pos_inv (removed addr key id m).
Proof.
  intros Hp Hlast i id'. unfold pos_of. cbn. rewrite lookup_delete.
  pose proof (lookup_lt_Some _ _ _ Hlast).
  destruct (decide (id = id')) as [<-|Hne].
  - split; [|done]. intros [Hi Hlt]%lookup_take_Some.
    pose proof (pos_inv_inj _ _ _ _ Hp Hlast Hi). lia.
  - rewrite lookup_take_Some. split.
    + intros [Hi _]. by apply Hp.
    + intros Hi%Hp. split; [done|]. pose proof (lookup_lt_Some _ _ _ Hi).
      destruct (decide (i = length (random_ids m) - 1)%nat); [congruence|lia].
Qed.

Lemma removed_addr_of addr key id m id' :
  addr_of (removed addr key id m) id' = if decide (id = id') then None else addr_of m id'.
Proof. unfold addr_of. cbn. rewrite lookup_delete. by case_decide. Qed.

Lemma removed_table addr key id m :
  table_inv m → addr_to_id m !! key = Some id → table_inv (removed addr key id m).
Proof.
  intros [Ha Hs Hn Hp Hst] Hk. split; intros *; rewrite removed_addr_of.
  - cbn. rewrite lookup_delete. destruct (decide (key = key0)) as [<-|]; case_decide; subst.
    + by split; [|intros (?&?&?)].
    + split; [done|]. intros (ad & E1 & E2). assert (addr_to_id m !! key = Some id0) by (apply Ha; eauto).
      congruence.
    + split; [|by intros (?&?&?)]. intros E%Ha. apply Ha in Hk as (ad & E1 & E2).
      destruct E as (ad' & E1' & E2'). congruence.
    + apply Ha.
  - case_decide; eauto. done.
  - case_decide; [done|]. apply Hn.
  - case_decide; [done|]. intros (p & set & E1 & E2 & E3)%Hp. cbn.
    destruct (extract_peer_id addr) as [q|]; [|by eauto 6]. setoid_rewrite lookup_alter.
    exists p. case_decide; subst; rewrite E2; eexists; split_and!; try done. set_solver.
  - cbn. intros Hset Hin.
    assert (∃ set', peer_id_to_id m !! p = Some set' ∧ id0 ∈ set') as (set' & E1 & E2).
    { destruct (extract_peer_id addr) as [q|]; [|by eauto]. rewrite lookup_alter in Hset.
      case_decide; [|by eauto]. apply fmap_Some in Hset as (set' & E & ->). set_solver. }
    destruct (Hst _ _ _ E1 E2) as [? Haddr]. split; [done|]. intros ad. case_decide; [done|apply Haddr].
Qed.

Lemma inv_known m key id : manager_inv m → addr_to_id m !! key = Some id →
  ∃ info i, id_to_info m !! id = Some info ∧ ai_random_id_pos info = i ∧
    random_ids m !! i = Some id ∧ multiaddr_to_socketaddr (ai_addr info) = Some key.
Proof.
  intros (Hp & Ht & _) (ad & E1 & E2)%(inv_addr _ Ht). unfold addr_of in E1.
  destruct (id_to_info m !! id) as [info|] eqn:Hi; [|done]. injection E1 as <-.
  exists info, (ai_random_id_pos info). split_and!; try done. apply Hp. unfold pos_of. by rewrite Hi.
Qed.

(** The whole of [remove] on a known address. *)
Lemma remove_run addr key id m : manager_inv m →
  multiaddr_to_socketaddr addr = Some key → addr_to_id m !! key = Some id →
  ∃ m1 info, reordered m m1 ∧ pos_inv m1 ∧ random_ids m1 !! (length (random_ids m1) - 1)%nat = Some id ∧
    id_to_info m1 !! id = Some info ∧ remove addr m = (removed addr key id m1, Ok (Some info)).
Proof.
  intros Hinv Hs Hk. destruct (inv_known _ _ _ Hinv Hk) as (info & i & Hi & Hpos & Hr & _).
  pose proof (lookup_lt_Some _ _ _ Hr) as Hlt. destruct Hinv as (Hp & Ht & _).
  unfold remove. rewrite Hs, bind_gets, Hk, bind_modify. set (mA := set_addr_to_id _ m).
  rewrite bind_gets. change (id_to_info mA) with (id_to_info m). rewrite Hi. cbn [unwrap fmap outcome_fmap].
  rewrite Hpos, bind_lift_ok, bind_gets. change (random_ids mA) with (random_ids m).
  rewrite decide_False by lia.
  destruct (swap_random_id_ok mA i (length (random_ids m) - 1)) as (mB & Hrun & HpB & HroB & _ & _ & Hl);
    [exact Hp|exact Hlt|cbn; lia|].
  rewrite (bind_ok _ _ _ _ _ Hrun). destruct HroB as [R1 R2 R3 R4 R5].
  pose proof (R5 id) as Eid. cbn in Eid. rewrite Hi in Eid.
  apply fmap_Some in Eid as (info' & Hi' & _).
  exists (set_addr_to_id (addr_to_id m) mB), info'. cbn in *. rewrite R4, Hl.
  split_and!; try done.
  unfold removed. destruct (extract_peer_id addr); 
    unfold mbind, M_bind, modify, gets, mret, M_ret; cbn; rewrite Hi', <-R2; done.
Qed.

(** ** The operations on the table *)
Lemma lookup_removed addr key id m key' : table_inv m → addr_to_id m !! key = Some id →
  lookup_key key' (removed addr key id m) = if decide (key = key') then None else lookup_key key' m.
Proof.
  intros Ht Hk. unfold lookup_key. cbn. rewrite lookup_delete. case_decide as Hkk; [done|].
  destruct (addr_to_id m !! key') as [id'|] eqn:Hk'; [|done]. cbn. rewrite lookup_delete.
  case_decide; [subst|done]. apply (inv_addr _ Ht) in Hk as (?&E1&E2), Hk' as (?&E3&E4). congruence.
Qed.

Lemma remove_ok addr m : manager_inv m →
  ∃ m' r, remove addr m = (m', Ok r) ∧ manager_inv m' ∧ next_id m' = next_id m ∧
    (∀ key, lookup_key key m' = table_remove addr (λ k, lookup_key k m) key) ∧
    strip <$> r = multiaddr_to_socketaddr addr ≫= λ key, lookup_key key m.
Proof.
  intros Hinv. destruct (multiaddr_to_socketaddr addr) as [key|] eqn:Hs; cycle 1.
  { exists m, None. unfold remove, table_remove. rewrite Hs. split_and!; try done. }
  destruct (addr_to_id m !! key) as [id|] eqn:Hk; cycle 1.
  { exists m, None. unfold remove, table_remove, lookup_key. rewrite Hs, bind_gets, Hk. split_and!; try done.
    - intros key'. case_decide; [simplify_eq; by rewrite Hk|done].
    - cbn. by rewrite Hk. }
  destruct (remove_run _ _ _ _ Hinv Hs Hk) as (m1 & info & Hro & Hp & Hl & Hi & ->).
  destruct Hinv as (_ & Ht & Hn). pose proof (reordered_table _ _ Hro Ht) as Ht1.
  assert (Hk1 : addr_to_id m1 !! key = Some id) by (by rewrite (ro_addr _ _ Hro)).
  eexists _, _; split; [done|]. split_and!.
  - split; [by apply removed_pos|]. split; [by apply removed_table|]. cbn. by rewrite (ro_next _ _ Hro).
  - apply (ro_next _ _ Hro).
  - intros key'. rewrite lookup_removed by done. unfold table_remove. rewrite Hs.
    rewrite (reordered_lookup _ _ _ Hro). repeat case_decide; congruence.
  - cbn. unfold lookup_key. rewrite Hk. cbn. by rewrite <-(ro_info _ _ Hro), Hi.
Qed.

(** *** Adding *)
(** The table after the tail of [add]. *)
Definition added (key : SocketAddr) (peer_id : PeerId) (addr_info : AddrInfo) (m : Manager) : Manager :=
  let id := next_id m in
  mkManager (next_id m + 1)
    (<[key := id]> (addr_to_id m))
    (<[id := set_random_id_pos (length (random_ids m)) addr_info]> (id_to_info m))
    (<[peer_id := {[id]} ∪ default ∅ (peer_id_to_id m !! peer_id)]> (peer_id_to_id m))
    (random_ids m ++ [id]).

Lemma add_fresh_run key p info m : next_id m < 2 ^ 64 - 1 → add_fresh key p info m = (added key p info m, Ok tt).
Proof. intros Hlt. unfold add_fresh. msteps. by rewrite u64_add_small by lia. Qed.

Lemma add_fresh_inv key p info m m' : add_fresh key p info m = (m', Ok tt) → m' = added key p info m.
Proof.
  unfold add_fresh. msteps. intros (next & [-> _]%u64_add_ok & Hrun)%bind_lift_inv. by injection Hrun as <-.
Qed.

Lemma add_fresh_pos key p info m : pos_inv m → table_inv m → pos_inv (added key p info m).
Proof.
  intros Hp Ht i id. unfold pos_of. cbn. rewrite lookup_insert.
  assert (Hfresh : id_to_info m !! next_id m = None).
  { destruct (id_to_info m !! next_id m) eqn:E; [|done].
    pose proof (inv_next _ Ht (next_id m) (ai_addr a)) as Hn. unfold addr_of in Hn. rewrite E in Hn.
    specialize (Hn eq_refl). lia. }
  rewrite lookup_snoc_Some. case_decide as Heq; cbn.
  - subst id. split.
    + intros [[_ Hi%Hp]|[<- _]]; [|done]. unfold pos_of in Hi. by rewrite Hfresh in Hi.
    + intros [= <-]. by right.
  - split.
    + intros [[_ Hi%Hp]|[_ ?]]; [done|congruence].
    + intros Hi%Hp. left. split; [by eapply lookup_lt_Some|done].
Qed.

Lemma add_fresh_table key p info m :
  table_inv m → 0 ≤ next_id m < 2 ^ 64 - 1 →
  multiaddr_to_socketaddr (ai_addr info) = Some key → extract_peer_id (ai_addr info) = Some p →
  addr_to_id m !! key = None → table_inv (added key p info m).
Proof.
  intros [Ha Hs Hn Hp Hst] Hlt Hsock Hpeer Hnew.
  assert (Hao : ∀ id, addr_of (added key p info m) id =
    if decide (next_id m = id) then Some (ai_addr info) else addr_of m id).
  { intros id. unfold addr_of. cbn. rewrite lookup_insert. by case_decide. }
  assert (Hnx : next_id (added key p info m) = next_id m + 1) by done.
  assert (Hfresh : addr_of m (next_id m) = None).
  { destruct (addr_of m (next_id m)) eqn:E; [|done]. specialize (Hn _ _ E). lia. }
  split; intros *; rewrite ?Hao, ?Hnx.
  - cbn. rewrite lookup_insert. destruct (decide (key = key0)) as [<-|]; case_decide; subst.
    + split; eauto.
    + split; [congruence|]. intros E%Ha. congruence.
    + split; [intros (ad & E & _)%Ha; congruence|intros (ad & E1 & E2); congruence].
    + apply Ha.
  - case_decide; [intros [= <-]; by rewrite Hsock|apply Hs].
  - case_decide; [lia|]. intros E%Hn. lia.
  - cbn. setoid_rewrite lookup_insert. case_decide.
    + intros [= <-]. exists p. rewrite decide_True by done. eexists. split_and!; try done. set_solver.
    + intros (q & set & E1 & E2 & E3)%Hp. exists q. case_decide; subst; eexists; split_and!; try done.
      rewrite E2. set_solver.
  - cbn. rewrite lookup_insert. case_decide as Hpq; subst.
    + intros [= <-] [->%elem_of_singleton|Hin]%elem_of_union.
      { rewrite decide_True by done. split; [lia|]. by intros ? [= <-]. }
      destruct (peer_id_to_id m !! p0) as [set'|] eqn:E; [|set_solver].
      destruct (Hst _ _ _ E Hin). split; [lia|]. rewrite decide_False by lia. done.
    + intros E Hin. destruct (Hst _ _ _ E Hin). split; [lia|]. rewrite decide_False by lia. done.
Qed.

Lemma lookup_add_fresh key p info m key' : table_inv m →
  lookup_key key' (added key p info m) = if decide (key = key') then Some (strip info) else lookup_key key' m.
Proof.
  intros Ht. unfold lookup_key. cbn. rewrite lookup_insert. case_decide; cbn.
  - by rewrite lookup_insert_eq.
  - destruct (addr_to_id m !! key') as [id|] eqn:E; [|done]. cbn. rewrite lookup_insert_ne; [done|].
    apply (inv_addr _ Ht) in E as (ad & E & _). apply (inv_next _ Ht) in E. lia.
Qed.

Lemma get_lookup addr m : strip <$> get addr m = multiaddr_to_socketaddr addr ≫= λ key, lookup_key key m.
Proof. unfold get, lookup_key. by destruct (multiaddr_to_socketaddr addr). Qed.

Lemma lookup_key_None m key : table_inv m → lookup_key key m = None → addr_to_id m !! key = None.
Proof.
  intros Ht. unfold lookup_key. destruct (addr_to_id m !! key) as [id|] eqn:E; [|done].
  apply (inv_addr _ Ht) in E as (ad & E & _). unfold addr_of in E. cbn.
  by destruct (id_to_info m !! id).
Qed.

(** The tail of [add] on an address that is not in the table. *)
Lemma add_tail_ok info key m : manager_inv m → next_id m < 2 ^ 64 - 1 →
  multiaddr_to_socketaddr (ai_addr info) = Some key → lookup_key key m = None →
  ∃ m', (match extract_peer_id (ai_addr info) with
         | Some p => add_fresh key p info
         | None => mret tt
         end : M Manager NetworkError unit) m = (m', Ok tt) ∧ manager_inv m' ∧ next_id m' ≤ next_id m + 1 ∧
    ∀ key', lookup_key key' m' =
      if decide (key = key') then (λ _, strip info) <$> extract_peer_id (ai_addr info) else lookup_key key' m.
Proof.
  intros (Hp & Ht & Hn) Hlt Hs Hnone. destruct (extract_peer_id (ai_addr info)) as [p|] eqn:Hpeer.
  - eexists; split; [by apply add_fresh_run|]. assert (Hnx : next_id (added key p info m) = next_id m + 1)
      by done.
    split; [|split; [lia|intros; by apply lookup_add_fresh]].
    split; [by apply add_fresh_pos|]. split; [|lia].
    apply add_fresh_table; try done; [lia|]. by apply lookup_key_None.
  - exists m. split; [done|]. split; [done|]. split; [lia|]. intros. case_decide; by subst.
Qed.

Lemma add_ok info m : manager_inv m → next_id m < 2 ^ 64 - 1 →
  ∃ m', add info m = (m', Ok tt) ∧ manager_inv m' ∧ next_id m' ≤ next_id m + 1 ∧
    ∀ key, lookup_key key m' = table_add info (λ k, lookup_key k m) key.
Proof.
  intros Hinv Hlt. unfold add, table_add.
  destruct (multiaddr_to_socketaddr (ai_addr info)) as [key|] eqn:Hs; cycle 1.
  { exists m. split; [done|]. split; [done|]. split; [lia|done]. }
  rewrite bind_gets. pose proof (get_lookup (ai_addr info) m) as Hget. rewrite Hs in Hget. cbn in Hget.
  destruct (get (ai_addr info) m) as [old|] eqn:Hold; cbn in Hget.
  - destruct (ai_last_connected_at_ms old <? ai_last_connected_at_ms info) eqn:Hcmp.
    + destruct (remove_ok (ai_addr info) m Hinv) as (m1 & r & Hr & Hinv1 & Hn1 & Hl1 & _).
      rewrite (bind_ok (remove (ai_addr info);; mret true) _ _ m1 true)
        by (by rewrite (bind_ok _ _ _ _ _ Hr)). cbn [negb].
      unfold table_remove in Hl1. rewrite Hs in Hl1.
      destruct (add_tail_ok info key m1) as (m' & Hrun & Hinv' & Hn' & Hl'); try done; [lia|..].
      { rewrite Hl1. by rewrite decide_True. }
      exists m'. rewrite Hrun. split; [done|]. split; [done|]. split; [lia|].
      intros key'. rewrite Hl', Hl1. repeat case_decide; simplify_eq; try done.
      rewrite <-Hget. cbn. by rewrite Hcmp.
    + exists m. split; [done|]. split; [done|]. split; [lia|].
      intros key'. case_decide; simplify_eq; [|done]. rewrite <-Hget. cbn. by rewrite Hcmp.
  - rewrite (bind_ok _ _ _ m true) by done. cbn [negb].
    destruct (add_tail_ok info key m) as (m' & Hrun & Hinv' & Hn' & Hl'); try done.
    exists m'. rewrite Hrun. split; [done|]. split; [done|]. split; [lia|].
    intros key'. rewrite Hl'. repeat case_decide; simplify_eq; try done. by rewrite <-Hget.
Qed.

(** *** Writes through [get_mut] *)
Lemma get_mut_ok addr f m : manager_inv m →
  (∀ a, ai_addr (f a) = ai_addr a ∧ ai_random_id_pos (f a) = ai_random_id_pos a) →
  manager_inv (get_mut addr f m).
Proof.
  intros (Hp & Ht & Hn) Hf. unfold get_mut.
  destruct (multiaddr_to_socketaddr addr ≫= λ key, addr_to_id m !! key) as [id|]; [|exact (conj Hp (conj Ht Hn))].
  assert (Hpo : ∀ id', pos_of (set_id_to_info (alter f id (id_to_info m)) m) id' = pos_of m id').
  { intros id'. unfold pos_of. cbn. rewrite lookup_alter. case_decide; [subst id'|done].
    destruct (id_to_info m !! id); [|done]. cbn. by rewrite (proj2 (Hf _)). }
  assert (Hao : ∀ id', addr_of (set_id_to_info (alter f id (id_to_info m)) m) id' = addr_of m id').
  { intros id'. unfold addr_of. cbn. rewrite lookup_alter. case_decide; [subst id'|done].
    destruct (id_to_info m !! id); [|done]. cbn. by rewrite (proj1 (Hf _)). }
  split; [intros i id'; rewrite Hpo; apply Hp|]. split; [|done].
  destruct Ht as [Ha Hs Hnx Hpe Hst]. split; intros *; rewrite ?Hao; eauto.
Qed.

(** ** Random draws *)
(** The records at the first [i] positions of [random_ids]. *)
Definition seen m (i : nat) : list AddrInfo :=
  omap (λ id, strip <$> id_to_info m !! id) (take i (random_ids m)).

Definition ip_of info : option IpAddr := sa_ip <$> multiaddr_to_socketaddr (ai_addr info).
Definition test_ip (ip : IpAddr) : bool := is_unspecified ip || is_loopback ip.

Lemma seen_S m i id info : random_ids m !! i = Some id → id_to_info m !! id = Some info →
  seen m (S i) = seen m i ++ [strip info].
Proof.
  intros Hi Hinfo. unfold seen. rewrite (take_S_r _ _ id), omap_app by done. cbn. by rewrite Hinfo.
Qed.

Lemma reordered_seen m m' i : reordered m m' →
  (∀ k, (k < i)%nat → random_ids m' !! k = random_ids m !! k) → seen m' i = seen m i.
Proof.
  intros Hro Hk. unfold seen. replace (take i (random_ids m')) with (take i (random_ids m)).
  - apply list_omap_ext, Forall2_same_length_lookup_2; [done|].
    intros k x y Hx Hy. assert (x = y) as -> by congruence. apply (ro_info _ _ Hro).
  - apply list_eq. intros k. destruct (decide (k < i)%nat).
    + rewrite !lookup_take by done. by rewrite !decide_True, Hk by done.
    + rewrite !lookup_take. by rewrite !decide_False.
Qed.

Lemma seen_known m i a : pos_inv m → table_inv m → a ∈ seen m i →
  ∃ k id key, (k < i)%nat ∧ random_ids m !! k = Some id ∧ multiaddr_to_socketaddr (ai_addr a) = Some key ∧
    addr_to_id m !! key = Some id ∧ lookup_key key m = Some a.
Proof.
  intros Hp Ht (id & Hid & Ha)%list_elem_of_omap.
  apply list_elem_of_lookup in Hid as (k & [Hk Hlt]%lookup_take_Some).
  apply fmap_Some in Ha as (info & Hi & ->).
  assert (Hao : addr_of m id = Some (ai_addr info)) by (unfold addr_of; by rewrite Hi).
  destruct (inv_sock _ Ht _ _ Hao) as [key Hkey]. exists k, id, key.
  assert (addr_to_id m !! key = Some id) as E by (apply (inv_addr _ Ht); eauto).
  split_and!; try done. unfold lookup_key. rewrite E. cbn. by rewrite Hi.
Qed.

Lemma seen_fresh m i id info : pos_inv m → table_inv m →
  random_ids m !! i = Some id → id_to_info m !! id = Some info → strip info ∉ seen m i.
Proof.
  intros Hp Ht Hi Hinfo Hin.
  destruct (seen_known _ _ _ Hp Ht Hin) as (k & id' & key & Hlt & Hk & Hs & Ha & _).
  assert (addr_to_id m !! key = Some id) as E.
  { apply (inv_addr _ Ht). exists (ai_addr info). unfold addr_of. by rewrite Hinfo. }
  assert (id' = id) as -> by congruence. pose proof (pos_inv_inj _ _ _ _ Hp Hi Hk). lia.
Qed.

Section fetch.
Context (now_ms : Z) (filter : AddrInfo → bool) (limit : nat).
Context (filter_strip : ∀ a, filter (strip a) = filter a).

Definition eligible info : bool := is_connectable now_ms info && filter info.

(** What the loop of [fetch_random] has done before round [i]. *)
Record drawn m (i : nat) (ips : gset IpAddr) (acc : list AddrInfo) : Prop := {
  dr_sub : strip <$> acc `sublist_of` seen m i;
  dr_elig a : a ∈ acc → eligible a = true;
  dr_ips ip : ip ∈ ips ↔ ∃ a, a ∈ seen m i ∧ ip_of a = Some ip;
  dr_once p q a b ip : acc !! p = Some a → acc !! q = Some b →
    ip_of a = Some ip → ip_of b = Some ip → test_ip ip = false → p = q;
  dr_all a ip : a ∈ seen m i → eligible a = true → ip_of a = Some ip →
    test_ip ip = true ∨ (∀ b, b ∈ seen m i → ip_of b = Some ip → b = a) → a ∈ strip <$> acc
}.

Lemma eligible_strip a : eligible (strip a) = eligible a.
Proof. unfold eligible. by rewrite filter_strip. Qed.

Lemma drawn_0 m : drawn m 0 ∅ [].
Proof.
  split; try done.
  - by intros a ?%not_elem_of_nil.
  - intros ip. unfold seen. cbn. split; [set_solver|by intros (?&?%not_elem_of_nil&_)].
Qed.

Lemma drawn_reordered m m' i ips acc : reordered m m' →
  (∀ k, (k < i)%nat → random_ids m' !! k = random_ids m !! k) → drawn m i ips acc → drawn m' i ips acc.
Proof. intros Hro Hk Hd. destruct Hd. split; by rewrite ?(reordered_seen m m' i). Qed.

Lemma drawn_acc_ips m i ips acc a ip :
  drawn m i ips acc → a ∈ acc → ip_of a = Some ip → ip ∈ ips.
Proof.
  intros Hd Ha Hip. apply (dr_ips _ _ _ _ Hd). exists (strip a). split; [|done].
  eapply elem_of_submseteq; [by apply (list_elem_of_fmap_2 strip)|]. apply sublist_submseteq, Hd.
Qed.

Lemma drawn_step m i ips acc id info ip : pos_inv m → table_inv m → drawn m i ips acc →
  random_ids m !! i = Some id → id_to_info m !! id = Some info → ip_of info = Some ip →
  drawn m (S i) ({[ip]} ∪ ips)
    (if (test_ip ip || bool_decide (ip ∉ ips)) && is_connectable now_ms info && filter info
     then acc ++ [info] else acc).
Proof.
  intros Hp Ht Hd Hi Hinfo Hip. rewrite <-andb_assoc. fold (eligible info).
  pose proof (seen_fresh _ _ _ _ Hp Ht Hi Hinfo) as Hfresh.
  split; rewrite ?(seen_S m i id info) by done.
  - case_match; [|by apply sublist_inserts_r, Hd]. rewrite fmap_app. by apply sublist_app, reflexivity; apply Hd.
  - intros a. case_match eqn:E; [|apply Hd]. intros [Ha| ->%list_elem_of_singleton]%elem_of_app; [by apply Hd|].
    by apply andb_prop in E as [_ ?].
  - intros ip'. rewrite elem_of_union, elem_of_singleton, (dr_ips _ _ _ _ Hd).
    setoid_rewrite elem_of_app. setoid_rewrite list_elem_of_singleton. split.
    + intros [->|(a & ? & ?)]; eauto.
    + intros (a & [?| ->] & E); [by eauto|]. left. change (ip_of info = Some ip') in E. congruence.
  - intros p q a b ip'. case_match eqn:E; [|apply Hd]. intros Hpa Hqb Ea Eb Htest.
    assert (Hnew : ip' = ip → ip ∉ ips).
    { intros ->. apply andb_prop in E as [E _]. rewrite Htest in E. by apply bool_decide_eq_true in E. }
    apply lookup_snoc_Some in Hpa as [[_ Hpa]|[-> <-]], Hqb as [[_ Hqb]|[-> <-]]; [by eapply (dr_once _ _ _ _ Hd)| | |done].
    + assert (ip' = ip) as -> by congruence. exfalso. apply Hnew; [done|].
      eapply drawn_acc_ips; [done|by eapply list_elem_of_lookup_2|done].
    + assert (ip' = ip) as -> by congruence. exfalso. apply Hnew; [done|].
      eapply drawn_acc_ips; [done|by eapply list_elem_of_lookup_2|done].
  - intros a ip' [Ha| ->%list_elem_of_singleton]%elem_of_app Hel Ea Hor.
    + assert (a ∈ strip <$> acc).
      { eapply (dr_all _ _ _ _ Hd); [done..|]. destruct Hor as [?|Hall]; [by left|right].
        intros b Hb. apply Hall. apply elem_of_app. by left. }
      case_match; [|done]. rewrite fmap_app. apply elem_of_app. by left.
    + change (ip_of info = Some ip') in Ea. assert (ip' = ip) as -> by congruence.
      rewrite eligible_strip in Hel. rewrite Hel, andb_true_r.
      assert (test_ip ip || bool_decide (ip ∉ ips) = true) as ->.
      { destruct Hor as [->|Hall]; [done|]. rewrite (bool_decide_eq_true_2 (ip ∉ ips)); [by destruct (test_ip ip)|].
        intros (b & Hb & Eb)%(dr_ips _ _ _ _ Hd). apply Hfresh.
        rewrite <-(Hall b); [done|apply elem_of_app; by left|done]. }
      rewrite fmap_app. apply elem_of_app. right. by apply list_elem_of_singleton.
Qed.

(** One round of the loop, up to the test of the address it draws. *)
Lemma fetch_round m i ips acc : pos_inv m → table_inv m → (i < length (random_ids m))%nat →
  drawn m i ips acc →
  ∃ m1 id info ip, swap_random_id (gen_range i i (length (random_ids m))) i m = (m1, Ok tt) ∧
    pos_inv m1 ∧ table_inv m1 ∧ reordered m m1 ∧ drawn m1 i ips acc ∧
    random_ids m1 !! i = Some id ∧ id_to_info m1 !! id = Some info ∧ ip_of info = Some ip.
Proof.
  intros Hp Ht Hlt Hd. pose proof (gen_range_bounds i _ _ Hlt) as Hj.
  destruct (swap_random_id_ok m (gen_range i i (length (random_ids m))) i) as
    (m1 & Hrun & Hp1 & Hro & Hk & _ & _); [done|lia..|].
  pose proof (reordered_table _ _ Hro Ht) as Ht1.
  assert (Hlt1 : (i < length (random_ids m1))%nat) by (by rewrite (ro_len _ _ Hro)).
  apply lookup_lt_is_Some in Hlt1 as [id Hid].
  pose proof (proj1 (Hp1 _ _) Hid) as (info & Hinfo & _)%pos_of_info.
  destruct (inv_sock _ Ht1 id (ai_addr info)) as [key Hkey]; [unfold addr_of; by rewrite Hinfo|].
  exists m1, id, info, (sa_ip key). split_and!; try done.
  - eapply drawn_reordered; [done| |done]. intros k Hki. apply Hk; lia.
  - unfold ip_of. by rewrite Hkey.
Qed.

Lemma fetch_loop_ok n : ∀ m i ips acc, pos_inv m → table_inv m → (i + n = length (random_ids m))%nat →
  drawn m i ips acc → limit = 0%nat ∨ (length acc < limit)%nat →
  ∃ m' l i' ips', fetch_loop now_ms filter limit n i ips acc m = (m', Ok l) ∧
    pos_inv m' ∧ reordered m m' ∧ drawn m' i' ips' l ∧
    (limit = 0%nat ∨ length l = limit ∨ (length l < limit)%nat ∧ i' = length (random_ids m')).
Proof.
  induction n as [|n IH]; intros m i ips acc Hp Ht Hlen Hd Hlim.
  { exists m, acc, i, ips. cbn. split; [done|]. split; [done|]. split; [done|]. split; [done|]. lia. }
  destruct (fetch_round m i ips acc Hp Ht ltac:(lia) Hd) as
    (m1 & id & info & ip & Hrun & Hp1 & Ht1 & Hro & Hd1 & Hid & Hinfo & Hip).
  pose proof (drawn_step m1 i ips acc id info ip Hp1 Ht1 Hd1 Hid Hinfo Hip) as Hd2.
  pose proof Hip as Hsk. apply fmap_Some in Hsk as (key & Hkey & Ekey).
  cbn [fetch_loop]. rewrite bind_gets. mrun Hrun. rewrite bind_gets, Hid. cbn [unwrap].
  rewrite bind_lift_ok, bind_gets, Hinfo. cbn [unwrap]. rewrite bind_lift_ok, Hkey, <-Ekey.
  fold (test_ip ip). 
  set (acc' := if (test_ip ip || bool_decide (ip ∉ ips)) && is_connectable now_ms info && filter info
               then acc ++ [info] else acc) in *.
  assert (limit = 0 ∨ length acc' ≤ limit)%nat by (subst acc'; case_match; rewrite ?length_app; cbn; lia).
  case_decide.
  - exists m1, acc', (S i), ({[ip]} ∪ ips). split_and!; try done. lia.
  - destruct (IH m1 (S i) ({[ip]} ∪ ips) acc') as (m' & l & i' & ips' & Hl & Hp' & Hro' & Hd' & Hend);
      [done..|rewrite (ro_len _ _ Hro); lia|done|lia|].
    exists m', l, i', ips'. split_and!; try done. by etransitivity.
Qed.

Lemma seen_all m key a : pos_inv m → table_inv m → lookup_key key m = Some a →
  a ∈ seen m (length (random_ids m)).
Proof.
  intros Hp Ht Hl. unfold lookup_key in Hl. destruct (addr_to_id m !! key) as [id|] eqn:E; [|done].
  cbn in Hl. apply fmap_Some in Hl as (info & Hi & ->). unfold seen. rewrite take_ge by done.
  apply list_elem_of_omap. exists id. rewrite Hi. split; [|done].
  eapply list_elem_of_lookup_2. apply Hp. unfold pos_of. by rewrite Hi.
Qed.
End fetch.

(** ** Reachable managers *)
(** Every sequence of calls the peer store makes, short of [2^64] additions. *)
Inductive manager_step : Manager → Manager → Prop :=
| step_add info m m' : next_id m < 2 ^ 64 - 1 → add info m = (m', Ok tt) → manager_step m m'
| step_remove (addr : Multiaddr) r m m' : remove addr m = (m', Ok r) → manager_step m m'
| step_fetch now_ms n (filter : AddrInfo → bool) l m m' :
    (∀ a, filter (strip a) = filter a) → fetch_random now_ms n filter m = (m', Ok l) → manager_step m m'
| step_tried addr (now_ms : Z) m : manager_step m (get_mut addr (mark_tried now_ms) m)
| step_connected addr (now_ms : Z) m : manager_step m (get_mut addr (mark_connected now_ms) m)
| step_score addr (score : Z) m : manager_step m (get_mut addr (set_score score) m).

Definition reachable : Manager → Prop := rtc manager_step Manager_default.

Lemma default_inv : manager_inv Manager_default.
Proof.
  split; [|split; [|cbn; lia]].
  - intros i id. unfold pos_of. cbn. rewrite !lookup_empty. by split.
  - split; unfold addr_of; cbn; intros *; rewrite ?lookup_empty; try done.
    by split; [|intros (?&?&?)].
Qed.

Lemma fetch_random_inv now_ms n (filter : AddrInfo → bool) m : manager_inv m → (∀ a, filter (strip a) = filter a) →
  ∃ m' l, fetch_random now_ms n filter m = (m', Ok l) ∧ manager_inv m' ∧ reordered m m'.
Proof.
  intros (Hp & Ht & Hn) Hf. unfold fetch_random. rewrite bind_gets.
  destruct (fetch_loop_ok now_ms filter n Hf (length (random_ids m)) m 0 ∅ []) as
    (m' & l & i' & ips' & Hrun & Hp' & Hro & _); [done..|by apply drawn_0|cbn; lia|].
  exists m', l. split; [done|]. split; [|done]. split; [done|].
  split; [by eapply reordered_table|]. by rewrite (ro_next _ _ Hro).
Qed.

Lemma manager_step_inv m m' : manager_step m m' → manager_inv m → manager_inv m'.
Proof.
  intros Hstep Hinv. destruct Hstep as [info m m' Hlt Hrun|addr r m m' Hrun|now n f l m m' Hf Hrun| | |].
  - destruct (add_ok info m Hinv Hlt) as (? & E & ? & _). congruence.
  - destruct (remove_ok addr m Hinv) as (? & ? & E & ? & _). congruence.
  - destruct (fetch_random_inv now n f m Hinv Hf) as (? & ? & E & ? & _). congruence.
  - by apply get_mut_ok.
  - by apply get_mut_ok.
  - by apply get_mut_ok.
Qed.

Lemma manager_reachable_inv m : reachable m → manager_inv m.
Proof.
  revert m. apply rtc_ind_r; [apply default_inv|]. intros m1 m2 _ Hstep. by apply manager_step_inv.
Qed.

(** The table has as many addresses as [random_ids] has entries. *)
Lemma count_random_ids m : manager_inv m → count m = length (random_ids m).
Proof.
  intros (Hp & Ht & _). unfold count. rewrite <-length_map_to_list, <-(length_fmap snd).
  apply Permutation_length, NoDup_Permutation.
  - apply NoDup_fmap_2_strong; [|apply NoDup_map_to_list].
    intros [k1 id1] [k2 id2] H1%elem_of_map_to_list H2%elem_of_map_to_list. cbn. intros <-.
    apply (inv_addr _ Ht) in H1 as (a1 & E1 & F1), H2 as (a2 & E2 & F2). congruence.
  - apply NoDup_alt. intros i j id Hi Hj. by eapply pos_inv_inj.
  - intros id. rewrite list_elem_of_fmap. split.
    + intros ([k id'] & -> & Hin%elem_of_map_to_list). cbn.
      apply (inv_addr _ Ht) in Hin as (a & E & _). unfold addr_of in E.
      destruct (id_to_info m !! id') as [info|] eqn:Ei; [|done].
      apply (list_elem_of_lookup_2 _ (ai_random_id_pos info)), Hp. unfold pos_of. by rewrite Ei.
    + intros [i (info & Hi & _)%Hp%pos_of_info]%list_elem_of_lookup.
      assert (Ha : addr_of m id = Some (ai_addr info)) by (unfold addr_of; by rewrite Hi).
      destruct (inv_sock _ Ht _ _ Ha) as [key Hk]. exists (key, id). split; [done|].
      apply elem_of_map_to_list, (inv_addr _ Ht). eauto.
Qed.

(** ** The peer index *)
Lemma traverse_unwrap {A B} (f : A → option B) (l : list A) :
  traverse (E:=NetworkError) (λ x, unwrap (f x)) l =
    if decide (Forall (λ x, is_Some (f x)) l) then Ok (omap f l) else Panic.
Proof.
  induction l as [|x l IH]; [done|]. cbn. destruct (f x) as [y|] eqn:Hx; cbn.
  - rewrite IH. repeat case_decide; cbn; try done; exfalso.
    + apply H2. constructor; [by rewrite Hx|done].
    + apply H1. by inversion H2.
  - rewrite decide_False; [done|]. inversion 1 as [|? ? [? E]]. congruence.
Qed.

Lemma get_by_peer_id_panic now_ms p filter m set id :
  peer_id_to_id m !! p = Some set → id ∈ set → id_to_info m !! id = None →
  get_by_peer_id now_ms p filter m = Panic.
Proof.
  intros Hp Hid Hnone. unfold get_by_peer_id. rewrite Hp, traverse_unwrap, decide_False; [done|].
  rewrite iter_order_perm. rewrite Forall_forall. intros Hall.
  destruct (Hall id) as [? E]; [by apply elem_of_elements|congruence].
Qed.

(** ** Properties *)

(** C19: The address manager implements one table of addresses: from every
    reachable manager, [add] and [remove] return without panicking, keep the
    manager reachable, and change the table the way the specification says
    ([add] replaces a record only by one with a later connection, and drops
    the record when the new address names no peer); [get] reads the table and
    the vector the random draws use has one entry per address. *)
Theorem addr_manager_refines m : reachable m →
  (∀ info, next_id m < 2 ^ 64 - 1 → ∃ m', add info m = (m', Ok tt) ∧ reachable m' ∧
     ∀ key, lookup_key key m' = table_add info (λ k, lookup_key k m) key) ∧
  (∀ addr, ∃ m' r, remove addr m = (m', Ok r) ∧ reachable m' ∧
     (∀ key, lookup_key key m' = table_remove addr (λ k, lookup_key k m) key) ∧
     strip <$> r = strip <$> get addr m) ∧
  (∀ addr, strip <$> get addr m = multiaddr_to_socketaddr addr ≫= λ key, lookup_key key m) ∧
  count m = length (random_ids m).
Proof.
  intros Hr. pose proof (manager_reachable_inv _ Hr) as Hinv. split_and!.
  - intros info Hlt. destruct (add_ok info m Hinv Hlt) as (m' & Hrun & _ & _ & Hl).
    exists m'. split_and!; try done. eapply rtc_r; [done|]. by econstructor.
  - intros addr. destruct (remove_ok addr m Hinv) as (m' & r & Hrun & _ & _ & Hl & Hres).
    exists m', r. split_and!; try done; [|by rewrite get_lookup]. eapply rtc_r; [done|]. by econstructor.
  - intros addr. apply get_lookup.
  - by apply count_random_ids.
Qed.

(** [fetch_random] never panics and leaves the table as it was; it returns
    at most [limit] records, all of them connectable records of the table that
    pass the filter, no two from one address of a routable IP; and when it
    returns fewer than [limit], every eligible record that is alone on its IP
    has been drawn. *)
Theorem fetch_random_spec now_ms (filter : AddrInfo → bool) limit m :
  reachable m → (0 < limit)%nat → (∀ a, filter (strip a) = filter a) →
  ∃ m' l, fetch_random now_ms limit filter m = (m', Ok l) ∧ reachable m' ∧
    (∀ key, lookup_key key m' = lookup_key key m) ∧ (length l ≤ limit)%nat ∧
    (∀ a, a ∈ l → is_connectable now_ms a = true ∧ filter a = true ∧
       ∃ key, multiaddr_to_socketaddr (ai_addr a) = Some key ∧ lookup_key key m = Some (strip a)) ∧
    (∀ p q a b ip, l !! p = Some a → l !! q = Some b → ip_of a = Some ip → ip_of b = Some ip →
       test_ip ip = false → p = q) ∧
    ((length l < limit)%nat → ∀ key a, lookup_key key m = Some a →
       is_connectable now_ms a = true → filter a = true →
       (∀ key' b, lookup_key key' m = Some b → ip_of b = ip_of a → b = a) → a ∈ strip <$> l).
Proof.
  intros Hr Hlim Hf. pose proof (manager_reachable_inv _ Hr) as (Hp & Ht & _).
  destruct (fetch_loop_ok now_ms filter limit Hf (length (random_ids m)) m 0 ∅ []) as
    (m' & l & i' & ips' & Hrun & Hp' & Hro & Hd & Hend); [done..|by apply drawn_0|cbn; lia|].
  pose proof (reordered_table _ _ Hro Ht) as Ht'.
  assert (Hfetch : fetch_random now_ms limit filter m = (m', Ok l)) by (unfold fetch_random; by rewrite bind_gets).
  exists m', l. split_and!; [done| | |lia| | |].
  - eapply rtc_r; [done|]. by econstructor.
  - intros key. by apply reordered_lookup.
  - intros a Ha. pose proof (dr_elig _ _ _ _ _ _ Hd a Ha) as [? ?]%andb_prop. split_and!; try done.
    destruct (seen_known m' i' (strip a)) as (_ & _ & key & _ & _ & Hk & _ & Hl); [done..| |].
    { eapply elem_of_submseteq; [by apply (list_elem_of_fmap_2 strip)|]. apply sublist_submseteq, Hd. }
    exists key. split; [done|]. by rewrite <-(reordered_lookup _ _ _ Hro).
  - apply Hd.
  - intros Hlt key a Hkey Hc Hfa Halone. destruct Hend as [?|[?|[_ ->]]]; [lia..|].
    rewrite <-(reordered_lookup _ _ _ Hro) in Hkey. pose proof (seen_all _ _ _ Hp' Ht' Hkey) as Hin.
    destruct (seen_known _ _ _ Hp' Ht' Hin) as (_ & _ & key' & _ & _ & Hk & _ & _).
    apply (dr_all _ _ _ _ _ _ Hd a (sa_ip key')); [done|by apply andb_true_intro|unfold ip_of; by rewrite Hk|].
    right. intros b (_ & _ & kb & _ & _ & Hkb & _ & Hlb)%seen_known Hip; [|done..].
    apply (Halone kb); [by rewrite <-(reordered_lookup _ _ _ Hro)|]. rewrite Hip. unfold ip_of. by rewrite Hk.
Qed.

(** When an address known for one peer is replaced by a record that names
    another peer, the number of the old record stays in the old peer's set,
    and from then on looking up the old peer's addresses panics. *)
Theorem peer_index_stale m old new key p q now_ms filter :
  reachable m → next_id m < 2 ^ 64 - 1 → get (ai_addr new) m = Some old →
  multiaddr_to_socketaddr (ai_addr new) = Some key →
  extract_peer_id (ai_addr old) = Some p → extract_peer_id (ai_addr new) = Some q → p ≠ q →
  ai_last_connected_at_ms old < ai_last_connected_at_ms new →
  ∃ m', add new m = (m', Ok tt) ∧ get_by_peer_id now_ms p filter m' = Panic.
Proof.
  intros Hr Hlt Hget Hs Hp Hq Hpq Hlater. pose proof (manager_reachable_inv _ Hr) as Hinv.
  destruct (addr_to_id m !! key) as [id|] eqn:Hk; [|unfold get in Hget; rewrite Hs in Hget; cbn in Hget; by rewrite Hk in Hget].
  destruct (remove_run _ _ _ _ Hinv Hs Hk) as (m1 & info & Hro & _ & _ & _ & Hrun).
  assert (Hid : id_to_info m !! id = Some old).
  { unfold get in Hget. rewrite Hs in Hget. cbn in Hget. by rewrite Hk in Hget. }
  destruct Hinv as (_ & Ht & _).
  destruct (inv_peer _ Ht id (ai_addr old)) as (p' & set & E1 & E2 & Hin); [unfold addr_of; by rewrite Hid|].
  assert (p' = p) as -> by congruence.
  assert (Hn : 0 ≤ id < next_id m) by (apply (inv_next _ Ht id (ai_addr old)); unfold addr_of; by rewrite Hid).
  eexists. split.
  - unfold add. rewrite Hs, bind_gets, Hget.
    rewrite (proj2 (Z.ltb_lt _ _) Hlater).
    rewrite (bind_ok (remove (ai_addr new);; mret true) _ _ (removed (ai_addr new) key id m1) true)
      by (by rewrite (bind_ok _ _ _ _ _ Hrun)). cbn [negb]. rewrite Hq.
    apply add_fresh_run. cbn. by rewrite (ro_next _ _ Hro).
  - apply (get_by_peer_id_panic _ _ _ _ set id); [|done|].
    + cbn. rewrite Hq, lookup_insert_ne, lookup_alter_ne by done. by rewrite (ro_peer _ _ Hro).
    + cbn. rewrite lookup_insert_ne by (rewrite (ro_next _ _ Hro); lia). apply lookup_delete_eq.
Qed.
End props.

(** ** Examples *)
Section examples.
#[local] Existing Instances plain_tentacle plain_randomness.

Definition ex_addr (ip port : Z) (peer : bytes) : Multiaddr := (V4 ip, port, Some peer).
Definition ex_old : AddrInfo := AddrInfo_new (ex_addr 0x01020304 8000 [x01]) 5 100.
Definition ex_new : AddrInfo := AddrInfo_new (ex_addr 0x01020304 8000 [x02]) 9 100.
Definition ex_manager : Manager := (add ex_old Manager_default).1.

Lemma ex_reachable : reachable ex_manager.
Proof.
  eapply rtc_l; [|apply rtc_refl]. apply (step_add ex_old); [cbn; lia|]. reflexivity.
Qed.

Lemma addr_manager_refines_witness : ∃ m', add ex_new ex_manager = (m', Ok tt) ∧
  lookup_key (mkSocketAddr (V4 0x01020304) 8000) m' = Some ex_new.
Proof.
  destruct (addr_manager_refines ex_manager ex_reachable) as (Hadd & _).
  destruct (Hadd ex_new) as (m' & Hrun & _ & Hl); [reflexivity|].
  exists m'. split; [exact Hrun|]. rewrite Hl. reflexivity.
Defined.

Lemma fetch_random_spec_witness : ∃ m' l, fetch_random 1000 2 (λ _, true) ex_manager = (m', Ok l) ∧
  ex_old ∈ strip <$> l.
Proof.
  destruct (fetch_random_spec 1000 (λ _, true) 2 ex_manager) as (m' & l & Hrun & _ & _ & _ & _ & _ & Hall);
    [apply ex_reachable|lia|done|].
  exists m', l. split; [exact Hrun|].
  assert (l = [ex_old]) as -> by (by injection Hrun).
  apply (Hall ltac:(cbn; lia) (mkSocketAddr (V4 0x01020304) 8000)); [reflexivity..|].
  intros key' b Hb _.
  change (lookup_key key' (added (mkSocketAddr (V4 0x01020304) 8000) [x01] ex_old Manager_default)
          = Some b) in Hb.
  rewrite lookup_add_fresh in Hb by apply default_inv. case_decide; [by injection Hb|done].
Defined.

Lemma peer_index_stale_witness :
  ∃ m', add ex_new ex_manager = (m', Ok tt) ∧ get_by_peer_id 1000 [x01] (λ _, true) m' = Panic.
Proof.
  apply (peer_index_stale ex_manager ex_old ex_new (mkSocketAddr (V4 0x01020304) 8000) [x01] [x02]);
    [apply ex_reachable|reflexivity..|done|reflexivity].
Defined.
End examples.
