(* ===== verification/PeerStore.v ===== *)
(** * The peer store

    [BanList] of [core/network/src/peer_manager/peer_store/ban_list.rs] and
    [PeerStore] of [peer_store_impl.rs]: the ban list, the connected peers and
    the address manager, with the purge that keeps discovered addresses under
    their limit.  [now_ms] is the clock each call reads. *)

From stdpp Require Import sorting.
From S2P Require Import Prelude Types Overlord NetAddr AddrManager.

Local Open Scope Z_scope.

Section store.
Context `{!Tentacle} `{!IpNetworks} `{!Randomness}.

(** ** [ban_list.rs] *)
Record BanList := mkBanList { bl_inner : gmap IpNetwork BannedAddr; insert_count : Z }.
Definition BanList_new : BanList := mkBanList ∅ 0.

Definition clear_expires (now_ms : Z) (bl : BanList) : BanList :=
  mkBanList (filter (λ kv, now_ms < ban_until kv.2) (bl_inner bl)) (insert_count bl).

Definition ban (now_ms : Z) (banned_addr : BannedAddr) (bl : BanList) : BanList :=
  let bl := mkBanList (<[ba_address banned_addr := banned_addr]> (bl_inner bl))
              (wrap64 (insert_count bl + 1)) in
  if insert_count bl mod CLEAR_INTERVAL_COUNTER =? 0 then clear_expires now_ms bl else bl.

Definition unban_network (network : IpNetwork) (bl : BanList) : BanList :=
  mkBanList (delete network (bl_inner bl)) (insert_count bl).

Definition is_ip_banned_until (ip : IpAddr) (now_ms : Z) (bl : BanList) : bool :=
  match bl_inner bl !! ip_to_network ip with
  | Some banned_addr => now_ms <? ban_until banned_addr
  | None => false
  end ||
  existsb (λ kv, (now_ms <? ban_until kv.2) && network_contains kv.1 ip)
    (iter_order (map_to_list (bl_inner bl))).

Definition is_ip_banned (now_ms : Z) (ip : IpAddr) (bl : BanList) : bool :=
  is_ip_banned_until ip now_ms bl.

Definition banlist_is_addr_banned (now_ms : Z) (addr : Multiaddr) (bl : BanList) : bool :=
  match multiaddr_to_socketaddr addr with
  | Some socket_addr => is_ip_banned now_ms (sa_ip socket_addr) bl
  | None => false
  end.

Definition get_banned_addrs (bl : BanList) : list BannedAddr :=
  snd <$> iter_order (map_to_list (bl_inner bl)).
Definition banlist_count (bl : BanList) : nat := size (bl_inner bl).

(** [BanList::load] once the file's records are read, and the records
    [BanList::dump] writes. *)
Definition banlist_load (now_ms : Z) (banned_addrs : list BannedAddr) : BanList :=
  fold_left (λ bl b, ban now_ms b bl) banned_addrs BanList_new.
Definition banlist_dump (bl : BanList) : list BannedAddr := get_banned_addrs bl.

(** ** [peer_store_impl.rs] *)
(** [types::PeerInfo] *)
Record ConnectedPeer := mkConnectedPeer {
  cp_connected_addr : Multiaddr;
  cp_session_type : SessionType;
  cp_last_connected_at_ms : Z
}.

Record PeerStore := mkPeerStore {
  addr_manager : Manager;
  ban_list : BanList;
  store_peers : gmap PeerId ConnectedPeer;
  score_config : PeerScoreConfig
}.

Definition PeerStore_new (am : Manager) (bl : BanList) : PeerStore :=
  mkPeerStore am bl ∅ PeerScoreConfig_default.

Definition set_addr_manager v s := mkPeerStore v (ban_list s) (store_peers s) (score_config s).
Definition set_ban_list v s := mkPeerStore (addr_manager s) v (store_peers s) (score_config s).
Definition set_store_peers v s := mkPeerStore (addr_manager s) (ban_list s) v (score_config s).

Abbreviation MS := (M PeerStore NetworkError).
Definition on_manager {A} (op : M Manager NetworkError A) : MS A := zoom addr_manager set_addr_manager op.

(** [load_from_dir_or_default] on the records its two files hold, [None] for a
    file that does not open or does not parse, and [dump_to_dir]. *)
Definition load_from_dir_or_default (now_ms : Z) (addrs : option (list AddrInfo))
    (banned : option (list BannedAddr)) : outcome NetworkError PeerStore :=
  am ← (match addrs with Some l => load l | None => Ok Manager_default end);
  Ok (PeerStore_new am (match banned with
                        | Some l => banlist_load now_ms l
                        | None => BanList_new
                        end)).
Definition dump_to_dir (s : PeerStore) : list AddrInfo * list BannedAddr :=
  (dump (addr_manager s), banlist_dump (ban_list s)).

Definition add_connected_peer (now_ms : Z) (addr : Multiaddr) (session_type : SessionType) : MS unit :=
  peer_id ← lift (unwrap (extract_peer_id addr));
  modify (λ s, set_store_peers
    (<[peer_id := mkConnectedPeer addr session_type now_ms]> (store_peers s)) s).

Definition is_addr_banned (now_ms : Z) (addr : Multiaddr) (s : PeerStore) : bool :=
  banlist_is_addr_banned now_ms addr (ban_list s).

(** *** [check_purge] *)
(** The map of network groups, in the order groups are first met. *)
Fixpoint push_group (g : Group) (addr : AddrInfo) (groups : list (Group * list AddrInfo))
    : list (Group * list AddrInfo) :=
  match groups with
  | [] => [(g, [addr])]
  | (g', addrs) :: rest =>
      if decide (g = g') then (g', addrs ++ [addr]) :: rest
      else (g', addrs) :: push_group g addr rest
  end.
Definition peers_by_network_group (addrs : list AddrInfo) : list (Group * list AddrInfo) :=
  fold_left (λ groups addr, push_group (Group_from (ai_addr addr)) addr groups) addrs [].

Definition longer (k1 k2 : list AddrInfo) : Prop := (length k2 ≤ length k1)%nat.
#[global] Instance longer_dec k1 k2 : Decision (longer k1 k2).
Proof. unfold longer. apply _. Defined.

(** Two random addresses of each of the larger half of the groups. *)
Definition group_candidates (addrs : list AddrInfo) : list Multiaddr :=
  let groups := peers_by_network_group addrs in
  let peers := merge_sort longer (snd <$> iter_order groups) in
  concat (omap (λ addrs,
    if (4 <? length addrs)%nat then Some (ai_addr <$> choose_multiple 2 addrs) else None)
    (take (length groups / 2) peers)).

Definition unconnectable (now_ms : Z) (addrs : list AddrInfo) : list Multiaddr :=
  omap (λ addr, if negb (is_connectable now_ms addr) then Some (ai_addr addr) else None) addrs.

Definition remove_all (keys : list Multiaddr) : MS unit :=
  for_each (λ key, on_manager (remove key);; mret tt) keys.

Definition check_purge (now_ms : Z) : MS unit :=
  n ← gets (λ s, count (addr_manager s));
  if decide (n < ADDR_COUNT_LIMIT)%nat then mret tt else
  candidate_peers ← gets (λ s, unconnectable now_ms (addrs_iter (addr_manager s)));
  remove_all candidate_peers;;
  match candidate_peers with
  | _ :: _ => mret tt
  | [] =>
      candidate_peers ← gets (λ s, group_candidates (addrs_iter (addr_manager s)));
      remove_all candidate_peers;;
      match candidate_peers with
      | _ :: _ => mret tt
      | [] => throw (NE_Internal PeerStoreEvictionFailed)
      end
  end.

Definition add_addr (now_ms : Z) (addr : Multiaddr) : MS unit :=
  banned ← gets (is_addr_banned now_ms addr);
  if banned : bool then mret tt else
  check_purge now_ms;;
  score ← gets (λ s, default_score (score_config s));
  on_manager (add (AddrInfo_new addr 0 score)).

Definition add_outbound_addr (now_ms : Z) (addr : Multiaddr) : MS unit :=
  banned ← gets (is_addr_banned now_ms addr);
  if banned : bool then mret tt else
  score ← gets (λ s, default_score (score_config s));
  on_manager (add (AddrInfo_new addr now_ms score)).

(** *** Bans *)
Definition ban_network (now_ms : Z) (network : IpNetwork) (timeout_ms : Z) (reason : string)
    : MS unit :=
  until ← lift (u64_add now_ms timeout_ms);
  modify (λ s, set_ban_list (ban now_ms (mkBannedAddr network until reason now_ms) (ban_list s)) s).

Definition ban_addr (now_ms : Z) (addr : Multiaddr) (timeout_ms : Z) (reason : string) : MS unit :=
  (match multiaddr_to_socketaddr addr with
   | Some socket => ban_network now_ms (ip_to_network (sa_ip socket)) timeout_ms reason
   | None => mret tt
   end);;
  on_manager (remove addr);;
  mret tt.

(** [i32::saturating_add] *)
Definition saturating_add_i32 (a b : Z) : Z := Z.max (- 2 ^ 31) (Z.min (2 ^ 31 - 1) (a + b)).

Definition report (now_ms : Z) (addr : Multiaddr) : MS ReportResult :=
  known ← gets (λ s, get addr (addr_manager s));
  match known with
  | Some peer_addr =>
      let score := saturating_add_i32 (ai_score peer_addr) 0 in
      modify (λ s, set_addr_manager (get_mut addr (set_score score) (addr_manager s)) s);;
      config ← gets score_config;
      if score <? ban_score config then
        ban_addr now_ms addr (ban_timeout_ms config) "report behaviour";;
        mret Banned
      else mret ReportOk
  | None => mret ReportOk
  end.

Definition remove_disconnected_peer (addr : Multiaddr) : MS (option ConnectedPeer) :=
  match extract_peer_id addr with
  | Some peer_id =>
      peer ← gets (λ s, store_peers s !! peer_id);
      modify (λ s, set_store_peers (delete peer_id (store_peers s)) s);;
      mret peer
  | None => mret None
  end.

Definition peer_status (peer_id : PeerId) (s : PeerStore) : PeerStatus :=
  if decide (is_Some (store_peers s !! peer_id)) then Connected else Disconnected.

(** *** Choosing addresses *)
Definition peer_connected (peers : gmap PeerId ConnectedPeer) (a : AddrInfo) : option bool :=
  (λ peer_id, bool_decide (is_Some (peers !! peer_id))) <$> extract_peer_id (ai_addr a).

Definition attempt_filter (now_ms : Z) (peers : gmap PeerId ConnectedPeer) (a : AddrInfo) : bool :=
  default false (negb <$> peer_connected peers a) &&
  connected (λ t, (saturating_sub now_ms ADDR_TRY_TIMEOUT_MS <? t) &&
                  (t <=? saturating_sub now_ms DIAL_INTERVAL)) a.
Definition feeler_filter (now_ms : Z) (peers : gmap PeerId ConnectedPeer) (a : AddrInfo) : bool :=
  default false (negb <$> peer_connected peers a) &&
  negb (tried_in_last_minute now_ms a) &&
  negb (connected (λ t, saturating_sub now_ms ADDR_TRY_TIMEOUT_MS <? t) a).
Definition random_filter (now_ms : Z) (peers : gmap PeerId ConnectedPeer) (a : AddrInfo) : bool :=
  default false (peer_connected peers a) ||
  connected (λ t, saturating_sub now_ms ADDR_TIMEOUT_MS <? t) a.

Definition fetch_addrs_to_attempt (now_ms : Z) (n : nat) : MS (list AddrInfo) :=
  peers ← gets store_peers; on_manager (fetch_random now_ms n (attempt_filter now_ms peers)).
Definition fetch_addrs_to_feeler (now_ms : Z) (n : nat) : MS (list AddrInfo) :=
  peers ← gets store_peers; on_manager (fetch_random now_ms n (feeler_filter now_ms peers)).
Definition fetch_random_addrs (now_ms : Z) (n : nat) : MS (list AddrInfo) :=
  peers ← gets store_peers; on_manager (fetch_random now_ms n (random_filter now_ms peers)).

Definition fetch_addr_by_peer_id (now_ms : Z) (peer_id : PeerId) (s : PeerStore)
    : outcome NetworkError (gset Multiaddr) :=
  get_by_peer_id now_ms peer_id
    (connected (λ t, (saturating_sub now_ms ADDR_TRY_TIMEOUT_MS <? t) &&
                     (t <=? saturating_sub now_ms DIAL_INTERVAL))) (addr_manager s).

Definition clear_ban_list (s : PeerStore) : PeerStore := set_ban_list BanList_new s.
Definition peer_count (s : PeerStore) : nat := size (store_peers s).
End store.
