(* ===== verification/PeerStoreProps.v ===== *)
(** * Correctness of the peer store

    Discovered addresses stay under their limit, a ban keeps every address of
    its IP out until it expires, and what the store offers for dialing. *)

From stdpp Require Import sorting.
From S2P Require Import Prelude Types Overlord NetAddr AddrManager AddrManagerProps PeerStore.

Local Open Scope Z_scope.

Section props.
Context `{!Tentacle} `{!IpNetworks} `{!Randomness}.
Implicit Types (s : PeerStore) (m : Manager) (a : AddrInfo).

(** ** Removing candidates *)
Lemma get_key addr key m : multiaddr_to_socketaddr addr = Some key →
  is_Some (get addr m) → is_Some (addr_to_id m !! key).
Proof. unfold get. intros -> [a Ha]. cbn in Ha. by destruct (addr_to_id m !! key). Qed.

Lemma remove_count addr m m' r : manager_inv m → remove addr m = (m', Ok r) →
  (count m' ≤ count m)%nat ∧ (is_Some (get addr m) → S (count m') = count m).
Proof.
  intros Hinv Hrun. destruct (multiaddr_to_socketaddr addr) as [key|] eqn:Hs; cycle 1.
  { unfold remove in Hrun. rewrite Hs in Hrun. injection Hrun as <- <-. split; [lia|].
    unfold get. rewrite Hs. by intros [? ?]. }
  destruct (addr_to_id m !! key) as [id|] eqn:Hk; cycle 1.
  { unfold remove in Hrun. rewrite Hs, bind_gets, Hk in Hrun. injection Hrun as <- <-. split; [lia|].
    intros [? Hg]%(get_key _ _ _ Hs). congruence. }
  destruct (remove_run _ _ _ _ Hinv Hs Hk) as (m1 & info & Hro & _ & _ & _ & Hrun').
  assert (m' = removed addr key id m1) as -> by congruence.
  unfold count. cbn. rewrite (ro_addr _ _ Hro), map_size_delete, Hk.
  assert (size (addr_to_id m) ≠ 0%nat) by (intros E%map_size_empty_inv; by rewrite E in Hk).
  cbn. lia.
Qed.

Lemma on_manager_run {A} (op : M Manager NetworkError A) s m o :
  op (addr_manager s) = (m, o) → on_manager op s = (set_addr_manager m s, o).
Proof. intros Hop. unfold on_manager, zoom. by rewrite Hop. Qed.

(** What a call that only touches the addresses leaves alone. *)
Definition only_addrs s s' : Prop :=
  ban_list s' = ban_list s ∧ store_peers s' = store_peers s ∧ score_config s' = score_config s.

Lemma remove_all_ok keys : ∀ s, reachable (addr_manager s) →
  ∃ s', remove_all keys s = (s', Ok tt) ∧ reachable (addr_manager s') ∧ only_addrs s s' ∧
    next_id (addr_manager s') = next_id (addr_manager s) ∧
    (count (addr_manager s') ≤ count (addr_manager s))%nat ∧
    (∀ k ks, keys = k :: ks → is_Some (get k (addr_manager s)) →
       count (addr_manager s') < count (addr_manager s))%nat.
Proof.
  induction keys as [|k keys IH]; intros s Hr; cbn.
  { exists s. by split_and!. }
  destruct (remove_ok k _ (manager_reachable_inv _ Hr)) as (m & r & Hrun & _ & Hn & _).
  destruct (remove_count _ _ _ _ (manager_reachable_inv _ Hr) Hrun) as [Hle Hlt].
  set (s1 := set_addr_manager m s).
  destruct (IH s1) as (s' & Hs' & Hr' & (E1 & E2 & E3) & Hn' & Hle' & _).
  { eapply rtc_r; [done|]. by econstructor. }
  exists s'. cbn in *. split_and!; try done; [|congruence|lia|].
  - rewrite (bind_ok _ _ _ s1 tt); [done|]. by rewrite (bind_ok _ _ _ _ _ (on_manager_run _ _ _ _ Hrun)).
  - intros k' ks [= -> ->] Hk. specialize (Hlt Hk). lia.
Qed.

Lemma addrs_iter_known a m : manager_inv m → a ∈ addrs_iter m → get (ai_addr a) m = Some a.
Proof.
  intros (Hp & Ht & _). unfold addrs_iter. rewrite iter_order_perm, list_elem_of_fmap.
  intros ([id a'] & -> & Hin%elem_of_map_to_list). cbn.
  assert (Ha : addr_of m id = Some (ai_addr a')) by (unfold addr_of; by rewrite Hin).
  destruct (inv_sock _ Ht _ _ Ha) as [key Hk]. unfold get. rewrite Hk. cbn.
  rewrite (proj2 (inv_addr _ Ht key id)); [done|]. eauto.
Qed.

Lemma unconnectable_from now_ms addrs k : k ∈ unconnectable now_ms addrs → ∃ a, a ∈ addrs ∧ k = ai_addr a.
Proof.
  unfold unconnectable. intros (a & Ha & Hk)%list_elem_of_omap. case_match; [|done]. simplify_eq. eauto.
Qed.

Lemma push_group_from g a groups b l :
  l ∈ push_group g a groups → b ∈ l.2 → b = a ∨ ∃ l', l' ∈ groups ∧ b ∈ l'.2.
Proof.
  induction groups as [|[g' addrs] groups IH]; cbn.
  - intros ->%list_elem_of_singleton ->%list_elem_of_singleton. by left.
  - case_decide; rewrite elem_of_cons; intros [->|Hl] Hb; cbn in *.
    + apply elem_of_app in Hb as [Hb| ->%list_elem_of_singleton]; [|by left].
      right. exists (g', addrs). split; [left|done].
    + right. exists l. split; [by right|done].
    + right. exists (g', addrs). split; [left|done].
    + destruct (IH Hl Hb) as [?|(l' & ? & ?)]; [by left|]. right. exists l'. split; [by right|done].
Qed.

Lemma peers_by_network_group_from addrs l b :
  l ∈ peers_by_network_group addrs → b ∈ l.2 → b ∈ addrs.
Proof.
  unfold peers_by_network_group. enough (∀ groups, l ∈ fold_left
    (λ groups addr, push_group (Group_from (ai_addr addr)) addr groups) addrs groups →
    b ∈ l.2 → b ∈ addrs ∨ ∃ l', l' ∈ groups ∧ b ∈ l'.2) as Hgen.
  { intros Hl Hb. destruct (Hgen [] Hl Hb) as [|(l' & Hl' & _)]; [done|]. by apply not_elem_of_nil in Hl'. }
  induction addrs as [|a addrs IH]; cbn; intros groups Hl Hb; [eauto|].
  destruct (IH _ Hl Hb) as [?|(l' & Hl' & Hb')]; [left; by right|].
  destruct (push_group_from _ _ _ _ _ Hl' Hb') as [->|?]; [left; left|by right].
Qed.

Lemma group_candidates_from addrs k : k ∈ group_candidates addrs → ∃ a, a ∈ addrs ∧ k = ai_addr a.
Proof.
  unfold group_candidates. rewrite list_elem_of_In, in_concat. setoid_rewrite <-list_elem_of_In.
  intros (ks & (l & Hl & Hks)%list_elem_of_omap & Hk). case_match; [|done]. simplify_eq.
  apply list_elem_of_fmap in Hk as (a & -> & Ha). exists a. split; [|done].
  pose proof (elem_of_submseteq _ _ _ Ha (choose_multiple_sub 2 l)) as Ha'.
  apply (subseteq_take _ _ l) in Hl. rewrite merge_sort_Permutation, list_elem_of_fmap in Hl.
  destruct Hl as (gl & -> & Hgl). rewrite iter_order_perm in Hgl.
  by eapply peers_by_network_group_from.
Qed.

(** ** The purge *)
(** The table is full of connectable addresses that the purge cannot thin. *)
Definition unpurgeable now_ms m : Prop :=
  unconnectable now_ms (addrs_iter m) = [] ∧ group_candidates (addrs_iter m) = [].

Lemma check_purge_ok now_ms s : reachable (addr_manager s) →
  (count (addr_manager s) ≤ ADDR_COUNT_LIMIT)%nat →
  (check_purge now_ms s = (s, Err (NE_Internal PeerStoreEvictionFailed)) ∧
     count (addr_manager s) = ADDR_COUNT_LIMIT ∧ unpurgeable now_ms (addr_manager s)) ∨
  ∃ s', check_purge now_ms s = (s', Ok tt) ∧ reachable (addr_manager s') ∧ only_addrs s s' ∧
    next_id (addr_manager s') = next_id (addr_manager s) ∧
    (count (addr_manager s') < ADDR_COUNT_LIMIT)%nat.
Proof.
  intros Hr Hle. pose proof (manager_reachable_inv _ Hr) as Hinv. unfold check_purge. rewrite bind_gets.
  case_decide as Hfull; [right; exists s; by split_and!|].
  rewrite bind_gets. destruct (unconnectable now_ms (addrs_iter (addr_manager s))) as [|k ks] eqn:Hc.
  - rewrite (bind_ok _ _ _ s tt) by done. rewrite bind_gets.
    destruct (group_candidates (addrs_iter (addr_manager s))) as [|k ks] eqn:Hg.
    + left. rewrite (bind_ok _ _ _ s tt) by done. split; [done|]. split; [lia|done].
    + right. destruct (remove_all_ok (k :: ks) s Hr) as (s' & Hrun & Hr' & Ho & Hn & _ & Hlt).
      exists s'. rewrite (bind_ok _ _ _ _ _ Hrun). split_and!; try done.
      destruct (group_candidates_from (addrs_iter (addr_manager s)) k) as (a & Ha & ->); [rewrite Hg; left|].
      specialize (Hlt _ _ eq_refl ltac:(by rewrite (addrs_iter_known _ _ Hinv Ha))). lia.
  - right. destruct (remove_all_ok (k :: ks) s Hr) as (s' & Hrun & Hr' & Ho & Hn & _ & Hlt).
    exists s'. rewrite (bind_ok _ _ _ _ _ Hrun). split_and!; try done.
    destruct (unconnectable_from now_ms (addrs_iter (addr_manager s)) k) as (a & Ha & ->); [rewrite Hc; left|].
    specialize (Hlt _ _ eq_refl ltac:(by rewrite (addrs_iter_known _ _ Hinv Ha))). lia.
Qed.

Lemma add_count info m m' : manager_inv m → add info m = (m', Ok tt) → (count m' ≤ S (count m))%nat.
Proof.
  intros Hinv. unfold add. destruct (multiaddr_to_socketaddr (ai_addr info)) as [key|] eqn:Hs;
    [|intros [= <-]; lia].
  rewrite bind_gets. assert (Htail : ∀ m1, (count m1 ≤ count m)%nat →
    (match extract_peer_id (ai_addr info) with
     | Some p => add_fresh key p info | None => mret tt end : M Manager NetworkError unit) m1 = (m', Ok tt) →
    (count m' ≤ S (count m))%nat).
  { intros m1 Hle. destruct (extract_peer_id (ai_addr info)); [intros ->%add_fresh_inv|intros [= <-]; lia].
    unfold count. cbn. rewrite map_size_insert. unfold count in Hle. case_match; unfold id; lia. }
  destruct (get (ai_addr info) m) as [old|]; [|by apply Htail].
  destruct (ai_last_connected_at_ms old <? ai_last_connected_at_ms info); [|intros [= <-]; lia].
  destruct (remove_ok (ai_addr info) m Hinv) as (m1 & r & Hr & _).
  rewrite (bind_ok (remove (ai_addr info);; mret true) _ _ m1 true) by (by rewrite (bind_ok _ _ _ _ _ Hr)).
  apply Htail. by eapply remove_count.
Qed.

(** ** Bans *)
Lemma ip_banned_iff ip t bl : is_ip_banned_until ip t bl = true ↔
  ∃ net b, bl_inner bl !! net = Some b ∧ t < ban_until b ∧ network_contains net ip = true.
Proof.
  unfold is_ip_banned_until. rewrite orb_true_iff, existsb_exists. split.
  - intros [Hd|([net b] & Hin & [? ?]%andb_prop)].
    + destruct (bl_inner bl !! ip_to_network ip) as [b|] eqn:E; [|done]. exists (ip_to_network ip), b.
      split_and!; [done|lia|]. unfold ip_to_network. by rewrite network_from_contains, bool_decide_true.
    + apply list_elem_of_In in Hin. rewrite iter_order_perm, elem_of_map_to_list in Hin.
      exists net, b. cbn in *. split_and!; [done|lia|done].
  - intros (net & b & Hl & Ht & Hc). right. exists (net, b). cbn. split.
    + apply list_elem_of_In. by rewrite iter_order_perm, elem_of_map_to_list.
    + rewrite Hc, andb_true_r. lia.
Qed.

Lemma ban_lookup now_ms b bl net : now_ms < ban_until b →
  bl_inner (ban now_ms b bl) !! net =
    if insert_count (ban now_ms b bl) mod CLEAR_INTERVAL_COUNTER =? 0
    then (if decide (ba_address b = net) then Some b
          else x ← bl_inner bl !! net; if now_ms <? ban_until x then Some x else None)
    else (if decide (ba_address b = net) then Some b else bl_inner bl !! net).
Proof.
  intros Hlt. unfold ban. cbn [insert_count].
  destruct (wrap64 (insert_count bl + 1) mod CLEAR_INTERVAL_COUNTER =? 0) eqn:E; cbn; rewrite E.
  - rewrite map_lookup_filter, lookup_insert. case_decide; cbn.
    + rewrite option_guard_True; done.
    + destruct (bl_inner bl !! net) as [x|]; [|done]. cbn. destruct (now_ms <? ban_until x) eqn:Ex.
      * rewrite option_guard_True; [done|]. cbn. lia.
      * rewrite option_guard_False; [done|]. cbn. lia.
  - by rewrite lookup_insert.
Qed.

Lemma ban_lookup_live now_ms b bl net x t : now_ms < ban_until b → now_ms ≤ t → t < ban_until x →
  bl_inner (ban now_ms b bl) !! net = Some x ↔
    (if decide (ba_address b = net) then Some b else bl_inner bl !! net) = Some x.
Proof.
  intros Hb Ht Hx. rewrite ban_lookup by done. case_match; [|done]. case_decide; [done|].
  destruct (bl_inner bl !! net) as [y|]; cbn; [|done].
  destruct (now_ms <? ban_until y) eqn:E; [done|]. split; [done|]. intros [= ->]. lia.
Qed.

Lemma ban_banned_iff now_ms ip until reason ip' t bl : now_ms < until → now_ms ≤ t →
  is_ip_banned_until ip' t (ban now_ms (mkBannedAddr (network_from ip) until reason now_ms) bl) = true ↔
    (ip = ip' ∧ t < until) ∨ ∃ net b, net ≠ network_from ip ∧ bl_inner bl !! net = Some b ∧
      t < ban_until b ∧ network_contains net ip' = true.
Proof.
  intros Hu Ht. rewrite ip_banned_iff. split.
  - intros (net & b & Hl & Hb & Hc). apply (ban_lookup_live _ _ _ _ _ t) in Hl; [|cbn; lia..]. cbn in Hl.
    case_decide as Hn; simplify_eq; cbn in *.
    + left. rewrite network_from_contains, bool_decide_eq_true in Hc. done.
    + right. by exists net, b.
  - intros [[<- Hlt]|(net & b & Hne & Hl & Hb & Hc)].
    + exists (network_from ip), (mkBannedAddr (network_from ip) until reason now_ms).
      split_and!; [apply ban_lookup_live with t; [cbn; lia..|by rewrite decide_True]|done|].
      by rewrite network_from_contains, bool_decide_true.
    + exists net, b. split_and!; [|done..]. apply ban_lookup_live with t; [cbn; lia..|].
      rewrite decide_False; [done|]. cbn. congruence.
Qed.

Lemma ban_other_ip now_ms ip until reason ip' t bl : now_ms < until → now_ms ≤ t → ip ≠ ip' →
  is_ip_banned_until ip' t (ban now_ms (mkBannedAddr (network_from ip) until reason now_ms) bl) =
  is_ip_banned_until ip' t bl.
Proof.
  intros Hu Ht Hne. apply eq_bool_prop_intro. rewrite !Is_true_true, ban_banned_iff, ip_banned_iff by done.
  split; [intros [[? _]|(net & b & _ & ?)]; [done|by eauto]|].
  intros (net & b & Hl & Hb & Hc). right. exists net, b. split_and!; try done.
  intros ->. rewrite network_from_contains, bool_decide_eq_true in Hc. done.
Qed.

Lemma banned_add t addr s : is_addr_banned t addr s = true →
  add_addr t addr s = (s, Ok tt) ∧ add_outbound_addr t addr s = (s, Ok tt).
Proof. intros Hb. unfold add_addr, add_outbound_addr. by rewrite !bind_gets, Hb. Qed.

(** The store with a network banned. *)
Definition with_ban (now_ms : Z) (network : IpNetwork) (timeout_ms : Z) (reason : string) (s : PeerStore)
    : PeerStore :=
  set_ban_list (ban now_ms (mkBannedAddr network (now_ms + timeout_ms) reason now_ms) (ban_list s)) s.

(** The run of [ban_addr]. *)
Lemma ban_addr_run now_ms addr socket timeout reason s :
  now_ms + timeout < 2 ^ 64 →
  manager_inv (addr_manager s) → multiaddr_to_socketaddr addr = Some socket →
  ∃ m', ban_addr now_ms addr timeout reason s =
    (set_addr_manager m' (with_ban now_ms (ip_to_network (sa_ip socket)) timeout reason s), Ok tt) ∧
    manager_step (addr_manager s) m' ∧ get addr m' = None.
Proof.
  intros Hlt Hinv Hs. unfold ban_addr. rewrite Hs.
  set (s1 := with_ban now_ms (ip_to_network (sa_ip socket)) timeout reason s).
  assert (Hb : ban_network now_ms (ip_to_network (sa_ip socket)) timeout reason s = (s1, Ok tt))
    by (unfold ban_network; by rewrite u64_add_small by done).
  rewrite (bind_ok _ _ _ _ _ Hb).
  destruct (remove_ok addr (addr_manager s) Hinv) as (m' & r & Hrun & _ & _ & Hl & _).
  exists m'. rewrite (bind_ok _ _ _ _ _ (on_manager_run _ s1 _ _ Hrun)).
  split_and!; [done|by econstructor|].
  pose proof (get_lookup addr m') as Hg. rewrite Hs in Hg. cbn in Hg. rewrite Hl in Hg.
  unfold table_remove in Hg. rewrite decide_True in Hg by done. by destruct (get addr m').
Qed.

Lemma ban_network_banned now_ms ip timeout reason s t addr' socket' :
  0 ≤ now_ms → 0 < timeout → now_ms + timeout < 2 ^ 64 → now_ms ≤ t →
  multiaddr_to_socketaddr addr' = Some socket' → sa_ip socket' = ip → t < now_ms + timeout →
  is_addr_banned t addr' (with_ban now_ms (ip_to_network ip) timeout reason s) = true.
Proof.
  intros Hnow Hto Hlt Ht Hs' Hip Hexp.
  unfold is_addr_banned, banlist_is_addr_banned. rewrite Hs'. apply ban_banned_iff; [lia..|]. by left.
Qed.

(** ** Properties *)

(** Discovering an address keeps the table within its limit.  From a store
    within the limit, [add_addr] never panics and leaves at most
    [ADDR_COUNT_LIMIT] addresses; it leaves a banned address out, makes a
    peer's address known otherwise, and its only error is that the table is
    full of connectable addresses that the purge cannot thin, in which case the
    store is unchanged. *)
Theorem add_addr_bounded now_ms addr s :
  reachable (addr_manager s) → next_id (addr_manager s) < 2 ^ 64 - 1 →
  (count (addr_manager s) ≤ ADDR_COUNT_LIMIT)%nat →
  ∃ s' o, add_addr now_ms addr s = (s', o) ∧ reachable (addr_manager s') ∧
    (count (addr_manager s') ≤ ADDR_COUNT_LIMIT)%nat ∧ only_addrs s s' ∧
    ((o = Ok tt ∧ if is_addr_banned now_ms addr s then s' = s else
        ∀ key, multiaddr_to_socketaddr addr = Some key → is_Some (extract_peer_id addr) →
          is_Some (lookup_key key (addr_manager s'))) ∨
     (o = Err (NE_Internal PeerStoreEvictionFailed) ∧ s' = s ∧
        count (addr_manager s) = ADDR_COUNT_LIMIT ∧ unpurgeable now_ms (addr_manager s))).
Proof.
  intros Hr Hn Hle. destruct (is_addr_banned now_ms addr s) eqn:Hb.
  { exists s, (Ok tt). split; [by apply banned_add|]. split_and!; try done. by left. }
  unfold add_addr. rewrite bind_gets, Hb.
  destruct (check_purge_ok now_ms s Hr Hle) as [(Hrun & Hc & Hu)|(s1 & Hrun & Hr1 & (E1 & E2 & E3) & Hn1 & Hlt)].
  { exists s. eexists. split; [by apply bind_err|]. split_and!; try done. by right. }
  rewrite (bind_ok _ _ _ _ _ Hrun), bind_gets.
  set (info := AddrInfo_new _ _ _).
  destruct (add_ok info (addr_manager s1) (manager_reachable_inv _ Hr1) ltac:(lia)) as (m' & Hadd & _ & _ & Hl).
  exists (set_addr_manager m' s1), (Ok tt). split; [by apply on_manager_run|].
  pose proof (add_count _ _ _ (manager_reachable_inv _ Hr1) Hadd). cbn. split_and!; try done; [|lia|].
  - eapply rtc_r; [done|]. apply (step_add info); [lia|done].
  - left. split; [done|]. intros key Hk [p Hp]. rewrite Hl. unfold table_add.
    rewrite decide_True by done. change (ai_addr info) with addr. rewrite Hp. by repeat case_match.
Qed.

(** A ban is effective and exact.  After [ban_addr] the address is no longer
    known; until the ban expires every address of its IP is refused by
    [add_addr] and [add_outbound_addr]; and the status of every other IP is
    what it was. *)
Theorem ban_addr_effective now_ms addr socket timeout reason s :
  reachable (addr_manager s) → multiaddr_to_socketaddr addr = Some socket →
  0 ≤ now_ms → 0 < timeout → now_ms + timeout < 2 ^ 64 →
  ∃ s', ban_addr now_ms addr timeout reason s = (s', Ok tt) ∧ reachable (addr_manager s') ∧
    get addr (addr_manager s') = None ∧
    ∀ t addr' socket', now_ms ≤ t → multiaddr_to_socketaddr addr' = Some socket' →
      (sa_ip socket' = sa_ip socket → t < now_ms + timeout →
         is_addr_banned t addr' s' = true ∧ add_addr t addr' s' = (s', Ok tt) ∧
         add_outbound_addr t addr' s' = (s', Ok tt)) ∧
      (sa_ip socket' ≠ sa_ip socket → is_addr_banned t addr' s' = is_addr_banned t addr' s).
Proof.
  intros Hr Hs Hnow Hto Hlt.
  destruct (ban_addr_run now_ms addr socket timeout reason s Hlt (manager_reachable_inv _ Hr) Hs) as (m' & Hrun & Hstep & Hget).
  eexists. split_and!; [exact Hrun|by eapply rtc_r|done|]. intros t addr' socket' Ht Hs'. split.
  - intros Hip Hexp. pose proof (ban_network_banned now_ms (sa_ip socket) timeout reason s t addr' socket') as Hb.
    split; [by apply Hb|]. apply banned_add. by apply Hb.
  - intros Hip. unfold is_addr_banned, banlist_is_addr_banned. rewrite Hs'. apply ban_other_ip; [lia..|done].
Qed.

(** Reporting a peer has no effect: on an address that is unknown, or whose
    score is at least [ban_score], as is the score every address is added with,
    [report] returns [Ok] and leaves the store as it was, so that no number of
    reports bans a peer. *)
Theorem report_no_effect now_ms addr s :
  (∀ a, get addr (addr_manager s) = Some a → ban_score (score_config s) ≤ ai_score a < 2 ^ 31) →
  0 ≤ ban_score (score_config s) → report now_ms addr s = (s, Ok ReportOk).
Proof.
  intros Hscore Hpos. unfold report. rewrite bind_gets.
  destruct (get addr (addr_manager s)) as [a|] eqn:Ha; [|done]. specialize (Hscore a eq_refl).
  assert (saturating_add_i32 (ai_score a) 0 = ai_score a) as -> by (unfold saturating_add_i32; lia).
  rewrite bind_modify. assert (get_mut addr (set_score (ai_score a)) (addr_manager s) = addr_manager s) as ->.
  { unfold get in Ha. unfold get_mut. destruct (multiaddr_to_socketaddr addr) as [key|]; [|done]. cbn in *.
    destruct (addr_to_id (addr_manager s) !! key) as [id|]; [|done]. cbn in Ha.
    unfold set_id_to_info. rewrite alter_id; [by destruct (addr_manager s)|].
    intros x Hx. assert (x = a) as -> by congruence. by destruct a. }
  rewrite bind_gets. cbn. rewrite (proj2 (Z.ltb_ge _ _)) by lia. by destruct s.
Qed.

(** What the store offers for dialing.  The addresses to attempt and the
    feeler addresses are connectable addresses of the table whose peers are not
    connected, at most the number asked for; the former were connected in the
    last three days but not in the last fifteen seconds, the latter were not
    connected in the last three days nor tried in the last minute; the draws
    leave the table as it was. *)
Theorem dial_candidates now_ms n s (feeler : bool) :
  reachable (addr_manager s) → (0 < n)%nat →
  ∃ s' l, (if feeler then fetch_addrs_to_feeler now_ms n else fetch_addrs_to_attempt now_ms n) s = (s', Ok l) ∧
    reachable (addr_manager s') ∧ only_addrs s s' ∧
    (∀ key, lookup_key key (addr_manager s') = lookup_key key (addr_manager s)) ∧ (length l ≤ n)%nat ∧
    ∀ a, a ∈ l → is_connectable now_ms a = true ∧
      (∃ key, multiaddr_to_socketaddr (ai_addr a) = Some key ∧ lookup_key key (addr_manager s) = Some (strip a)) ∧
      (∃ p, extract_peer_id (ai_addr a) = Some p ∧ store_peers s !! p = None) ∧
      if feeler then ai_last_tried_at_ms a < Z.max 0 (now_ms - 60000) ∧
        ai_last_connected_at_ms a ≤ Z.max 0 (now_ms - ADDR_TRY_TIMEOUT_MS)
      else Z.max 0 (now_ms - ADDR_TRY_TIMEOUT_MS) < ai_last_connected_at_ms a ≤ Z.max 0 (now_ms - DIAL_INTERVAL).
Proof.
  intros Hr Hn. set (f := if feeler then feeler_filter now_ms (store_peers s) else attempt_filter now_ms (store_peers s)).
  destruct (fetch_random_spec now_ms f n (addr_manager s)) as (m' & l & Hrun & Hr' & Hl & Hlen & Hall & _ & _);
    [done..|by destruct feeler|].
  exists (set_addr_manager m' s), l. split_and!; try done.
  { destruct feeler; apply on_manager_run, Hrun. }
  intros a Ha. destruct (Hall a Ha) as (Hc & Hf & Hkey). split; [done|]. split; [done|].
  assert (Hp : default false (negb <$> peer_connected (store_peers s) a) = true → ∃ p,
    extract_peer_id (ai_addr a) = Some p ∧ store_peers s !! p = None).
  { unfold peer_connected. destruct (extract_peer_id (ai_addr a)) as [p|]; [|done]. cbn. intros Hneg.
    exists p. split; [done|]. apply negb_true_iff, bool_decide_eq_false in Hneg. by apply eq_None_not_Some. }
  destruct feeler; unfold f, feeler_filter, attempt_filter, connected, tried_in_last_minute, saturating_sub in Hf;
    rewrite !andb_true_iff, ?negb_true_iff in Hf; destruct_and!; (split; [by apply Hp|lia]).
Qed.
End props.

(** ** Examples *)
Section examples.
#[local] Existing Instances plain_tentacle plain_networks plain_randomness.

Definition ex_peer (port : Z) : Multiaddr := (V4 0x01020304, port, Some [x01]).
Definition ex_other : Multiaddr := (V4 0x05060708, 80, Some [x02]).
Definition ex_store : PeerStore :=
  (add_outbound_addr 1000000 (ex_peer 8001) (add_outbound_addr 1000000 (ex_peer 8000)
    (PeerStore_new Manager_default BanList_new)).1).1.

Lemma ex_store_reachable : reachable (addr_manager ex_store).
Proof.
  apply (rtc_l _ _ (addr_manager (add_outbound_addr 1000000 (ex_peer 8000)
    (PeerStore_new Manager_default BanList_new)).1)); [|eapply rtc_l; [|apply rtc_refl]].
  - apply (step_add (AddrInfo_new (ex_peer 8000) 1000000 100)); reflexivity.
  - apply (step_add (AddrInfo_new (ex_peer 8001) 1000000 100)); reflexivity.
Qed.

Lemma add_addr_bounded_witness : ∃ s', add_addr 2000000 ex_other ex_store = (s', Ok tt) ∧
  is_Some (lookup_key (mkSocketAddr (V4 0x05060708) 80) (addr_manager s')).
Proof.
  destruct (add_addr_bounded 2000000 ex_other ex_store) as
    (s' & o & Hrun & _ & _ & _ & [[-> Hk]|(_ & _ & E & _)]);
    [apply ex_store_reachable|reflexivity|apply Nat.leb_le; vm_compute; reflexivity| |].
  - exists s'. split; [exact Hrun|].
    assert (is_addr_banned 2000000 ex_other ex_store = false) as E by reflexivity. rewrite E in Hk.
    apply Hk; [reflexivity|by eexists].
  - exfalso. apply (f_equal Z.of_nat) in E. vm_compute in E. done.
Defined.

Lemma ban_addr_effective_witness : ∃ s', ban_addr 2000000 (ex_peer 8000) 300000 "" ex_store = (s', Ok tt) ∧
  add_addr 2200000 (ex_peer 9000) s' = (s', Ok tt).
Proof.
  destruct (ban_addr_effective 2000000 (ex_peer 8000) (mkSocketAddr (V4 0x01020304) 8000) 300000 "" ex_store)
    as (s' & Hrun & _ & _ & Hb); [apply ex_store_reachable|reflexivity|lia..|].
  exists s'. split; [exact Hrun|].
  destruct (Hb 2200000 (ex_peer 9000) (mkSocketAddr (V4 0x01020304) 9000)) as [Hsame _]; [lia|reflexivity|].
  apply Hsame; [reflexivity|lia].
Defined.

Lemma report_no_effect_witness : report 2000000 (ex_peer 8000) ex_store = (ex_store, Ok ReportOk).
Proof.
  apply (report_no_effect 2000000 (ex_peer 8000) ex_store); [|vm_compute; discriminate].
  intros a Ha. assert (ai_score <$> get (ex_peer 8000) (addr_manager ex_store) = Some 100) as E by reflexivity.
  rewrite Ha in E. cbn in E. injection E as ->. change (40 ≤ 100 < 2 ^ 31). lia.
Defined.

Lemma dial_candidates_witness : ∃ s' l, fetch_addrs_to_attempt 2000000 5 ex_store = (s', Ok l) ∧ length l = 1%nat.
Proof.
  destruct (dial_candidates 2000000 5 ex_store false) as (s' & l & Hrun & _); [apply ex_store_reachable|lia|].
  exists s', l. split; [exact Hrun|]. assert (length <$> (fetch_addrs_to_attempt 2000000 5 ex_store).2 = Ok 1%nat) as E
    by reflexivity. rewrite Hrun in E. by injection E.
Defined.

(** A ban removes the one address it names: after the ban of one address of
    an IP, another address of the same IP is banned and yet still offered for
    dialing. *)
Example banned_address_offered : ∃ s,
  ban_addr 2000000 (ex_peer 8000) 300000 "" ex_store = (s, Ok tt) ∧
  match (fetch_addrs_to_attempt 2100000 5 s).2 with Ok l => ai_addr <$> l = [ex_peer 8001] | _ => False end ∧
  is_addr_banned 2100000 (ex_peer 8001) s = true.
Proof.
  exists (ban_addr 2000000 (ex_peer 8000) 300000 "" ex_store).1. split_and!.
  - generalize (eq_refl : (ban_addr 2000000 (ex_peer 8000) 300000 "" ex_store).2 = Ok tt).
    by destruct (ban_addr 2000000 (ex_peer 8000) 300000 "" ex_store) as [s o]; intros [= ->].
  - vm_compute. reflexivity.
  - vm_compute. reflexivity.
Qed.
End examples.
