(* ===== verification/PeerManager.v ===== *)
(** * The peer manager

    [Online] of [core/network/src/peer_manager/registry.rs], and [PeerManager]
    of [peer_manager/mod.rs] with what it reads of the configuration. *)

From S2P Require Import Prelude Types Overlord NetAddr AddrManager PeerStore.

Local Open Scope Z_scope.

Section manager.
Context `{!Tentacle} `{!IpNetworks} `{!Randomness}.

(** ** [registry.rs] *)
(** What the code reads of tentacle's [SessionContext]. *)
Record SessionContext := mkSessionContext {
  sc_id : Z;
  sc_address : Multiaddr;
  sc_ty : SessionType
}.

Record PeerInfo := mkPeerInfo {
  pi_addr : Multiaddr;
  pi_session_id : Z;
  opened_protocols : gset Z;
  pi_session_type : SessionType;
  pi_listens : list Multiaddr;
  pi_reuse : bool
}.
Definition PeerInfo_new (ctx : SessionContext) : PeerInfo :=
  mkPeerInfo (sc_address ctx) (sc_id ctx) ∅ (sc_ty ctx) [] false.
Definition set_opened_protocols v p :=
  mkPeerInfo (pi_addr p) (pi_session_id p) v (pi_session_type p) (pi_listens p) (pi_reuse p).
Definition set_listens v p :=
  mkPeerInfo (pi_addr p) (pi_session_id p) (opened_protocols p) (pi_session_type p) v (pi_reuse p).
Definition set_reuse v p :=
  mkPeerInfo (pi_addr p) (pi_session_id p) (opened_protocols p) (pi_session_type p) (pi_listens p) v.

Definition insert_protocol (id : Z) (p : PeerInfo) : PeerInfo :=
  set_opened_protocols ({[id]} ∪ opened_protocols p) p.
Definition remove_protocol (id : Z) (p : PeerInfo) : PeerInfo :=
  set_opened_protocols (opened_protocols p ∖ {[id]}) p.

Record Online := mkOnline {
  on_peers : gmap PeerId PeerInfo;
  on_dialing : gset Multiaddr;
  on_feeler : gset Multiaddr
}.
Definition Online_default : Online := mkOnline ∅ ∅ ∅.
Definition set_on_peers v o := mkOnline v (on_dialing o) (on_feeler o).
Definition set_dialing v o := mkOnline (on_peers o) v (on_feeler o).
Definition set_feeler v o := mkOnline (on_peers o) (on_dialing o) v.

Definition remove_feeler (addr : Multiaddr) (o : Online) : Online :=
  set_feeler (on_feeler o ∖ {[addr]}) o.
(** Says whether the address was new. *)
Definition add_feeler (addr : Multiaddr) (o : Online) : Online * bool :=
  (set_feeler ({[addr]} ∪ on_feeler o) o, bool_decide (addr ∉ on_feeler o)).
Definition is_feeler (addr : Multiaddr) (o : Online) : bool := bool_decide (addr ∈ on_feeler o).

Record ConnectionStatus := mkConnectionStatus { cs_total : nat; cs_inbound : nat; cs_outbound : nat }.
Definition connection_status (o : Online) : ConnectionStatus :=
  let peers := snd <$> map_to_list (on_peers o) in
  mkConnectionStatus (size (on_peers o))
    (length (filter (λ p, is_outbound (pi_session_type p) = false) peers))
    (length (filter (λ p, is_outbound (pi_session_type p) = true) peers)).

(** ** [peer_manager/mod.rs] *)
(** What the modelled code reads of [NetworkConfig]; the peer id is that of
    the node's key. *)
Record NetworkConfig := mkNetworkConfig {
  max_connections : Z;
  inbound_conn_limit : Z;
  local_peer_id : PeerId;
  cfg_bootstraps : list Multiaddr
}.

Record PeerManager := mkPeerManager {
  online : Online;
  peer_store : PeerStore;
  bootstraps : gmap PeerId Multiaddr;
  pm_chain_id : string;
  public_addrs : gset Multiaddr;
  pm_config : NetworkConfig;
  consensus_list : gset PeerId
}.
Definition set_online v m := mkPeerManager v (peer_store m) (bootstraps m) (pm_chain_id m)
  (public_addrs m) (pm_config m) (consensus_list m).
Definition set_peer_store v m := mkPeerManager (online m) v (bootstraps m) (pm_chain_id m)
  (public_addrs m) (pm_config m) (consensus_list m).
Definition set_pm_chain_id v m := mkPeerManager (online m) (peer_store m) (bootstraps m) v
  (public_addrs m) (pm_config m) (consensus_list m).
Definition set_public_addrs v m := mkPeerManager (online m) (peer_store m) (bootstraps m)
  (pm_chain_id m) v (pm_config m) (consensus_list m).
Definition set_consensus_list v m := mkPeerManager (online m) (peer_store m) (bootstraps m)
  (pm_chain_id m) (public_addrs m) (pm_config m) v.

Abbreviation MP := (M PeerManager NetworkError).

(** [with_registry_mut] and [with_peer_store_mut] *)
Definition with_registry_mut (f : Online → Online) (m : PeerManager) : PeerManager :=
  set_online (f (online m)) m.
Definition with_peer_store_mut {A} (op : M PeerStore NetworkError A) : MP A :=
  zoom peer_store set_peer_store op.

(** The bootstrap table of [new]: every configured node but this one. *)
Definition PeerManager_new (config : NetworkConfig) (store : PeerStore)
    : outcome NetworkError PeerManager :=
  ids ← traverse (λ addr, id ← unwrap (extract_peer_id addr); Ok (id, addr)) (cfg_bootstraps config);
  Ok (mkPeerManager Online_default store
        (fold_left (λ b '(id, addr),
           if decide (local_peer_id config ≠ id) then <[id := addr]> b else b) ids ∅)
        "" ∅ config ∅).

(** Marks every address of a set as tried. *)
Definition mark_all_tried (now_ms : Z) (addrs : list Multiaddr) (s : PeerStore) : PeerStore :=
  fold_left (λ s addr, set_addr_manager (get_mut addr (mark_tried now_ms) (addr_manager s)) s)
    addrs s.

(** The addresses known for a peer that is not connected, marked as tried. *)
Definition take_unconnected (now_ms : Z) (id : PeerId) : MP (list Multiaddr) :=
  store ← gets peer_store;
  set ← lift (fetch_addr_by_peer_id now_ms id store);
  let list := iter_order (elements set) in
  modify (λ m, set_peer_store (mark_all_tried now_ms list (peer_store m)) m);;
  mret list.

Fixpoint peers (now_ms : Z) (pid : list PeerId) : MP (list Z * list Multiaddr) :=
  match pid with
  | [] => mret ([], [])
  | id :: pid' =>
      info ← gets (λ m, on_peers (online m) !! id);
      match info with
      | Some info =>
          rest ← peers now_ms pid';
          mret (pi_session_id info :: rest.1, rest.2)
      | None =>
          list ← take_unconnected now_ms id;
          rest ← peers now_ms pid';
          mret (rest.1, list ++ rest.2)
      end
  end.

Fixpoint unconnected_of (now_ms : Z) (ids : list PeerId) : MP (list Multiaddr) :=
  match ids with
  | [] => mret []
  | id :: ids' =>
      info ← gets (λ m, on_peers (online m) !! id);
      list ← (match info with Some _ => mret [] | None => take_unconnected now_ms id end);
      rest ← unconnected_of now_ms ids';
      mret (list ++ rest)
  end.
Definition unconnected_consensus_peer (now_ms : Z) : MP (list Multiaddr) :=
  ids ← gets (λ m, iter_order (elements (consensus_list m)));
  unconnected_of now_ms ids.

Definition connected_consensus_peer (m : PeerManager) : list Multiaddr :=
  concat (omap (λ id,
    info ← on_peers (online m) !! id;
    Some ((if is_outbound (pi_session_type info) || pi_reuse info then [pi_addr info] else []) ++
          pi_listens info))
    (iter_order (elements (consensus_list m)))).

Definition register (now_ms : Z) (peer : PeerInfo) : MP unit :=
  id ← lift (unwrap (extract_peer_id (pi_addr peer)));
  modify (with_registry_mut (λ o, set_on_peers (<[id := peer]> (on_peers o)) o));;
  with_peer_store_mut (add_connected_peer now_ms (pi_addr peer) (pi_session_type peer)).

Definition unregister (addr : Multiaddr) : MP unit :=
  modify (with_registry_mut (remove_feeler addr));;
  id ← lift (unwrap (extract_peer_id addr));
  peer ← gets (λ m, on_peers (online m) !! id);
  modify (with_registry_mut (λ o, set_on_peers (delete id (on_peers o)) o));;
  match peer with
  | Some peer =>
      with_peer_store_mut (remove_disconnected_peer (pi_addr peer));;
      lift (unwrap (extract_peer_id (pi_addr peer)));;
      mret tt
  | None => mret tt
  end.

Definition open_protocol (id : PeerId) (pid : Z) : PeerManager → PeerManager :=
  with_registry_mut (λ o, set_on_peers (alter (insert_protocol pid) id (on_peers o)) o).
Definition close_protocol (id : PeerId) (pid : Z) : PeerManager → PeerManager :=
  with_registry_mut (λ o, set_on_peers (alter (remove_protocol pid) id (on_peers o)) o).

Definition unconnected_bootstraps (m : PeerManager) : list Multiaddr :=
  omap (λ '(id, addr), if decide (is_Some (on_peers (online m) !! id)) then None else Some addr)
    (iter_order (map_to_list (bootstraps m))).

Definition always_allow (now_ms : Z) (addr : Multiaddr) (m : PeerManager)
    : outcome NetworkError bool :=
  peer_id ← unwrap (extract_peer_id addr);
  Ok (bool_decide (is_Some (bootstraps m !! peer_id)) || bool_decide (peer_id ∈ consensus_list m)
      || negb (is_addr_banned now_ms addr (peer_store m))).

Definition local_listen_addrs (m : PeerManager) : list Multiaddr :=
  iter_order (elements (public_addrs m)).
Definition take_public_addrs (count : nat) (m : PeerManager) : list Multiaddr :=
  take count (iter_order (elements (public_addrs m))).

Definition ban_id (now_ms : Z) (peer_id : PeerId) (timeout : Z) (reason : string) : MP (option Z) :=
  info ← gets (λ m, on_peers (online m) !! peer_id);
  (match info with
   | Some info => with_peer_store_mut (ban_addr now_ms (pi_addr info) timeout reason)
   | None => mret tt
   end);;
  mret None.

Definition ban_session_id (now_ms : Z) (session_id timeout : Z) (reason : string) : MP unit :=
  addr ← gets (λ m, head (omap (λ info, if decide (pi_session_id info = session_id)
                                        then Some (pi_addr info) else None)
                            (snd <$> iter_order (map_to_list (on_peers (online m))))));
  match addr with
  | Some addr => with_peer_store_mut (ban_addr now_ms addr timeout reason)
  | None => mret tt
  end.
End manager.
