(* ===== verification/NetService.v ===== *)
(** * The network service

    [core/network/src/service.rs]: tagging peers, the periodic dialing of
    [NetworkService::run] and the event and error handlers of
    [ServiceHandler].  The transport (tentacle's [ServiceControl]) is the list
    of commands it is sent. *)

From S2P Require Import Prelude Types Overlord NetAddr AddrManager PeerStore PeerManager.

Local Open Scope Z_scope.

Section service.
Context `{!Tentacle} `{!IpNetworks} `{!Randomness}.

Inductive Command : Type :=
| Dial (addr : Multiaddr)
| Disconnect (session_id : Z)
| ProcessExit.

Record NetworkService := mkNetworkService {
  peer_mgr_handle : PeerManager;
  try_identify_count : Z;
  control : list Command
}.
Definition set_peer_mgr_handle v s := mkNetworkService v (try_identify_count s) (control s).
Definition set_try_identify_count v s := mkNetworkService (peer_mgr_handle s) v (control s).
Definition set_control v s := mkNetworkService (peer_mgr_handle s) (try_identify_count s) v.

Abbreviation MN := (M NetworkService NetworkError).
Definition on_peer_mgr {A} (op : M PeerManager NetworkError A) : MN A :=
  zoom peer_mgr_handle set_peer_mgr_handle op.
Definition send (c : Command) : MN unit := modify (λ s, set_control (control s ++ [c]) s).
Definition on_registry (f : Online → Online) : MN unit := on_peer_mgr (modify (with_registry_mut f)).
Definition registry : MN Online := gets (λ s, online (peer_mgr_handle s)).

(** ** Tags *)
Inductive PeerTag : Type :=
| TagConsensus
| TagAlwaysAllow
| TagBan (until : Z)
| TagCustom (tag : string).

Definition tag (now_ms : Z) (peer_id : bytes) (t : PeerTag) : MN unit :=
  peer_id ← lift (ok_or (peer_id_from_bytes peer_id) InvalidPeerId);
  match t with
  | TagConsensus =>
      on_peer_mgr (modify (λ m, set_consensus_list ({[peer_id]} ∪ consensus_list m) m))
  | TagBan until =>
      id ← on_peer_mgr (ban_id now_ms peer_id until "ban from other module");
      match id with Some id => send (Disconnect id) | None => mret tt end
  | _ => mret tt
  end.

Definition untag (peer_id : bytes) (t : PeerTag) : MN unit :=
  peer_id ← lift (ok_or (peer_id_from_bytes peer_id) InvalidPeerId);
  match t with
  | TagConsensus =>
      on_peer_mgr (modify (λ m, set_consensus_list (consensus_list m ∖ {[peer_id]}) m))
  | _ => mret tt
  end.

Definition tag_consensus (peer_ids : list bytes) : MN unit :=
  ids ← lift (traverse (λ b, ok_or (peer_id_from_bytes b) InvalidPeerId) peer_ids);
  on_peer_mgr (modify (set_consensus_list (list_to_set ids))).

Definition net_peer_count (s : NetworkService) : nat := size (on_peers (online (peer_mgr_handle s))).

(** ** Dialing *)
Definition dial_feeler (addr : Multiaddr) : MN unit :=
  peer_id ← lift (unwrap (extract_peer_id addr));
  reg ← registry;
  if decide (is_Some (on_peers reg !! peer_id)) then mret tt else
  if decide (addr ∈ on_dialing reg) then mret tt else
  on_registry (λ o, (add_feeler addr o).1);;
  if (add_feeler addr reg).2 then send (Dial addr) else mret tt.

Definition dial_identify (addr : Multiaddr) : MN unit :=
  peer_id ← lift (unwrap (extract_peer_id addr));
  reg ← registry;
  if decide (is_Some (on_peers reg !! peer_id)) then mret tt else
  if is_feeler addr reg then mret tt else
  on_registry (λ o, set_dialing ({[addr]} ∪ on_dialing o) o);;
  if decide (addr ∈ on_dialing reg) then mret tt else send (Dial addr).

(** [choose] draws one element. *)
Definition try_dial_observed_addr : MN unit :=
  addrs ← gets (λ s, public_addrs (peer_mgr_handle s));
  match head (choose_multiple 1 (elements addrs)) with
  | Some addr => dial_identify addr
  | None => mret tt
  end.

(** A draw from the peer store whose addresses are marked as tried. *)
Definition attempt (now_ms : Z) (draw : M PeerStore NetworkError (list AddrInfo))
    : MN (list Multiaddr) :=
  paddrs ← on_peer_mgr (with_peer_store_mut draw);
  on_peer_mgr (with_peer_store_mut (modify (mark_all_tried now_ms (ai_addr <$> paddrs))));;
  mret (ai_addr <$> paddrs).

Definition try_dial_feeler (now_ms : Z) : MN unit :=
  addrs ← attempt now_ms (fetch_addrs_to_feeler now_ms 10);
  for_each dial_feeler addrs.

Definition u8_add {E} (a b : Z) : outcome E Z := if a + b <? 2 ^ 8 then Ok (a + b) else Panic.

(** The outbound slots [try_dial_peers] fills. *)
Definition dial_slots {E} (config : NetworkConfig) (status : ConnectionStatus) : outcome E Z :=
  outbound ← u64_sub (max_connections config) (inbound_conn_limit config);
  Ok (saturating_sub outbound (Z.of_nat (cs_inbound status))).

Definition try_dial_peers (now_ms : Z) : MN unit :=
  reg ← registry;
  config ← gets (λ s, pm_config (peer_mgr_handle s));
  slots ← lift (dial_slots config (connection_status reg));
  let count := Z.to_nat slots in
  if decide (count = 0%nat) then modify (set_try_identify_count 0) else
  tries ← gets try_identify_count;
  tries ← lift (u8_add tries 1);
  modify (set_try_identify_count tries);;
  peers ← (if 3 <? tries then
             modify (set_try_identify_count 0);;
             bootnodes ← gets (λ s, unconnected_bootstraps (peer_mgr_handle s));
             if (length bootnodes <? count)%nat then
               attempt_peers ← attempt now_ms (fetch_addrs_to_attempt now_ms (count - length bootnodes));
               mret (attempt_peers ++ bootnodes)
             else mret (choose_multiple count bootnodes)
           else attempt now_ms (fetch_addrs_to_attempt now_ms count));
  for_each dial_identify peers.

Definition try_dial_consensus (now_ms : Z) : MN unit :=
  addrs ← on_peer_mgr (unconnected_consensus_peer now_ms);
  for_each dial_identify addrs.

(** A tick of the ten second timer of [run], and what [run] does first. *)
Definition dial_tick (now_ms : Z) : MN unit :=
  try_dial_consensus now_ms;;
  try_dial_peers now_ms;;
  try_dial_feeler now_ms;;
  try_dial_observed_addr.
Definition run_start : MN unit :=
  addrs ← gets (λ s, cfg_bootstraps (pm_config (peer_mgr_handle s)));
  for_each dial_identify addrs.

(** ** [ServiceHandler] *)
(** The variants of tentacle's [ServiceError]; [connect_self] says that a dial
    failed because the node reached itself. *)
Inductive ServiceError : Type :=
| DialerError (address : Multiaddr) (connect_self : bool)
| SE_ProtocolError (id proto_id : Z)
| SessionTimeout (session : SessionContext)
| MuxerError (session : SessionContext)
| ListenError (address : Multiaddr)
| ProtocolSelectError (session : SessionContext)
| SessionBlocked (session : SessionContext)
| ProtocolHandleError (proto_id : Z) (session_id : option Z).

Definition BAN_300_SECS : Z := 300 * 1000.

Definition handle_error (now_ms : Z) (error : ServiceError) : MN unit :=
  match error with
  | DialerError address connect_self =>
      on_registry (λ o, set_dialing (on_dialing o ∖ {[address]}) (remove_feeler address o));;
      if connect_self : bool then
        match multiaddr_to_socketaddr address with
        | Some ip =>
            if is_reachable (sa_ip ip)
            then on_peer_mgr (modify (λ m, set_public_addrs ({[address]} ∪ public_addrs m) m))
            else mret tt
        | None => mret tt
        end
      else mret tt
  | SE_ProtocolError id proto_id =>
      on_peer_mgr (ban_session_id now_ms id BAN_300_SECS "ProtocolError");;
      send (Disconnect id)
  | ProtocolHandleError proto_id session_id =>
      (match session_id with
       | Some id => on_peer_mgr (ban_session_id now_ms id BAN_300_SECS "protocol panic")
       | None => mret tt
       end);;
      send ProcessExit
  | _ => mret tt
  end.

Inductive ServiceEvent : Type :=
| SessionOpen (session : SessionContext)
| SessionClose (session : SessionContext)
| ListenClose (address : Multiaddr)
| ListenStarted (address : Multiaddr).

Definition limit_reached (config : NetworkConfig) (status : ConnectionStatus) (ty : SessionType)
    : outcome NetworkError bool :=
  if max_connections config <? Z.of_nat (cs_total status) + 1 then Ok true else
  match ty with
  | Inbound => Ok (inbound_conn_limit config <? Z.of_nat (cs_inbound status) + 1)
  | Outbound =>
      outbound ← u64_sub (max_connections config) (inbound_conn_limit config);
      Ok (outbound <? Z.of_nat (cs_outbound status) + 1)
  end.

Definition handle_event (now_ms : Z) (event : ServiceEvent) : MN unit :=
  match event with
  | SessionOpen session =>
      on_registry (λ o, set_dialing (on_dialing o ∖ {[sc_address session]}) o);;
      reg ← registry;
      if is_feeler (sc_address session) reg then mret tt else
      config ← gets (λ s, pm_config (peer_mgr_handle s));
      disable ← lift (limit_reached config (connection_status reg) (sc_ty session));
      allow ← (if disable : bool
               then m ← gets peer_mgr_handle; lift (always_allow now_ms (sc_address session) m)
               else mret true);
      if allow : bool then on_peer_mgr (register now_ms (PeerInfo_new session))
      else send (Disconnect (sc_id session))
  | SessionClose session => on_peer_mgr (unregister (sc_address session))
  | ListenClose _ | ListenStarted _ => mret tt
  end.
End service.
