(* ===== verification/NetServiceProps.v ===== *)
(** * Correctness of the network service

    The registry of connected peers, the peer store and the sets of addresses
    being dialed stay consistent under every event; what an opened session
    leads to; dialing never duplicates a pending dial. *)

From S2P Require Import Prelude Types Overlord NetAddr AddrManager AddrManagerProps PeerStore.
From S2P Require Import PeerStoreProps PeerManager NetService.

Local Open Scope Z_scope.

Section props.
Context `{!Tentacle} `{!IpNetworks} `{!Randomness}.
Implicit Types (st : PeerStore) (m : PeerManager) (s : NetworkService).

(** ** The invariant *)
(** The tables of the address manager agree as long as it has numbers to give:
    the address that takes the last [u64] makes [add] panic half way. *)
Definition spent (am : Manager) : Prop := 2 ^ 64 - 1 ≤ next_id am.
Definition addrs_ok (am : Manager) : Prop := next_id am < 2 ^ 64 - 1 → manager_inv am.

Record registry_inv m : Prop := {
  ri_keyed p info : on_peers (online m) !! p = Some info → extract_peer_id (pi_addr info) = Some p;
  ri_store p : is_Some (on_peers (online m) !! p) ↔ is_Some (store_peers (peer_store m) !! p);
  ri_dials : on_dialing (online m) ## on_feeler (online m);
  ri_addrs : addrs_ok (addr_manager (peer_store m))
}.

(** Operations that keep the invariant whatever their outcome, on the store, on
    the peer manager and on the service. *)
Definition keeps_store {A} (op : M PeerStore NetworkError A) : Prop := ∀ st,
  addrs_ok (addr_manager st) →
  addrs_ok (addr_manager (op st).1) ∧ store_peers (op st).1 = store_peers st.
Definition keeps_mgr {A} (op : M PeerManager NetworkError A) : Prop := ∀ m,
  registry_inv m → registry_inv (op m).1.
Definition keeps {A} (op : M NetworkService NetworkError A) : Prop := ∀ s,
  registry_inv (peer_mgr_handle s) → registry_inv (peer_mgr_handle (op s).1).

Lemma keeps_store_bind {A B} (op : M PeerStore NetworkError A) (k : A → M PeerStore NetworkError B) :
  keeps_store op → (∀ x, keeps_store (k x)) → keeps_store (op ≫= k).
Proof.
  intros Hop Hk st Hst. unfold mbind, M_bind. destruct (Hop st Hst) as [Hi Hp].
  destruct (op st) as [st1 [x| |]]; cbn in *; [|done..]. destruct (Hk x st1 Hi). split; [done|congruence].
Qed.
Lemma keeps_mgr_bind {A B} (op : M PeerManager NetworkError A) (k : A → M PeerManager NetworkError B) :
  keeps_mgr op → (∀ x, keeps_mgr (k x)) → keeps_mgr (op ≫= k).
Proof.
  intros Hop Hk m Hm. unfold mbind, M_bind. specialize (Hop m Hm).
  destruct (op m) as [m1 [x| |]]; cbn in *; [|done..]. by apply Hk.
Qed.
Lemma registry_keeps_bind {A B} (op : M NetworkService NetworkError A) (k : A → M NetworkService NetworkError B) :
  keeps op → (∀ x, keeps (k x)) → keeps (op ≫= k).
Proof.
  intros Hop Hk s Hs. unfold mbind, M_bind. specialize (Hop s Hs).
  destruct (op s) as [s1 [x| |]]; cbn in *; [|done..]. by apply Hk.
Qed.
Lemma keeps_mgr_gets {A} (f : PeerManager → A) : keeps_mgr (gets f).
Proof. intros m0 Hm. exact Hm. Qed.
Lemma keeps_mgr_ret {A} (x : A) : keeps_mgr (mret x).
Proof. intros m0 Hm. exact Hm. Qed.
Lemma keeps_mgr_lift {A} (o : outcome NetworkError A) : keeps_mgr (lift o).
Proof. intros m0 Hm. exact Hm. Qed.
Lemma registry_keeps_gets {A} (f : NetworkService → A) : keeps (gets f).
Proof. intros s0 Hs. exact Hs. Qed.
Lemma registry_keeps_ret {A} (x : A) : keeps (mret x).
Proof. intros s0 Hs. exact Hs. Qed.
Lemma registry_keeps_lift {A} (o : outcome NetworkError A) : keeps (lift o).
Proof. intros s0 Hs. exact Hs. Qed.
Lemma keeps_for_each {A} (f : A → M NetworkService NetworkError unit) l :
  (∀ x, keeps (f x)) → keeps (for_each f l).
Proof. intros Hf. induction l; cbn; [by intros s Hs|]. by apply registry_keeps_bind. Qed.

Lemma keeps_on_peer_mgr {A} (op : M PeerManager NetworkError A) : keeps_mgr op → keeps (on_peer_mgr op).
Proof.
  intros Hop s Hs. unfold on_peer_mgr, zoom. specialize (Hop _ Hs).
  by destruct (op (peer_mgr_handle s)) as [m' o].
Qed.
Lemma keeps_mgr_store {A} (op : M PeerStore NetworkError A) :
  keeps_store op → keeps_mgr (with_peer_store_mut op).
Proof.
  intros Hop m [Hk Hs Hd Ha]. unfold with_peer_store_mut, zoom. destruct (Hop _ Ha) as [Ha' Hp].
  destruct (op (peer_store m)) as [st' o]. cbn in *. split; cbn; try done. intros p. by rewrite Hp.
Qed.
Lemma keeps_store_manager {A} (op : M Manager NetworkError A) :
  (∀ am, manager_inv am → next_id am < 2 ^ 64 - 1 → manager_inv (op am).1) → preserves spent op →
  keeps_store (on_manager op).
Proof.
  intros Hop Hsp st Hst. unfold on_manager, zoom.
  assert (addrs_ok (op (addr_manager st)).1) as Ho.
  { intros Hlt. destruct (Z.lt_ge_cases (next_id (addr_manager st)) (2 ^ 64 - 1)) as [Hl|Hl].
    - apply Hop; [by apply Hst|done].
    - specialize (Hsp _ Hl). unfold spent in Hsp. lia. }
  by destruct (op (addr_manager st)).
Qed.

(** A manager without numbers stays one. *)
Lemma spent_move id pos : preserves spent (move_id id pos).
Proof. intros am Ham. unfold move_id. by case_match. Qed.
Lemma spent_swap i j : preserves spent (swap_random_id i j).
Proof.
  unfold swap_random_id. case_decide; [by intros am Ham|].
  repeat (apply preserves_bind; [first [apply spent_move|by intros am Ham]|intros ?]). by intros am Ham.
Qed.
Lemma spent_remove addr : preserves spent (remove addr).
Proof.
  unfold remove. case_match; [|by intros am Ham]. apply preserves_bind; [by intros am Ham|]. intros [id|]; [|by intros am Ham].
  do 4 (apply preserves_bind; [by intros am Ham|intros ?]).
  apply preserves_bind; [case_decide; [by intros am Ham|apply spent_swap]|intros ?].
  apply preserves_bind; [by intros am Ham|intros ?]. apply preserves_bind; [case_match; by intros am Ham|intros ?].
  do 2 (apply preserves_bind; [by intros am Ham|intros ?]). by intros am Ham.
Qed.
Lemma spent_fetch_loop now_ms f c n : ∀ i ips l, preserves spent (fetch_loop now_ms f c n i ips l).
Proof.
  induction n as [|n IH]; intros i ips l; cbn [fetch_loop]; [by intros am Ham|].
  apply preserves_bind; [by intros am Ham|intros ?]. apply preserves_bind; [apply spent_swap|intros ?].
  do 4 (apply preserves_bind; [by intros am Ham|intros ?]). case_match; [|apply IH]. cbv zeta. case_decide; [by intros am Ham|apply IH].
Qed.
Lemma spent_add info : preserves spent (add info).
Proof.
  unfold add. case_match; [|by intros am Ham]. apply preserves_bind; [by intros am Ham|]. intros old.
  apply preserves_bind; [repeat case_match; try (by intros am Ham); apply preserves_bind; [apply spent_remove|by intros ? am Ham]|].
  intros stay. destruct stay; cbn [negb]; [|by intros am Ham]. case_match; [|by intros am Ham].
  intros am Ham. unfold spent in Ham. unfold add_fresh. rewrite bind_gets. repeat (rewrite bind_modify || rewrite bind_gets).
  unfold u64_add. destruct (Z.ltb_spec (next_id am + 1) (2 ^ 64)); [lia|]. exact Ham.
Qed.

Lemma keeps_add info : keeps_store (on_manager (add info)).
Proof.
  apply keeps_store_manager; [|apply spent_add]. intros am Ham Hlt.
  destruct (add_ok info am Ham Hlt) as (m' & -> & ? & _). done.
Qed.
Lemma keeps_remove addr : keeps_store (on_manager (remove addr)).
Proof.
  apply keeps_store_manager; [|apply spent_remove]. intros am Ham _. destruct (remove_ok addr am Ham) as (m' & r & -> & ? & _). done.
Qed.
Lemma keeps_fetch now_ms n (f : AddrInfo → bool) : (∀ a, f (strip a) = f a) →
  keeps_store (on_manager (fetch_random now_ms n f)).
Proof.
  intros Hf. apply keeps_store_manager; [|apply preserves_bind; [by intros am Ham|intros ?; apply spent_fetch_loop]].
  intros am Ham _.
  destruct (fetch_random_inv now_ms n f am Ham Hf) as (m' & l & -> & ? & _). done.
Qed.
Lemma keeps_ban now_ms addr timeout reason : keeps_store (ban_addr now_ms addr timeout reason).
Proof.
  unfold ban_addr, ban_network.
  apply keeps_store_bind; [case_match; [|by intros st Hst]; by destruct (u64_add _ _); intros st Hst|]. intros _.
  apply keeps_store_bind; [apply keeps_remove|by intros _ st Hst].
Qed.
(** Recording an address, what the purge does included. *)
Lemma keeps_remove_all keys : keeps_store (remove_all keys).
Proof.
  unfold remove_all. induction keys as [|k keys IH]; cbn; [by intros st Hst|].
  apply keeps_store_bind; [|done]. apply keeps_store_bind; [apply keeps_remove|by intros _ st Hst].
Qed.
Lemma keeps_check_purge now_ms : keeps_store (check_purge now_ms).
Proof.
  unfold check_purge. apply keeps_store_bind; [by intros st Hst|]. intros n. case_decide; [by intros st Hst|].
  apply keeps_store_bind; [by intros st Hst|]. intros l. apply keeps_store_bind; [apply keeps_remove_all|]. intros _.
  case_match; [|by intros st Hst]. apply keeps_store_bind; [by intros st Hst|]. intros l'.
  apply keeps_store_bind; [apply keeps_remove_all|]. intros _. case_match; by intros st Hst.
Qed.
Lemma keeps_add_addr now_ms addr : keeps_store (add_addr now_ms addr).
Proof.
  unfold add_addr. apply keeps_store_bind; [by intros st Hst|]. intros [|]; [by intros st Hst|].
  apply keeps_store_bind; [apply keeps_check_purge|]. intros _.
  apply keeps_store_bind; [by intros st Hst|]. intros score. apply keeps_add.
Qed.
Lemma keeps_add_outbound now_ms addr : keeps_store (add_outbound_addr now_ms addr).
Proof.
  unfold add_outbound_addr. apply keeps_store_bind; [by intros st Hst|]. intros [|]; [by intros st Hst|].
  apply keeps_store_bind; [by intros st Hst|]. intros score. apply keeps_add.
Qed.

Lemma mark_all_tried_ok now_ms addrs st : addrs_ok (addr_manager st) →
  addrs_ok (addr_manager (mark_all_tried now_ms addrs st)) ∧
  store_peers (mark_all_tried now_ms addrs st) = store_peers st.
Proof.
  revert st. induction addrs as [|a addrs IH]; intros st Hst; [done|]. cbn.
  destruct (IH (set_addr_manager (get_mut a (mark_tried now_ms) (addr_manager st)) st)) as [? E];
    [|by split; [|exact E]].
  intros Hlt. apply get_mut_ok; [|done..]. apply Hst. revert Hlt. cbn. unfold get_mut. by case_match.
Qed.
Lemma mark_all_tried_inv now_ms addrs m :
  registry_inv m → registry_inv (set_peer_store (mark_all_tried now_ms addrs (peer_store m)) m).
Proof.
  intros [Hk Hs Hd Ha]. destruct (mark_all_tried_ok now_ms addrs _ Ha) as [? E].
  split; cbn; try done. intros p. by rewrite E.
Qed.

(** ** The peer manager *)
Lemma keeps_take_unconnected now_ms id : keeps_mgr (take_unconnected now_ms id).
Proof.
  unfold take_unconnected. apply keeps_mgr_bind; [apply keeps_mgr_gets|]. intros st.
  apply keeps_mgr_bind; [apply keeps_mgr_lift|]. intros set.
  apply keeps_mgr_bind; [|intros ?; apply keeps_mgr_ret].
  intros m Hm. by apply mark_all_tried_inv.
Qed.
Lemma keeps_unconnected_of now_ms ids : keeps_mgr (unconnected_of now_ms ids).
Proof.
  induction ids as [|id ids IH]; cbn; [apply keeps_mgr_ret|].
  apply keeps_mgr_bind; [apply keeps_mgr_gets|]. intros info.
  apply keeps_mgr_bind; [destruct info; [apply keeps_mgr_ret|apply keeps_take_unconnected]|]. intros l.
  apply keeps_mgr_bind; [done|intros ?; apply keeps_mgr_ret].
Qed.

Lemma keeps_peers now_ms ids : keeps_mgr (peers now_ms ids).
Proof.
  induction ids as [|id ids IH]; cbn; [apply keeps_mgr_ret|].
  apply keeps_mgr_bind; [apply keeps_mgr_gets|]. intros info. destruct info.
  - apply keeps_mgr_bind; [done|intros ?; apply keeps_mgr_ret].
  - apply keeps_mgr_bind; [apply keeps_take_unconnected|]. intros l.
    apply keeps_mgr_bind; [done|intros ?; apply keeps_mgr_ret].
Qed.

Lemma keeps_register now_ms peer : keeps_mgr (register now_ms peer).
Proof.
  intros m [Hk Hs Hd Ha]. unfold register.
  destruct (extract_peer_id (pi_addr peer)) as [p|] eqn:Hp; [|done]. cbn [unwrap].
  rewrite bind_lift_ok, bind_modify. unfold with_peer_store_mut, zoom, add_connected_peer. rewrite Hp.
  cbn [unwrap]. rewrite bind_lift_ok. cbn.
  split; cbn; [| |done..].
  - intros q info. rewrite lookup_insert. case_decide; [intros [= <-]; congruence|apply Hk].
  - intros q. rewrite !lookup_insert. case_decide; [done|apply Hs].
Qed.

Lemma keeps_unregister addr : keeps_mgr (unregister addr).
Proof.
  intros m [Hk Hs Hd Ha]. unfold unregister. rewrite bind_modify.
  destruct (extract_peer_id addr) as [p|]; [|split; cbn; try done; set_solver]. cbn [unwrap].
  rewrite bind_lift_ok, bind_gets, bind_modify. cbn.
  destruct (on_peers (online m) !! p) as [peer|] eqn:Hpeer.
  - pose proof (Hk _ _ Hpeer) as Hpp. unfold with_peer_store_mut, zoom, remove_disconnected_peer. rewrite Hpp.
    unfold mbind, M_bind. cbn. split; cbn; [| |set_solver|done].
    + intros q info. rewrite lookup_delete. case_decide; [done|apply Hk].
    + intros q. rewrite !lookup_delete. case_decide; [done|apply Hs].
  - split; cbn; [| |set_solver|done].
    + intros q info. rewrite lookup_delete. case_decide; [done|apply Hk].
    + intros q. rewrite lookup_delete. case_decide; [subst; rewrite <-Hs, Hpeer; done|apply Hs].
Qed.

Lemma keeps_ban_id now_ms p timeout reason : keeps_mgr (ban_id now_ms p timeout reason).
Proof.
  unfold ban_id. apply keeps_mgr_bind; [apply keeps_mgr_gets|]. intros info.
  apply keeps_mgr_bind; [|intros ?; apply keeps_mgr_ret]. destruct info; [|apply keeps_mgr_ret].
  apply keeps_mgr_store, keeps_ban.
Qed.
Lemma keeps_ban_session_id now_ms id timeout reason : keeps_mgr (ban_session_id now_ms id timeout reason).
Proof.
  unfold ban_session_id. apply keeps_mgr_bind; [apply keeps_mgr_gets|]. intros addr.
  destruct addr; [|apply keeps_mgr_ret]. apply keeps_mgr_store, keeps_ban.
Qed.

(** ** The service *)
Lemma keeps_send c : keeps (send c).
Proof. by intros s Hs. Qed.
Lemma keeps_modify_mgr f : (∀ m, registry_inv m → registry_inv (f m)) → keeps (on_peer_mgr (modify f)).
Proof. intros Hf. apply keeps_on_peer_mgr. intros m Hm. by apply Hf. Qed.

Lemma keeps_attempt now_ms draw : keeps_store draw → keeps (attempt now_ms draw).
Proof.
  intros Hd. unfold attempt. apply registry_keeps_bind; [by apply keeps_on_peer_mgr, keeps_mgr_store|]. intros l.
  apply registry_keeps_bind; [|by intros _ s Hs]. apply keeps_on_peer_mgr, keeps_mgr_store.
  intros st Hst. by apply mark_all_tried_ok.
Qed.
Lemma keeps_fetch_feeler now_ms n : keeps_store (fetch_addrs_to_feeler now_ms n).
Proof. unfold fetch_addrs_to_feeler. apply keeps_store_bind; [by intros st Hst|]. intros. by apply keeps_fetch. Qed.
Lemma keeps_fetch_random_addrs now_ms n : keeps_store (fetch_random_addrs now_ms n).
Proof. unfold fetch_random_addrs. apply keeps_store_bind; [by intros st Hst|]. intros. by apply keeps_fetch. Qed.
Lemma keeps_fetch_attempt now_ms n : keeps_store (fetch_addrs_to_attempt now_ms n).
Proof. unfold fetch_addrs_to_attempt. apply keeps_store_bind; [by intros st Hst|]. intros. by apply keeps_fetch. Qed.

(** What [dial_identify] and [dial_feeler] do to the registry and the transport. *)
Lemma dial_identify_run addr p s : extract_peer_id addr = Some p →
  let reg := online (peer_mgr_handle s) in
  dial_identify addr s =
    (if decide (is_Some (on_peers reg !! p) ∨ addr ∈ on_feeler reg) then s else
     let s1 := set_peer_mgr_handle (set_online (set_dialing ({[addr]} ∪ on_dialing reg) reg) (peer_mgr_handle s)) s in
     if decide (addr ∈ on_dialing reg) then s1 else set_control (control s ++ [Dial addr]) s1, Ok tt).
Proof.
  intros Hp. unfold dial_identify. rewrite Hp. cbn [unwrap]. rewrite bind_lift_ok.
  unfold registry. rewrite bind_gets. cbn. set (reg := online (peer_mgr_handle s)).
  destruct (decide (is_Some (on_peers reg !! p))); [by rewrite decide_True by (by left)|].
  unfold is_feeler. case_bool_decide; [by rewrite decide_True by (by right)|].
  rewrite (decide_False (P := _ ∨ _)) by tauto. unfold on_registry, on_peer_mgr, zoom, with_registry_mut.
  cbn. unfold mbind, M_bind. cbn. by case_decide.
Qed.

Lemma dial_feeler_run addr p s : extract_peer_id addr = Some p →
  let reg := online (peer_mgr_handle s) in
  dial_feeler addr s =
    (if decide (is_Some (on_peers reg !! p) ∨ addr ∈ on_dialing reg) then s else
     let s1 := set_peer_mgr_handle (set_online (set_feeler ({[addr]} ∪ on_feeler reg) reg) (peer_mgr_handle s)) s in
     if decide (addr ∈ on_feeler reg) then s1 else set_control (control s ++ [Dial addr]) s1, Ok tt).
Proof.
  intros Hp. unfold dial_feeler. rewrite Hp. cbn [unwrap]. rewrite bind_lift_ok.
  unfold registry. rewrite bind_gets. cbn. set (reg := online (peer_mgr_handle s)).
  destruct (decide (is_Some (on_peers reg !! p))); [by rewrite decide_True by (by left)|].
  destruct (decide (addr ∈ on_dialing reg)); [by rewrite decide_True by (by right)|].
  rewrite (decide_False (P := _ ∨ _)) by tauto. unfold on_registry, on_peer_mgr, zoom, with_registry_mut.
  cbn. unfold mbind, M_bind. cbn. case_bool_decide; case_decide; done.
Qed.

Lemma keeps_dial_identify addr : keeps (dial_identify addr).
Proof.
  intros s Hs. destruct (extract_peer_id addr) as [p|] eqn:Hp; [|unfold dial_identify; by rewrite Hp].
  rewrite (dial_identify_run _ _ _ Hp). cbn. case_decide as Hd; [done|]. destruct Hs as [Hk Hst Hdis Ha].
  case_decide; split; cbn; try done; set_solver.
Qed.
Lemma keeps_dial_feeler addr : keeps (dial_feeler addr).
Proof.
  intros s Hs. destruct (extract_peer_id addr) as [p|] eqn:Hp; [|unfold dial_feeler; by rewrite Hp].
  rewrite (dial_feeler_run _ _ _ Hp). cbn. case_decide as Hd; [done|]. destruct Hs as [Hk Hst Hdis Ha].
  case_decide; split; cbn; try done; set_solver.
Qed.
End props.

#[export] Hint Resolve registry_keeps_gets registry_keeps_ret registry_keeps_lift keeps_for_each keeps_on_peer_mgr
  keeps_mgr_store keeps_send keeps_attempt keeps_fetch_feeler keeps_fetch_attempt
  keeps_dial_identify keeps_dial_feeler keeps_register keeps_unregister keeps_ban_id
  keeps_ban_session_id keeps_unconnected_of keeps_mgr_gets : axon.

(** Walks through a service operation, splitting on its tests. *)
Ltac keep_steps :=
  repeat first
    [ solve [auto with axon]
    | apply registry_keeps_bind; [|intros ?]
    | apply keeps_mgr_bind; [|intros ?]
    | match goal with
      | |- keeps (match ?x with _ => _ end) => destruct x
      | |- keeps (let _ := _ in _) => cbv zeta
      end ].

Section service.
Context `{!Tentacle} `{!IpNetworks} `{!Randomness}.
Implicit Types (s : NetworkService).

Lemma keeps_consensus_list f : keeps (on_peer_mgr (modify (λ m, set_consensus_list (f m) m))).
Proof. apply keeps_modify_mgr. intros m []. by split. Qed.
Lemma keeps_public_addrs f : keeps (on_peer_mgr (modify (λ m, set_public_addrs (f m) m))).
Proof. apply keeps_modify_mgr. intros m []. by split. Qed.
Lemma keeps_tries f : keeps (modify (λ s, set_try_identify_count (f s) s)).
Proof. intros s0 Hs. exact Hs. Qed.
Lemma keeps_registry_del f : (∀ o, on_peers (f o) = on_peers o ∧ on_dialing (f o) ⊆ on_dialing o ∧
  on_feeler (f o) ⊆ on_feeler o) → keeps (on_registry f).
Proof.
  intros Hf. apply keeps_modify_mgr. intros m [Hk Hs Hd Ha].
  destruct (Hf (online m)) as (E & Hdi & Hfe). split; cbn; rewrite ?E; try done. set_solver.
Qed.

Lemma keeps_tag now_ms b t : keeps (tag now_ms b t).
Proof. unfold tag. keep_steps. apply (keeps_consensus_list (λ m, _)). Qed.
Lemma keeps_untag b t : keeps (untag b t).
Proof. unfold untag. keep_steps. apply (keeps_consensus_list (λ m, _)). Qed.
Lemma keeps_tag_consensus l : keeps (tag_consensus l).
Proof. unfold tag_consensus. keep_steps. apply (keeps_consensus_list (λ _, _)). Qed.

Lemma keeps_handle_error now_ms e : keeps (handle_error now_ms e).
Proof.
  unfold handle_error. keep_steps.
  - apply keeps_registry_del. intros o. cbn. set_solver.
  - apply (keeps_public_addrs (λ m, _)).
Qed.
Lemma keeps_handle_event now_ms e : keeps (handle_event now_ms e).
Proof.
  unfold handle_event, registry. keep_steps. apply keeps_registry_del. intros o. cbn. set_solver.
Qed.

Lemma keeps_dial_tick now_ms : keeps (dial_tick now_ms).
Proof.
  unfold dial_tick, try_dial_consensus, unconnected_consensus_peer, try_dial_peers, try_dial_feeler,
    try_dial_observed_addr, registry. keep_steps.
  all: try (apply keeps_on_peer_mgr; keep_steps).
  all: first [apply (keeps_tries (λ _, _))|apply (keeps_tries (λ s, _))|idtac].
Qed.
Lemma keeps_run_start : keeps run_start.
Proof. unfold run_start. keep_steps. Qed.

(** ** Histories *)
(** What the transport, the other modules and the timers make the service
    do. *)
Inductive net_op : Type :=
| OpEvent (now_ms : Z) (e : ServiceEvent)
| OpError (now_ms : Z) (e : ServiceError)
| OpDial (now_ms : Z)
| OpStart
| OpTag (now_ms : Z) (peer_id : bytes) (t : PeerTag)
| OpUntag (peer_id : bytes) (t : PeerTag)
| OpTagConsensus (peer_ids : list bytes)
| OpSetChainId (chain_id : string).

Definition run_op (op : net_op) : M NetworkService NetworkError unit :=
  match op with
  | OpEvent now e => handle_event now e
  | OpError now e => handle_error now e
  | OpDial now => dial_tick now
  | OpStart => run_start
  | OpTag now b t => tag now b t
  | OpUntag b t => untag b t
  | OpTagConsensus l => tag_consensus l
  | OpSetChainId c => on_peer_mgr (modify (set_pm_chain_id c))
  end.

Lemma keeps_mgr_peer f id : (∀ p, pi_addr (f p) = pi_addr p) →
  keeps_mgr (modify (with_registry_mut (λ o, set_on_peers (alter f id (on_peers o)) o))).
Proof.
  intros Hf m [Hk Hs Hd Ha]. split; cbn; try done.
  - intros q info. rewrite lookup_alter. case_decide; [|apply Hk].
    intros (i & Hi & ->)%fmap_Some. rewrite Hf. subst. by apply Hk.
  - intros q. rewrite lookup_alter, <-Hs. case_decide; [subst|done]. by rewrite fmap_is_Some.
Qed.

Lemma keeps_run_op op : keeps (run_op op).
Proof.
  destruct op; cbn; [apply keeps_handle_event|apply keeps_handle_error|apply keeps_dial_tick|
    apply keeps_run_start|apply keeps_tag|apply keeps_untag|apply keeps_tag_consensus|].
  apply keeps_modify_mgr. by intros m [].
Qed.

Lemma PeerManager_new_inv config store m : PeerManager_new config store = Ok m →
  manager_inv (addr_manager store) → store_peers store = ∅ → registry_inv m.
Proof.
  unfold PeerManager_new. destruct (traverse _ _) as [ids| |]; cbn; [|done..]. intros [= <-] Ha Hp.
  split; cbn; [done| | |by intros _]; [|set_solver]. intros p. by rewrite Hp, !lookup_empty.
Qed.

(** Registering a session. *)
Definition registered (session : SessionContext) (p : PeerId) s s' : Prop :=
  on_dialing (online (peer_mgr_handle s')) = on_dialing (online (peer_mgr_handle s)) ∧
  on_feeler (online (peer_mgr_handle s')) = on_feeler (online (peer_mgr_handle s)) ∧
  on_peers (online (peer_mgr_handle s')) =
    <[p := PeerInfo_new session]> (on_peers (online (peer_mgr_handle s))) ∧
  peer_status p (peer_store (peer_mgr_handle s')) = Connected ∧ control s' = control s.

Lemma register_run now_ms session p s : extract_peer_id (sc_address session) = Some p →
  ∃ s', on_peer_mgr (register now_ms (PeerInfo_new session)) s = (s', Ok tt) ∧ registered session p s s'.
Proof.
  intros Hp. unfold on_peer_mgr, zoom, register. cbn [pi_addr PeerInfo_new]. rewrite Hp. cbn [unwrap].
  rewrite bind_lift_ok, bind_modify. unfold with_peer_store_mut, zoom, add_connected_peer. rewrite Hp.
  cbn [unwrap]. rewrite bind_lift_ok. cbn. eexists; split; [done|]. split_and!; try done.
  unfold peer_status. cbn. by rewrite lookup_insert_eq, decide_True by eauto.
Qed.

Lemma always_allow_run now_ms addr p m : extract_peer_id addr = Some p →
  always_allow now_ms addr m = Ok (negb (bool_decide (bootstraps m !! p = None) &&
    bool_decide (p ∉ consensus_list m) && is_addr_banned now_ms addr (peer_store m))).
Proof.
  intros Hp. unfold always_allow. rewrite Hp. cbn. f_equal. rewrite !negb_andb. f_equal. f_equal.
  - destruct (bootstraps m !! p); repeat case_bool_decide; naive_solver.
  - repeat case_bool_decide; naive_solver.
Qed.

(** ** Properties *)

(** What an opened session leads to.  A feeler's session is left alone;
    any other is registered, in the registry and in the peer store, unless a
    limit is reached and its peer is neither a bootstrap nor a consensus node
    and its address is banned, in which case it is disconnected. *)
Theorem session_open_outcome now_ms session p lim s : extract_peer_id (sc_address session) = Some p →
  limit_reached (pm_config (peer_mgr_handle s)) (connection_status (online (peer_mgr_handle s)))
    (sc_ty session) = Ok lim →
  ∃ s', handle_event now_ms (SessionOpen session) s = (s', Ok tt) ∧
    let m := peer_mgr_handle s in let m' := peer_mgr_handle s' in
    on_dialing (online m') = on_dialing (online m) ∖ {[sc_address session]} ∧
    on_feeler (online m') = on_feeler (online m) ∧
    if is_feeler (sc_address session) (online m) then on_peers (online m') = on_peers (online m) ∧ control s' = control s
    else if lim && bool_decide (bootstraps m !! p = None) && bool_decide (p ∉ consensus_list m) &&
            is_addr_banned now_ms (sc_address session) (peer_store m)
    then on_peers (online m') = on_peers (online m) ∧ control s' = control s ++ [Disconnect (sc_id session)]
    else on_peers (online m') = <[p := PeerInfo_new session]> (on_peers (online m)) ∧
         peer_status p (peer_store m') = Connected ∧ control s' = control s.
Proof.
  intros Hp Hlim. unfold handle_event.
  set (f := λ o, set_dialing (on_dialing o ∖ {[sc_address session]}) o).
  set (s1 := set_peer_mgr_handle (with_registry_mut f (peer_mgr_handle s)) s).
  rewrite (bind_ok _ _ _ s1 tt) by done. unfold registry. rewrite bind_gets.
  change (is_feeler (sc_address session) (online (peer_mgr_handle s1)))
    with (is_feeler (sc_address session) (online (peer_mgr_handle s))).
  destruct (is_feeler (sc_address session) (online (peer_mgr_handle s))); [by exists s1|].
  rewrite bind_gets. change (connection_status (online (peer_mgr_handle s1)))
    with (connection_status (online (peer_mgr_handle s))).
  change (pm_config (peer_mgr_handle s1)) with (pm_config (peer_mgr_handle s)).
  destruct (register_run now_ms session p s1 Hp) as (s2 & Hrun & Hd & Hf & Hpe & Hst & Hc).
  rewrite Hlim, bind_lift_ok. destruct lim; cbn [andb].
  - rewrite (bind_ok _ _ _ s1 (negb (bool_decide (bootstraps (peer_mgr_handle s) !! p = None) &&
      bool_decide (p ∉ consensus_list (peer_mgr_handle s)) &&
      is_addr_banned now_ms (sc_address session) (peer_store (peer_mgr_handle s)))))
      by (rewrite bind_gets; by rewrite (always_allow_run _ _ p) by done).
    destruct (_ && _ && _); cbn [negb]; [by eexists|by exists s2].
  - rewrite (bind_ok _ _ _ s1 true) by done. by exists s2.
Qed.

(** A connection limit never turns away a peer that is not banned: with the
    limits reached, however many peers are connected, a session of a peer with
    an address that is not banned is registered. *)
Theorem limit_not_enforced now_ms session p s : extract_peer_id (sc_address session) = Some p →
  is_feeler (sc_address session) (online (peer_mgr_handle s)) = false →
  is_addr_banned now_ms (sc_address session) (peer_store (peer_mgr_handle s)) = false →
  limit_reached (pm_config (peer_mgr_handle s)) (connection_status (online (peer_mgr_handle s)))
    (sc_ty session) = Ok true →
  ∃ s', handle_event now_ms (SessionOpen session) s = (s', Ok tt) ∧ control s' = control s ∧
    on_peers (online (peer_mgr_handle s')) =
      <[p := PeerInfo_new session]> (on_peers (online (peer_mgr_handle s))).
Proof.
  intros Hp Hfe Hban Hlim. unfold handle_event.
  set (f := λ o, set_dialing (on_dialing o ∖ {[sc_address session]}) o).
  set (s1 := set_peer_mgr_handle (with_registry_mut f (peer_mgr_handle s)) s).
  rewrite (bind_ok _ _ _ s1 tt) by done. unfold registry. rewrite bind_gets.
  rewrite (Hfe : is_feeler _ (online (peer_mgr_handle s1)) = false), bind_gets.
  rewrite (Hlim : limit_reached (pm_config (peer_mgr_handle s1)) (connection_status (online (peer_mgr_handle s1))) _ = Ok true), bind_lift_ok.
  destruct (register_run now_ms session p s1 Hp) as (s2 & Hrun & Hd & Hf & Hpe & Hst & Hc).
  rewrite (bind_ok _ _ _ s1 true); [by exists s2|].
  rewrite bind_gets, (always_allow_run _ _ p) by done.
  rewrite (Hban : is_addr_banned _ _ (peer_store (peer_mgr_handle s1)) = false). by rewrite andb_false_r.
Qed.

(** A pending dial is never repeated: dialing an address, as a peer or as a
    feeler, while it is being dialed sends nothing to the transport, and so
    does dialing a connected peer. *)
Theorem dial_once addr p s : extract_peer_id addr = Some p →
  let reg := online (peer_mgr_handle s) in
  is_Some (on_peers reg !! p) ∨ addr ∈ on_dialing reg ∨ addr ∈ on_feeler reg →
  ∃ s1 s2, dial_identify addr s = (s1, Ok tt) ∧ dial_feeler addr s = (s2, Ok tt) ∧
    control s1 = control s ∧ control s2 = control s.
Proof.
  intros Hp reg Hor. rewrite (dial_identify_run _ _ _ Hp), (dial_feeler_run _ _ _ Hp). subst reg.
  eexists _, _. split; [done|]. split; [done|]. cbn. repeat case_decide; cbn; naive_solver.
Qed.

(** Tagging a connected peer as banned until a time bans its IP for a
    duration of that many milliseconds, and leaves the peer connected: its
    session stays registered and no disconnection is asked for. *)
Theorem tag_ban_outcome now_ms b p info socket until s :
  registry_inv (peer_mgr_handle s) → next_id (addr_manager (peer_store (peer_mgr_handle s))) < 2 ^ 64 - 1 →
  peer_id_from_bytes b = Some p → on_peers (online (peer_mgr_handle s)) !! p = Some info →
  multiaddr_to_socketaddr (pi_addr info) = Some socket →
  0 ≤ now_ms → 0 < until → now_ms + until < 2 ^ 64 →
  ∃ s', tag now_ms b (TagBan until) s = (s', Ok tt) ∧ control s' = control s ∧
    on_peers (online (peer_mgr_handle s')) !! p = Some info ∧
    ∀ t, now_ms ≤ t < now_ms + until →
      is_addr_banned t (pi_addr info) (peer_store (peer_mgr_handle s')) = true.
Proof.
  intros Hinv Hnext Hb Hinfo Hs Hnow Hu Hlt. unfold tag. rewrite Hb. cbn [ok_or]. rewrite bind_lift_ok.
  destruct (ban_addr_run now_ms (pi_addr info) socket until "ban from other module" _ Hlt (ri_addrs _ Hinv Hnext) Hs)
    as (m' & Hrun & _ & _).
  set (st := set_addr_manager m' _) in Hrun.
  set (s1 := set_peer_mgr_handle (set_peer_store st (peer_mgr_handle s)) s).
  assert (E : on_peer_mgr (ban_id now_ms p until "ban from other module") s = (s1, Ok None)).
  { unfold on_peer_mgr, zoom, ban_id. rewrite bind_gets, Hinfo.
    rewrite (bind_ok _ _ _ (set_peer_store st (peer_mgr_handle s)) tt); [done|].
    unfold with_peer_store_mut, zoom. by rewrite Hrun. }
  rewrite (bind_ok _ _ _ _ _ E). exists s1. split_and!; try done. intros t Ht.
  apply (ban_network_banned now_ms (sa_ip socket) until _ _ t (pi_addr info) socket); try done; lia.
Qed.
End service.

(** ** Examples *)
Section examples.
#[local] Existing Instances plain_tentacle plain_networks plain_randomness.

Definition ex_config : NetworkConfig := mkNetworkConfig 40 20 [x00] [].
Definition ex_mgr : PeerManager :=
  mkPeerManager Online_default (PeerStore_new Manager_default BanList_new) ∅ "" ∅ ex_config ∅.
Definition ex_service : NetworkService := mkNetworkService ex_mgr 0 [].
Definition ex_session : SessionContext := mkSessionContext 1 (ex_peer 8000) Inbound.

Lemma ex_service_inv : registry_inv ex_mgr.
Proof. apply (PeerManager_new_inv ex_config (PeerStore_new Manager_default BanList_new)); [done|apply default_inv|done]. Qed.

Lemma session_open_outcome_witness : ∃ s', handle_event 5 (SessionOpen ex_session) ex_service = (s', Ok tt) ∧
  peer_status [x01] (peer_store (peer_mgr_handle s')) = Connected.
Proof.
  destruct (session_open_outcome 5 ex_session [x01] false ex_service eq_refl eq_refl) as (s' & Hrun & _ & _ & _ & Hc & _).
  by exists s'.
Defined.

Lemma dial_once_witness : ∃ s1 s2, dial_identify (ex_peer 8000) (dial_identify (ex_peer 8000) ex_service).1 = (s1, Ok tt) ∧
  dial_feeler (ex_peer 8000) (dial_identify (ex_peer 8000) ex_service).1 = (s2, Ok tt) ∧
  control s1 = [Dial (ex_peer 8000)] ∧ control s2 = [Dial (ex_peer 8000)].
Proof.
  apply (dial_once (ex_peer 8000) [x01] (dial_identify (ex_peer 8000) ex_service).1 eq_refl).
  right. left. apply (bool_decide_unpack _). vm_compute. exact I.
Defined.

(** The slots left for outbound dials are counted from the inbound sessions:
    with the outbound limit reached and no inbound session the service goes on
    dialing, and with the inbound limit reached and no outbound session it does
    not dial at all. *)
Example dial_slots_by_inbound :
  (limit_reached ex_config (mkConnectionStatus 20 0 20) Outbound = Ok true ∧
   dial_slots ex_config (mkConnectionStatus 20 0 20) = (Ok 20 : outcome NetworkError Z)) ∧
  (limit_reached ex_config (mkConnectionStatus 20 20 0) Outbound = Ok false ∧
   dial_slots ex_config (mkConnectionStatus 20 20 0) = (Ok 0 : outcome NetworkError Z)).
Proof. done. Qed.
End examples.
