(* ===== verification/Protocols.v ===== *)
(** * The network protocols

    The messages of [core/network/src/protocols/] and its ping ([ping.rs]) and
    feeler ([feeler.rs]) handlers.  A handler runs on its own state and the
    shared peer manager, and what it asks of the transport is recorded as
    commands.  The protobuf codec (the [prost] derive) is a class; [now] is the monotonic
    clock ([Instant]) and [now_ms] the wall clock, both in milliseconds. *)

From S2P Require Import Prelude Types Overlord NetAddr AddrManager PeerStore PeerManager NetService.

Local Open Scope Z_scope.

(** ** [protocols/mod.rs] *)
Inductive SupportProtocols : Type := Ping | Identify | Discovery | Transmitter | Feeler.
Definition protocol_id (p : SupportProtocols) : Z :=
  match p with Ping => 1 | Identify => 2 | Discovery => 3 | Transmitter => 4 | Feeler => 5 end.

(** ** Messages *)
Inductive PingPayload : Type := PingP (nonce : Z) | PongP (nonce : Z).
Record PingMessage := mkPingMessage { ping_payload : option PingPayload }.
Definition new_ping (nonce : Z) : PingMessage := mkPingMessage (Some (PingP nonce)).
Definition new_pong (nonce : Z) : PingMessage := mkPingMessage (Some (PongP nonce)).

Record AddressInfo := mkAddressInfo { ad_listen_addrs : list bytes; ad_observed_addr : bytes }.
Record Identity := mkIdentity { id_chain_id : string; id_addr_info : option AddressInfo }.

Inductive ListenPort : Type := On (port : Z).
Record GetNodes := mkGetNodes { gn_version : Z; gn_count : Z; gn_listen_port : option ListenPort }.
Record Node := mkNode { node_addrs : list bytes }.
Record Nodes := mkNodes { announce : bool; items : list Node }.
Inductive Payload : Type := GetNodesP (g : GetNodes) | NodesP (n : Nodes).
Record DiscoveryMessage := mkDiscoveryMessage { disc_payload : option Payload }.

(** [ListenPort::listen_port] *)
Definition listen_port (p : ListenPort) : option Z :=
  match p with On port => if port <=? 65535 then Some port else None end.

Definition new_get_nodes (version count : Z) (port : option Z) : DiscoveryMessage :=
  mkDiscoveryMessage (Some (GetNodesP (mkGetNodes version count (On <$> port)))).
Definition new_nodes (announce : bool) (nodes : list Node) : DiscoveryMessage :=
  mkDiscoveryMessage (Some (NodesP (mkNodes announce nodes))).

(** [prost::Message] of the three message types: what is encoded decodes. *)
Class Prost := {
  ping_encode : PingMessage → bytes;
  ping_decode : bytes → option PingMessage;
  ping_decode_encode msg : ping_decode (ping_encode msg) = Some msg;
  identity_encode : Identity → bytes;
  identity_decode : bytes → option Identity;
  identity_decode_encode msg : identity_decode (identity_encode msg) = Some msg;
  discovery_encode : DiscoveryMessage → bytes;
  discovery_decode : bytes → option DiscoveryMessage;
  discovery_decode_encode msg : discovery_decode (discovery_encode msg) = Some msg
}.

Section protocols.
Context `{!Tentacle} `{!IpNetworks} `{!Randomness} `{!Prost}.

(** ** Running a handler *)
Inductive ProtoCommand : Type :=
| SendTo (session_id : Z) (data : bytes)
| FilterBroadcast (sessions : gset Z) (data : bytes)
| CloseSession (session_id : Z)
| OpenProtocols (session_id : Z) (ids : list Z)
| DialFuture (addr : Multiaddr).

Record ProtoState (T : Type) := mkProtoState {
  handler : T;
  shared : PeerManager;
  commands : list ProtoCommand
}.
Arguments mkProtoState {T} handler shared commands.
Arguments handler {T} p.
Arguments shared {T} p.
Arguments commands {T} p.

Section run.
Context {T : Type}.
Definition on_handler (f : T → T) : M (ProtoState T) NetworkError unit :=
  modify (λ p, mkProtoState (f (handler p)) (shared p) (commands p)).
Definition on_shared {A} (op : M PeerManager NetworkError A) : M (ProtoState T) NetworkError A :=
  zoom shared (λ m p, mkProtoState (handler p) m (commands p)) op.
Definition command (c : ProtoCommand) : M (ProtoState T) NetworkError unit :=
  modify (λ p, mkProtoState (handler p) (shared p) (commands p ++ [c])).
Definition session_peer (session : SessionContext) : M (ProtoState T) NetworkError PeerId :=
  lift (unwrap (extract_peer_id (sc_address session))).
End run.

(** ** [ping.rs] *)
Definition SEND_PING_TOKEN : Z := 0.
Definition PING_CHECK_TIMEOUT_TOKEN : Z := 1.

Record PingStatus := mkPingStatus { processing : bool; last_ping_sent_at : Z; ps_nonce : Z }.
Record PingHandler := mkPingHandler {
  ping_interval : Z;
  ping_timeout : Z;
  connected_session_ids : gmap Z PingStatus;
  start_time : Z
}.
Definition set_connected_session_ids v h :=
  mkPingHandler (ping_interval h) (ping_timeout h) v (start_time h).
Abbreviation MPing := (M (ProtoState PingHandler) NetworkError).

(** Seconds since the start, as a [u32]. *)
Definition nonce (t start : Z) : Z := ((t - start) / 1000) mod 2 ^ 32.
Definition elapsed (now : Z) (ps : PingStatus) : Z := saturating_sub now (last_ping_sent_at ps).

Definition start_ping (now send_nonce : Z) (ps : PingStatus) : PingStatus :=
  if processing ps then ps else mkPingStatus true now send_nonce.

Definition ping_peers (now : Z) : MPing unit :=
  h ← gets handler;
  let send_nonce := nonce now (start_time h) in
  let peers := omap (λ '(id, ps), if processing ps then None else Some id)
                 (map_to_list (connected_session_ids h)) in
  on_handler (set_connected_session_ids (start_ping now send_nonce <$> connected_session_ids h));;
  match peers with
  | [] => mret tt
  | _ => command (FilterBroadcast (list_to_set peers) (ping_encode (new_ping send_nonce)))
  end.

Definition ping_connected (now : Z) (session : SessionContext) : MPing unit :=
  on_handler (λ h, match connected_session_ids h !! sc_id session with
                   | Some _ => h
                   | None => set_connected_session_ids
                       (<[sc_id session := mkPingStatus false now 0]> (connected_session_ids h)) h
                   end);;
  id ← session_peer session;
  on_shared (modify (open_protocol id (protocol_id Ping))).

Definition ping_disconnected (session : SessionContext) : MPing unit :=
  on_handler (λ h, set_connected_session_ids (delete (sc_id session) (connected_session_ids h)) h);;
  id ← session_peer session;
  on_shared (modify (close_protocol id (protocol_id Ping))).

Definition ping_received (session : SessionContext) (data : bytes) : MPing unit :=
  match ping_decode data with
  | Some (mkPingMessage (Some (PingP n))) => command (SendTo (sc_id session) (ping_encode (new_pong n)))
  | Some (mkPingMessage (Some (PongP n))) =>
      status ← gets (λ p, connected_session_ids (handler p) !! sc_id session);
      match status with
      | Some ps =>
          if processing ps && (n =? ps_nonce ps) then
            on_handler (λ h, set_connected_session_ids
              (<[sc_id session := mkPingStatus false (last_ping_sent_at ps) (ps_nonce ps)]>
                 (connected_session_ids h)) h)
          else command (CloseSession (sc_id session))
      | None => mret tt
      end
  | _ => mret tt
  end.

Definition timed_out (now timeout : Z) (ps : PingStatus) : bool :=
  processing ps && (timeout <=? elapsed now ps).

Definition ping_notify (now token : Z) : MPing unit :=
  if token =? SEND_PING_TOKEN then ping_peers now
  else if token =? PING_CHECK_TIMEOUT_TOKEN then
    h ← gets handler;
    for_each (λ id, command (CloseSession id))
      (omap (λ '(id, ps), if timed_out now (ping_timeout h) ps then Some id else None)
         (iter_order (map_to_list (connected_session_ids h))))
  else lift Panic.

(** ** [feeler.rs] *)
Definition feeler_connected (now_ms : Z) (session : SessionContext)
    : M (ProtoState unit) NetworkError unit :=
  (if is_outbound (sc_ty session)
   then on_shared (with_peer_store_mut (add_outbound_addr now_ms (sc_address session)))
   else mret tt);;
  command (CloseSession (sc_id session)).
Definition feeler_disconnected (session : SessionContext) : M (ProtoState unit) NetworkError unit :=
  on_shared (modify (with_registry_mut (remove_feeler (sc_address session)))).
End protocols.

Arguments mkProtoState {_ _ T} handler shared commands.
Arguments handler {_ _ T} p.
Arguments shared {_ _ T} p.
Arguments commands {_ _ T} p.

(** ** A concrete codec for examples
    The bits of the number stdpp's [Countable] gives a message. *)
Fixpoint pos_bits (p : positive) : bytes :=
  match p with xH => [] | xO p' => x00 :: pos_bits p' | xI p' => x01 :: pos_bits p' end.
Fixpoint bits_pos (l : bytes) : positive :=
  match l with [] => xH | b :: l' => if decide (b = x00) then xO (bits_pos l') else xI (bits_pos l') end.

Lemma bits_pos_bits p : bits_pos (pos_bits p) = p.
Proof. induction p as [p IH|p IH|]; cbn; [| |done]; by rewrite IH. Qed.

#[global] Instance PingMessage_eq_dec : EqDecision PingMessage.
Proof. repeat intro. unfold Decision. repeat (decide equality). Defined.
#[global] Instance Identity_eq_dec : EqDecision Identity.
Proof. intros [c1 [[l1 o1]|]] [c2 [[l2 o2]|]]; unfold Decision; [|right; congruence..|];
  destruct (decide (c1 = c2)); [|right; congruence| |right; congruence]; [|left; congruence].
  destruct (decide (l1 = l2)), (decide (o1 = o2)); [left; congruence|right; congruence..].
Defined.
#[global] Instance DiscoveryMessage_eq_dec : EqDecision DiscoveryMessage.
Proof.
  assert (EqDecision ListenPort) by solve_decision. assert (EqDecision GetNodes) by solve_decision.
  assert (EqDecision Node) by solve_decision. assert (EqDecision Nodes) by solve_decision.
  assert (EqDecision Payload) by solve_decision. solve_decision.
Defined.

#[global] Instance PingMessage_countable : Countable PingMessage.
Proof.
  refine (inj_countable' (λ m, (λ p, match p with PingP n => inl n | PongP n => inr n end) <$> ping_payload m)
    (λ o, mkPingMessage ((λ s, match s with inl n => PingP n | inr n => PongP n end) <$> o)) _).
  by intros [[[]|]].
Defined.
#[global] Instance Identity_countable : Countable Identity.
Proof.
  refine (inj_countable' (λ m, (id_chain_id m, (λ a, (ad_listen_addrs a, ad_observed_addr a)) <$> id_addr_info m))
    (λ p, mkIdentity p.1 ((λ q, mkAddressInfo q.1 q.2) <$> p.2)) _).
  by intros [c [[]|]].
Defined.
#[global] Instance DiscoveryMessage_countable : Countable DiscoveryMessage.
Proof.
  refine (inj_countable' (λ m, (λ p, match p with
      | GetNodesP g => inl (gn_version g, gn_count g, (λ '(On q), q) <$> gn_listen_port g)
      | NodesP n => inr (announce n, node_addrs <$> items n)
      end) <$> disc_payload m)
    (λ o, mkDiscoveryMessage ((λ s, match s with
      | inl (v, c, q) => GetNodesP (mkGetNodes v c (On <$> q))
      | inr (a, l) => NodesP (mkNodes a (mkNode <$> l))
      end) <$> o)) _).
  intros [[[[v c [[q]|]]|[a l]]|]]; cbn; try done. do 4 f_equal. rewrite <-list_fmap_compose.
  rewrite <-(list_fmap_id l) at 2. apply list_fmap_ext. by intros ? [] _.
Defined.

Definition bits_prost : Prost.
Proof.
  refine {| ping_encode m := pos_bits (encode m); ping_decode l := decode (bits_pos l);
            identity_encode m := pos_bits (encode m); identity_decode l := decode (bits_pos l);
            discovery_encode m := pos_bits (encode m); discovery_decode l := decode (bits_pos l) |};
    intros; by rewrite bits_pos_bits, decode_encode.
Defined.
