(* ===== verification/PingProps.v ===== *)
(** * Correctness of the ping protocol

    A session that stops answering pings is closed, one that answers is not,
    and the timeout check closes exactly the sessions whose ping is overdue. *)

From S2P Require Import Prelude Types Overlord NetAddr AddrManager PeerStore PeerManager.
From S2P Require Import NetService Protocols.

Local Open Scope Z_scope.

Section ping.
Context `{!Tentacle} `{!IpNetworks} `{!Randomness} `{!Prost}.
Implicit Types (p : ProtoState PingHandler).

(** ** Histories *)
Inductive ping_event : Type :=
| EvConnected (session : SessionContext)
| EvDisconnected (session : SessionContext)
| EvReceived (session : SessionContext) (data : bytes)
| EvSendPing
| EvCheckTimeout.

Definition run_event (now : Z) (e : ping_event) : M (ProtoState PingHandler) NetworkError unit :=
  match e with
  | EvConnected session => ping_connected now session
  | EvDisconnected session => ping_disconnected session
  | EvReceived session data => ping_received session data
  | EvSendPing => ping_notify now SEND_PING_TOKEN
  | EvCheckTimeout => ping_notify now PING_CHECK_TIMEOUT_TOKEN
  end.
Definition run_events (l : list (Z * ping_event)) : M (ProtoState PingHandler) NetworkError unit :=
  for_each (λ ev, run_event ev.1 ev.2) l.

(** The session an event comes from. *)
Definition event_session (e : ping_event) : option SessionContext :=
  match e with
  | EvConnected s | EvDisconnected s | EvReceived s _ => Some s
  | _ => None
  end.
(** Every session of a history has a peer id in its address. *)
Definition has_peer_ids (l : list (Z * ping_event)) : Prop :=
  ∀ now e s, (now, e) ∈ l → event_session e = Some s → is_Some (extract_peer_id (sc_address s)).
(** The history has no event of session [id]. *)
Definition silent (id : Z) (l : list (Z * ping_event)) : Prop :=
  ∀ now e s, (now, e) ∈ l → event_session e = Some s → sc_id s ≠ id.

Definition status_of (id : Z) p : option PingStatus := connected_session_ids (handler p) !! id.

(** ** The timeout check *)
Lemma for_each_app {S E A} (f : A → M S E unit) (l1 l2 : list A) s :
  for_each f (l1 ++ l2) s = (for_each f l1;; for_each f l2) s.
Proof.
  revert s. induction l1 as [|x l1 IH]; intros s; [done|]. cbn. unfold mbind, M_bind.
  destruct (f x s) as [s1 [[]| |]]; [|done..]. by rewrite IH.
Qed.

Lemma for_each_commands (l : list Z) p :
  for_each (λ id, command (CloseSession id)) l p =
    (mkProtoState (handler p) (shared p) (commands p ++ (CloseSession <$> l)), Ok tt).
Proof.
  revert p. induction l as [|id l IH]; intros p; cbn.
  { rewrite app_nil_r. by destruct p. }
  rewrite (bind_ok _ _ _ (mkProtoState (handler p) (shared p) (commands p ++ [CloseSession id])) tt) by done.
  rewrite IH. cbn. by rewrite <-app_assoc.
Qed.

Definition overdue (now : Z) p : list Z :=
  omap (λ '(id, ps), if timed_out now (ping_timeout (handler p)) ps then Some id else None)
    (iter_order (map_to_list (connected_session_ids (handler p)))).

Lemma check_timeout_run now p :
  run_event now EvCheckTimeout p =
    (mkProtoState (handler p) (shared p) (commands p ++ (CloseSession <$> overdue now p)), Ok tt).
Proof. cbn. unfold ping_notify. cbn. rewrite bind_gets. apply for_each_commands. Qed.

Lemma overdue_iff now p id :
  id ∈ overdue now p ↔ ∃ ps, status_of id p = Some ps ∧ processing ps = true ∧
    ping_timeout (handler p) ≤ elapsed now ps.
Proof.
  unfold overdue, status_of. rewrite list_elem_of_omap. split.
  - intros ([id' ps] & Hin & Hif). rewrite iter_order_perm, elem_of_map_to_list in Hin.
    case_match eqn:E; [|done]. injection Hif as ->. unfold timed_out in E.
    apply andb_prop in E as [? ?]. exists ps. split_and!; [done..|lia].
  - intros (ps & Hps & Hp & Ht). exists (id, ps). rewrite iter_order_perm, elem_of_map_to_list.
    split; [done|]. unfold timed_out. rewrite Hp. cbn. by rewrite (proj2 (Z.leb_le _ _)).
Qed.

(** ** One event *)
Lemma ping_peers_run now p : ∃ out,
  run_event now EvSendPing p =
    (mkProtoState (set_connected_session_ids (start_ping now (nonce now (start_time (handler p)))
        <$> connected_session_ids (handler p)) (handler p)) (shared p) (commands p ++ out), Ok tt).
Proof.
  cbn. unfold ping_notify. cbn. unfold ping_peers. rewrite bind_gets. unfold on_handler. rewrite bind_modify.
  case_match; [exists []; by rewrite app_nil_r|by eexists].
Qed.

(** An event of other sessions leaves the pending ping of [id] pending. *)
Lemma event_pending now e p id ps : status_of id p = Some ps → processing ps = true →
  (∀ s, event_session e = Some s → sc_id s ≠ id ∧ is_Some (extract_peer_id (sc_address s))) →
  ∃ p' out, run_event now e p = (p', Ok tt) ∧ status_of id p' = Some ps ∧
    ping_timeout (handler p') = ping_timeout (handler p) ∧ commands p' = commands p ++ out.
Proof.
  intros Hst Hproc He. destruct e as [s|s|s data| |].
  - destruct (He s eq_refl) as [Hne [q Hq]]. cbn. unfold ping_connected, session_peer, on_handler.
    rewrite bind_modify, Hq. cbn [unwrap]. rewrite bind_lift_ok. eexists _, []. split; [done|].
    cbn. rewrite app_nil_r. split_and!; try done; case_match; try done. unfold status_of. cbn.
    by rewrite lookup_insert_ne.
  - destruct (He s eq_refl) as [Hne [q Hq]]. cbn. unfold ping_disconnected, session_peer, on_handler.
    rewrite bind_modify, Hq. cbn [unwrap]. rewrite bind_lift_ok. eexists _, []. split; [done|].
    cbn. rewrite app_nil_r. split_and!; try done. unfold status_of. cbn. by rewrite lookup_delete_ne.
  - destruct (He s eq_refl) as [Hne _]. cbn. unfold ping_received.
    destruct (ping_decode data) as [[[[n|n]|]]|]; try (eexists p, []; by rewrite app_nil_r).
    + eexists _, [_]. split; [done|]. by split_and!.
    + rewrite bind_gets. destruct (connected_session_ids (handler p) !! sc_id s) as [ps'|];
        [|eexists p, []; by rewrite app_nil_r].
      case_match; [eexists _, []; split; [done|]; cbn; rewrite app_nil_r|eexists _, [_]; split; [done|]; by split_and!].
      split_and!; try done. unfold status_of. cbn. by rewrite lookup_insert_ne.
  - destruct (ping_peers_run now p) as [out ->]. eexists _, out. split; [done|]. cbn. split_and!; try done.
    unfold status_of. cbn. unfold status_of in Hst. rewrite lookup_fmap, Hst. cbn. unfold start_ping. by rewrite Hproc.
  - rewrite check_timeout_run. eexists _, _. split; [done|]. by split_and!.
Qed.

Lemma events_pending l : ∀ p id ps, status_of id p = Some ps → processing ps = true →
  silent id l → has_peer_ids l →
  ∃ p' out, run_events l p = (p', Ok tt) ∧ status_of id p' = Some ps ∧
    ping_timeout (handler p') = ping_timeout (handler p) ∧ commands p' = commands p ++ out.
Proof.
  induction l as [|[now e] l IH]; intros p id ps Hst Hproc Hsil Hids.
  { exists p, []. cbn. by rewrite app_nil_r. }
  destruct (event_pending now e p id ps Hst Hproc) as (p1 & out1 & Hrun & Hst1 & Ht1 & Hc1).
  { intros s Hs. split; [eapply Hsil|eapply Hids]; try done; left. }
  destruct (IH p1 id ps Hst1 Hproc) as (p2 & out2 & Hrun2 & Hst2 & Ht2 & Hc2).
  { intros now' e' s Hin. eapply Hsil. by right. }
  { intros now' e' s Hin. eapply Hids. by right. }
  exists p2, (out1 ++ out2). unfold run_events. cbn. rewrite (bind_ok _ _ _ _ _ Hrun).
  split_and!; [done..|congruence|]. by rewrite Hc2, Hc1, app_assoc.
Qed.

(** C34: A silent session is closed.  After a ping round at time [t1], whatever
    other sessions do, if the session sends nothing then the first timeout
    check at least [timeout] later closes it. *)
Theorem ping_silent_closed p id ps t1 l t2 :
  status_of id p = Some ps → last_ping_sent_at ps ≤ t1 → silent id l → has_peer_ids l →
  t1 + ping_timeout (handler p) ≤ t2 →
  ∃ p' out, run_events (((t1, EvSendPing) :: l) ++ [(t2, EvCheckTimeout)]) p = (p', Ok tt) ∧
    commands p' = commands p ++ out ∧ CloseSession id ∈ out.
Proof.
  intros Hst Hlast Hsil Hids Ht2. destruct (ping_peers_run t1 p) as [out1 Hrun1].
  set (p1 := mkProtoState _ _ _) in Hrun1.
  assert (∃ ps1, status_of id p1 = Some ps1 ∧ processing ps1 = true ∧ last_ping_sent_at ps1 ≤ t1) as
    (ps1 & Hst1 & Hproc & Hl1).
  { unfold status_of. cbn. unfold status_of in Hst. rewrite lookup_fmap, Hst. cbn. eexists. split; [done|].
    unfold start_ping. destruct (processing ps) eqn:E; cbn; split; [done..|lia]. }
  destruct (events_pending l p1 id ps1 Hst1 Hproc Hsil Hids) as (p2 & out2 & Hrun2 & Hst2 & Hto & Hc2).
  exists (mkProtoState (handler p2) (shared p2) (commands p2 ++ (CloseSession <$> overdue t2 p2))).
  exists ((out1 ++ out2) ++ (CloseSession <$> overdue t2 p2)). split_and!.
  - unfold run_events. rewrite for_each_app. cbn [for_each].
    rewrite (bind_ok _ _ _ p2 tt); [|by rewrite (bind_ok _ _ _ _ _ Hrun1)].
    by rewrite (bind_ok _ _ _ _ _ (check_timeout_run t2 p2)).
  - cbn. rewrite Hc2. cbn. by rewrite !app_assoc.
  - apply elem_of_app. right. apply list_elem_of_fmap_2, overdue_iff. exists ps1. split_and!; try done.
    rewrite Hto. cbn. unfold elapsed, saturating_sub. lia.
Qed.
End ping.

(** ** Examples *)
Section examples.
#[local] Existing Instances plain_tentacle plain_networks plain_randomness bits_prost.

Definition ex_ping_mgr : PeerManager :=
  mkPeerManager Online_default (PeerStore_new Manager_default BanList_new) ∅ "" ∅
    (mkNetworkConfig 40 20 [x00] []) ∅.
Definition ex_ping : ProtoState PingHandler :=
  mkProtoState (mkPingHandler 15000 30000 {[7 := mkPingStatus false 1000 0]} 0) ex_ping_mgr [].
Definition ex_other_session : SessionContext := mkSessionContext 8 (V4 5, 80, Some [x05]) Inbound.

Lemma ping_silent_closed_witness : ∃ p' out,
  run_events [(2000, EvSendPing); (2500, EvConnected ex_other_session);
              (2600, EvReceived ex_other_session (ping_encode (new_pong 9))); (40000, EvCheckTimeout)] ex_ping
    = (p', Ok tt) ∧ commands p' = [] ++ out ∧ CloseSession 7 ∈ out.
Proof.
  apply (ping_silent_closed ex_ping 7 (mkPingStatus false 1000 0) 2000
    [(2500, EvConnected ex_other_session);
     (2600, EvReceived ex_other_session (ping_encode (new_pong 9)))] 40000); [reflexivity|cbn; lia| | |cbn; lia].
  - intros now e s Hin Hs. repeat apply elem_of_cons in Hin as [[= -> ->]|Hin]; [injection Hs as <-; done..|].
    by apply not_elem_of_nil in Hin.
  - intros now e s Hin Hs. repeat apply elem_of_cons in Hin as [[= -> ->]|Hin]; [injection Hs as <-; by eexists..|].
    by apply not_elem_of_nil in Hin.
Defined.
End examples.
