(* ===== verification/Identify.v ===== *)
(** * The identify protocol

    [core/network/src/protocols/identify/]: the first message on a session says
    which chain the remote node is on and which addresses it listens on and
    observed; a node of another chain is disconnected, and the other protocols
    are opened for the rest. *)

From S2P Require Import Prelude Types Overlord NetAddr AddrManager PeerStore PeerManager.
From S2P Require Import NetService Protocols.

Local Open Scope Z_scope.

Definition IDENTIFY_MAX_ADDRS : nat := 10.
Definition DEFAULT_TIMEOUT : Z := 8 * 1000.

Section identify.
Context `{!Tentacle} `{!IpNetworks} `{!Randomness} `{!Prost}.

(** ** [protocol.rs] *)
Definition AddressInfo_new (listen_addrs : list Multiaddr) (observed_addr : Multiaddr) : AddressInfo :=
  mkAddressInfo (multiaddr_to_vec <$> listen_addrs) (multiaddr_to_vec observed_addr).
Definition listen_addrs (i : AddressInfo) : list Multiaddr :=
  omap multiaddr_try_from (ad_listen_addrs i).
Definition observed_addr (i : AddressInfo) : option Multiaddr := multiaddr_try_from (ad_observed_addr i).
Definition Identity_new (chain_id : string) (addr_info : AddressInfo) : Identity :=
  mkIdentity chain_id (Some addr_info).

(** ** [mod.rs] *)
Inductive MisbehaveResult : Type := MR_Continue | MR_Disconnect.
Definition is_disconnect (r : MisbehaveResult) : bool :=
  match r with MR_Disconnect => true | MR_Continue => false end.

Record RemoteInfo := mkRemoteInfo {
  ri_peer_id : PeerId;
  ri_session : SessionContext;
  ri_connected_at : Z;
  ri_timeout : Z;
  has_received : bool
}.
(** [remote] is the peer id of the session's public key, if it has one. *)
Definition RemoteInfo_new (now : Z) (session : SessionContext) (remote : option PeerId) (timeout : Z)
    : outcome NetworkError RemoteInfo :=
  peer_id ← unwrap remote; Ok (mkRemoteInfo peer_id session now timeout false).
Definition set_has_received (i : RemoteInfo) : RemoteInfo :=
  mkRemoteInfo (ri_peer_id i) (ri_session i) (ri_connected_at i) (ri_timeout i) true.

Record IdentifyProtocol := mkIdentifyProtocol {
  remote_infos : gmap Z RemoteInfo;
  global_ip_only : bool
}.
Definition IdentifyProtocol_new : IdentifyProtocol := mkIdentifyProtocol ∅ true.
Definition set_remote_infos v h := mkIdentifyProtocol v (global_ip_only h).
Abbreviation MI := (M (ProtoState IdentifyProtocol) NetworkError).

Definition check_duplicate (session : SessionContext) : MI MisbehaveResult :=
  info ← gets (λ p, remote_infos (handler p) !! sc_id session);
  info ← lift (unwrap info);
  if has_received info then mret MR_Disconnect else
  on_handler (λ h, set_remote_infos (<[sc_id session := set_has_received info]> (remote_infos h)) h);;
  mret MR_Continue.

Definition received_identify (session : SessionContext) (chain_id : string) : MI MisbehaveResult :=
  m ← gets shared;
  if decide (pm_chain_id m = chain_id) then
    (if is_outbound (sc_ty session) then
       if is_feeler (sc_address session) (online m)
       then command (OpenProtocols (sc_id session) [protocol_id Feeler])
       else command (OpenProtocols (sc_id session)
              (protocol_id <$> [Ping; Identify; Discovery; Transmitter]))
     else mret tt);;
    mret MR_Continue
  else mret MR_Disconnect.

(** Addresses with an IP the protocol lets through. *)
Definition listens_ok (only_global : bool) (addr : Multiaddr) : bool :=
  match multiaddr_to_socketaddr addr with
  | Some socket_addr => negb only_global || is_reachable (sa_ip socket_addr)
  | None => false
  end.

(** [if let Err(err) = peer_store.add_addr(addr) { log }] for each address *)
Definition add_addrs (now_ms : Z) (addrs : list Multiaddr) : MI unit :=
  for_each (λ addr, try (on_shared (with_peer_store_mut (add_addr now_ms addr)));; mret tt) addrs.

Definition process_listens (now_ms : Z) (session : SessionContext) (listens : list Multiaddr)
    : MI MisbehaveResult :=
  if (IDENTIFY_MAX_ADDRS <? length listens)%nat then mret MR_Disconnect else
  h ← gets handler;
  let reachable_addrs := filter (λ addr, listens_ok (global_ip_only h) addr = true) listens in
  add_addrs now_ms reachable_addrs;;
  peer_id ← session_peer session;
  on_shared (modify (with_registry_mut (λ o,
    set_on_peers (alter (set_listens reachable_addrs) peer_id (on_peers o)) o)));;
  mret MR_Continue.

Definition replace_tcp (port : Z) (p : Protocol) : Protocol :=
  match p with Tcp _ => Tcp port | value => value end.

(** The dial futures of the candidate addresses are dropped without being
    awaited. *)
Definition process_observed (session : SessionContext) (observed : option Multiaddr)
    : MI MisbehaveResult :=
  match observed with
  | None => mret MR_Continue
  | Some observed =>
      p ← gets id;
      _ ← lift (unwrap (remote_infos (handler p) !! sc_id session));
      if negb (listens_ok (global_ip_only (handler p)) observed) then mret MR_Continue else
      if negb (is_outbound (sc_ty session)) then mret MR_Continue else
      let observed :=
        match extract_peer_id observed with
        | Some _ => observed
        | None => multiaddr_collect
            (multiaddr_iter observed ++ [P2P (peer_id_as_bytes (local_peer_id (pm_config (shared p))))])
        end in
      let candidates :=
        omap (λ listen_addr,
          (λ socket_addr, multiaddr_collect (replace_tcp (sa_port socket_addr) <$> multiaddr_iter observed))
            <$> multiaddr_to_socketaddr listen_addr)
          (take_public_addrs IDENTIFY_MAX_ADDRS (shared p)) ++ [observed] in
      for_each (λ addr, command (DialFuture addr)) candidates;;
      mret MR_Continue
  end.

(** ** [ServiceProtocol] *)
Definition identify_connected (now now_ms : Z) (session : SessionContext) (remote : option PeerId)
    : MI unit :=
  peer_id ← session_peer session;
  on_shared (modify (open_protocol peer_id (protocol_id Identify)));;
  (if is_outbound (sc_ty session)
   then on_shared (with_peer_store_mut (add_outbound_addr now_ms (sc_address session)))
   else mret tt);;
  remote_info ← lift (RemoteInfo_new now session remote DEFAULT_TIMEOUT);
  on_handler (λ h, set_remote_infos (<[sc_id session := remote_info]> (remote_infos h)) h);;
  p ← gets id;
  let addrs := take IDENTIFY_MAX_ADDRS
    (filter (λ addr, listens_ok (global_ip_only (handler p)) addr = true)
       (local_listen_addrs (shared p))) in
  command (SendTo (sc_id session) (identity_encode (Identity_new (pm_chain_id (shared p))
    (AddressInfo_new addrs (sc_address session))))).

Definition identify_disconnected (now_ms : Z) (session : SessionContext) : MI unit :=
  info ← gets (λ p, remote_infos (handler p) !! sc_id session);
  on_handler (λ h, set_remote_infos (delete (sc_id session) (remote_infos h)) h);;
  lift (unwrap info);;
  peer_id ← session_peer session;
  on_shared (modify (close_protocol peer_id (protocol_id Identify)));;
  m ← gets shared;
  if is_outbound (sc_ty session) && negb (is_addr_banned now_ms (sc_address session) (peer_store m))
  then on_shared (with_peer_store_mut (add_outbound_addr now_ms (sc_address session)))
  else mret tt.

(** [a || b]: the second check runs when the first does not disconnect. *)
Definition or_else (a b : MI MisbehaveResult) : MI MisbehaveResult :=
  r ← a; if is_disconnect r then mret MR_Disconnect else b.

Definition identify_received (now_ms : Z) (session : SessionContext) (data : bytes) : MI unit :=
  match identity_decode data with
  | Some (mkIdentity chain_id (Some addr_info)) =>
      r ← or_else (check_duplicate session)
            (or_else (received_identify session chain_id)
               (or_else (process_listens now_ms session (listen_addrs addr_info))
                  (process_observed session (observed_addr addr_info))));
      if is_disconnect r then command (CloseSession (sc_id session)) else mret tt
  | Some (mkIdentity _ None) => command (CloseSession (sc_id session))
  | None =>
      info ← gets (λ p, remote_infos (handler p) !! sc_id session);
      lift (unwrap info);;
      command (CloseSession (sc_id session))
  end.

Definition identify_notify (now : Z) : MI unit :=
  h ← gets handler;
  for_each (λ id, command (CloseSession id))
    (omap (λ '(id, info),
       if negb (has_received info) && (ri_connected_at info + ri_timeout info <=? now)
       then Some id else None)
       (iter_order (map_to_list (remote_infos h)))).
End identify.
