(* ===== verification/Discovery.v ===== *)
(** * The discovery protocol

    [core/network/src/protocols/discovery/]: nodes ask each other for addresses
    ([GetNodes]/[Nodes]) and announce the addresses of connected peers. *)

From S2P Require Import Prelude Types Overlord NetAddr AddrManager PeerStore PeerManager.
From S2P Require Import NetService Protocols.

Local Open Scope Z_scope.

Definition ANNOUNCE_THRESHOLD : nat := 10.
Definition MAX_ADDR_TO_SEND : Z := 1000.
Definition DISCOVERY_MAX_ADDRS : nat := 3.
Definition ANNOUNCE_INTERVAL : Z := 3600 * 24 * 1000.
Definition DEFAULT_BUCKETS_NUM : nat := Z.to_nat 5000.
Definition REUSE_PORT_VERSION : Z := 1.
Definition RANDOM_ADDRS : nat := Z.to_nat 2500.

(** [bloom_filters::StableBloomFilter], which forgets and may err either way. *)
Class StableBloom `{!Tentacle} := {
  BloomFilter : Type;
  bloom_new : nat → BloomFilter;
  bloom_insert : Multiaddr → BloomFilter → BloomFilter;
  bloom_contains : Multiaddr → BloomFilter → bool
}.

Section discovery.
Context `{!Tentacle} `{!IpNetworks} `{!Randomness} `{!Prost} `{!StableBloom}.

(** ** [protocol.rs] *)
Definition with_addrs (addrs : list Multiaddr) : Node := mkNode (multiaddr_to_vec <$> addrs).
Definition addrs_of (node : Node) : list Multiaddr := omap multiaddr_try_from (node_addrs node).

(** ** [addr.rs] *)
Inductive Misbehavior : Type :=
| DuplicateGetNodes
| DuplicateFirstNodes
| TooManyItems (announce : bool) (length : nat)
| TooManyAddresses (n : nat)
| InvalidData.

Definition AddrKnown_default : BloomFilter := bloom_new DEFAULT_BUCKETS_NUM.
Definition addr_known_extend (keys : list Multiaddr) (f : BloomFilter) : BloomFilter :=
  fold_left (λ f key, bloom_insert key f) keys f.

(** ** [state.rs] *)
Inductive RemoteAddress : Type := Init (addr : Multiaddr) | Listen (addr : Multiaddr).

Definition to_inner (r : RemoteAddress) : Multiaddr := match r with Init addr | Listen addr => addr end.
Definition change_to_listen (r : RemoteAddress) : RemoteAddress :=
  match r with Init addr => Listen addr | Listen addr => Listen addr end.
Definition set_tcp_port (port : Z) (p : Protocol) : Protocol :=
  match p with Tcp _ => Tcp port | value => value end.
Definition update_port (port : Z) (r : RemoteAddress) : RemoteAddress :=
  match r with
  | Init addr => Listen (multiaddr_collect (set_tcp_port port <$> multiaddr_iter addr))
  | Listen addr => Listen addr
  end.

Record SessionState := mkSessionState {
  addr_known : BloomFilter;
  remote_addr : RemoteAddress;
  last_announce : option Z;
  announce_multiaddrs : list Multiaddr;
  received_get_nodes : bool;
  received_nodes : bool
}.
Definition set_addr_known v s := mkSessionState v (remote_addr s) (last_announce s)
  (announce_multiaddrs s) (received_get_nodes s) (received_nodes s).
Definition set_remote_addr v s := mkSessionState (addr_known s) v (last_announce s)
  (announce_multiaddrs s) (received_get_nodes s) (received_nodes s).
Definition set_last_announce v s := mkSessionState (addr_known s) (remote_addr s) v
  (announce_multiaddrs s) (received_get_nodes s) (received_nodes s).
Definition set_announce_multiaddrs v s := mkSessionState (addr_known s) (remote_addr s)
  (last_announce s) v (received_get_nodes s) (received_nodes s).
Definition set_received_get_nodes v s := mkSessionState (addr_known s) (remote_addr s)
  (last_announce s) (announce_multiaddrs s) v (received_nodes s).
Definition set_received_nodes v s := mkSessionState (addr_known s) (remote_addr s)
  (last_announce s) (announce_multiaddrs s) (received_get_nodes s) v.

(** [check_timer]: the new [last_announce] and the address to announce *)
Definition check_timer (now interval : Z) (s : SessionState) : SessionState * option Multiaddr :=
  if match last_announce s with Some time => interval <? now - time | None => true end
  then (set_last_announce (Some now) s,
        match remote_addr s with Listen addr => Some addr | Init _ => None end)
  else (s, None).

(** ** The protocol and its address manager *)
Record DiscoveryProtocol := mkDiscoveryProtocol {
  sessions : gmap Z SessionState;
  discovery_local_address : bool
}.
Definition DiscoveryProtocol_new : DiscoveryProtocol := mkDiscoveryProtocol ∅ false.
Definition set_sessions v h := mkDiscoveryProtocol v (discovery_local_address h).
Abbreviation MD := (M (ProtoState DiscoveryProtocol) NetworkError).

Definition is_valid_addr (h : DiscoveryProtocol) (addr : Multiaddr) : bool :=
  if negb (discovery_local_address h) then
    match multiaddr_to_socketaddr addr with
    | Some socket_addr => is_reachable (sa_ip socket_addr)
    | None => false
    end
  else true.

Definition add_new_addrs (now_ms : Z) (addrs : list Multiaddr) : MD unit :=
  h ← gets handler;
  for_each (λ addr, try (on_shared (with_peer_store_mut (add_addr now_ms addr)));; mret tt)
    (filter (λ addr, is_valid_addr h addr = true) addrs).

Definition get_random (now_ms : Z) (n : nat) : MD (list Multiaddr) :=
  h ← gets handler;
  infos ← on_shared (with_peer_store_mut (fetch_random_addrs now_ms n));
  mret (filter (λ addr, is_valid_addr h addr = true) (ai_addr <$> infos)).

Definition add_reuse_port_addr (now_ms : Z) (addr : Multiaddr) : MD unit :=
  peer_id ← lift (unwrap (extract_peer_id addr));
  on_shared (modify (with_registry_mut (λ o,
    set_on_peers (alter (set_reuse true) peer_id (on_peers o)) o)));;
  on_shared (with_peer_store_mut (add_outbound_addr now_ms addr)).

(** [misbehave] answers [Disconnect] to everything. *)
Definition misbehave (session_id : Z) (kind : Misbehavior) : MD unit := command (CloseSession session_id).

Definition set_state (id : Z) (state : SessionState) : MD unit :=
  on_handler (λ h, set_sessions (<[id := state]> (sessions h)) h).

(** ** [verify_nodes_message] *)
Definition verify_nodes_message (nodes : Nodes) : option Misbehavior :=
  let n := length (items nodes) in
  if announce nodes && (ANNOUNCE_THRESHOLD <? n)%nat ||
     negb (announce nodes) && (MAX_ADDR_TO_SEND <? Z.of_nat n)
  then Some (TooManyItems (announce nodes) n)
  else match filter (λ item, (DISCOVERY_MAX_ADDRS < length (node_addrs item))%nat) (items nodes) with
       | item :: _ => Some (TooManyAddresses (length (node_addrs item)))
       | [] => None
       end.

(** ** [ServiceProtocol] *)
(** [AddressManager::register] and [unregister] *)
Definition disc_register (session : SessionContext) : MD unit :=
  peer_id ← session_peer session;
  on_shared (modify (open_protocol peer_id (protocol_id Discovery))).
Definition disc_unregister (session : SessionContext) : MD unit :=
  peer_id ← session_peer session;
  on_shared (modify (close_protocol peer_id (protocol_id Discovery))).

(** [SessionState::new]; [listens] are the addresses the transport listens on. *)
Definition SessionState_new (listens : list Multiaddr) (session : SessionContext) : MD SessionState :=
  h ← gets handler;
  if is_outbound (sc_ty session) then
    let port := head (omap (λ address,
      if is_valid_addr h address then sa_port <$> multiaddr_to_socketaddr address else None) listens) in
    command (SendTo (sc_id session)
      (discovery_encode (new_get_nodes REUSE_PORT_VERSION MAX_ADDR_TO_SEND port)));;
    mret (mkSessionState (bloom_insert (sc_address session) AddrKnown_default)
      (Listen (sc_address session)) None [] false false)
  else mret (mkSessionState AddrKnown_default (Init (sc_address session)) None [] false false).

Definition discovery_connected (listens : list Multiaddr) (session : SessionContext) : MD unit :=
  disc_register session;;
  state ← SessionState_new listens session;
  set_state (sc_id session) state.
Definition discovery_disconnected (session : SessionContext) : MD unit :=
  on_handler (λ h, set_sessions (delete (sc_id session) (sessions h)) h);;
  disc_unregister session.

(** The answer to a [GetNodes] message on a session that has not sent one. *)
Definition answer_get_nodes (now_ms : Z) (session : SessionContext) (msg : GetNodes)
    (state : SessionState) : MD unit :=
  let id := sc_id session in
  let state := set_received_get_nodes true state in
  set_state id state;;
  items ← get_random now_ms RANDOM_ADDRS;
  state ← (match gn_listen_port msg ≫= listen_port with
           | Some port =>
               let r := update_port port (remote_addr state) in
               let state := set_addr_known (bloom_insert (to_inner r) (addr_known state))
                              (set_remote_addr r state) in
               set_state id state;;
               (match r with Listen addr => add_new_addrs now_ms [addr] | Init _ => mret tt end);;
               mret state
           | None => mret state
           end);
  state ← (if REUSE_PORT_VERSION <=? gn_version msg then
             let state := set_remote_addr (change_to_listen (remote_addr state)) state in
             set_state id state;;
             add_reuse_port_addr now_ms (to_inner (remote_addr state));;
             mret state
           else mret state);
  let max := Z.to_nat (Z.min MAX_ADDR_TO_SEND (gn_count msg)) in
  let items := if (max <? length items)%nat then choose_multiple max items else items in
  set_state id (set_addr_known (addr_known_extend items (addr_known state)) state);;
  command (SendTo id (discovery_encode (new_nodes false ((λ addr, with_addrs [addr]) <$> items)))).

(** A [Nodes] message that passed [verify_nodes_message]. *)
Definition accept_nodes (now_ms : Z) (session : SessionContext) (nodes : Nodes) (state : SessionState)
    : MD unit :=
  if negb (announce nodes) && received_nodes state then misbehave (sc_id session) DuplicateFirstNodes else
  let addrs := concat (addrs_of <$> items nodes) in
  let state := set_addr_known (addr_known_extend addrs (addr_known state)) state in
  let state := if negb (announce nodes) then set_received_nodes true state else state in
  set_state (sc_id session) state;;
  add_new_addrs now_ms addrs.

Definition discovery_received (now_ms : Z) (session : SessionContext) (data : bytes) : MD unit :=
  match discovery_decode data with
  | Some (mkDiscoveryMessage (Some (GetNodesP msg))) =>
      state ← gets (λ p, sessions (handler p) !! sc_id session);
      match state with
      | Some state =>
          if received_get_nodes state then misbehave (sc_id session) DuplicateGetNodes
          else answer_get_nodes now_ms session msg state
      | None => mret tt
      end
  | Some (mkDiscoveryMessage (Some (NodesP nodes))) =>
      match verify_nodes_message nodes with
      | Some misbehavior => misbehave (sc_id session) misbehavior
      | None =>
          state ← gets (λ p, sessions (handler p) !! sc_id session);
          match state with
          | Some state => accept_nodes now_ms session nodes state
          | None => mret tt
          end
      end
  | Some (mkDiscoveryMessage None) => mret tt
  | None => misbehave (sc_id session) InvalidData
  end.

(** *** [notify] *)
(** [send_messages] *)
Definition send_messages (id : Z) (state : SessionState) : MD SessionState :=
  match announce_multiaddrs state with
  | [] => mret state
  | addrs =>
      command (SendTo id (discovery_encode (new_nodes true ((λ addr, with_addrs [addr]) <$> addrs))));;
      mret (set_announce_multiaddrs [] state)
  end.

(** The first loop: flush each session, collect the addresses to announce. *)
Fixpoint flush_sessions (now : Z) (l : list (Z * SessionState)) : MD (list Multiaddr) :=
  match l with
  | [] => mret []
  | (id, state) :: l' =>
      state ← send_messages id state;
      let '(state, addr) := check_timer now ANNOUNCE_INTERVAL state in
      set_state id state;;
      h ← gets handler;
      rest ← flush_sessions now l';
      mret (match addr with
            | Some addr => if is_valid_addr h addr then addr :: rest else rest
            | None => rest
            end)
  end.

(** Queues an address on a session that may announce it. *)
Definition announce_on (addr : Multiaddr) (value : SessionState) : SessionState :=
  if (length (announce_multiaddrs value) <? ANNOUNCE_THRESHOLD)%nat &&
     negb (bloom_contains addr (addr_known value))
  then set_addr_known (bloom_insert addr (addr_known value))
         (set_announce_multiaddrs (announce_multiaddrs value ++ [addr]) value)
  else value.

(** The second loop: each address is queued on three random sessions; the keys
    are shuffled anew for each. *)
Fixpoint queue_announces (addrs : list Multiaddr) (keys : list Z) (h : DiscoveryProtocol)
    : DiscoveryProtocol :=
  match addrs with
  | [] => h
  | addr :: addrs' =>
      let keys := iter_order keys in
      queue_announces addrs' keys
        (set_sessions (foldr (λ key, alter (announce_on addr) key) (sessions h) (take 3 keys)) h)
  end.

Definition discovery_notify (now : Z) : MD unit :=
  p ← gets (λ p, p);
  consensus_list ← gets (λ p, connected_consensus_peer (shared p));
  announced ← flush_sessions now (iter_order (map_to_list (sessions (handler p))));
  on_handler (λ h, queue_announces (consensus_list ++ announced) ((map_to_list (sessions h)).*1) h).
End discovery.
