(* ===== verification/DiscoveryProps.v ===== *)
(** * Correctness of the identify and discovery protocols

    Nothing is learnt from a peer of another chain or from a repeated identify
    message; what a node sends by discovery is accepted by the checks of the
    node that receives it. *)

From S2P Require Import Prelude Types Overlord NetAddr AddrManager PeerStore PeerManager.
From S2P Require Import NetService Protocols Identify Discovery.

Local Open Scope Z_scope.

(** ** Identify *)
Section identify.
Context `{!Tentacle} `{!IpNetworks} `{!Randomness} `{!Prost}.
Implicit Types (p : ProtoState IdentifyProtocol).

Lemma or_else_disconnect (a b : M (ProtoState IdentifyProtocol) NetworkError MisbehaveResult) p p' :
  a p = (p', Ok MR_Disconnect) → or_else a b p = (p', Ok MR_Disconnect).
Proof. intros Ha. unfold or_else. by rewrite (bind_ok _ _ _ _ _ Ha). Qed.
Lemma or_else_continue (a b : M (ProtoState IdentifyProtocol) NetworkError MisbehaveResult) p p' :
  a p = (p', Ok MR_Continue) → or_else a b p = b p'.
Proof. intros Ha. unfold or_else. by rewrite (bind_ok _ _ _ _ _ Ha). Qed.

Lemma check_duplicate_run session info p : remote_infos (handler p) !! sc_id session = Some info →
  check_duplicate session p =
    if has_received info then (p, Ok MR_Disconnect) else
    (mkProtoState (set_remote_infos (<[sc_id session := set_has_received info]> (remote_infos (handler p)))
       (handler p)) (shared p) (commands p), Ok MR_Continue).
Proof.
  intros Hi. unfold check_duplicate. rewrite bind_gets, Hi. cbn [unwrap]. rewrite bind_lift_ok.
  by destruct (has_received info).
Qed.

(** C35: Nothing is learnt from a peer of another chain, nor from a second
    identify message: the session is closed, no protocol is opened on it, and
    the peer manager, with its peer store, is unchanged. *)
Theorem identify_gate now_ms session info msg p :
  remote_infos (handler p) !! sc_id session = Some info → is_Some (id_addr_info msg) →
  has_received info = true ∨ id_chain_id msg ≠ pm_chain_id (shared p) →
  ∃ p', identify_received now_ms session (identity_encode msg) p = (p', Ok tt) ∧
    shared p' = shared p ∧ commands p' = commands p ++ [CloseSession (sc_id session)].
Proof.
  intros Hi [ai Hai] Hor. unfold identify_received. rewrite identity_decode_encode.
  destruct msg as [chain info']. cbn in *. subst info'.
  pose proof (check_duplicate_run session info p Hi) as Hdup. destruct (has_received info).
  { rewrite (bind_ok _ _ _ _ _ (or_else_disconnect _ _ _ _ Hdup)). cbn. eexists; split; [done|]. done. }
  destruct Hor as [?|Hchain]; [done|]. set (p1 := mkProtoState _ _ _) in Hdup.
  rewrite (bind_ok _ _ _ p1 MR_Disconnect); [eexists; split; [done|]; done|].
  rewrite (or_else_continue _ _ _ _ Hdup). apply or_else_disconnect.
  unfold received_identify. rewrite bind_gets. by rewrite decide_False.
Qed.
End identify.

(** ** Discovery *)
Section discovery.
Context `{!Tentacle} `{!IpNetworks} `{!Randomness} `{!Prost} `{!StableBloom}.
Implicit Types (p : ProtoState DiscoveryProtocol).

(** A command that sends no [Nodes] message the receiver would reject. *)
Definition acceptable (c : ProtoCommand) : Prop := ∀ id data nodes, c = SendTo id data →
  discovery_decode data = Some (mkDiscoveryMessage (Some (NodesP nodes))) → verify_nodes_message nodes = None.

Record discovery_inv p : Prop := {
  di_queues id st : sessions (handler p) !! id = Some st →
    (length (announce_multiaddrs st) ≤ ANNOUNCE_THRESHOLD)%nat;
  di_sent : Forall acceptable (commands p)
}.

Definition dkeeps {A} (op : M (ProtoState DiscoveryProtocol) NetworkError A) : Prop :=
  ∀ p, discovery_inv p → discovery_inv (op p).1.

Lemma dkeeps_bind {A B} (op : M _ NetworkError A) (k : A → M _ NetworkError B) :
  dkeeps op → (∀ x, dkeeps (k x)) → dkeeps (op ≫= k).
Proof.
  intros Hop Hk p Hp. unfold mbind, M_bind. specialize (Hop p Hp).
  destruct (op p) as [p1 [x| |]]; cbn in *; [|done..]. by apply Hk.
Qed.
(** With a fact about the value returned. *)
Definition dkeeps_post {A} (op : M (ProtoState DiscoveryProtocol) NetworkError A) (Q : A → Prop) : Prop :=
  ∀ p, discovery_inv p → discovery_inv (op p).1 ∧ ∀ x, (op p).2 = Ok x → Q x.
Lemma dkeeps_bind_post {A B} (op : M _ NetworkError A) (k : A → M _ NetworkError B) Q :
  dkeeps_post op Q → (∀ x, Q x → dkeeps (k x)) → dkeeps (op ≫= k).
Proof.
  intros Hop Hk p Hp. unfold mbind, M_bind. destruct (Hop p Hp) as [Hi Hx].
  destruct (op p) as [p1 [x| |]]; cbn in *; [|done..]. apply Hk; auto.
Qed.
Lemma dkeeps_then_ret {A B} (op : M _ NetworkError A) (y : B) (Q : B → Prop) :
  dkeeps op → Q y → dkeeps_post (op;; mret y) Q.
Proof.
  intros Hop Hy p Hp. specialize (Hop p Hp). unfold mbind, M_bind.
  destruct (op p) as [p1 [x| |]]; cbn in *; (split; [done|]); try done. by intros ? [= <-].
Qed.
Lemma dkeeps_bind_then {A B} (op : M _ NetworkError A) (k : M _ NetworkError B) Q :
  dkeeps op → dkeeps_post k Q → dkeeps_post (op;; k) Q.
Proof.
  intros Hop Hk p Hp. specialize (Hop p Hp). unfold mbind, M_bind.
  destruct (op p) as [p1 [x| |]]; cbn in *; [by apply Hk|done..].
Qed.
Lemma dkeeps_ret_post {A} (x : A) (Q : A → Prop) : Q x → dkeeps_post (mret x) Q.
Proof. intros Hx p Hp. split; [done|]. by intros ? [= <-]. Qed.
Lemma dkeeps_gets {A} (f : ProtoState DiscoveryProtocol → A) : dkeeps (gets f).
Proof. intros p Hp. exact Hp. Qed.
Lemma dkeeps_ret {A} (x : A) : dkeeps (mret x).
Proof. intros p Hp. exact Hp. Qed.
Lemma dkeeps_lift {A} (o : outcome NetworkError A) : dkeeps (lift o).
Proof. intros p Hp. exact Hp. Qed.
Lemma dkeeps_on_shared {A} (op : M PeerManager NetworkError A) : dkeeps (on_shared op).
Proof. intros p []. unfold on_shared, zoom. by destruct (op (shared p)). Qed.
Lemma dkeeps_try {A} (op : M _ NetworkError A) : dkeeps op → dkeeps (try op).
Proof. intros Hop p Hp. specialize (Hop p Hp). unfold try. by destruct (op p) as [p1 [x| |]]. Qed.
Lemma dkeeps_for_each {A} (f : A → M _ NetworkError unit) l : (∀ x, dkeeps (f x)) → dkeeps (for_each f l).
Proof. intros Hf. induction l; cbn; [apply dkeeps_ret|]. by apply dkeeps_bind. Qed.
Lemma dkeeps_set_state id st : (length (announce_multiaddrs st) ≤ ANNOUNCE_THRESHOLD)%nat → dkeeps (set_state id st).
Proof.
  intros Hst p [Hq Hs]. split; cbn; [|done]. intros id' st'. rewrite lookup_insert.
  case_decide; [by intros [= <-]|apply Hq].
Qed.
Lemma dkeeps_command c : acceptable c → dkeeps (command c).
Proof. intros Hc p [Hq Hs]. split; cbn; [done|]. apply Forall_app. by repeat constructor. Qed.

(** *** What may be sent *)
Lemma close_acceptable id : acceptable (CloseSession id).
Proof. by intros ???. Qed.
Lemma get_nodes_acceptable id v c port : acceptable (SendTo id (discovery_encode (new_get_nodes v c port))).
Proof. intros id' data nodes [= -> <-]. rewrite discovery_decode_encode. by intros [= ]. Qed.

(** One address per item, and no more items than the receiver allows. *)
Lemma nodes_acceptable id (ann : bool) (addrs : list Multiaddr) :
  (if ann then (length addrs ≤ ANNOUNCE_THRESHOLD)%nat else Z.of_nat (length addrs) ≤ MAX_ADDR_TO_SEND) →
  acceptable (SendTo id (discovery_encode (new_nodes ann ((λ addr, with_addrs [addr]) <$> addrs)))).
Proof.
  intros Hlen id' data nodes [= -> <-]. rewrite discovery_decode_encode. intros [= <-].
  unfold verify_nodes_message. cbn [items announce]. rewrite length_fmap.
  rewrite (proj2 (orb_false_iff _ _)).
  - rewrite filter_none; [done|]. intros x (a & -> & _)%list_elem_of_fmap. cbn. unfold DISCOVERY_MAX_ADDRS. lia.
  - destruct ann; cbn [andb negb]; split; try done; [apply Nat.ltb_ge|apply Z.ltb_ge]; lia.
Qed.
End discovery.

#[export] Hint Resolve dkeeps_gets dkeeps_ret dkeeps_lift dkeeps_on_shared dkeeps_try dkeeps_for_each
  dkeeps_command close_acceptable get_nodes_acceptable : axon.

(** Walks through a discovery handler, splitting on its tests. *)
Ltac dkeep_steps :=
  repeat first
    [ solve [auto with axon]
    | apply dkeeps_bind; [|intros ?]
    | apply dkeeps_for_each; intros ?
    | match goal with
      | |- dkeeps (match ?x with _ => _ end) => destruct x eqn:?
      | |- dkeeps (let _ := _ in _) => cbv zeta
      end ].

Section handlers.
Context `{!Tentacle} `{!IpNetworks} `{!Randomness} `{!Prost} `{!StableBloom}.

Lemma dkeeps_add_new_addrs now_ms addrs : dkeeps (add_new_addrs now_ms addrs).
Proof. unfold add_new_addrs. dkeep_steps. Qed.
Lemma dkeeps_get_random now_ms n : dkeeps (get_random now_ms n).
Proof. unfold get_random. dkeep_steps. Qed.
Lemma dkeeps_add_reuse now_ms addr : dkeeps (add_reuse_port_addr now_ms addr).
Proof. unfold add_reuse_port_addr. dkeep_steps. Qed.

Lemma choose_bound (c : Z) (l : list Multiaddr) :
  let max := Z.to_nat (Z.min MAX_ADDR_TO_SEND c) in
  Z.of_nat (length (if (max <? length l)%nat then choose_multiple max l else l)) ≤ MAX_ADDR_TO_SEND.
Proof.
  cbv zeta. assert (0 ≤ MAX_ADDR_TO_SEND) by done.
  destruct (_ <? _)%nat eqn:E; [rewrite choose_multiple_length|apply Nat.ltb_ge in E]; lia.
Qed.

Lemma dkeeps_answer now_ms session msg st :
  (length (announce_multiaddrs st) ≤ ANNOUNCE_THRESHOLD)%nat → dkeeps (answer_get_nodes now_ms session msg st).
Proof.
  intros Hst. unfold answer_get_nodes. cbv zeta.
  apply dkeeps_bind; [by apply dkeeps_set_state|intros _].
  apply dkeeps_bind; [apply dkeeps_get_random|intros items].
  set (Q := λ st', (length (announce_multiaddrs st') ≤ ANNOUNCE_THRESHOLD)%nat).
  apply (dkeeps_bind_post _ _ Q).
  { destruct (gn_listen_port msg ≫= listen_port) as [port|].
    - apply dkeeps_bind_then; [by apply dkeeps_set_state|].
      apply dkeeps_then_ret; [|done]. destruct (update_port _ _); [apply dkeeps_ret|apply dkeeps_add_new_addrs].
    - by apply dkeeps_ret_post. }
  intros st1 Hst1. apply (dkeeps_bind_post _ _ Q).
  { destruct (REUSE_PORT_VERSION <=? gn_version msg); [|by apply dkeeps_ret_post].
    apply dkeeps_bind_then; [by apply dkeeps_set_state|].
    apply dkeeps_then_ret; [apply dkeeps_add_reuse|done]. }
  intros st2 Hst2. apply dkeeps_bind; [by apply dkeeps_set_state|intros _].
  apply dkeeps_command, nodes_acceptable, choose_bound.
Qed.

Lemma dkeeps_accept now_ms session nodes st :
  (length (announce_multiaddrs st) ≤ ANNOUNCE_THRESHOLD)%nat → dkeeps (accept_nodes now_ms session nodes st).
Proof.
  intros Hst. unfold accept_nodes, misbehave. destruct (_ && _); [auto with axon|].
  apply dkeeps_bind; [|intros _; apply dkeeps_add_new_addrs]. apply dkeeps_set_state.
  by destruct (negb (announce nodes)).
Qed.

(** A session's state, read under the invariant. *)
Lemma dkeeps_gets_session {B} id (k : option SessionState → M _ NetworkError B) :
  (∀ o, (∀ st, o = Some st → (length (announce_multiaddrs st) ≤ ANNOUNCE_THRESHOLD)%nat) → dkeeps (k o)) →
  dkeeps (gets (λ p, sessions (handler p) !! id) ≫= k).
Proof. intros Hk p Hp. rewrite bind_gets. apply Hk; [|done]. intros st Hst. by eapply di_queues. Qed.

Lemma dkeeps_received now_ms session data : dkeeps (discovery_received now_ms session data).
Proof.
  unfold discovery_received, misbehave.
  destruct (discovery_decode data) as [[[[msg|nodes]|]]|]; [| |auto with axon..].
  - apply dkeeps_gets_session. intros [st|] Hst; [|auto with axon].
    destruct (received_get_nodes st); [auto with axon|]. by apply dkeeps_answer, Hst.
  - destruct (verify_nodes_message nodes); [auto with axon|].
    apply dkeeps_gets_session. intros [st|] Hst; [|auto with axon]. by apply dkeeps_accept, Hst.
Qed.

Lemma dkeeps_connected listens session : dkeeps (discovery_connected listens session).
Proof.
  unfold discovery_connected. apply dkeeps_bind; [unfold disc_register, session_peer; dkeep_steps|intros _].
  apply (dkeeps_bind_post _ _ (λ st, (length (announce_multiaddrs st) ≤ ANNOUNCE_THRESHOLD)%nat)).
  - unfold SessionState_new. intros p Hp. rewrite bind_gets. generalize (handler p). intros h. revert p Hp. destruct (is_outbound _).
    + apply dkeeps_then_ret; [auto with axon|cbn; lia].
    + apply dkeeps_ret_post. cbn. lia.
  - intros st Hst. by apply dkeeps_set_state.
Qed.
Lemma dkeeps_disconnected session : dkeeps (discovery_disconnected session).
Proof.
  unfold discovery_disconnected, disc_unregister, session_peer. apply dkeeps_bind; [|intros _; dkeep_steps].
  intros p [Hq Hs]. split; cbn; [|done]. intros id st. rewrite lookup_delete. case_decide; [done|apply Hq].
Qed.

Lemma dkeeps_flush now l : (∀ id st, (id, st) ∈ l → (length (announce_multiaddrs st) ≤ ANNOUNCE_THRESHOLD)%nat) →
  dkeeps (flush_sessions now l).
Proof.
  induction l as [|[id st] l IH]; intros Hl; cbn [flush_sessions]; [auto with axon|].
  assert (Hst : (length (announce_multiaddrs st) ≤ ANNOUNCE_THRESHOLD)%nat) by (eapply Hl; left).
  apply (dkeeps_bind_post _ _ (λ st', announce_multiaddrs st' = [])).
  { unfold send_messages. destruct (announce_multiaddrs st) as [|a q] eqn:Hq; [by apply dkeeps_ret_post|].
    apply dkeeps_then_ret; [|done]. by apply dkeeps_command, (nodes_acceptable id true). }
  intros st' Hst'. destruct (check_timer now ANNOUNCE_INTERVAL st') as [st'' addr] eqn:Hc.
  apply dkeeps_bind; [apply dkeeps_set_state|intros _].
  { unfold check_timer in Hc. case_match; simplify_eq; cbn; rewrite Hst'; cbn; lia. }
  apply dkeeps_bind; [apply dkeeps_gets|intros h]. apply dkeeps_bind; [|intros; apply dkeeps_ret].
  apply IH. intros id' st0 Hin. eapply Hl. by right.
Qed.

Lemma announce_on_bound addr st : (length (announce_multiaddrs st) ≤ ANNOUNCE_THRESHOLD)%nat →
  (length (announce_multiaddrs (announce_on addr st)) ≤ ANNOUNCE_THRESHOLD)%nat.
Proof.
  unfold announce_on. destruct (_ <? _)%nat eqn:E; [|done]. destruct (negb _); cbn; [|done].
  rewrite length_app. cbn. apply Nat.ltb_lt in E. lia.
Qed.

Definition queues_bounded (h : DiscoveryProtocol) : Prop := ∀ id st, sessions h !! id = Some st →
  (length (announce_multiaddrs st) ≤ ANNOUNCE_THRESHOLD)%nat.

Lemma queue_announces_bounded addrs : ∀ keys h, queues_bounded h → queues_bounded (queue_announces addrs keys h).
Proof.
  induction addrs as [|addr addrs IH]; intros keys h Hh; [done|]. cbn [queue_announces]. apply IH.
  induction (take 3 (iter_order keys)) as [|k ks IHk]; [done|]. intros id st. cbn. rewrite lookup_alter.
  case_decide; [|apply IHk]. intros (st0 & Hst0 & ->)%fmap_Some. apply announce_on_bound. by eapply IHk.
Qed.

Lemma dkeeps_notify now : dkeeps (discovery_notify now).
Proof.
  intros p Hp. unfold discovery_notify. rewrite !bind_gets.
  assert (Hf : dkeeps (flush_sessions now (iter_order (map_to_list (sessions (handler p)))))).
  { apply dkeeps_flush. intros id st. rewrite iter_order_perm, elem_of_map_to_list. by apply di_queues. }
  specialize (Hf p Hp). unfold mbind, M_bind. destruct (flush_sessions _ _ p) as [p1 [l| |]]; cbn in *; [|done..].
  destruct Hf as [Hq Hs]. split; cbn; [|done]. by apply queue_announces_bounded.
Qed.

(** ** Histories *)
Inductive discovery_event : Type :=
| DiscConnected (listens : list Multiaddr) (session : SessionContext)
| DiscDisconnected (session : SessionContext)
| DiscReceived (now_ms : Z) (session : SessionContext) (data : bytes)
| DiscNotify (now : Z).

Definition run_discovery (e : discovery_event) : M (ProtoState DiscoveryProtocol) NetworkError unit :=
  match e with
  | DiscConnected listens session => discovery_connected listens session
  | DiscDisconnected session => discovery_disconnected session
  | DiscReceived now_ms session data => discovery_received now_ms session data
  | DiscNotify now => discovery_notify now
  end.
Definition run_discoveries (l : list discovery_event) (p : ProtoState DiscoveryProtocol)
    : ProtoState DiscoveryProtocol := fold_left (λ p e, (run_discovery e p).1) l p.

Lemma dkeeps_run_discovery e : dkeeps (run_discovery e).
Proof.
  destruct e; [apply dkeeps_connected|apply dkeeps_disconnected|apply dkeeps_received|apply dkeeps_notify].
Qed.

(** A node that runs this protocol never sends a message that another node
    running it takes for a misbehaviour: in every history, each [Nodes] message
    sent, the answer to a [GetNodes] message or an announcement, passes
    [verify_nodes_message], and no session has more than
    [ANNOUNCE_THRESHOLD] announcements waiting. *)
Theorem honest_messages_verified l m :
  let p := run_discoveries l (mkProtoState DiscoveryProtocol_new m []) in
  (∀ id st, sessions (handler p) !! id = Some st → (length (announce_multiaddrs st) ≤ ANNOUNCE_THRESHOLD)%nat) ∧
  ∀ id data nodes, SendTo id data ∈ commands p →
    discovery_decode data = Some (mkDiscoveryMessage (Some (NodesP nodes))) → verify_nodes_message nodes = None.
Proof.
  assert (Hinit : discovery_inv (mkProtoState DiscoveryProtocol_new m [])) by (split; cbn; [done|constructor]).
  assert (Hgen : ∀ p, discovery_inv p → discovery_inv (run_discoveries l p)).
  { unfold run_discoveries. induction l as [|e l IH]; intros p Hp; [done|]. cbn. by apply IH, dkeeps_run_discovery. }
  destruct (Hgen _ Hinit) as [Hq Hs]. split; [done|]. intros id data nodes Hin Hdec.
  rewrite Forall_forall in Hs. by eapply Hs.
Qed.
End handlers.

(** ** Examples *)
Section examples.
#[local] Existing Instances plain_tentacle plain_networks plain_randomness bits_prost.

Definition ex_remote_id : PeerId := [x05].
Definition ex_local_id : PeerId := [x00].
Definition ex_remote : SessionContext := mkSessionContext 7 (V4 5, 80, Some [x05]) Outbound.
Definition ex_identify : ProtoState IdentifyProtocol :=
  mkProtoState (mkIdentifyProtocol {[7 := mkRemoteInfo ex_remote_id ex_remote 0 DEFAULT_TIMEOUT false]} true)
    (mkPeerManager Online_default (PeerStore_new Manager_default BanList_new) ∅ "axon" ∅
       (mkNetworkConfig 40 20 ex_local_id []) ∅) [].

Lemma identify_gate_witness : ∃ p',
  identify_received 0 ex_remote (identity_encode (mkIdentity "other" (Some (mkAddressInfo [] [])))) ex_identify
    = (p', Ok tt) ∧ shared p' = shared ex_identify ∧ commands p' = [CloseSession 7].
Proof.
  apply (identify_gate 0 ex_remote (mkRemoteInfo ex_remote_id ex_remote 0 DEFAULT_TIMEOUT false)
    (mkIdentity "other" (Some (mkAddressInfo [] []))) ex_identify); [reflexivity|by eexists|right; discriminate].
Defined.

(** A peer connects and asks for nodes; it is answered. *)
#[local] Instance list_bloom : StableBloom := {|
  BloomFilter := list Multiaddr;
  bloom_new := λ _, [];
  bloom_insert := cons;
  bloom_contains := λ a l, bool_decide (a ∈ l) |}.
Definition ex_history : list discovery_event :=
  [DiscConnected [] (mkSessionContext 7 (V4 5, 80, Some [x05]) Inbound);
   DiscReceived 0 (mkSessionContext 7 (V4 5, 80, Some [x05]) Inbound) (discovery_encode (new_get_nodes 0 1000 None))].
Lemma honest_messages_verified_witness :
  let p := run_discoveries ex_history (mkProtoState DiscoveryProtocol_new (shared ex_identify) []) in
  length (commands p) = 1%nat ∧
  ∀ id data nodes, SendTo id data ∈ commands p →
    discovery_decode data = Some (mkDiscoveryMessage (Some (NodesP nodes))) → verify_nodes_message nodes = None.
Proof.
  split; [by vm_compute|]. exact (proj2 (honest_messages_verified ex_history (shared ex_identify))).
Defined.
End examples.
