(* ===== verification/Numbers.v ===== *)
(** * Numbers and text

    What the code uses of the standard library: of [u64] and strings
    [to_string], the [{:x}] format, [from_str] and [from_str_radix], a string
    being the list of its characters; and [String::from_utf8] and
    [String::from_utf8_lossy], where a byte string is cut into characters and
    maximal invalid pieces, and the lossy conversion replaces each piece by
    U+FFFD. *)

From Stdlib Require Import Ascii.
From S2P Require Import Prelude.

Local Open Scope Z_scope.

Abbreviation chars := (list ascii).
Definition chars_of (s : string) : chars := String.list_ascii_of_string s.

(** The digit of a value below sixteen, in lower case. *)
Definition digit (d : Z) : ascii := ascii_of_N (Z.to_N (if d <? 10 then 48 + d else 87 + d)).

(** [char::to_digit]: letters of either case. *)
Definition digit_value (radix : Z) (c : ascii) : option Z :=
  let n := Z.of_N (N_of_ascii c) in
  let d := if (48 <=? n) && (n <=? 57) then n - 48
           else if (97 <=? n) && (n <=? 122) then n - 87
           else if (65 <=? n) && (n <=? 90) then n - 55
           else radix in
  if d <? radix then Some d else None.

(** [z.to_string()], [format!("{:x}", z)]; the fuel bounds the digits. *)
Fixpoint digits (radix : Z) (fuel : nat) (z : Z) : chars :=
  match fuel with
  | O => []
  | S fuel' =>
      if z <? radix then [digit z] else digits radix fuel' (z / radix) ++ [digit (z mod radix)]
  end.
(** A [u64] has at most twenty decimal and sixteen hexadecimal digits. *)
Definition u64_to_string (z : Z) : chars := digits 10 20 z.
Definition u64_to_hex (z : Z) : chars := digits 16 16 z.

(** One step of [u64::from_str_radix]: overflow is an error. *)
Definition push_digit (radix : Z) (acc : option Z) (c : ascii) : option Z :=
  a ← acc; d ← digit_value radix c;
  if a * radix + d <? 2 ^ 64 then Some (a * radix + d) else None.
Definition parse_digits (radix : Z) (l : chars) : option Z :=
  match l with [] => None | _ => fold_left (push_digit radix) l (Some 0) end.
(** A leading [+] is accepted. *)
Definition from_str_radix (l : chars) (radix : Z) : option Z :=
  match l with
  | c :: l' => if decide (c = "+"%char) then parse_digits radix l' else parse_digits radix l
  | [] => None
  end.
Definition parse_u64 (l : chars) : option Z := from_str_radix l 10.

(** [s.starts_with(pat)] *)
Fixpoint starts_with (pat s : chars) : bool :=
  match pat, s with
  | [], _ => true
  | p :: pat', c :: s' => bool_decide (p = c) && starts_with pat' s'
  | _ :: _, [] => false
  end.

(** ** Lemmas *)
Lemma small_digit d : 0 ≤ d < 16 → d ∈ [0; 1; 2; 3; 4; 5; 6; 7; 8; 9; 10; 11; 12; 13; 14; 15].
Proof.
  intros Hd. rewrite !elem_of_cons.
  assert (d = 0 ∨ d = 1 ∨ d = 2 ∨ d = 3 ∨ d = 4 ∨ d = 5 ∨ d = 6 ∨ d = 7 ∨ d = 8 ∨ d = 9 ∨ d = 10 ∨ d = 11 ∨
    d = 12 ∨ d = 13 ∨ d = 14 ∨ d = 15) by lia. tauto.
Qed.

Lemma digit_value_digit radix d : 0 ≤ d < radix → radix ≤ 16 → digit_value radix (digit d) = Some d.
Proof.
  intros Hd Hr. transitivity (if d <? radix then Some d else None); [|by rewrite (proj2 (Z.ltb_lt _ _)) by lia].
  pose proof (small_digit d ltac:(lia)) as Hs. rewrite !elem_of_cons in Hs.
  by repeat (destruct Hs as [-> | Hs]; [reflexivity|]); apply not_elem_of_nil in Hs.
Qed.

Section radix.
Context (radix : Z) (Hradix : 2 ≤ radix ≤ 16).

Lemma digits_parse fuel : ∀ z, 0 ≤ z < radix ^ Z.of_nat fuel → z < 2 ^ 64 →
  fold_left (push_digit radix) (digits radix fuel z) (Some 0) = Some z.
Proof.
  induction fuel as [|fuel IH]; intros z Hz Hw; cbn [digits]; [cbn in Hz; cbn; f_equal; lia|].
  destruct (z <? radix) eqn:E.
  - cbn [fold_left]. unfold push_digit. cbn [mbind option_bind]. rewrite digit_value_digit by lia. cbn.
    rewrite (proj2 (Z.ltb_lt _ _)) by lia. done.
  - pose proof (Z.mod_pos_bound z radix ltac:(lia)). pose proof (Z.div_mod z radix ltac:(lia)).
    rewrite fold_left_app, IH; cbn [fold_left].
    + unfold push_digit. cbn [mbind option_bind]. rewrite digit_value_digit by lia. cbn.
      rewrite (proj2 (Z.ltb_lt _ _)) by lia. f_equal. lia.
    + split; [apply Z.div_pos; lia|]. apply Z.div_lt_upper_bound; [lia|].
      rewrite Nat2Z.inj_succ, Z.pow_succ_r in Hz by lia. lia.
    + pose proof (Z.div_le_upper_bound z radix z ltac:(lia)). nia.
Qed.

(** No digit is a slash or a plus sign. *)
Definition plain_char (c : ascii) : Prop := c ≠ "/"%char ∧ c ≠ "+"%char.

Lemma digit_plain d : 0 ≤ d < radix → plain_char (digit d).
Proof.
  intros Hd. pose proof (small_digit d ltac:(lia)) as Hs. rewrite !elem_of_cons in Hs.
  by repeat (destruct Hs as [-> | Hs]; [by vm_compute|]); apply not_elem_of_nil in Hs.
Qed.

Lemma digits_plain fuel z : 0 ≤ z → Forall plain_char (digits radix fuel z).
Proof.
  revert z. induction fuel as [|fuel IH]; intros z Hz; cbn [digits]; [constructor|].
  destruct (z <? radix) eqn:E; [constructor; [apply digit_plain; lia|constructor]|].
  apply Forall_app. split; [apply IH, Z.div_pos; lia|].
  constructor; [apply digit_plain, Z.mod_pos_bound; lia|constructor].
Qed.

Lemma digits_nonempty fuel z : digits radix (S fuel) z ≠ [].
Proof. cbn. destruct (z <? radix); [done|]. by destruct (digits radix fuel (z / radix)). Qed.

Lemma length_digits fuel z : (length (digits radix fuel z) ≤ fuel)%nat.
Proof.
  revert z. induction fuel as [|fuel IH]; intros z; cbn; [done|]. destruct (z <? radix); cbn; [lia|].
  rewrite length_app. cbn. specialize (IH (z / radix)). lia.
Qed.

Lemma parse_plain l z : l ≠ [] → Forall plain_char l →
  fold_left (push_digit radix) l (Some 0) = Some z → from_str_radix l radix = Some z.
Proof.
  intros Hne Hp Hf. destruct l as [|c l]; [done|]. inversion Hp as [|?? [_ Hc] _]; subst.
  unfold from_str_radix. rewrite decide_False by done. exact Hf.
Qed.

(** Printing and parsing a [u64]. *)
Lemma parse_print fuel z : 0 ≤ z < 2 ^ 64 → z < radix ^ Z.of_nat (S fuel) →
  from_str_radix (digits radix (S fuel) z) radix = Some z.
Proof.
  intros Hz Hf. apply parse_plain; [apply digits_nonempty|apply digits_plain; lia|apply digits_parse; lia].
Qed.
End radix.

Lemma parse_u64_to_string z : 0 ≤ z < 2 ^ 64 → parse_u64 (u64_to_string z) = Some z.
Proof. intros Hz. apply parse_print; [lia|lia|]. cbn. lia. Qed.
Lemma parse_u64_to_hex z : 0 ≤ z < 2 ^ 64 → from_str_radix (u64_to_hex z) 16 = Some z.
Proof. intros Hz. apply parse_print; [lia|lia|]. cbn. lia. Qed.

Definition in_range (lo hi : Z) (b : byte) : bool := (lo <=? Z_of_byte b) && (Z_of_byte b <=? hi).
Definition continuation : byte → bool := in_range 0x80 0xbf.

(** The byte that may follow the first byte of a three or four byte character. *)
Definition second3 (b c : byte) : bool :=
  (in_range 0xe0 0xe0 b && in_range 0xa0 0xbf c) || (in_range 0xe1 0xec b && in_range 0x80 0xbf c) ||
  (in_range 0xed 0xed b && in_range 0x80 0x9f c) || (in_range 0xee 0xef b && in_range 0x80 0xbf c).
Definition second4 (b c : byte) : bool :=
  (in_range 0xf0 0xf0 b && in_range 0x90 0xbf c) || (in_range 0xf1 0xf3 b && in_range 0x80 0xbf c) ||
  (in_range 0xf4 0xf4 b && in_range 0x80 0x8f c).

(** The first piece of a non-empty string: whether it is a character, and its
    length.  A byte past the end reads as zero. *)
Definition next_piece (b : byte) (l : bytes) : bool * nat :=
  let at_ i := default x00 (l !! i) in
  if in_range 0 0x7f b then (true, 1%nat)
  else if in_range 0xc2 0xdf b then
    if continuation (at_ 0%nat) then (true, 2%nat) else (false, 1%nat)
  else if in_range 0xe0 0xef b then
    if negb (second3 b (at_ 0%nat)) then (false, 1%nat)
    else if negb (continuation (at_ 1%nat)) then (false, 2%nat) else (true, 3%nat)
  else if in_range 0xf0 0xf4 b then
    if negb (second4 b (at_ 0%nat)) then (false, 1%nat)
    else if negb (continuation (at_ 1%nat)) then (false, 2%nat)
    else if negb (continuation (at_ 2%nat)) then (false, 3%nat) else (true, 4%nat)
  else (false, 1%nat).

(** The pieces of a string; every piece takes at least one byte, so the length
    is enough fuel. *)
Fixpoint pieces (fuel : nat) (l : bytes) : list (bool * bytes) :=
  match fuel, l with
  | S fuel', b :: l' =>
      let '(ok, n) := next_piece b l' in (ok, take n l) :: pieces fuel' (drop n l)
  | _, _ => []
  end.
Definition utf8_pieces (l : bytes) : list (bool * bytes) := pieces (length l) l.

Definition REPLACEMENT : bytes := [byte_of_Z 0xef; byte_of_Z 0xbf; byte_of_Z 0xbd].
Definition from_utf8_lossy (l : bytes) : bytes :=
  concat ((λ '(ok, piece), if ok : bool then piece else REPLACEMENT) <$> utf8_pieces l).
Definition is_utf8 (l : bytes) : bool := forallb fst (utf8_pieces l).
Definition from_utf8 (l : bytes) : option bytes := if is_utf8 l then Some l else None.

(** The pieces put together are the string. *)
Lemma pieces_concat fuel l : (length l ≤ fuel)%nat → concat (snd <$> pieces fuel l) = l.
Proof.
  revert l. induction fuel as [|fuel IH]; intros l Hl; [destruct l; [done|cbn in Hl; lia]|].
  destruct l as [|b l]; [done|]. cbn [pieces].
  assert (∃ n, (next_piece b l).2 = S n) as [n Hn].
  { unfold next_piece. cbv zeta. repeat case_match; cbn; eauto. }
  destruct (next_piece b l) as [ok k]. cbn in Hn. subst k. cbn [fmap list_fmap concat snd].
  rewrite IH by (rewrite length_drop; cbn in *; lia). apply take_drop.
Qed.

(** On valid text the lossy conversion loses nothing. *)
Lemma from_utf8_lossy_id l : is_utf8 l = true → from_utf8_lossy l = l.
Proof.
  unfold is_utf8, from_utf8_lossy, utf8_pieces. intros Hv. rewrite <-(pieces_concat (length l) l) at 3 by done.
  f_equal. induction (pieces (length l) l) as [|[ok piece] ps IH]; [done|]. cbn in *.
  apply andb_prop in Hv as [-> Hv]. by rewrite (IH Hv).
Qed.
