(* ===== verification/Endpoint.v ===== *)
(** * Endpoints

    [core/network/src/endpoint.rs]: the URL of a message,
    [/scheme/name/method] with, for an RPC, a fourth component that is the
    RPC's number. *)

From Stdlib Require Import Ascii.
From S2P Require Import Prelude Types Overlord NetAddr Numbers.

Local Open Scope Z_scope.

Definition slash : ascii := "/".

(** ** Strings *)
(** [s.split('/').filter(|comp| !comp.is_empty())], the current component in
    [cur] *)
Fixpoint split_comps (cur s : chars) : list chars :=
  match s with
  | [] => match cur with [] => [] | _ => [cur] end
  | c :: s' =>
      if decide (c = slash) then match cur with [] => split_comps [] s' | _ => cur :: split_comps [] s' end
      else split_comps (cur ++ [c]) s'
  end.
Definition comps (s : chars) : list chars := split_comps [] s.

(** What follows the last slash, if there is one. *)
Fixpoint after_last_slash (s : chars) : option chars :=
  match s with
  | [] => None
  | c :: s' =>
      match after_last_slash s' with
      | Some r => Some r
      | None => if decide (c = slash) then Some s' else None
      end
  end.

(** [s.trim_start_matches('/')] *)
Fixpoint trim_start (s : chars) : chars :=
  match s with
  | c :: s' => if decide (c = slash) then trim_start s' else s
  | [] => []
  end.

(** ** [Endpoint] *)
Definition GOSSIP_SCHEME : chars := chars_of "/gossip".
Definition RPC_CALL_SCHEME : chars := chars_of "/rpc_call".
Definition RPC_RESPONSE_SCHEME : chars := chars_of "/rpc_resp".
Definition MAX_ENDPOINT_LENGTH : nat := 120.

Inductive EndpointScheme : Type := Gossip | RpcCall | RpcResponseScheme.

Record Endpoint := mkEndpoint { full_url : chars }.

(** [unreachable!()] in the last case *)
Definition scheme (e : Endpoint) : outcome NetworkError EndpointScheme :=
  if starts_with GOSSIP_SCHEME (full_url e) then Ok Gossip
  else if starts_with RPC_CALL_SCHEME (full_url e) then Ok RpcCall
  else if starts_with RPC_RESPONSE_SCHEME (full_url e) then Ok RpcResponseScheme
  else Panic.

(** Indexing [comps[2]] panics when there are fewer components. *)
Definition root (e : Endpoint) : outcome NetworkError chars :=
  match comps (full_url e) with
  | c0 :: c1 :: c2 :: _ => Ok (slash :: c0 ++ slash :: c1 ++ slash :: c2)
  | _ => Panic
  end.

(** [FromStr] *)
Definition parse_endpoint (s : chars) : outcome NetworkError Endpoint :=
  if bool_decide (s = []) || (MAX_ENDPOINT_LENGTH <? length s)%nat then Err NotEndpoint
  else if negb (starts_with GOSSIP_SCHEME s) && negb (starts_with RPC_CALL_SCHEME s) &&
          negb (starts_with RPC_RESPONSE_SCHEME s)
  then Err (UnexpectedScheme (String.string_of_list_ascii s))
  else let n := length (comps s) in
       if (n <? 3)%nat || (4 <? n)%nat then Err NotEndpoint else Ok (mkEndpoint s).

Definition extend (e : Endpoint) (comp : chars) : outcome NetworkError Endpoint :=
  parse_endpoint (full_url e ++ slash :: trim_start comp).

(** ** [RpcEndpoint] *)
Record RpcEndpoint := mkRpcEndpoint { rpc_end : Endpoint; rpc_rid : Z }.

Definition extract_rpc_id_from (e : Endpoint) : outcome NetworkError Z :=
  match after_last_slash (full_url e) with
  | None | Some [] => Err NotEndpoint
  | Some rid => ok_or (parse_u64 rid) (NE_Internal NotIdString)
  end.

(** [TryFrom<Endpoint>] *)
Definition RpcEndpoint_try_from (e : Endpoint) : outcome NetworkError RpcEndpoint :=
  rid ← extract_rpc_id_from e; Ok (mkRpcEndpoint e rid).

(** [FromStr] *)
Definition parse_rpc_endpoint (s : chars) : outcome NetworkError RpcEndpoint :=
  e ← parse_endpoint s;
  if negb (starts_with RPC_CALL_SCHEME (full_url e)) && negb (starts_with RPC_RESPONSE_SCHEME (full_url e))
  then r ← root e; Err (UnexpectedScheme (String.string_of_list_ascii r))
  else RpcEndpoint_try_from e.

(** ** Lemmas: decimal numbers *)
