(* ===== verification/Router.v ===== *)
(** * Messages, RPC and gossip

    [core/network/src/message/mod.rs], [reactor/] (the router and the table of
    pending RPCs), [rpc.rs] and [outbound/] (RPC calls and responses, gossip).
    The asynchronous [call] is two operations, up to its [await] and after it;
    the one-shot channels it waits on are part of the state. *)

From S2P Require Import Prelude Types Overlord NetAddr AddrManager PeerStore PeerManager Numbers.
From S2P Require Import Endpoint.

Local Open Scope Z_scope.

(** ** [message/mod.rs] *)
Record NetworkMessage := mkNetworkMessage {
  nm_headers : gmap string bytes;
  nm_url : chars;
  nm_content : bytes
}.

(** The [prost] codec of a message, and the trace ids of the tracer, which print
    to a string and are parsed back. *)
Class NetworkCodec := {
  nm_encode : NetworkMessage → bytes;
  nm_decode : bytes → option NetworkMessage;
  nm_decode_encode msg : nm_decode (nm_encode msg) = Some msg
}.
Class Tracer := {
  TraceId : Type;
  trace_to_string : TraceId → bytes;
  trace_is_utf8 t : is_utf8 (trace_to_string t) = true;
  str_to_trace : bytes → option TraceId;
  str_to_trace_to_string t : str_to_trace (trace_to_string t) = Some t
}.

Inductive Priority : Type := High | Normal.

(** ** [rpc.rs] *)
Inductive RpcResponse : Type := Success (data : bytes) | RpcError (msg : bytes).
Definition RpcResponse_encode (r : RpcResponse) : bytes :=
  match r with Success data => x00 :: data | RpcError msg => x01 :: msg end.

(** The decoding in [react] *)
Definition RpcResponse_decode (content : bytes) : RpcResponse :=
  match content with
  | b :: raw => if decide (b = x00) then Success raw else RpcError (from_utf8_lossy raw)
  | [] => RpcError (String.list_byte_of_string "empty message")
  end.

Section router.
Context `{!Tentacle} `{!NetworkCodec} `{!Tracer}.

(** ** [traits.rs]: what the network puts in a [Context] *)
Record NetContext := mkNetContext {
  nc_session_id : option Z;
  nc_remote_peer_id : option PeerId;
  nc_rpc_id : option Z;
  nc_url : option chars;
  nc_span : option (TraceId * Z)
}.
Definition ctx_session_id (cx : NetContext) : outcome NetworkError Z :=
  ok_or (nc_session_id cx) (NE_Internal NoSessionId).
Definition ctx_rpc_id (cx : NetContext) : outcome NetworkError Z :=
  ok_or (nc_rpc_id cx) (NE_Internal NoRpcId).
Definition set_rpc_id (rid : Z) (cx : NetContext) : NetContext :=
  mkNetContext (nc_session_id cx) (nc_remote_peer_id cx) (Some rid) (nc_url cx) (nc_span cx).
Definition set_url (url : chars) (cx : NetContext) : NetContext :=
  mkNetContext (nc_session_id cx) (nc_remote_peer_id cx) (nc_rpc_id cx) (Some url) (nc_span cx).

(** *** Headers *)
Definition span_headers (cx : NetContext) : gmap string bytes :=
  match nc_span cx with
  | Some (trace, span) => <["span_id" := to_be_bytes 8 span]> {["trace_id" := trace_to_string trace]}
  | None => ∅
  end.

(** [trace_id()]: the parse of the string is unwrapped. *)
Definition msg_trace_id (m : NetworkMessage) : outcome NetworkError (option TraceId) :=
  match nm_headers m !! "trace_id" ≫= from_utf8 with
  | Some s => t ← unwrap (str_to_trace s); Ok (Some t)
  | None => Ok None
  end.
(** [span_id()]: slicing eight bytes of a shorter header panics. *)
Definition msg_span_id (m : NetworkMessage) : outcome NetworkError (option Z) :=
  match nm_headers m !! "span_id" with
  | Some id => if (length id <? 8)%nat then Panic else Ok (Some (from_be_bytes (take 8 id)))
  | None => Ok None
  end.

Definition decode_message (data : bytes) : outcome NetworkError NetworkMessage :=
  ok_or (nm_decode data) (NE_Internal BadMessage).

(** ** The router *)
(** A registered handler: what [M::decode_msg] says of a content. *)
Record Reactor := mkReactor { rx_decode : bytes → outcome NetworkError unit }.

(** A one-shot channel. *)
Inductive Channel : Type := Pending | Done (r : RpcResponse) | Canceled.

Record MessageRouter := mkMessageRouter {
  reactor_map : gmap chars Reactor;
  rm_next_id : Z;
  rm_map : gmap (Z * Z) nat;
  channels : list Channel;
  sent : list (Z * Priority * bytes);
  delivered : list (chars * NetContext * bytes)
}.
Definition MessageRouter_new : MessageRouter := mkMessageRouter ∅ 0 ∅ [] [] [].
Definition set_reactor_map v r :=
  mkMessageRouter v (rm_next_id r) (rm_map r) (channels r) (sent r) (delivered r).
Definition set_rm_next_id v r :=
  mkMessageRouter (reactor_map r) v (rm_map r) (channels r) (sent r) (delivered r).
Definition set_rm_map v r :=
  mkMessageRouter (reactor_map r) (rm_next_id r) v (channels r) (sent r) (delivered r).
Definition set_channels v r :=
  mkMessageRouter (reactor_map r) (rm_next_id r) (rm_map r) v (sent r) (delivered r).
Definition set_sent v r :=
  mkMessageRouter (reactor_map r) (rm_next_id r) (rm_map r) (channels r) v (delivered r).
Definition set_delivered v r :=
  mkMessageRouter (reactor_map r) (rm_next_id r) (rm_map r) (channels r) (sent r) v.

Abbreviation MR := (M MessageRouter NetworkError).

(** *** [rpc_map.rs] *)
Definition next_rpc_id : MR Z :=
  id ← gets rm_next_id; modify (set_rm_next_id (wrap64 (id + 1)));; mret id.

(** Dropping a sender cancels its channel if nothing was sent. *)
Definition drop_sender (chan : nat) (r : MessageRouter) : MessageRouter :=
  match channels r !! chan with
  | Some Pending => set_channels (<[chan := Canceled]> (channels r)) r
  | _ => r
  end.

(** A sender that the key already had is dropped. *)
Definition rpc_insert (sid rid : Z) : MR nat :=
  old ← gets (λ r, rm_map r !! (sid, rid));
  chan ← gets (λ r, length (channels r));
  modify (λ r, set_channels (channels r ++ [Pending]) r);;
  modify (λ r, set_rm_map (<[(sid, rid) := chan]> (rm_map r)) r);;
  (match old with Some c => modify (drop_sender c) | None => mret tt end);;
  mret chan.

Definition rpc_contains (sid rid : Z) (r : MessageRouter) : bool :=
  bool_decide (is_Some (rm_map r !! (sid, rid))).

Definition rpc_take (sid rid : Z) : MR nat :=
  chan ← gets (λ r, rm_map r !! (sid, rid));
  chan ← lift (ok_or chan (NE_Internal (UnknownRpc sid rid)));
  modify (λ r, set_rm_map (delete (sid, rid) (rm_map r)) r);;
  mret chan.

(** *** Registration *)
Definition register_reactor (e : Endpoint) (reactor : Reactor) : MR unit :=
  key ← lift (root e); modify (λ r, set_reactor_map (<[key := reactor]> (reactor_map r)) r).

Definition register_endpoint_handler (s : chars) (reactor : Reactor) : MR unit :=
  e ← lift (parse_endpoint s);
  sch ← lift (scheme e);
  match sch with
  | RpcResponseScheme => throw (UnexpectedScheme "use register_rpc_response() instead")
  | _ => register_reactor e reactor
  end.

(** Anything decodes as [Bytes] for the reactor of responses. *)
Definition register_rpc_response (s : chars) : MR unit :=
  e ← lift (parse_endpoint s);
  sch ← lift (scheme e);
  match sch with
  | RpcResponseScheme => register_reactor e (mkReactor (λ _, Ok tt))
  | _ => throw (UnexpectedScheme (String.string_of_list_ascii s))
  end.

(** *** [react] and [route_message] *)
Record RemotePeer := mkRemotePeer { rp_session_id : Z; rp_peer_id : PeerId }.

Definition deliver (e : Endpoint) (cx : NetContext) (content : bytes) : MR unit :=
  modify (λ r, set_delivered (delivered r ++ [(full_url e, cx, content)]) r).

(** The feedback of the handler is dropped ([_feedback]). *)
Definition react (peer : RemotePeer) (reactor : Reactor) (e : Endpoint) (m : NetworkMessage) : MR unit :=
  trace ← lift (msg_trace_id m);
  span ← lift (msg_span_id m);
  let cx := mkNetContext (Some (rp_session_id peer)) (Some (rp_peer_id peer)) None None
              (match trace, span with Some t, Some s => Some (t, s) | _, _ => None end) in
  sch ← lift (scheme e);
  match sch with
  | Gossip =>
      lift (rx_decode reactor (nm_content m));; deliver e cx (nm_content m)
  | RpcCall =>
      lift (rx_decode reactor (nm_content m));;
      rpc ← lift (RpcEndpoint_try_from e);
      deliver e (set_rpc_id (rpc_rid rpc) cx) (nm_content m)
  | RpcResponseScheme =>
      let content := RpcResponse_decode (nm_content m) in
      rpc ← lift (RpcEndpoint_try_from e);
      known ← gets (rpc_contains (rp_session_id peer) (rpc_rid rpc));
      if negb known then mret tt else
      chan ← rpc_take (rp_session_id peer) (rpc_rid rpc);
      modify (λ r, set_channels (<[chan := Done content]> (channels r)) r)
  end.

Definition route_message (peer : RemotePeer) (data : bytes) : MR unit :=
  m ← lift (decode_message data);
  e ← lift (parse_endpoint (nm_url m));
  key ← lift (root e);
  reactor ← gets (λ r, reactor_map r !! key);
  reactor ← lift (ok_or reactor (NE_Internal (NoReactor (String.string_of_list_ascii key))));
  react peer reactor e m.

(** ** [outbound/rpc.rs] *)
(** Both priorities use the same transport call. *)
Definition rpc_send (sid : Z) (data : bytes) (p : Priority) : MR unit :=
  modify (λ r, set_sent (sent r ++ [(sid, p, data)]) r).

(** Takes the call's sender out and drops it, if it is still there. *)
Definition drop_guard (sid rid : Z) (r : MessageRouter) : MessageRouter :=
  match rm_map r !! (sid, rid) with
  | Some chan => drop_sender chan (set_rm_map (delete (sid, rid) (rm_map r)) r)
  | None => r
  end.

(** Runs the rest of a call under its guard: the guard is dropped on an error. *)
Definition guarded {A} (sid rid : Z) (op : MR A) : MR A := λ r,
  match op r with
  | (r', Ok a) => (r', Ok a)
  | (r', Err e) => (drop_guard sid rid r', Err e)
  | (r', Panic) => (drop_guard sid rid r', Panic)
  end.

(** [call] up to the wait: the session, the number and the channel. [msg] is
    the encoded request. *)
Definition call_begin (cx : NetContext) (endpoint : chars) (msg : outcome NetworkError bytes) (p : Priority)
    : MR (Z * Z * nat) :=
  e ← lift (parse_endpoint endpoint);
  sid ← lift (ctx_session_id cx);
  rid ← next_rpc_id;
  chan ← rpc_insert sid rid;
  guarded sid rid
    (data ← lift msg;
     e ← lift (extend e (u64_to_string rid));
     lift (root e);;
     rpc_send sid (nm_encode (mkNetworkMessage (span_headers cx) (full_url e) data)) p;;
     mret (sid, rid, chan)).

(** [call] after the wait, which ends when the channel is resolved or after ten
    seconds; [None] while it goes on. *)
Definition call_end {R} (decode_msg : bytes → outcome NetworkError R) (pending : Z * Z * nat)
    (elapsed : bool) : MessageRouter → option (MessageRouter * outcome NetworkError R) := λ r,
  let '(sid, rid, chan) := pending in
  let result :=
    match channels r !! chan with
    | Some (Done (Success v)) => Some (decode_msg v)
    | Some (Done (RpcError e)) => Some (Err (RemoteResponse (String.string_of_list_byte e)))
    | Some Canceled => Some (Err (NE_Internal RpcDropped))
    | _ => if elapsed then Some (Err (NE_Internal RpcTimeout)) else None
    end in
  (λ o, (drop_guard sid rid r, o)) <$> result.

(** [ret] is the encoded answer or the text of an error; the answer is encoded
    when the context has been read. *)
Definition response (cx : NetContext) (endpoint : chars) (ret : outcome NetworkError RpcResponse)
    (p : Priority) : MR unit :=
  e ← lift (parse_endpoint endpoint);
  sid ← lift (ctx_session_id cx);
  rid ← lift (ctx_rpc_id cx);
  resp ← lift ret;
  e ← lift (extend e (u64_to_string rid));
  lift (root e);;
  rpc_send sid (nm_encode (mkNetworkMessage (span_headers cx) (full_url e) (RpcResponse_encode resp))) p.

(** ** [outbound/gossip.rs] *)
Definition package_message (cx : NetContext) (endpoint : chars) (msg : outcome NetworkError bytes)
    : outcome NetworkError bytes :=
  e ← parse_endpoint endpoint;
  data ← msg;
  Ok (nm_encode (mkNetworkMessage (span_headers cx) (full_url e) data)).
End router.

(** Gossip over the peer manager: broadcasts to all sessions or to some, and
    dials. *)
Section gossip.
Context `{!Tentacle} `{!IpNetworks} `{!Randomness} `{!NetworkCodec} `{!Tracer}.

Inductive GossipCommand : Type :=
| BroadcastAll (p : Priority) (data : bytes)
| BroadcastTo (sessions : list Z) (p : Priority) (data : bytes)
| GossipDial (addr : Multiaddr).

Record NetworkGossip := mkNetworkGossip { gossip_peers : PeerManager; transmitter : list GossipCommand }.
Abbreviation MG := (M NetworkGossip NetworkError).
Definition transmit (c : GossipCommand) : MG unit :=
  modify (λ g, mkNetworkGossip (gossip_peers g) (transmitter g ++ [c])).

(** The peers that are not connected are dialed. *)
Definition send_to_peers (now_ms : Z) (peer_ids : list bytes) (data : bytes) (p : Priority) : MG unit :=
  ids ← lift (traverse (λ b, ok_or (peer_id_from_bytes b) InvalidPeerId) peer_ids);
  found ← zoom gossip_peers (λ m g, mkNetworkGossip m (transmitter g)) (peers now_ms ids);
  for_each (λ addr, transmit (GossipDial addr)) found.2;;
  transmit (BroadcastTo found.1 p data).

Definition broadcast (cx : NetContext) (endpoint : chars) (msg : outcome NetworkError bytes) (p : Priority)
    : MG unit :=
  data ← lift (package_message cx endpoint msg);
  transmit (BroadcastAll p data).

Definition multicast (now_ms : Z) (cx : NetContext) (endpoint : chars) (peer_ids : list bytes)
    (msg : outcome NetworkError bytes) (p : Priority) : MG unit :=
  data ← lift (package_message cx endpoint msg);
  send_to_peers now_ms peer_ids data p.
End gossip.
