(* ===== verification/NetConfig.v ===== *)
(** * The configuration of the network

    [core/network/src/config.rs]: the settings of the network with their
    defaults and the builder methods that change them, and
    [NetworkService::new] of [service.rs], as far as it makes the peer manager
    and the router.  A duration is its seconds, a path its text. *)

From S2P Require Import Prelude Types Codec Traits Metadata NetAddr AddrManager PeerStore PeerManager NetService.
From S2P Require Import Numbers Endpoint Router.

Local Open Scope Z_scope.

(** [SecioKeyPair] *)
Class SecioKeys `{!Tentacle} := {
  SecioKeyPair : Type;
  secp256k1_raw_key : bytes → option SecioKeyPair;
  keypair_peer_id : SecioKeyPair → PeerId
}.

Definition DEFAULT_LISTEN_PORT : Z := 2337.
Definition DEFAULT_MAX_CONNECTIONS : Z := 40.
Definition DEFAULT_MAX_FRAME_LENGTH : Z := 4 * 1024 * 1024.
Definition DEFAULT_BUFFER_SIZE : Z := 24 * 1024 * 1024.
Definition DEFAULT_MAX_WAIT_STREAMS : Z := 256.
Definition DEFAULT_WRITE_TIMEOUT : Z := 10.
Definition DEFAULT_SAME_IP_CONN_LIMIT : Z := 1.
Definition DEFAULT_INBOUND_CONN_LIMIT : Z := 20.
Definition DEFAULT_PEER_TRUST_INTERVAL_DURATION : Z := 60.
Definition DEFAULT_PEER_TRUST_MAX_HISTORY_DURATION : Z := 24 * 60 * 60 * 10.
Definition DEFAULT_PEER_FATAL_BAN_DURATION : Z := 60 * 60.
Definition DEFAULT_PEER_SOFT_BAN_DURATION : Z := 60 * 10.
Definition DEFAULT_PEER_DAT_FILE : string := "./".
Definition DEFAULT_PING_INTERVAL : Z := 15.
Definition DEFAULT_PING_TIMEOUT : Z := 30.
Definition DEFAULT_DISCOVERY_SYNC_INTERVAL : Z := 60 * 60.
Definition DEFAULT_PEER_MANAGER_HEART_BEAT_INTERVAL : Z := 30.
Definition DEFAULT_SELF_HEART_BEAT_INTERVAL : Z := 35.
Definition DEFAULT_RPC_TIMEOUT : Z := 10.

Section config.
Context `{!Tentacle} `{!IpNetworks} `{!SecioKeys} `{!FasterHex}.

(** The fields in groups: what the transport is given, what the peer manager
    reads, the timers. *)
Record Connection := mkConnection {
  default_listen : Multiaddr;
  nw_max_connections : Z;
  max_frame_length : Z;
  send_buffer_size : Z;
  recv_buffer_size : Z;
  max_wait_streams : Z;
  write_timeout : Z
}.
Record Peers := mkPeers {
  nw_bootstraps : list Multiaddr;
  allowlist : list PeerId;
  allowlist_only : bool;
  enable_save_restore : bool;
  peer_store_path : string;
  peer_trust_interval : Z;
  peer_trust_max_history : Z;
  peer_fatal_ban : Z;
  peer_soft_ban : Z;
  same_ip_conn_limit : Z;
  nw_inbound_conn_limit : Z
}.
Record Timers := mkTimers {
  nw_ping_interval : Z;
  nw_ping_timeout : Z;
  discovery_sync_interval : Z;
  peer_manager_heart_beat_interval : Z;
  heart_beat_interval : Z;
  rpc_timeout : Z
}.
Record NetworkSettings := mkSettings {
  nw_connection : Connection;
  nw_peers : Peers;
  secio_keypair : SecioKeyPair;
  nw_timers : Timers
}.

(** [NetworkConfig::new]; the key pair is a generated one. *)
Definition NetworkConfig_new (generated : SecioKeyPair) : NetworkSettings := {|
  nw_connection := mkConnection (multiaddr_collect [Ip4 0; Tcp DEFAULT_LISTEN_PORT]) DEFAULT_MAX_CONNECTIONS
    DEFAULT_MAX_FRAME_LENGTH DEFAULT_BUFFER_SIZE DEFAULT_BUFFER_SIZE DEFAULT_MAX_WAIT_STREAMS DEFAULT_WRITE_TIMEOUT;
  nw_peers := mkPeers [] [] false false DEFAULT_PEER_DAT_FILE DEFAULT_PEER_TRUST_INTERVAL_DURATION
    DEFAULT_PEER_TRUST_MAX_HISTORY_DURATION DEFAULT_PEER_FATAL_BAN_DURATION DEFAULT_PEER_SOFT_BAN_DURATION
    DEFAULT_SAME_IP_CONN_LIMIT DEFAULT_INBOUND_CONN_LIMIT;
  secio_keypair := generated;
  nw_timers := mkTimers DEFAULT_PING_INTERVAL DEFAULT_PING_TIMEOUT DEFAULT_DISCOVERY_SYNC_INTERVAL
    DEFAULT_PEER_MANAGER_HEART_BEAT_INTERVAL DEFAULT_SELF_HEART_BEAT_INTERVAL DEFAULT_RPC_TIMEOUT |}.

(** ** Builder methods *)
Definition on_connection (f : Connection → Connection) (c : NetworkSettings) : NetworkSettings :=
  mkSettings (f (nw_connection c)) (nw_peers c) (secio_keypair c) (nw_timers c).
Definition on_peers_config (f : Peers → Peers) (c : NetworkSettings) : NetworkSettings :=
  mkSettings (nw_connection c) (f (nw_peers c)) (secio_keypair c) (nw_timers c).
Definition on_timers (f : Timers → Timers) (c : NetworkSettings) : NetworkSettings :=
  mkSettings (nw_connection c) (nw_peers c) (secio_keypair c) (f (nw_timers c)).

(** [if let Some(v) = v { .. }] *)
Definition if_some {X C} (f : X → C → C) (v : option X) (c : C) : C := from_option (λ x, f x c) c v.

Definition listen_addr (addr : Multiaddr) : NetworkSettings → NetworkSettings :=
  on_connection (λ c, mkConnection addr (nw_max_connections c) (max_frame_length c) (send_buffer_size c)
    (recv_buffer_size c) (max_wait_streams c) (write_timeout c)).
Definition set_max_connections (max : option Z) (c : NetworkSettings) : outcome NetworkError NetworkSettings :=
  match max with
  | Some max =>
      if max <=? nw_inbound_conn_limit (nw_peers c) then Err InboundLimitEqualOrSmallerThanMaxConn
      else Ok (on_connection (λ c, mkConnection (default_listen c) max (max_frame_length c) (send_buffer_size c)
                 (recv_buffer_size c) (max_wait_streams c) (write_timeout c)) c)
  | None => Ok c
  end.
Definition set_max_frame_length : option Z → NetworkSettings → NetworkSettings :=
  if_some (λ max, on_connection (λ c, mkConnection (default_listen c) (nw_max_connections c) max (send_buffer_size c)
    (recv_buffer_size c) (max_wait_streams c) (write_timeout c))).
Definition set_send_buffer_size : option Z → NetworkSettings → NetworkSettings :=
  if_some (λ size, on_connection (λ c, mkConnection (default_listen c) (nw_max_connections c) (max_frame_length c) size
    (recv_buffer_size c) (max_wait_streams c) (write_timeout c))).
Definition set_recv_buffer_size : option Z → NetworkSettings → NetworkSettings :=
  if_some (λ size, on_connection (λ c, mkConnection (default_listen c) (nw_max_connections c) (max_frame_length c)
    (send_buffer_size c) size (max_wait_streams c) (write_timeout c))).
Definition set_bootstraps (addrs : list Multiaddr) : NetworkSettings → NetworkSettings :=
  on_peers_config (λ p, mkPeers addrs (allowlist p) (allowlist_only p) (enable_save_restore p) (peer_store_path p)
    (peer_trust_interval p) (peer_trust_max_history p) (peer_fatal_ban p) (peer_soft_ban p) (same_ip_conn_limit p)
    (nw_inbound_conn_limit p)).
Definition peer_store_dir (path : string) : NetworkSettings → NetworkSettings :=
  on_peers_config (λ p, mkPeers (nw_bootstraps p) (allowlist p) (allowlist_only p) (enable_save_restore p) path
    (peer_trust_interval p) (peer_trust_max_history p) (peer_fatal_ban p) (peer_soft_ban p) (same_ip_conn_limit p)
    (nw_inbound_conn_limit p)).
Definition set_secio_keypair (sk_hex : string) (c : NetworkSettings) : outcome NetworkError NetworkSettings :=
  match hex_decode sk_hex with
  | Ok raw =>
      match secp256k1_raw_key raw with
      | Some skp => Ok (mkSettings (nw_connection c) (nw_peers c) skp (nw_timers c))
      | None => Err InvalidPrivateKey
      end
  | Err _ => Err InvalidPrivateKey
  | Panic => Panic
  end.
Definition set_ping_interval : option Z → NetworkSettings → NetworkSettings :=
  if_some (λ interval, on_timers (λ t, mkTimers interval (nw_ping_timeout t) (discovery_sync_interval t)
    (peer_manager_heart_beat_interval t) (heart_beat_interval t) (rpc_timeout t))).
Definition set_ping_timeout (timeout : Z) : NetworkSettings → NetworkSettings :=
  on_timers (λ t, mkTimers (nw_ping_interval t) timeout (discovery_sync_interval t)
    (peer_manager_heart_beat_interval t) (heart_beat_interval t) (rpc_timeout t)).
Definition set_discovery_sync_interval (interval : Z) : NetworkSettings → NetworkSettings :=
  on_timers (λ t, mkTimers (nw_ping_interval t) (nw_ping_timeout t) interval
    (peer_manager_heart_beat_interval t) (heart_beat_interval t) (rpc_timeout t)).

(** ** [NetworkService::new] *)
(** What the peer manager reads of the settings. *)
Definition manager_config (c : NetworkSettings) : NetworkConfig :=
  mkNetworkConfig (nw_max_connections (nw_connection c)) (nw_inbound_conn_limit (nw_peers c))
    (keypair_peer_id (secio_keypair c)) (nw_bootstraps (nw_peers c)).

(** The peer store is what was loaded from its directory.  The address to listen
    on is unwrapped when the transport is built. *)
Definition NetworkService_new (config : NetworkSettings) (store : PeerStore) : outcome NetworkError NetworkService :=
  peer_manager ← PeerManager_new (manager_config config) store;
  _ ← unwrap (multiaddr_to_socketaddr (default_listen (nw_connection config)));
  Ok (mkNetworkService peer_manager 0 []).
End config.
