(* ===== verification/RouterProps.v ===== *)
(** * Correctness of endpoints and of the RPC layer

    Every endpoint the code builds is well formed, so that its scheme and root
    never panic; a call's number travels in its endpoint and comes back; and an
    RPC, from the call on one node to the result on the same node through the
    handler of another, delivers the request and returns the answer. *)

From S2P Require Import Prelude Types Overlord NetAddr AddrManager PeerStore PeerManager Numbers.
From S2P Require Import Endpoint Router Protocols.

Local Open Scope Z_scope.

(** ** Strings *)
Lemma split_comps_app cur l d :
  split_comps cur (l ++ slash :: d) = split_comps cur l ++ split_comps [] d.
Proof.
  revert cur. induction l as [|c l IH]; intros cur.
  { cbn. rewrite decide_True by done. by destruct cur. }
  cbn. case_decide; [|apply IH]. destruct cur; [apply IH|cbn; by rewrite IH].
Qed.

Lemma split_comps_plain cur d : Forall (λ c, c ≠ slash) d → cur ++ d ≠ [] → split_comps cur d = [cur ++ d].
Proof.
  revert cur. induction d as [|c d IH]; intros cur Hd Hne.
  { rewrite app_nil_r in *. by destruct cur. }
  inversion Hd; subst. cbn. rewrite decide_False by done. rewrite IH by (try done; by destruct cur).
  by rewrite <-app_assoc.
Qed.

Lemma after_last_slash_plain d : Forall (λ c, c ≠ slash) d → after_last_slash d = None.
Proof. induction 1 as [|c d Hc _ IH]; [done|]. cbn. by rewrite IH, decide_False. Qed.

Lemma after_last_slash_app l d : Forall (λ c, c ≠ slash) d → after_last_slash (l ++ slash :: d) = Some d.
Proof.
  intros Hd. induction l as [|c l IH]; cbn; [|by rewrite IH].
  by rewrite after_last_slash_plain, decide_True.
Qed.

Lemma starts_with_app pat s t : (length pat ≤ length s)%nat → starts_with pat (s ++ t) = starts_with pat s.
Proof.
  revert s. induction pat as [|p pat IH]; intros s Hl; [done|]. destruct s as [|c s]; [cbn in Hl; lia|].
  cbn. rewrite IH; [done|]. cbn in Hl. lia.
Qed.

Lemma starts_with_length pat s : starts_with pat s = true → (length pat ≤ length s)%nat.
Proof.
  revert s. induction pat as [|p pat IH]; intros [|c s]; cbn; try done; [lia..|].
  intros [_ H%IH]%andb_prop. lia.
Qed.

(** ** Endpoints *)
Record endpoint_wf (e : Endpoint) : Prop := {
  wf_length : (length (full_url e) ≤ MAX_ENDPOINT_LENGTH)%nat;
  wf_scheme : starts_with GOSSIP_SCHEME (full_url e) = true ∨ starts_with RPC_CALL_SCHEME (full_url e) = true ∨
    starts_with RPC_RESPONSE_SCHEME (full_url e) = true;
  wf_comps : (3 ≤ length (comps (full_url e)) ≤ 4)%nat
}.

Lemma parse_endpoint_iff s e : parse_endpoint s = Ok e ↔ full_url e = s ∧ endpoint_wf e.
Proof.
  unfold parse_endpoint. split.
  - destruct (_ || _) eqn:E1; [done|]. apply orb_false_elim in E1 as [_ E1]. apply Nat.ltb_ge in E1.
    destruct (_ && _) eqn:E2; [done|]. destruct ((_ <? 3)%nat || _) eqn:E3; [done|]. intros [= <-].
    apply orb_false_elim in E3 as [E3 E4]. apply Nat.ltb_ge in E3, E4. split; [done|]. split; [done| |exact (conj E3 E4)].
    rewrite !andb_false_iff, !negb_false_iff in E2. tauto.
  - intros [<- [Hl Hs Hc]]. assert (full_url e ≠ []) as Hne.
    { intros E. rewrite E in Hc. unfold comps in Hc. cbn in Hc. lia. }
    rewrite bool_decide_false, (proj2 (Nat.ltb_ge _ _)) by done. cbn [orb].
    assert (negb (starts_with GOSSIP_SCHEME (full_url e)) && negb (starts_with RPC_CALL_SCHEME (full_url e)) &&
      negb (starts_with RPC_RESPONSE_SCHEME (full_url e)) = false) as ->.
    { rewrite !andb_false_iff, !negb_false_iff. tauto. }
    cbv zeta. rewrite !(proj2 (Nat.ltb_ge _ _)) by lia. by destruct e.
Qed.

Lemma wf_root e : endpoint_wf e → ∃ c0 c1 c2 rest, comps (full_url e) = c0 :: c1 :: c2 :: rest ∧
  root e = Ok (slash :: c0 ++ slash :: c1 ++ slash :: c2).
Proof.
  intros [_ _ Hc]. unfold root. destruct (comps (full_url e)) as [|c0 [|c1 [|c2 rest]]]; cbn in Hc; [lia..|].
  by eexists _, _, _, _.
Qed.

Lemma wf_scheme_app e t e' : endpoint_wf e → full_url e' = full_url e ++ t →
  scheme e' = scheme e ∧ (starts_with GOSSIP_SCHEME (full_url e') = true ∨
    starts_with RPC_CALL_SCHEME (full_url e') = true ∨ starts_with RPC_RESPONSE_SCHEME (full_url e') = true).
Proof.
  intros [_ Hs _] He. unfold scheme. rewrite He.
  assert (Hg : starts_with GOSSIP_SCHEME (full_url e ++ t) = starts_with GOSSIP_SCHEME (full_url e)).
  { apply starts_with_app. destruct Hs as [H|[H|H]]; apply starts_with_length in H; cbn in *; lia. }
  rewrite !Hg. destruct Hs as [H|Hs]; [rewrite !H; split; [done|by left]|].
  rewrite !starts_with_app by (destruct Hs as [H|H]; apply starts_with_length in H; cbn in *; lia).
  split; [done|by right].
Qed.

(** Extending an endpoint of three components by an RPC number. *)
Lemma extend_rid e rid : endpoint_wf e → length (comps (full_url e)) = 3%nat →
  (length (full_url e) ≤ 99)%nat → 0 ≤ rid < 2 ^ 64 →
  ∃ e', extend e (u64_to_string rid) = Ok e' ∧ endpoint_wf e' ∧ root e' = root e ∧ scheme e' = scheme e ∧
    RpcEndpoint_try_from e' = Ok (mkRpcEndpoint e' rid).
Proof.
  intros Hwf H3 Hlen Hrid. pose proof (digits_plain 10 ltac:(lia) 20 rid ltac:(lia)) as Hplain.
  pose proof (length_digits 10 20 rid) as Hd. pose proof (digits_nonempty 10 19 rid) as Hne.
  pose proof (parse_u64_to_string rid Hrid) as Hparse.
  unfold u64_to_string in *. set (d := digits 10 20 rid) in *. change (digits 10 20 rid ≠ []) with (d ≠ []) in Hne.
  assert (Hns : Forall (λ c, c ≠ slash) d) by (eapply Forall_impl; [done|]; by intros ? []).
  assert (Htrim : trim_start d = d).
  { destruct d as [|c d']; [done|]. inversion Hns; subst. cbn. by rewrite decide_False. }
  set (e' := mkEndpoint (full_url e ++ slash :: d)).
  assert (Hcomps : comps (full_url e') = comps (full_url e) ++ [d]).
  { unfold comps, e'. cbn [full_url]. by rewrite split_comps_app, (split_comps_plain [] d). }
  destruct (wf_scheme_app e (slash :: d) e' Hwf eq_refl) as [Hsch Hst].
  assert (Hwf' : endpoint_wf e').
  { split; [|done|rewrite Hcomps, length_app; cbn; lia]. unfold e'. cbn [full_url]. rewrite length_app.
    cbn [length]. unfold MAX_ENDPOINT_LENGTH. lia. }
  exists e'. split; [|split; [done|]].
  { unfold extend. rewrite Htrim. by apply parse_endpoint_iff. }
  split_and!; [|done|].
  - unfold root. rewrite Hcomps. destruct (comps (full_url e)) as [|c0 [|c1 [|c2 [|]]]]; try done.
  - unfold RpcEndpoint_try_from, extract_rpc_id_from. unfold e'. cbn [full_url].
    rewrite after_last_slash_app by done. destruct d; [done|]. by rewrite Hparse.
Qed.

(** C36: Every endpoint that is parsed or extended is well formed, within the
    length limit, with a known scheme and three or four components, so that
    asking for its scheme, which must be one of three, and for its root, which
    indexes its components, never panics. *)
Theorem endpoint_well_formed s e : parse_endpoint s = Ok e ∨ (∃ e0 comp, extend e0 comp = Ok e) →
  endpoint_wf e ∧ (∃ sch, scheme e = Ok sch) ∧ ∃ key, root e = Ok key.
Proof.
  intros Hor. assert (Hwf : endpoint_wf e).
  { destruct Hor as [H|(e0 & comp & H)]; apply parse_endpoint_iff in H as [_ ?]; done. }
  split; [done|]. split.
  - unfold scheme. destruct (wf_scheme _ Hwf) as [-> | [-> | -> ]]; [eauto|case_match; eauto|repeat case_match; eauto].
  - destruct (wf_root _ Hwf) as (?&?&?&?&_&->). eauto.
Qed.

(** ** RPC *)
Section rpc.
Context `{!Tentacle} `{!NetworkCodec} `{!Tracer}.
Implicit Types (r : MessageRouter).

Definition span_ok (cx : NetContext) : Prop :=
  match nc_span cx with Some (_, span) => 0 ≤ span < 2 ^ 64 | None => True end.

(** The headers a node sends are read back. *)
Lemma span_headers_read cx url content : span_ok cx →
  let m := mkNetworkMessage (span_headers cx) url content in
  msg_trace_id m = Ok (fst <$> nc_span cx) ∧ msg_span_id m = Ok (snd <$> nc_span cx).
Proof.
  unfold span_ok, msg_trace_id, msg_span_id, span_headers. cbn.
  destruct (nc_span cx) as [[trace span]|]; [|done]. intros Hspan.
  rewrite lookup_insert_ne, lookup_singleton_eq, lookup_insert_eq by done. cbn. unfold from_utf8.
  rewrite trace_is_utf8, str_to_trace_to_string. split; [done|].
  rewrite length_to_be_bytes. cbn. rewrite take_ge by (by rewrite length_to_be_bytes).
  by rewrite from_to_be_bytes_id.
Qed.

(** The state after [rpc_insert] of a number that is not pending. *)
Lemma rpc_insert_run sid rid r : rm_map r !! (sid, rid) = None →
  rpc_insert sid rid r = (set_rm_map (<[(sid, rid) := length (channels r)]> (rm_map r))
    (set_channels (channels r ++ [Pending]) r), Ok (length (channels r))).
Proof. intros Hn. unfold rpc_insert. rewrite !bind_gets, Hn, !bind_modify. done. Qed.

(** A request or an answer on its way: what the receiver's router does with a
    message to a well-formed endpoint that it has a reactor for. *)
Lemma route_message_run peer reactor e cx content key r : endpoint_wf e → root e = Ok key →
  reactor_map r !! key = Some reactor → span_ok cx →
  route_message peer (nm_encode (mkNetworkMessage (span_headers cx) (full_url e) content)) r =
    react peer reactor e (mkNetworkMessage (span_headers cx) (full_url e) content) r.
Proof.
  intros Hwf Hroot Hreactor Hspan. unfold route_message, decode_message. rewrite nm_decode_encode.
  cbn [ok_or nm_url]. rewrite bind_lift_ok. cbn [nm_url].
  rewrite (proj2 (parse_endpoint_iff _ _) (conj eq_refl Hwf)), bind_lift_ok, Hroot, bind_lift_ok.
  rewrite bind_gets, Hreactor. cbn [ok_or]. by rewrite bind_lift_ok.
Qed.

(** The context the handler of a request is given. *)
Definition handler_context (peer : RemotePeer) (cx : NetContext) (rid : Z) : NetContext :=
  mkNetContext (Some (rp_session_id peer)) (Some (rp_peer_id peer)) (Some rid) None (nc_span cx).

Lemma span_pair (o : option (TraceId * Z)) :
  match fst <$> o, snd <$> o with Some t, Some s => Some (t, s) | _, _ => None end = o.
Proof. by destruct o as [[]|]. Qed.

Lemma react_call peer reactor e rid cx content r : scheme e = Ok RpcCall →
  RpcEndpoint_try_from e = Ok (mkRpcEndpoint e rid) → rx_decode reactor content = Ok tt → span_ok cx →
  react peer reactor e (mkNetworkMessage (span_headers cx) (full_url e) content) r =
    (set_delivered (delivered r ++ [(full_url e, handler_context peer cx rid, content)]) r, Ok tt).
Proof.
  intros Hs Hrid Hdec Hspan. unfold react.
  destruct (span_headers_read cx (full_url e) content Hspan) as [-> ->]. rewrite !bind_lift_ok, Hs, bind_lift_ok.
  cbn [nm_content]. rewrite Hdec, bind_lift_ok, Hrid, bind_lift_ok, span_pair. done.
Qed.

Lemma react_response peer reactor e rid cx ret chan r : scheme e = Ok RpcResponseScheme →
  RpcEndpoint_try_from e = Ok (mkRpcEndpoint e rid) → span_ok cx →
  rm_map r !! (rp_session_id peer, rid) = Some chan →
  react peer reactor e (mkNetworkMessage (span_headers cx) (full_url e) (RpcResponse_encode ret)) r =
    (set_channels (<[chan := Done (RpcResponse_decode (RpcResponse_encode ret))]> (channels r))
       (set_rm_map (delete (rp_session_id peer, rid) (rm_map r)) r), Ok tt).
Proof.
  intros Hs Hrid Hspan Hmap. unfold react.
  destruct (span_headers_read cx (full_url e) (RpcResponse_encode ret) Hspan) as [-> ->].
  rewrite !bind_lift_ok, Hs, bind_lift_ok, Hrid, bind_lift_ok, bind_gets. unfold rpc_contains. cbn [rpc_rid].
  rewrite Hmap, bool_decide_true by eauto. cbn [negb].
  rewrite (bind_ok _ _ _ (set_rm_map (delete (rp_session_id peer, rid) (rm_map r)) r) chan); [reflexivity|].
  unfold rpc_take. rewrite bind_gets, Hmap. cbn [ok_or].
  by rewrite bind_lift_ok, bind_modify.
Qed.

Lemma RpcResponse_roundtrip ret : match ret with Success _ => True | RpcError msg => is_utf8 msg = true end →
  RpcResponse_decode (RpcResponse_encode ret) = ret.
Proof. destruct ret as [data|msg]; [done|]. cbn. intros Hm. by rewrite from_utf8_lossy_id. Qed.

(** An endpoint registered under its own three components. *)
Definition service_endpoint (s : chars) (sch : EndpointScheme) (e : Endpoint) : Prop :=
  parse_endpoint s = Ok e ∧ scheme e = Ok sch ∧ length (comps s) = 3%nat ∧ (length s ≤ 99)%nat.

Lemma service_extend s sch e rid : service_endpoint s sch e → 0 ≤ rid < 2 ^ 64 →
  ∃ e', extend e (u64_to_string rid) = Ok e' ∧ endpoint_wf e' ∧ root e' = root e ∧ scheme e' = Ok sch ∧
    RpcEndpoint_try_from e' = Ok (mkRpcEndpoint e' rid).
Proof.
  intros (Hp & Hs & H3 & Hl) Hrid. apply parse_endpoint_iff in Hp as [<- Hwf].
  destruct (extend_rid e rid Hwf H3 Hl Hrid) as (e' & He & Hwf' & Hr & Hs' & Hid). exists e'. by rewrite Hs'.
Qed.

(** How a call ends that was answered. *)
Definition answered {R} (decode_msg : bytes → outcome NetworkError R) (ret : RpcResponse) : outcome NetworkError R :=
  match ret with
  | Success v => decode_msg v
  | RpcError e => Err (RemoteResponse (String.string_of_list_byte e))
  end.

(** An RPC comes back.  When node A calls an endpoint that node B serves, the
    message A sends makes B's router hand the request to the handler, with the
    number of the call and the session it came from; the answer B sends in that
    context, whenever it does, resolves the call on A, if it is still pending
    when the answer arrives: A's call ends with the decoded answer, and no other
    pending call of A is touched. *)
Lemma rpc_end_to_end (a b : MessageRouter) cx s_call s_resp e_call e_resp sid req p key reactor peerA peerB key' reactor' :
  service_endpoint s_call RpcCall e_call → service_endpoint s_resp RpcResponseScheme e_resp →
  root e_call = Ok key → reactor_map b !! key = Some reactor → rx_decode reactor req = Ok tt →
  root e_resp = Ok key' → nc_session_id cx = Some sid → rp_session_id peerB = sid → span_ok cx →
  0 ≤ rm_next_id a < 2 ^ 64 → rm_map a !! (sid, rm_next_id a) = None →
  let rid := rm_next_id a in
  ∃ a1 chan data, call_begin cx s_call (Ok req) p a = (a1, Ok (sid, rid, chan)) ∧
    sent a1 = sent a ++ [(sid, p, data)] ∧ rm_map a1 = <[(sid, rid) := chan]> (rm_map a) ∧
    channels a1 !! chan = Some Pending ∧ a1.(reactor_map) = a.(reactor_map) ∧
    ∃ b1 url cxB, route_message peerA data b = (b1, Ok tt) ∧ delivered b1 = delivered b ++ [(url, cxB, req)] ∧
      nc_session_id cxB = Some (rp_session_id peerA) ∧ nc_rpc_id cxB = Some rid ∧
      ∀ b2 a2 p' (ret : RpcResponse) R (decode_msg : bytes → outcome NetworkError R) elapsed,
        rm_map a2 !! (sid, rid) = Some chan → channels a2 !! chan = Some Pending →
        reactor_map a2 !! key' = Some reactor' →
        ∃ b3 data' a3 a4, response cxB s_resp (Ok ret) p' b2 = (b3, Ok tt) ∧
          sent b3 = sent b2 ++ [(rp_session_id peerA, p', data')] ∧
          route_message peerB data' a2 = (a3, Ok tt) ∧
          call_end decode_msg (sid, rid, chan) elapsed a3 =
            Some (a4, answered decode_msg (RpcResponse_decode (RpcResponse_encode ret))) ∧
          rm_map a4 = delete (sid, rid) (rm_map a2) ∧ ∀ c, c ≠ chan → channels a4 !! c = channels a2 !! c.
Proof.
  intros Hcall Hresp Hkey Hre Hdec Hkey' Hsid Hpb Hspan Hnext Hfree rid.
  destruct (service_extend _ _ _ rid Hcall Hnext) as (e1 & He1 & Hwf1 & Hr1 & Hs1 & Hid1).
  destruct (service_extend _ _ _ rid Hresp Hnext) as (e2 & He2 & Hwf2 & Hr2 & Hs2 & Hid2).
  destruct (wf_root _ Hwf1) as (?&?&?&?&_&Hroot1). destruct (wf_root _ Hwf2) as (?&?&?&?&_&Hroot2).
  rewrite Hr1, Hkey in Hroot1. rewrite Hr2, Hkey' in Hroot2.
  destruct Hcall as (Hpc & _). destruct Hresp as (Hpr & _).
  set (data := nm_encode (mkNetworkMessage (span_headers cx) (full_url e1) req)).
  set (a0 := set_rm_next_id (wrap64 (rid + 1)) a).
  set (a1 := set_sent (sent a ++ [(sid, p, data)]) (set_rm_map (<[(sid, rid) := length (channels a)]> (rm_map a))
    (set_channels (channels a ++ [Pending]) a0))).
  exists a1, (length (channels a)), data. split_and!; try done.
  - unfold call_begin. rewrite Hpc, bind_lift_ok. unfold ctx_session_id. rewrite Hsid. cbn [ok_or].
    rewrite bind_lift_ok. rewrite (bind_ok next_rpc_id _ _ a0 rid) by done.
    rewrite (bind_ok _ _ _ _ _ (rpc_insert_run sid rid a0 Hfree)). unfold guarded.
    rewrite !bind_lift_ok. fold rid. rewrite He1, bind_lift_ok, Hr1, Hkey. done.
  - cbn. by rewrite lookup_app_r, Nat.sub_diag.
  - exists (set_delivered (delivered b ++ [(full_url e1, handler_context peerA cx rid, req)]) b), (full_url e1),
      (handler_context peerA cx rid). split_and!; try done.
    { unfold data. rewrite (route_message_run peerA reactor e1 cx req key b); try done; [|by rewrite Hr1].
      by apply react_call. }
    intros b2 a2 p' ret R decode_msg elapsed Hpend Hchan Hre'.
    set (cxB := handler_context peerA cx rid).
    set (data' := nm_encode (mkNetworkMessage (span_headers cxB) (full_url e2) (RpcResponse_encode ret))).
    exists (set_sent (sent b2 ++ [(rp_session_id peerA, p', data')]) b2), data'.
    exists (set_channels (<[length (channels a) := Done (RpcResponse_decode (RpcResponse_encode ret))]> (channels a2))
      (set_rm_map (delete (sid, rid) (rm_map a2)) a2)).
    exists (set_channels (<[length (channels a) := Done (RpcResponse_decode (RpcResponse_encode ret))]> (channels a2))
      (set_rm_map (delete (sid, rid) (rm_map a2)) a2)).
    split_and!; try done.
    + unfold response. rewrite Hpr, !bind_lift_ok. unfold ctx_session_id, ctx_rpc_id. cbn [ok_or nc_session_id nc_rpc_id cxB handler_context].
      rewrite !bind_lift_ok, He2, bind_lift_ok, Hr2, Hkey'. done.
    + unfold data'. rewrite (route_message_run peerB reactor' e2 cxB _ key' a2); try done; [|by rewrite Hr2].
      rewrite (react_response peerB reactor' e2 rid cxB ret (length (channels a)) a2); try done; by subst sid.
    + unfold call_end. cbn [channels set_channels].
      rewrite list_lookup_insert_eq by (by eapply lookup_lt_Some).
      destruct (RpcResponse_decode _); cbn; unfold drop_guard; cbn; by rewrite lookup_delete_eq.
    + intros c Hc. cbn. by rewrite list_lookup_insert_ne.
Qed.

(** A message whose span header is shorter than eight bytes makes the router
    panic, whichever registered endpoint it is sent to. *)
Theorem short_span_header_panics peer m e key reactor id r : parse_endpoint (nm_url m) = Ok e →
  root e = Ok key → reactor_map r !! key = Some reactor → nm_headers m !! "trace_id" = None →
  nm_headers m !! "span_id" = Some id → (length id < 8)%nat →
  route_message peer (nm_encode m) r = (r, Panic).
Proof.
  intros He Hk Hr Ht Hs Hl. unfold route_message, decode_message. rewrite nm_decode_encode. cbn [ok_or].
  rewrite bind_lift_ok, He, bind_lift_ok, Hk, bind_lift_ok, bind_gets, Hr. cbn [ok_or]. rewrite bind_lift_ok.
  assert (msg_trace_id m = Ok None) as Et by (unfold msg_trace_id; by rewrite Ht).
  assert (msg_span_id m = Panic) as Es by (unfold msg_span_id; by rewrite Hs, (proj2 (Nat.ltb_lt _ _))).
  unfold react. by rewrite Et, bind_lift_ok, Es.
Qed.
End rpc.

(** ** Examples *)
Section examples.
Lemma chars_roundtrip (l : chars) : chars_of (String.string_of_list_ascii l) = l.
Proof. apply String.list_ascii_of_string_of_list_ascii. Qed.

Definition message_to_tuple (m : NetworkMessage) : gmap string bytes * string * bytes :=
  (nm_headers m, String.string_of_list_ascii (nm_url m), nm_content m).
Definition tuple_to_message (t : gmap string bytes * string * bytes) : NetworkMessage :=
  mkNetworkMessage t.1.1 (chars_of t.1.2) t.2.

Definition bits_codec : NetworkCodec.
Proof.
  refine {| nm_encode m := pos_bits (encode (message_to_tuple m));
            nm_decode l := tuple_to_message <$> decode (bits_pos l) |}.
  intros [h u c]. rewrite bits_pos_bits, decode_encode. cbn. unfold tuple_to_message. cbn.
  by rewrite chars_roundtrip.
Defined.
Definition unit_tracer : Tracer.
Proof. by refine {| TraceId := unit; trace_to_string _ := []; str_to_trace _ := Some tt |}; [|intros []]. Defined.

#[local] Existing Instances plain_tentacle bits_codec unit_tracer.

Definition ex_call : chars := chars_of "/rpc_call/consensus/pull_block".
Definition ex_resp : chars := chars_of "/rpc_resp/consensus/pull_block".
Definition ex_reactor : Reactor := mkReactor (λ _, Ok tt).
Definition ex_peer_id : PeerId := [x01].
Definition ex_server : MessageRouter := set_reactor_map {[ex_call := ex_reactor]} MessageRouter_new.
Definition ex_client : MessageRouter := set_reactor_map {[ex_resp := ex_reactor]} MessageRouter_new.

Lemma endpoint_well_formed_witness : ∃ key, root (mkEndpoint ex_call) = Ok key.
Proof.
  destruct (endpoint_well_formed ex_call (mkEndpoint ex_call)) as (_ & _ & Hroot); [by left|exact Hroot].
Defined.

End examples.
