(* ===== verification/TrieDb.v ===== *)
(** * The trie's key-value store

    [core/executor/src/adapter/trie_db.rs]: RocksDB behind a cache of the
    entries read and written since the last flush.  A RocksDB call that fails
    is an argument ([fault]); the seeded generator is a class. *)

From S2P Require Import Prelude.

Local Open Scope Z_scope.

Inductive RocksTrieDBError : Type := Store | InsertParameter | TrieBatchLengthMismatch.

(** The [k]-th draw of [rng.gen_range(0..n)] of the seeded [SmallRng]. *)
Class SmallRng := {
  small_range : nat → nat → nat;
  small_range_lt k n : (0 < n)%nat → (small_range k n < n)%nat
}.

Section trie_db.
Context `{!SmallRng}.

Record RocksTrieDB := mkRocksTrieDB {
  td_db : gmap bytes bytes;
  td_cache : gmap bytes bytes;
  cache_size : nat
}.
Definition RocksTrieDB_new (db : gmap bytes bytes) (size : nat) : RocksTrieDB := mkRocksTrieDB db ∅ size.
Definition set_td_db v t := mkRocksTrieDB v (td_cache t) (cache_size t).
Definition set_td_cache v t := mkRocksTrieDB (td_db t) v (cache_size t).
Definition cache_insert (key value : bytes) (t : RocksTrieDB) : RocksTrieDB :=
  set_td_cache (<[key := value]> (td_cache t)) t.

Abbreviation MT := (M RocksTrieDB RocksTrieDBError).

(** [self.db.get(key)] *)
Definition db_get (fault : bool) (key : bytes) : MT (option bytes) :=
  if fault then throw Store else gets (λ t, td_db t !! key).

Definition inner_get (fault : bool) (key : bytes) : MT (option bytes) :=
  res ← gets (λ t, td_cache t !! key);
  match res with
  | Some value => mret (Some value)
  | None =>
      ret ← db_get fault key;
      (match ret with Some val => modify (cache_insert key val) | None => mret tt end);;
      mret ret
  end.
Definition trie_get := inner_get.

Definition trie_contains (fault : bool) (key : bytes) : MT bool :=
  res ← gets (λ t, td_cache t !! key);
  match res with
  | Some _ => mret true
  | None =>
      ret ← db_get fault key;
      match ret with
      | Some val => modify (cache_insert key val);; mret true
      | None => mret false
      end
  end.

(** The cache is written before the store. *)
Definition trie_insert (fault : bool) (key value : bytes) : MT unit :=
  modify (cache_insert key value);;
  if fault then throw Store else modify (λ t, set_td_db (<[key := value]> (td_db t)) t).

Definition trie_insert_batch (fault : bool) (keys values : list bytes) : MT unit :=
  if decide (length keys ≠ length values) then throw TrieBatchLengthMismatch else
  for_each (λ '(key, val), modify (cache_insert key val)) (zip keys values);;
  if fault then throw Store else
  modify (λ t, set_td_db (foldr (λ '(key, val) db, <[key := val]> db) (td_db t)
                            (reverse (zip keys values))) t).

Definition trie_remove (key : bytes) : MT unit := mret tt.
Definition trie_remove_batch (keys : list bytes) : MT unit := mret tt.

(** The loop of [rand_remove_list]: drawing from an empty range panics. *)
Fixpoint remove_loop {A} (keys : list A) (k num len : nat) (idx_list : list nat) (ret : list A)
    : outcome RocksTrieDBError (list A) :=
  match num with
  | O => Ok ret
  | S num' =>
      if decide (len = 0%nat) then Panic else
      let tmp := small_range k len in
      idx ← unwrap (idx_list !! tmp);
      key ← unwrap (keys !! idx);
      remove_loop keys (S k) num' (len - 1) (delete tmp idx_list) (ret ++ [key])
  end.
(** [keys.len() - 1] underflows on an empty list. *)
Definition rand_remove_list {A} (keys : list A) (num : nat) : outcome RocksTrieDBError (list A) :=
  match keys with
  | [] => Panic
  | _ => let len := (length keys - 1)%nat in remove_loop keys 0 num len (seq 0 len) []
  end.

Definition trie_flush : MT unit :=
  t ← gets (λ t, t);
  let len := size (td_cache t) in
  if (len <=? cache_size t)%nat then mret tt else
  remove_list ← lift (rand_remove_list ((map_to_list (td_cache t)).*1) (len - cache_size t));
  modify (set_td_cache (foldr delete (td_cache t) remove_list)).

(** ** Lemmas *)
(** The cache holds entries of the store. *)
Definition coherent (t : RocksTrieDB) : Prop := td_cache t ⊆ td_db t.

Lemma coherent_lookup t key value : coherent t → td_cache t !! key = Some value → td_db t !! key = Some value.
Proof. intros Hc Hk. exact (lookup_weaken _ _ _ _ Hk Hc). Qed.

Lemma inner_get_ok t key : coherent t →
  ∃ t', inner_get false key t = (t', Ok (td_db t !! key)) ∧ coherent t' ∧ td_db t' = td_db t.
Proof.
  intros Hc. unfold inner_get. rewrite bind_gets. destruct (td_cache t !! key) as [v|] eqn:E.
  { exists t. by rewrite (coherent_lookup t key v). }
  cbn. rewrite bind_gets. destruct (td_db t !! key) as [v|] eqn:Ed; [|by exists t].
  rewrite bind_modify. eexists. split; [done|]. split; [|done].
  unfold coherent. cbn. by apply insert_subseteq_l.
Qed.

(** The batch on the cache and on the store. *)
Definition put_all (kvs : list (bytes * bytes)) (m : gmap bytes bytes) : gmap bytes bytes :=
  fold_left (λ m '(k, v), <[k := v]> m) kvs m.

Lemma batch_cache kvs t :
  for_each (E:=RocksTrieDBError) (λ '(key, val), modify (cache_insert key val)) kvs t =
  (set_td_cache (put_all kvs (td_cache t)) t, Ok tt).
Proof.
  revert t. induction kvs as [|[k v] kvs IH]; intros t; [by destruct t|]. cbn [for_each].
  rewrite bind_modify, IH. done.
Qed.

Lemma put_all_foldr kvs m : foldr (λ '(k, v) m, <[k := v]> m) m (reverse kvs) = put_all kvs m.
Proof.
  revert m. induction kvs as [|[k v] kvs IH]; intros m; [done|].
  rewrite reverse_cons, foldr_app. cbn. apply IH.
Qed.

Lemma put_all_mono (kvs : list (bytes * bytes)) (m1 m2 : gmap bytes bytes) : m1 ⊆ m2 → put_all kvs m1 ⊆ put_all kvs m2.
Proof.
  unfold put_all. revert m1 m2. induction kvs as [|[k v] kvs IH]; intros m1 m2 Hm; [done|].
  cbn. apply IH. by apply insert_mono.
Qed.

(** *** Evicting *)
Lemma rand_remove_list_eq {A} (keys : list A) num : (num < length keys)%nat →
  rand_remove_list keys num = remove_loop keys 0 num (length keys - 1) (seq 0 (length keys - 1)) [].
Proof. destruct keys; cbn; [lia|done]. Qed.

Section evict.
Context {A : Type} (keys : list A) (Hnd : NoDup keys).

Lemma remove_loop_ok num : ∀ k len idx_list ret, (num ≤ len)%nat → length idx_list = len →
  NoDup idx_list → (∀ i, i ∈ idx_list → (i < length keys)%nat) →
  NoDup ret → (∀ x, x ∈ ret → x ∈ keys) → (∀ i x, i ∈ idx_list → keys !! i = Some x → x ∉ ret) →
  ∃ r, remove_loop keys k num len idx_list ret = Ok r ∧ length r = (length ret + num)%nat ∧ NoDup r ∧
    ∀ x, x ∈ r → x ∈ keys.
Proof.
  induction num as [|num IH]; intros k len idx ret Hle Hlen Hni Hi Hnr Hr Hdis; cbn [remove_loop].
  { exists ret. split_and!; [done|lia|done..]. }
  rewrite decide_False by lia. pose proof (small_range_lt k len ltac:(lia)) as Htmp.
  destruct (lookup_lt_is_Some_2 idx (small_range k len)) as [i Hidx]; [lia|]. rewrite Hidx. cbn.
  assert (Hin : i ∈ idx) by (by eapply list_elem_of_lookup_2).
  destruct (lookup_lt_is_Some_2 keys i) as [x Hx]; [by apply Hi|]. rewrite Hx. cbn.
  assert (Hsub : ∀ j, j ∈ delete (small_range k len) idx → j ∈ idx ∧ j ≠ i).
  { intros j Hj. rewrite (delete_Permutation _ _ _ Hidx) in Hni. apply NoDup_cons in Hni as [Hnot _].
    split; [|by intros ->]. rewrite (delete_Permutation _ _ _ Hidx). by right. }
  destruct (IH (S k) (len - 1)%nat (delete (small_range k len) idx) (ret ++ [x])) as (r & Hrun & Hl & Hn & Hk).
  - lia.
  - rewrite length_delete by eauto. lia.
  - rewrite (delete_Permutation _ _ _ Hidx) in Hni. by apply NoDup_cons in Hni as [_ ?].
  - intros j [Hj _]%Hsub. by apply Hi.
  - apply NoDup_app. split_and!; [done| |apply NoDup_singleton].
    intros y Hy ->%list_elem_of_singleton. by eapply Hdis.
  - intros y [Hy| ->%list_elem_of_singleton]%elem_of_app; [by apply Hr|by eapply list_elem_of_lookup_2].
  - intros j y [Hj Hne]%Hsub Hy [Hy'| ->%list_elem_of_singleton]%elem_of_app; [by eapply Hdis|].
    apply Hne. exact (NoDup_lookup _ _ _ _ Hnd Hy Hx).
  - exists r. rewrite length_app in Hl. cbn in Hl. split_and!; try done. lia.
Qed.

Lemma rand_remove_list_ok num : (num < length keys)%nat →
  ∃ r, rand_remove_list keys num = Ok r ∧ length r = num ∧ NoDup r ∧ ∀ x, x ∈ r → x ∈ keys.
Proof.
  intros Hlt. rewrite rand_remove_list_eq by done.
  destruct (remove_loop_ok num 0 (length keys - 1) (seq 0 (length keys - 1)) []) as (r & Hrun & Hl & Hn & Hr).
  - lia.
  - apply length_seq.
  - apply NoDup_seq.
  - intros i Hi%elem_of_seq. lia.
  - constructor.
  - by intros x ?%not_elem_of_nil.
  - by intros i x _ _ ?%not_elem_of_nil.
  - by exists r.
Qed.
End evict.

Lemma foldr_delete_subseteq (r : list bytes) (m : gmap bytes bytes) : foldr delete m r ⊆ m.
Proof. induction r as [|x r IH]; cbn; [done|]. etransitivity; [apply delete_subseteq|done]. Qed.

Lemma remove_loop_panic {A} (keys : list A) num : ∀ k len idx_list ret, (len < num)%nat →
  length idx_list = len → (∀ i, i ∈ idx_list → (i < length keys)%nat) →
  remove_loop keys k num len idx_list ret = Panic.
Proof.
  induction num as [|num IH]; intros k len idx ret Hlt Hlen Hi; cbn [remove_loop]; [lia|].
  case_decide; [done|]. pose proof (small_range_lt k len ltac:(lia)) as Htmp.
  destruct (lookup_lt_is_Some_2 idx (small_range k len)) as [i Hidx]; [lia|]. rewrite Hidx. cbn.
  destruct (lookup_lt_is_Some_2 keys i) as [x Hx]; [apply Hi; by eapply list_elem_of_lookup_2|]. rewrite Hx. cbn.
  apply IH; [lia|rewrite length_delete by eauto; lia|].
  intros j Hj. apply Hi. rewrite (delete_Permutation _ _ _ Hidx). by right.
Qed.

Lemma size_foldr_delete (r : list bytes) (m : gmap bytes bytes) : NoDup r → (∀ x, x ∈ r → is_Some (m !! x)) →
  size (foldr delete m r) = (size m - length r)%nat.
Proof.
  induction r as [|x r IH]; intros Hnd Hin; cbn; [lia|]. apply NoDup_cons in Hnd as [Hx Hnd].
  rewrite map_size_delete. destruct (Hin x) as [v Hv]; [left|].
  rewrite lookup_foldr_delete_not_elem_of, Hv by done. rewrite IH by (try done; intros; apply Hin; by right). lia.
Qed.

(** ** Properties *)

(** C29: The cached store implements the plain store.  From a state whose
    cache agrees with the store, and while RocksDB does not fail, reads return
    what the store holds, writes and batches change the store by exactly the
    entries written, a flush changes nothing but the cache, and the cache keeps
    agreeing; a flush also leaves the cache within its size, which must not be
    zero. *)
Theorem trie_db_refines t : coherent t → (0 < cache_size t)%nat →
  (∀ key, ∃ t', trie_get false key t = (t', Ok (td_db t !! key)) ∧ coherent t' ∧ td_db t' = td_db t) ∧
  (∀ key, ∃ t', trie_contains false key t = (t', Ok (bool_decide (is_Some (td_db t !! key)))) ∧
     coherent t' ∧ td_db t' = td_db t) ∧
  (∀ key value, ∃ t', trie_insert false key value t = (t', Ok tt) ∧ coherent t' ∧
     td_db t' = <[key := value]> (td_db t)) ∧
  (∀ keys values, length keys = length values → ∃ t', trie_insert_batch false keys values t = (t', Ok tt) ∧
     coherent t' ∧ td_db t' = put_all (zip keys values) (td_db t)) ∧
  ∃ t', trie_flush t = (t', Ok tt) ∧ coherent t' ∧ td_db t' = td_db t ∧ (size (td_cache t') ≤ cache_size t)%nat.
Proof.
  intros Hc Hpos. split_and!.
  - intros key. by apply inner_get_ok.
  - intros key. unfold trie_contains. rewrite bind_gets. destruct (td_cache t !! key) as [v|] eqn:E.
    { exists t. rewrite (coherent_lookup t key v), bool_decide_true by done. done. }
    cbn. rewrite bind_gets. destruct (td_db t !! key) as [v|] eqn:Ed; [|by exists t].
    rewrite bind_modify. eexists. split; [done|]. split; [|done]. by apply insert_subseteq_l.
  - intros key value. eexists. split; [done|]. split; [|done]. by apply insert_mono.
  - intros keys values Hl. unfold trie_insert_batch. rewrite decide_False by (intros ?; done).
    rewrite (bind_ok _ _ _ _ _ (batch_cache _ _)). eexists. split; [done|]. cbn. rewrite put_all_foldr.
    split; [|done]. by apply put_all_mono.
  - unfold trie_flush. rewrite bind_gets. destruct (_ <=? _)%nat eqn:E.
    { exists t. apply Nat.leb_le in E. by split_and!. }
    apply Nat.leb_gt in E. set (keys := (map_to_list (td_cache t)).*1).
    assert (Hk : length keys = size (td_cache t)) by (unfold keys; by rewrite length_fmap, length_map_to_list).
    destruct (rand_remove_list_ok keys (NoDup_fst_map_to_list _) (size (td_cache t) - cache_size t)) as
      (r & -> & Hl & Hn & Hr); [lia|].
    rewrite bind_lift_ok. eexists. split; [done|]. cbn. split_and!; [|done|].
    + unfold coherent. cbn. etransitivity; [apply foldr_delete_subseteq|exact Hc].
    + rewrite size_foldr_delete; [lia|done|]. intros x Hx%Hr.
      apply list_elem_of_fmap in Hx as ([k v] & -> & Hkv%elem_of_map_to_list). by eexists.
Qed.

(** A write that RocksDB refuses stays in the cache, and is read back as if it
    had been stored. *)
Theorem failed_insert_visible key value t : ∃ t',
  trie_insert true key value t = (t', Err Store) ∧ td_db t' = td_db t ∧
  trie_get false key t' = (t', Ok (Some value)).
Proof.
  eexists. split; [done|]. split; [done|]. unfold trie_get, inner_get. rewrite bind_gets. cbn.
  by rewrite lookup_insert_eq.
Qed.

(** With a cache size of zero, flushing a cache that holds anything panics. *)
Theorem flush_zero_panics t : cache_size t = 0%nat → td_cache t ≠ ∅ → (trie_flush t).2 = Panic.
Proof.
  intros Hz Hne. unfold trie_flush. rewrite bind_gets, Hz.
  assert (size (td_cache t) ≠ 0%nat) as Hs by (by apply map_size_non_empty_iff).
  rewrite (proj2 (Nat.leb_gt _ _)) by lia. rewrite Nat.sub_0_r.
  assert (Hk : length (map_to_list (td_cache t)).*1 = size (td_cache t)) by (by rewrite length_fmap, length_map_to_list).
  destruct ((map_to_list (td_cache t)).*1) as [|k ks] eqn:E; [cbn in Hk; lia|]. unfold rand_remove_list.
  rewrite remove_loop_panic; [done|cbn in *; lia|apply length_seq|]. intros i Hi%elem_of_seq. cbn in *. lia.
Qed.
End trie_db.

(** ** Examples *)
Section examples.
Definition zero_rng : SmallRng.
Proof. refine {| small_range _ _ := 0%nat |}. lia. Defined.
#[local] Existing Instance zero_rng.

Definition ex_trie : RocksTrieDB :=
  mkRocksTrieDB {[ [x01] := [x0a]; [x02] := [x0b] ]} {[ [x01] := [x0a]; [x02] := [x0b] ]} 1.

Lemma trie_db_refines_witness : ∃ t', trie_flush ex_trie = (t', Ok tt) ∧ td_db t' = td_db ex_trie ∧
  (size (td_cache t') ≤ 1)%nat.
Proof.
  destruct (trie_db_refines ex_trie) as (_ & _ & _ & _ & t' & Hrun & _ & Hdb & Hs);
    [unfold coherent; cbn; reflexivity|cbn; lia|].
  by exists t'.
Defined.
End examples.
