(* ===== verification/Blake2.v ===== *)
(** * The BLAKE2b compression precompile

    [core/executor/src/precompiles/blake2_f.rs] (EIP-152), and the types the
    precompiles share ([mod.rs]). *)

From S2P Require Import Prelude Types.

Local Open Scope Z_scope.

(** ** Precompiles *)
(** [PrecompileFailure::Error] with its exit status, which the macro [err!]
    makes of nothing or of a message. *)
Record PrecompileFailure := PrecompileError { pf_exit_status : ExitError }.
Abbreviation OtherError msg := (PrecompileError (Other msg)).

(** [exit_status] is always [Returned] and [logs] always empty. *)
Record PrecompileOutput := mkPrecompileOutput { po_cost : Z; po_output : bytes }.

Abbreviation Precompile := (bytes → option Z → outcome PrecompileFailure PrecompileOutput).

(** The test every precompile makes of [gas_limit]. *)
Definition check_gas (gas : Z) (gas_limit : option Z) : outcome PrecompileFailure unit :=
  match gas_limit with
  | Some limit => if limit <? gas then Err (PrecompileError OutOfGas) else Ok tt
  | None => Ok tt
  end.

(** [&input[i..j]] *)
Definition slice (i j : nat) (input : bytes) : bytes := take (j - i) (drop i input).

(** ** 64-bit words *)
Definition wrapping_add (a b : Z) : Z := wrap64 (a + b).
Definition rotate_right (x n : Z) : Z := Z.lor (Z.shiftr x n) (wrap64 (Z.shiftl x (64 - n))).
Definition not64 (x : Z) : Z := Z.lxor x (2 ^ 64 - 1).

(** ** Parsing *)
Definition INPUT_LEN : nat := Z.to_nat 213.
Definition parse_round (input : bytes) : Z := from_be_bytes (slice 0 4 input).
Definition words (n : nat) (buf : bytes) : list Z :=
  (λ i, from_le_bytes (slice (i * 8) ((i + 1) * 8) buf)) <$> seq 0 n.
Definition parse_h (input : bytes) : list Z := words 8 (slice 4 68 input).
Definition parse_m (input : bytes) : list Z := words 16 (slice 68 196 input).
Definition parse_t (input : bytes) : Z * Z :=
  (from_le_bytes (slice 196 204 input), from_le_bytes (slice 204 212 input)).

(** ** The compression function *)
Definition SIGMA : list (list nat) :=
  [[0; 1; 2; 3; 4; 5; 6; 7; 8; 9; 10; 11; 12; 13; 14; 15];
   [14; 10; 4; 8; 9; 15; 13; 6; 1; 12; 0; 2; 11; 7; 5; 3];
   [11; 8; 12; 0; 5; 2; 15; 13; 10; 14; 3; 6; 7; 1; 9; 4];
   [7; 9; 3; 1; 13; 12; 11; 14; 2; 6; 5; 10; 4; 0; 15; 8];
   [9; 0; 5; 7; 2; 4; 10; 15; 14; 1; 11; 12; 6; 8; 3; 13];
   [2; 12; 6; 10; 0; 11; 8; 3; 4; 13; 7; 5; 15; 14; 1; 9];
   [12; 5; 1; 15; 14; 13; 4; 10; 0; 7; 6; 3; 9; 2; 8; 11];
   [13; 11; 7; 14; 12; 1; 3; 9; 5; 0; 15; 4; 8; 6; 2; 10];
   [6; 15; 14; 9; 11; 3; 0; 8; 12; 2; 13; 7; 1; 4; 10; 5];
   [10; 2; 8; 4; 7; 6; 1; 5; 15; 11; 9; 14; 3; 12; 13; 0]]%nat.

Definition IV : list Z :=
  [0x6a09e667f3bcc908; 0xbb67ae8584caa73b; 0x3c6ef372fe94f82b; 0xa54ff53a5f1d36f1;
   0x510e527fade682d1; 0x9b05688c2b3e6c1f; 0x1f83d9abfb41bd6b; 0x5be0cd19137e2179].

(** [v[i]]; every index of the code is below sixteen. *)
Definition at_ (v : list Z) (i : nat) : Z := default 0 (v !! i).

Definition g (v : list Z) (a b c d : nat) (x y : Z) : list Z :=
  let v := <[a := wrapping_add (wrapping_add (at_ v a) (at_ v b)) x]> v in
  let v := <[d := rotate_right (Z.lxor (at_ v d) (at_ v a)) 32]> v in
  let v := <[c := wrapping_add (at_ v c) (at_ v d)]> v in
  let v := <[b := rotate_right (Z.lxor (at_ v b) (at_ v c)) 24]> v in
  let v := <[a := wrapping_add (wrapping_add (at_ v a) (at_ v b)) y]> v in
  let v := <[d := rotate_right (Z.lxor (at_ v d) (at_ v a)) 16]> v in
  let v := <[c := wrapping_add (at_ v c) (at_ v d)]> v in
  <[b := rotate_right (Z.lxor (at_ v b) (at_ v c)) 63]> v.

(** The [i]-th round. *)
Definition round (m : list Z) (v : list Z) (i : nat) : list Z :=
  let s j := at_ m (default 0%nat (default [] (SIGMA !! (i mod 10)%nat) !! j)) in
  let v := g v 0 4 8 12 (s 0%nat) (s 1%nat) in
  let v := g v 1 5 9 13 (s 2%nat) (s 3%nat) in
  let v := g v 2 6 10 14 (s 4%nat) (s 5%nat) in
  let v := g v 3 7 11 15 (s 6%nat) (s 7%nat) in
  let v := g v 0 5 10 15 (s 8%nat) (s 9%nat) in
  let v := g v 1 6 11 12 (s 10%nat) (s 11%nat) in
  let v := g v 2 7 8 13 (s 12%nat) (s 13%nat) in
  g v 3 4 9 14 (s 14%nat) (s 15%nat).

Definition compress (h m : list Z) (t : Z * Z) (f : bool) (rounds : nat) : list Z :=
  let v := h ++ IV in
  let v := <[12%nat := Z.lxor (at_ v 12) t.1]> v in
  let v := <[13%nat := Z.lxor (at_ v 13) t.2]> v in
  let v := if f then <[14%nat := not64 (at_ v 14)]> v else v in
  let v := fold_left (round m) (seq 0 rounds) v in
  (λ i, Z.lxor (at_ h i) (Z.lxor (at_ v i) (at_ v (i + 8)))) <$> seq 0 8.

(** ** The precompile *)
Definition blake2f_gas_cost (input : bytes) : Z := parse_round input * 1.

Definition blake2f : Precompile := λ input gas_limit,
  if decide (length input ≠ INPUT_LEN) then Err (OtherError "Input length must be 213") else
  let gas := blake2f_gas_cost input in
  _ ← check_gas gas gas_limit;
  let rounds := parse_round input in
  let last := Z_of_byte (default x00 (input !! 212%nat)) in
  f ← (if last =? 1 then Ok true else if last =? 0 then Ok false
       else Err (OtherError "Invalid f value"));
  let h := compress (parse_h input) (parse_m input) (parse_t input) f (Z.to_nat rounds) in
  Ok (mkPrecompileOutput gas (concat (to_le_bytes 8 <$> h))).

(** ** Lemmas *)
(** A 64-bit word. *)
Abbreviation word := (in_width 64).

Lemma word_lxor a b : word a → word b → word (Z.lxor a b).
Proof.
  unfold in_width. intros Ha Hb. split; [apply Z.lxor_nonneg; lia|].
  destruct (decide (Z.lxor a b = 0)) as [->|]; [lia|].
  apply Z.log2_lt_pow2; [assert (0 ≤ Z.lxor a b) by (apply Z.lxor_nonneg; lia); lia|].
  eapply Z.le_lt_trans; [apply Z.log2_lxor; lia|].
  apply Z.max_lub_lt; (destruct (decide (0 < a)), (decide (0 < b));
    first [apply Z.log2_lt_pow2; lia|rewrite Z.log2_nonpos by lia; lia]).
Qed.
Lemma word_wrap z : word (wrap64 z).
Proof. unfold in_width, wrap64. apply Z.mod_pos_bound. lia. Qed.
Lemma word_lor a b : word a → word b → word (Z.lor a b).
Proof.
  unfold in_width. intros Ha Hb. split; [apply Z.lor_nonneg; lia|].
  destruct (decide (Z.lor a b = 0)) as [->|]; [lia|].
  apply Z.log2_lt_pow2; [assert (0 ≤ Z.lor a b) by (apply Z.lor_nonneg; lia); lia|].
  rewrite Z.log2_lor by lia.
  apply Z.max_lub_lt; (destruct (decide (0 < a)), (decide (0 < b));
    first [apply Z.log2_lt_pow2; lia|rewrite Z.log2_nonpos by lia; lia]).
Qed.
Lemma word_rotate x n : 0 ≤ n → word x → word (rotate_right x n).
Proof.
  intros Hn Hx. apply word_lor; [|apply word_wrap]. unfold in_width in *. rewrite Z.shiftr_div_pow2 by done.
  split; [apply Z.div_pos; lia|]. eapply Z.le_lt_trans; [|apply Hx]. apply Z.div_le_upper_bound; nia.
Qed.
