(* ===== verification/Precompiles.v ===== *)
(** * The precompiled contracts

    The rest of [core/executor/src/precompiles]: the identity and hash
    contracts, signature recovery, modular exponentiation, the curve
    operations, the call into CKB-VM, and the set the executor installs.  The
    crates they compute with are classes. *)

From S2P Require Import Prelude Types Codec Traits Interoperation Blake2.

Local Open Scope Z_scope.

(** ** External crates *)
Class HashCrates := { sha256_digest : bytes → bytes; ripemd160_digest : bytes → bytes }.

(** [rug::Integer]: digits are most significant first, [to_digits] gives as few
    as hold the number, and a power modulo a positive number exists. *)
Class Rug := {
  from_digits : bytes → Z;
  to_digits : Z → bytes;
  significant_bits : Z → Z;
  pow_mod : Z → Z → Z → option Z;
  from_digits_spec l : from_digits l = from_be_bytes l;
  to_digits_value z : 0 ≤ z → from_be_bytes (to_digits z) = z;
  to_digits_fits z n : 0 ≤ z < 256 ^ Z.of_nat n → (length (to_digits z) ≤ n)%nat;
  significant_bits_zero : significant_bits 0 = 0;
  significant_bits_pos z : 0 < z → significant_bits z = Z.log2 z + 1;
  pow_mod_spec b e m : 0 ≤ b → 0 ≤ e → 0 < m → pow_mod b e m = Some (b ^ e mod m)
}.

(** [common_crypto]: a public key recovered from a signature of 65 bytes, as
    its uncompressed serialization. *)
Class Secp256k1Recover := {
  recoverable_signature : bytes → option bytes;
  secp256k1_recover : bytes → bytes → option bytes
}.

(** [bn]: field elements, the points of the two groups and the pairing. *)
Class Bn := {
  Fq : Type; Fr : Type; Fq2 : Type; G1 : Type; G2 : Type; Gt : Type;
  fq_from_slice : bytes → option Fq;
  fq_is_zero : Fq → bool;
  fq_to_big_endian : Fq → option bytes;
  fr_from_slice : bytes → option Fr;
  fq2_new : Fq → Fq → Fq2;
  fq2_is_zero : Fq2 → bool;
  g1_zero : G1;
  affine_g1_new : Fq → Fq → option G1;
  affine_from_jacobian : G1 → option (Fq * Fq);
  g1_add : G1 → G1 → G1;
  g1_mul : G1 → Fr → G1;
  g2_zero : G2;
  affine_g2_new : Fq2 → Fq2 → option G2;
  pairing_batch : list (G1 * G2) → Gt;
  gt_is_one : Gt → bool;
  fq_to_big_endian_length x b : fq_to_big_endian x = Some b → length b = 32%nat
}.

(** ** Identity and hashes *)
Definition data_word_size (input : bytes) : Z := (Z.of_nat (length input) + 31) / 32.

Definition identity_gas_cost (input : bytes) : Z := data_word_size input * 3 + 15.
Definition identity : Precompile := λ input gas_limit,
  let gas := identity_gas_cost input in
  _ ← check_gas gas gas_limit;
  Ok (mkPrecompileOutput gas input).

Section hashes.
Context `{!HashCrates}.

Definition sha256_gas_cost (input : bytes) : Z := data_word_size input * 12 + 60.
Definition sha256 : Precompile := λ input gas_limit,
  let gas := sha256_gas_cost input in
  _ ← check_gas gas gas_limit;
  Ok (mkPrecompileOutput gas (sha256_digest input)).

Definition ripemd160_gas_cost (input : bytes) : Z := data_word_size input * 120 + 600.
Definition ripemd160 : Precompile := λ input gas_limit,
  let gas := ripemd160_gas_cost input in
  _ ← check_gas gas gas_limit;
  Ok (mkPrecompileOutput gas (ripemd160_digest input)).
End hashes.

(** ** Signature recovery *)
(** [v] is the last of 32 bytes, the others zero; the signature is [r ++ s ++ [v]]. *)
Definition recover_signature (input : bytes) : option bytes :=
  let tmp := slice 32 64 input in
  let v := Z_of_byte (default x00 (tmp !! 31%nat)) in
  if ((v =? 27) || (v =? 28)) && bool_decide (take 31 tmp = replicate 31 x00)
  then Some (slice 64 128 input ++ [byte_of_Z (v - 27)])
  else None.

Section ecrecover.
Context `{K : Keccak} `{!Secp256k1Recover}.

Definition ecrecover_gas_cost (input : bytes) : Z := 3000.
Definition ecrecover : Precompile := λ origin_input gas_limit,
  let gas := ecrecover_gas_cost origin_input in
  _ ← check_gas gas gas_limit;
  let len := Nat.min (length origin_input) 128 in
  let input := take len origin_input ++ replicate (128 - len) x00 in
  match recover_signature input with
  | None => Err (OtherError "Invalid signature")
  | Some sig =>
      match recoverable_signature sig ≫= λ s, secp256k1_recover s (slice 0 32 input) with
      | Some p => Ok (mkPrecompileOutput gas (replicate 12 x00 ++ to_be_bytes 32 (digest p)))
      | None => Err (OtherError "Verify signature failed")
      end
  end.
End ecrecover.

(** ** Modular exponentiation *)
Record LargeNumber := mkLargeNumber {
  b_size : nat; e_size : nat; m_size : nat; base : Z; exponent : Z; modulo : Z }.

Section modexp.
Context `{!Rug}.

Definition MAX_NUM_SIZE : Z := 1024.
Definition parse_big_uint (input : bytes) (is_parse_size : bool) : outcome PrecompileFailure Z :=
  let res := from_digits input in
  if is_parse_size && (MAX_NUM_SIZE <? res) then Err (OtherError "The big size must be at most 1024")
  else Ok res.

Definition LargeNumber_parse (input : bytes) : outcome PrecompileFailure LargeNumber :=
  let input_len := length input in
  if (input_len <? 96)%nat then Err (OtherError "Input length must be at least 96") else
  base_size ← Z.to_nat <$> parse_big_uint (slice 0 32 input) true;
  exponent_size ← Z.to_nat <$> parse_big_uint (slice 32 64 input) true;
  modulo_size ← Z.to_nat <$> parse_big_uint (slice 64 96 input) true;
  let total_len := (base_size + exponent_size + modulo_size + 96)%nat in
  if (input_len <? total_len)%nat then Err (OtherError "Insufficient input len") else
  let e_start := (96 + base_size)%nat in
  let m_start := (e_start + exponent_size)%nat in
  base ← parse_big_uint (slice 96 e_start input) false;
  exponent ← parse_big_uint (slice e_start m_start input) false;
  modulo ← parse_big_uint (drop m_start input) false;
  Ok (mkLargeNumber base_size exponent_size modulo_size base exponent modulo).

Definition multiplication_complexity (n : LargeNumber) : Z :=
  ((Z.of_nat (Nat.max (b_size n) (m_size n)) + 7) / 8) ^ 2.

(** [significant_bits() - 1] is [u32] arithmetic. *)
Definition iterator_count (n : LargeNumber) : outcome PrecompileFailure Z :=
  iter_count ←
    (if (e_size n <=? 32)%nat && (exponent n =? 0) then Ok 0
     else if (e_size n <=? 32)%nat then u64_sub (significant_bits (exponent n)) 1
     else
       bits ← u64_sub (significant_bits (Z.land (exponent n) (2 ^ 256 - 1))) 1;
       Ok (8 * (Z.of_nat (e_size n) - 32) + bits));
  Ok (Z.max iter_count 1).

Definition calc (n : LargeNumber) : outcome PrecompileFailure Z :=
  if decide (b_size n = 0%nat ∧ m_size n = 0%nat) then Ok 0
  else ok_or (pow_mod (base n) (exponent n) (modulo n)) (OtherError "Overflow").

(** The parse is unwrapped, and the cost must fit a [u64]. *)
Definition modexp_gas_cost (input : bytes) : outcome PrecompileFailure Z :=
  match LargeNumber_parse input with
  | Ok n =>
      count ← iterator_count n;
      as_u64 (Z.max (multiplication_complexity n * count / 3) 200)
  | _ => Panic
  end.

Definition modexp : Precompile := λ input gas_limit,
  large_number ← LargeNumber_parse input;
  gas ← modexp_gas_cost input;
  _ ← check_gas gas gas_limit;
  res ← to_digits <$> calc large_number;
  let res_len := length res in
  let m_size := m_size large_number in
  if (m_size <? res_len)%nat then Err (OtherError "Exec failed")
  else Ok (mkPrecompileOutput gas (replicate (m_size - res_len) x00 ++ res)).
End modexp.

(** ** Curve operations *)
Section bn.
Context `{!Bn}.

Definition read_point (input : bytes) (start : nat) : outcome PrecompileFailure G1 :=
  if (length input <? start + 64)%nat then Err (OtherError "Invalid input length") else
  px ← ok_or (fq_from_slice (slice start (start + 32) input)) (OtherError "Invalid X coordinate");
  py ← ok_or (fq_from_slice (slice (start + 32) (start + 64) input)) (OtherError "Invalid Y coordinate");
  if fq_is_zero px && fq_is_zero py then Ok g1_zero
  else ok_or (affine_g1_new px py) (OtherError "Invalid curve point").

Definition read_fr (input : bytes) (start : nat) : outcome PrecompileFailure Fr :=
  if (length input <? start + 32)%nat then Err (OtherError "Invalid input length") else
  ok_or (fr_from_slice (slice start (start + 32) input)) (OtherError "Invalid field element").

(** The coordinates of a sum, or sixty-four zeros. *)
Definition write_point (sum : G1) : outcome PrecompileFailure bytes :=
  match affine_from_jacobian sum with
  | Some (x, y) =>
      bx ← ok_or (fq_to_big_endian x) (OtherError "Invalid sum X");
      by_ ← ok_or (fq_to_big_endian y) (OtherError "Invalid sum Y");
      Ok (bx ++ by_)
  | None => Ok (replicate 64 x00)
  end.

Definition ec_add_gas_cost (input : bytes) : Z := 150.
Definition ec_add : Precompile := λ input gas_limit,
  let gas := ec_add_gas_cost input in
  _ ← check_gas gas gas_limit;
  p1 ← read_point input 0;
  p2 ← read_point input 64;
  res ← write_point (g1_add p1 p2);
  Ok (mkPrecompileOutput gas res).

Definition ec_mul_gas_cost (input : bytes) : Z := 6000.
Definition ec_mul : Precompile := λ input gas_limit,
  let gas := ec_mul_gas_cost input in
  _ ← check_gas gas gas_limit;
  p ← read_point input 0;
  fr ← read_fr input 64;
  res ← write_point (g1_mul p fr);
  Ok (mkPrecompileOutput gas res).

Definition GROUP_ARGS_LEN : nat := Z.to_nat 192.
Definition elements (input : bytes) : nat := length input / GROUP_ARGS_LEN.
Definition ec_pairing_gas_cost (input : bytes) : Z := Z.of_nat (elements input) * 34000 + 45000.

Definition read_fq (input : bytes) (i offset : nat) (msg : string) : outcome PrecompileFailure Fq :=
  let start := (i * GROUP_ARGS_LEN + offset)%nat in
  ok_or (fq_from_slice (slice start (start + 32) input)) (OtherError msg).

Definition read_pair (input : bytes) (i : nat) : outcome PrecompileFailure (G1 * G2) :=
  a_x ← read_fq input i 0 "Invalid X coordinate";
  a_y ← read_fq input i 32 "Invalid Y coordinate";
  b_a_y ← read_fq input i 64 "Invalid imaginary coeff X coordinate";
  b_a_x ← read_fq input i 96 "Invalid imaginary coeff Y coordinate";
  b_b_y ← read_fq input i 128 "Invalid real coeff X coordinate";
  b_b_x ← read_fq input i 160 "Invalid real coeff Y coordinate";
  let b_a := fq2_new b_a_x b_a_y in
  let b_b := fq2_new b_b_x b_b_y in
  a ← (if fq_is_zero a_x && fq_is_zero a_y then Ok g1_zero
       else ok_or (affine_g1_new a_x a_y) (OtherError "Not on curve"));
  b ← (if fq2_is_zero b_a && fq2_is_zero b_b then Ok g2_zero
       else ok_or (affine_g2_new b_a b_b) (OtherError "Not on curve"));
  Ok (a, b).

Definition ec_pairing : Precompile := λ input gas_limit,
  match input with
  | [] => Ok (mkPrecompileOutput 45000 (to_be_bytes 32 1))
  | _ =>
      let gas := ec_pairing_gas_cost input in
      _ ← check_gas gas gas_limit;
      pairs ← traverse (read_pair input) (seq 0 (elements input));
      Ok (mkPrecompileOutput gas (to_be_bytes 32 (if gt_is_one (pairing_batch pairs) then 1 else 0)))
  end.
End bn.

(** ** CKB-VM *)
(** The contract at [0xff], which the set leaves out. *)
Definition ckb_vm `{R : Rlp} `{!Interoperation} : Precompile := λ input gas_limit,
  match gas_limit with
  | Some gas =>
      let rlp := rlp_new input in
      code_hash ← map_err (λ _, OtherError "rlp") (val_at c_h256 rlp 0);
      args ← map_err (λ _, OtherError "rlp") (list_at c_bytes rlp 1);
      cycles ← gas_to_cycle gas;
      res ← map_err (λ _, OtherError "ckb-vm") (call_ckb_vm ∅ code_hash args cycles);
      Ok (mkPrecompileOutput (Z.max (cycle_to_gas (vm_cycles res)) 500)
            (to_le_bytes 1 (vm_exit_code res)))
  | None => Err (PrecompileError OutOfGas)
  end.

(** ** The set *)
Definition build_precompile_set `{K : Keccak} `{!HashCrates} `{!Rug} `{!Secp256k1Recover} `{!Bn}
    : gmap H160 Precompile :=
  fold_left (λ set c, <[c.1 := c.2]> set)
    [(1, ecrecover); (2, sha256); (3, ripemd160); (4, identity); (5, modexp); (6, ec_add);
     (7, ec_mul); (8, ec_pairing); (9, blake2f)] ∅.
