(* ===== verification/PrecompileProps.v ===== *)
(** * Theorems on the precompiled contracts

    What a call is charged against its gas limit, which inputs panic, the
    value and the price of a modular exponentiation, and the outcome and test
    vectors of the BLAKE2b compression. *)

From Stdlib Require Import Ascii.
From S2P Require Import Prelude Types Codec RlpInstance Blake2 Precompiles.

Local Open Scope Z_scope.

(** ** Gas *)
Lemma Ok_inj {E A} (a b : A) : (Ok a : outcome E A) = Ok b → a = b.
Proof. by intros [= ->]. Qed.

(** The cost is within the limit, if there is one. *)
Definition within (limit : option Z) (g : Z) : Prop := ∀ l, limit = Some l → g ≤ l.

Lemma precompile_gas_ok g limit : check_gas g limit = Ok tt ↔ within limit g.
Proof.
  unfold check_gas, within. destruct limit as [l|]; [|by split].
  destruct (Z.ltb_spec l g); split; try done; [|intros _ l' [= <-]; lia].
  intros Hl. specialize (Hl l eq_refl). lia.
Qed.
Lemma check_gas_not_panic g limit : check_gas g limit ≠ Panic.
Proof. unfold check_gas. by repeat case_match. Qed.

(** What a successful call charges is within its limit. *)
Definition charges (f : Precompile) (input : bytes) : Prop :=
  ∀ limit out, f input limit = Ok out → within limit (po_cost out).

(** Walks the calls of a contract that succeeded. *)
Ltac ok_steps := repeat
  match goal with
  | E : (_ ≫= _) = Ok _ |- _ => apply outcome_inv in E as (? & ? & E)
  | E : check_gas _ _ = Ok _ |- _ => apply precompile_gas_ok in E
  | x : unit |- _ => destruct x
  | E : match ?x with _ => _ end = Ok _ |- _ => destruct x eqn:?; try discriminate E
  | E : Ok _ = Ok _ |- _ => apply Ok_inj in E as <-
  end.
(** The same of one that panicked. *)
Ltac panic_steps := repeat
  match goal with
  | E : (_ ≫= _) = Panic |- _ => apply outcome_panic_inv in E as [E|(? & ? & E)]
  | E : check_gas _ _ = Panic |- _ => by apply check_gas_not_panic in E
  | E : ok_or ?o _ = Panic |- _ => by destruct o
  | E : match ?x with _ => _ end = Panic |- _ => destruct x eqn:?; try discriminate E
  | E : Ok _ = Panic |- _ => discriminate E
  end.

Lemma charges_identity input : charges identity input.
Proof. intros limit out E. unfold identity in E. by ok_steps. Qed.
Lemma charges_blake2f input : charges blake2f input.
Proof.
  intros limit out E. unfold blake2f in E. case_decide; [done|].
  apply outcome_inv in E as ([] & Hg%precompile_gas_ok & E). apply outcome_inv in E as (f & _ & E).
  apply Ok_inj in E as <-. exact Hg.
Qed.
Lemma identity_not_panic input limit : identity input limit ≠ Panic.
Proof. intros E. unfold identity in E. panic_steps. Qed.
Lemma blake2f_not_panic input limit : blake2f input limit ≠ Panic.
Proof.
  intros E. unfold blake2f in E. case_decide; [done|].
  apply outcome_panic_inv in E as [E|(x & _ & E)]; [by apply check_gas_not_panic in E|].
  apply outcome_panic_inv in E as [E|(f & _ & E)]; [|discriminate E]. by repeat case_match.
Qed.

Section hashes.
Context `{K : Keccak} `{!HashCrates} `{!Secp256k1Recover}.
Lemma charges_sha256 input : charges sha256 input.
Proof. intros limit out E. unfold sha256 in E. by ok_steps. Qed.
Lemma charges_ripemd160 input : charges ripemd160 input.
Proof. intros limit out E. unfold ripemd160 in E. by ok_steps. Qed.
Lemma charges_ecrecover input : charges ecrecover input.
Proof. intros limit out E. unfold ecrecover in E. by ok_steps. Qed.
Lemma sha256_not_panic input limit : sha256 input limit ≠ Panic.
Proof. intros E. unfold sha256 in E. panic_steps. Qed.
Lemma ripemd160_not_panic input limit : ripemd160 input limit ≠ Panic.
Proof. intros E. unfold ripemd160 in E. panic_steps. Qed.
Lemma ecrecover_not_panic input limit : ecrecover input limit ≠ Panic.
Proof. intros E. unfold ecrecover in E. panic_steps. Qed.
End hashes.

Section curve.
Context `{!Bn}.
Lemma charges_ec_add input : charges ec_add input.
Proof. intros limit out E. unfold ec_add in E. by ok_steps. Qed.
Lemma charges_ec_mul input : charges ec_mul input.
Proof. intros limit out E. unfold ec_mul in E. by ok_steps. Qed.
Lemma charges_ec_pairing input : input ≠ [] → charges ec_pairing input.
Proof. intros Hne limit out E. destruct input; [done|]. unfold ec_pairing in E. by ok_steps. Qed.

Lemma read_point_not_panic input i : read_point input i ≠ Panic.
Proof. intros E. unfold read_point in E. panic_steps. Qed.
Lemma read_fr_not_panic input i : read_fr input i ≠ Panic.
Proof. intros E. unfold read_fr in E. panic_steps. Qed.
Lemma write_point_not_panic p : write_point p ≠ Panic.
Proof. intros E. unfold write_point in E. panic_steps. Qed.
Lemma read_pair_not_panic input i : read_pair input i ≠ Panic.
Proof. intros E. unfold read_pair, read_fq in E. panic_steps. Qed.
Lemma traverse_not_panic {E A B} (f : A → outcome E B) l : (∀ x, f x ≠ Panic) → traverse f l ≠ Panic.
Proof.
  intros Hf. induction l as [|x l IH]; [done|]. intros Ep. cbn in Ep.
  apply outcome_panic_inv in Ep as [Ep|(y & _ & Ep)]; [by apply Hf in Ep|].
  by apply outcome_panic_inv in Ep as [Ep|(ys & _ & Ep)].
Qed.

Lemma ec_add_not_panic input limit : ec_add input limit ≠ Panic.
Proof.
  intros E. unfold ec_add in E. panic_steps;
    first [by eapply read_point_not_panic|by eapply write_point_not_panic].
Qed.
Lemma ec_mul_not_panic input limit : ec_mul input limit ≠ Panic.
Proof.
  intros E. unfold ec_mul in E. panic_steps;
    first [by eapply read_point_not_panic|by eapply read_fr_not_panic|by eapply write_point_not_panic].
Qed.
Lemma ec_pairing_not_panic input limit : ec_pairing input limit ≠ Panic.
Proof.
  intros E. unfold ec_pairing in E. panic_steps. eapply traverse_not_panic; [|done].
  apply read_pair_not_panic.
Qed.
End curve.

(** ** Modular exponentiation *)
Section modexp.
Context `{!Rug}.

Lemma parse_size_ok l n : parse_big_uint l true = Ok n → n = from_be_bytes l ∧ 0 ≤ n ≤ 1024.
Proof.
  unfold parse_big_uint. rewrite from_digits_spec. cbn [andb].
  destruct (Z.ltb_spec MAX_NUM_SIZE (from_be_bytes l)); [done|]. intros [= <-].
  pose proof (from_be_bytes_range l). unfold MAX_NUM_SIZE in *. lia.
Qed.

(** The sizes and the exponent of a parsed input. *)
Lemma parse_ok input n : LargeNumber_parse input = Ok n →
  (b_size n ≤ 1024)%nat ∧ (e_size n ≤ 1024)%nat ∧ (m_size n ≤ 1024)%nat ∧
  0 ≤ exponent n < 256 ^ Z.of_nat (e_size n).
Proof.
  unfold LargeNumber_parse. destruct (_ <? 96)%nat; [done|]. intros E.
  apply outcome_inv in E as (bs & (b & [-> Hb]%parse_size_ok & ->)%outcome_fmap_inv & E).
  apply outcome_inv in E as (es & (e & [-> He]%parse_size_ok & ->)%outcome_fmap_inv & E).
  apply outcome_inv in E as (ms & (m & [-> Hm]%parse_size_ok & ->)%outcome_fmap_inv & E).
  destruct (Nat.ltb_spec (length input) (Z.to_nat (from_be_bytes (slice 0 32 input)) +
    Z.to_nat (from_be_bytes (slice 32 64 input)) + Z.to_nat (from_be_bytes (slice 64 96 input)) + 96)) as [|Hl];
    [done|].
  revert E. unfold parse_big_uint. cbn [andb mbind outcome_bind]. intros [= <-].
  cbn [b_size e_size m_size exponent]. do 3 (split; [lia|]). rewrite from_digits_spec.
  revert Hl. generalize (Z.to_nat (from_be_bytes (slice 0 32 input))), (Z.to_nat (from_be_bytes (slice 32 64 input))).
  intros bs es Hl.
  replace es with (length (slice (96 + bs) (96 + bs + es) input)) at 3; [apply from_be_bytes_range|].
  unfold slice. rewrite length_take, length_drop. lia.
Qed.

(** The bits of the exponent that count for the price. *)
Definition exponent_head (el : nat) (e : Z) : Z := if (el <=? 32)%nat then e else e mod 2 ^ 256.

(** EIP-2565: the iterations and the price. *)
Definition iterations (el : nat) (e : Z) : Z :=
  Z.max 1 (8 * Z.max 0 (Z.of_nat el - 32) + Z.log2 (exponent_head el e)).
Definition eip2565_cost (bl el ml : nat) (e : Z) : Z :=
  Z.max 200 (((Z.of_nat (Nat.max bl ml) + 7) / 8) ^ 2 * iterations el e / 3).

Lemma log2_head el e : 0 ≤ e < 256 ^ Z.of_nat el → 0 ≤ exponent_head el e < 2 ^ 256.
Proof.
  intros He. unfold exponent_head. destruct (Nat.leb_spec el 32); [|apply Z.mod_pos_bound; lia].
  split; [lia|]. eapply Z.lt_le_trans; [apply He|]. change 256 with (2 ^ 8) at 1. rewrite <-Z.pow_mul_r by lia.
  apply Z.pow_le_mono_r; lia.
Qed.

Lemma iterator_count_ok n : 0 ≤ exponent n →
  iterator_count n =
  if decide ((32 < e_size n)%nat ∧ exponent n mod 2 ^ 256 = 0) then Panic else Ok (iterations (e_size n) (exponent n)).
Proof.
  intros He. unfold iterator_count, iterations, exponent_head.
  destruct (Nat.leb_spec (e_size n) 32); cbn [andb].
  - rewrite decide_False by lia. destruct (Z.eqb_spec (exponent n) 0) as [->|].
    + cbn [mbind outcome_bind]. f_equal. change (Z.log2 0) with 0. lia.
    + rewrite significant_bits_pos by lia. pose proof (Z.log2_nonneg (exponent n)).
      rewrite u64_sub_small by lia. cbn [mbind outcome_bind]. f_equal. lia.
  - change (2 ^ 256 - 1) with (Z.ones 256). rewrite Z.land_ones by lia.
    pose proof (Z.mod_pos_bound (exponent n) (2 ^ 256) ltac:(lia)).
    destruct (decide (exponent n mod 2 ^ 256 = 0)) as [E|E].
    + rewrite decide_True by (split; [lia|done]). rewrite E, significant_bits_zero. done.
    + rewrite decide_False by tauto. rewrite significant_bits_pos by lia.
      pose proof (Z.log2_nonneg (exponent n mod 2 ^ 256)).
      rewrite u64_sub_small by lia. cbn [mbind outcome_bind]. f_equal. lia.
Qed.

Lemma gas_cost_ok input n : LargeNumber_parse input = Ok n →
  modexp_gas_cost input =
  if decide ((32 < e_size n)%nat ∧ exponent n mod 2 ^ 256 = 0) then Panic
  else Ok (eip2565_cost (b_size n) (e_size n) (m_size n) (exponent n)).
Proof.
  intros Hp. destruct (parse_ok _ _ Hp) as (Hb & He & Hm & Hx). unfold modexp_gas_cost. rewrite Hp.
  rewrite iterator_count_ok by lia. case_decide; [done|]. cbn [mbind outcome_bind].
  unfold multiplication_complexity, eip2565_cost. rewrite Z.max_comm. unfold as_u64.
  rewrite (proj2 (Z.ltb_lt _ _)); [done|]. apply Z.max_lub_lt; [lia|].
  pose proof (log2_head _ _ Hx) as Hh.
  assert (Z.log2 (exponent_head (e_size n) (exponent n)) ≤ 255).
  { destruct (decide (exponent_head (e_size n) (exponent n) = 0)) as [->|]; [cbn; lia|].
    apply Z.lt_succ_r, Z.log2_lt_pow2; lia. }
  assert (iterations (e_size n) (exponent n) ≤ 8192) by (unfold iterations; lia).
  assert (1 ≤ iterations (e_size n) (exponent n)) by (unfold iterations; lia).
  set (w := (Z.of_nat (b_size n `max` m_size n) + 7) / 8).
  assert (0 ≤ w ≤ 128). { unfold w. split; [apply Z.div_pos; lia|]. apply Z.lt_succ_r, Z.div_lt_upper_bound; lia. }
  apply Z.div_lt_upper_bound; [lia|]. nia.
Qed.

(** The inputs on which the price cannot be computed. *)
Definition modexp_panics (input : bytes) : Prop :=
  ∃ n, LargeNumber_parse input = Ok n ∧ (32 < e_size n)%nat ∧ exponent n mod 2 ^ 256 = 0.

Lemma parse_uint_not_panic l b : parse_big_uint l b ≠ Panic.
Proof. unfold parse_big_uint. by destruct (_ && _). Qed.
Lemma parse_not_panic input : LargeNumber_parse input ≠ Panic.
Proof.
  unfold LargeNumber_parse. destruct (_ <? 96)%nat; [done|]. intros E.
  do 3 (apply outcome_panic_inv in E as [E|(? & _ & E)];
    [destruct (parse_big_uint _ true) eqn:Hu; [done..|by apply parse_uint_not_panic in Hu]|]).
  destruct (_ <? _)%nat; [done|].
  do 3 (apply outcome_panic_inv in E as [E|(? & _ & E)]; [by apply parse_uint_not_panic in E|]). done.
Qed.

Lemma modexp_panic_iff input limit : modexp input limit = Panic ↔ modexp_panics input.
Proof.
  unfold modexp, modexp_panics. split.
  - intros E. apply outcome_panic_inv in E as [E|(n & Hp & E)]; [by apply parse_not_panic in E|].
    exists n. split; [done|]. rewrite (gas_cost_ok _ _ Hp) in E. case_decide as Hd; [done|].
    cbn [mbind outcome_bind] in E. apply outcome_panic_inv in E as [E|(? & _ & E)]; [by apply check_gas_not_panic in E|].
    unfold calc in E. apply outcome_panic_inv in E as [E|(? & _ & E)]; [|by destruct (_ <? _)%nat].
    case_decide; [done|]. by destruct (pow_mod _ _ _).
  - intros (n & Hp & Hd). rewrite Hp. cbn [mbind outcome_bind]. by rewrite (gas_cost_ok _ _ Hp), decide_True.
Qed.

Lemma charges_modexp input : charges modexp input.
Proof. intros limit out E. unfold modexp in E. by ok_steps. Qed.

(** *** A well-formed call *)
Lemma slice_app i j l1 l2 l3 : i = length l1 → j = (length l1 + length l2)%nat → slice i j (l1 ++ l2 ++ l3) = l2.
Proof. intros -> ->. unfold slice. rewrite drop_app_length, take_app_le by lia. apply take_ge. lia. Qed.

Lemma slice_app_0 j l2 l3 : j = length l2 → slice 0 j (l2 ++ l3) = l2.
Proof. apply (slice_app 0 j []). done. Qed.

Definition modexp_input (b e m : bytes) : bytes :=
  to_be_bytes 32 (Z.of_nat (length b)) ++ to_be_bytes 32 (Z.of_nat (length e)) ++
  to_be_bytes 32 (Z.of_nat (length m)) ++ b ++ e ++ m.

Lemma parse_size n : (n ≤ 1024)%nat →
  Z.to_nat <$> parse_big_uint (to_be_bytes 32 (Z.of_nat n)) true = (Ok n : outcome PrecompileFailure nat).
Proof.
  intros Hn. unfold parse_big_uint. rewrite from_digits_spec, from_to_be_bytes_id by (cbn; lia).
  unfold MAX_NUM_SIZE. rewrite (proj2 (Z.ltb_ge _ _)) by lia. cbn. by rewrite Nat2Z.id.
Qed.

Lemma parse_input b e m : (length b ≤ 1024)%nat → (length e ≤ 1024)%nat → (length m ≤ 1024)%nat →
  LargeNumber_parse (modexp_input b e m) = Ok (mkLargeNumber (length b) (length e) (length m)
    (from_be_bytes b) (from_be_bytes e) (from_be_bytes m)).
Proof.
  intros Hb He Hm. unfold LargeNumber_parse.
  assert (Hl : length (modexp_input b e m) = (96 + length b + length e + length m)%nat)
    by (unfold modexp_input; rewrite !length_app, !length_to_be_bytes; lia).
  rewrite Hl, (proj2 (Nat.ltb_ge _ 96)) by lia. unfold modexp_input.
  pose proof (parse_size _ Hb) as Pb. pose proof (parse_size _ He) as Pe. pose proof (parse_size _ Hm) as Pm.
  set (sb := to_be_bytes 32 (Z.of_nat (length b))) in *. set (se := to_be_bytes 32 (Z.of_nat (length e))) in *.
  set (sm := to_be_bytes 32 (Z.of_nat (length m))) in *.
  assert (length sb = 32%nat ∧ length se = 32%nat ∧ length sm = 32%nat) as (Lb & Le & Lm)
    by (split_and!; apply length_to_be_bytes).
  rewrite (slice_app_0 32 sb) by lia.
  rewrite (slice_app 32 64 sb se) by lia.
  rewrite (app_assoc sb), (slice_app 64 96 (sb ++ se) sm) by (rewrite length_app; lia).
  rewrite Pb, Pe, Pm. cbn [mbind outcome_bind].
  rewrite (proj2 (Nat.ltb_ge _ _)) by lia. unfold parse_big_uint. cbn [andb mbind outcome_bind].
  rewrite !from_digits_spec. rewrite (app_assoc (sb ++ se)).
  assert (length ((sb ++ se) ++ sm) = 96%nat) as Lh by (rewrite !length_app; lia).
  rewrite (slice_app 96 _ ((sb ++ se) ++ sm) b) by lia.
  rewrite (app_assoc ((sb ++ se) ++ sm)), (slice_app _ _ (((sb ++ se) ++ sm) ++ b) e) by (rewrite length_app; lia).
  rewrite (app_assoc (((sb ++ se) ++ sm) ++ b)), drop_app_length'; [done|]. rewrite !length_app in *. lia.
Qed.

Lemma from_be_bytes_zeros k l : from_be_bytes (replicate k x00 ++ l) = from_be_bytes l.
Proof. unfold from_be_bytes. induction k as [|k IH]; [done|]. exact IH. Qed.

(** Minimal digits, padded, are the digits on the full width. *)
Lemma to_digits_padded n z : 0 ≤ z < 256 ^ Z.of_nat n →
  (length (to_digits z) ≤ n)%nat ∧ replicate (n - length (to_digits z)) x00 ++ to_digits z = to_be_bytes n z.
Proof.
  intros Hz. pose proof (to_digits_fits z n Hz). split; [done|].
  rewrite <-(to_from_be_bytes (_ ++ _)), from_be_bytes_zeros, to_digits_value by lia. f_equal.
  rewrite length_app, length_replicate. lia.
Qed.
End modexp.

(** ** The set *)
Section set.
Context `{K : Keccak} `{!HashCrates} `{!Rug} `{!Secp256k1Recover} `{!Bn}.

Lemma precompile_cases a f : build_precompile_set !! a = Some f →
  (a, f) ∈ [(9, blake2f); (8, ec_pairing); (7, ec_mul); (6, ec_add); (5, modexp); (4, identity);
            (3, ripemd160); (2, sha256); (1, ecrecover)].
Proof.
  unfold build_precompile_set. cbn [fold_left fst snd]. rewrite !elem_of_cons.
  repeat (rewrite lookup_insert_Some; intros [[<- <-]|[_ E]]; [by repeat (left; reflexivity) || right|revert E]).
  by rewrite lookup_empty.
Qed.

Lemma set_charges a f input : build_precompile_set !! a = Some f → ¬ (a = 8 ∧ input = []) → charges f input.
Proof.
  intros Hin%precompile_cases Hne. rewrite !elem_of_cons in Hin.
  destruct Hin as [Hin|[Hin|[Hin|[Hin|[Hin|[Hin|[Hin|[Hin|[Hin|Hin]]]]]]]]]; [..|by apply not_elem_of_nil in Hin];
    injection Hin as -> ->.
  - apply charges_blake2f.
  - apply charges_ec_pairing. tauto.
  - apply charges_ec_mul.
  - apply charges_ec_add.
  - apply charges_modexp.
  - apply charges_identity.
  - apply charges_ripemd160.
  - apply charges_sha256.
  - apply charges_ecrecover.
Qed.

Lemma set_panics a f input limit : build_precompile_set !! a = Some f →
  f input limit = Panic ↔ a = 5 ∧ modexp_panics input.
Proof.
  intros Hin%precompile_cases. rewrite !elem_of_cons in Hin.
  destruct Hin as [Hin|[Hin|[Hin|[Hin|[Hin|[Hin|[Hin|[Hin|[Hin|Hin]]]]]]]]]; [..|by apply not_elem_of_nil in Hin];
    injection Hin as -> ->.
  5: { rewrite modexp_panic_iff. naive_solver. }
  all: split; [intros E; exfalso|by intros [? _]]; revert E.
  - apply blake2f_not_panic.
  - apply ec_pairing_not_panic.
  - apply ec_mul_not_panic.
  - apply ec_add_not_panic.
  - apply identity_not_panic.
  - apply ripemd160_not_panic.
  - apply sha256_not_panic.
  - apply ecrecover_not_panic.
Qed.
End set.

(** ** Properties *)

(** C24: No contract of the set charges more than the gas it is given, but the
    pairing of an empty input; and the only input that panics the executor is a
    modular exponentiation with an exponent longer than 32 bytes whose low 256
    bits are zero. *)
Theorem precompile_calls `{K : Keccak} `{!HashCrates} `{!Rug} `{!Secp256k1Recover} `{!Bn} a f input limit :
  build_precompile_set !! a = Some f →
  (∀ out l, f input limit = Ok out → limit = Some l → ¬ (a = 8 ∧ input = []) → po_cost out ≤ l) ∧
  (f input limit = Panic ↔ a = 5 ∧ modexp_panics input).
Proof.
  intros Hin. split; [|by apply set_panics].
  intros out l E Hl Hne. exact (set_charges _ _ _ Hin Hne _ _ E l Hl).
Qed.

(** C23: The modular exponentiation contract computes it: on the encoding of a
    base, an exponent and a positive modulus of up to 1024 bytes each, it
    returns the power modulo the modulus on the modulus' width, for the EIP-2565
    price, when that price is within the limit, and is out of gas otherwise;
    except that it panics, whatever the limit, when the exponent is longer than
    32 bytes and its low 256 bits are zero. *)
Theorem modexp_correct `{!Rug} b e m limit :
  (length b ≤ 1024)%nat → (length e ≤ 1024)%nat → (length m ≤ 1024)%nat → 0 < from_be_bytes m →
  let cost := eip2565_cost (length b) (length e) (length m) (from_be_bytes e) in
  modexp (modexp_input b e m) limit =
  if decide ((32 < length e)%nat ∧ from_be_bytes e mod 2 ^ 256 = 0) then Panic
  else if match limit with Some l => l <? cost | None => false end then Err (PrecompileError OutOfGas)
  else Ok (mkPrecompileOutput cost
    (to_be_bytes (length m) (from_be_bytes b ^ from_be_bytes e mod from_be_bytes m))).
Proof.
  intros Hb He Hm Hpos cost. pose proof (parse_input b e m Hb He Hm) as Hp. unfold modexp. rewrite Hp.
  cbn [mbind outcome_bind]. rewrite (gas_cost_ok _ _ Hp). cbn [b_size e_size m_size exponent].
  case_decide; [done|]. cbn [mbind outcome_bind]. fold cost. unfold check_gas.
  destruct (match limit with Some l => l <? cost | None => false end) eqn:Hlim;
    [by destruct limit as [l|]; [rewrite Hlim|]|].
  assert (match limit with Some l => if l <? cost then Err (PrecompileError OutOfGas) else Ok () | None => Ok () end =
    (Ok () : outcome PrecompileFailure unit)) as -> by (by destruct limit as [l|]; [rewrite Hlim|]).
  cbn [mbind outcome_bind]. unfold calc. cbn [b_size m_size base exponent modulo].
  pose proof (from_be_bytes_range b). pose proof (from_be_bytes_range e). pose proof (from_be_bytes_range m).
  rewrite decide_False by (intros [_ Hz]; destruct m; [vm_compute in Hpos; discriminate Hpos|done]).
  rewrite pow_mod_spec by lia. cbn [ok_or fmap outcome_fmap mbind outcome_bind].
  pose proof (Z.mod_pos_bound (from_be_bytes b ^ from_be_bytes e) (from_be_bytes m) Hpos).
  destruct (to_digits_padded (length m) (from_be_bytes b ^ from_be_bytes e mod from_be_bytes m) ltac:(lia)) as [Hf Hd].
  rewrite (proj2 (Nat.ltb_ge _ _)) by lia. by rewrite Hd.
Qed.

(** A compression runs on 213 bytes that end in zero or one, when the limit
    covers one gas a round, and gives 64 bytes. *)
Lemma blake2f_outcome input limit out :
  blake2f input limit = Ok out ↔
  length input = INPUT_LEN ∧ within limit (parse_round input) ∧
  ∃ f : bool, input !! 212%nat = Some (if f then x01 else x00) ∧
    out = mkPrecompileOutput (parse_round input) (concat (to_le_bytes 8 <$>
      compress (parse_h input) (parse_m input) (parse_t input) f (Z.to_nat (parse_round input)))).
Proof.
  unfold blake2f, blake2f_gas_cost. rewrite Z.mul_1_r. case_decide as Hl; [by split; [|intros [? _]]|].
  destruct (lookup_lt_is_Some_2 input 212) as [x Hx]; [rewrite Hl; unfold INPUT_LEN; lia|].
  rewrite Hx. cbn [default]. split.
  - intros E. apply outcome_inv in E as ([] & Hg%precompile_gas_ok & E). apply outcome_inv in E as (f & Hf & E).
    apply Ok_inj in E. do 2 (split; [done|]). exists f. split; [|done]. f_equal. apply Z_of_byte_inj. unfold id in *.
    destruct (Z.eqb_spec (Z_of_byte x) 1); [by apply Ok_inj in Hf as <-|].
    destruct (Z.eqb_spec (Z_of_byte x) 0); [by apply Ok_inj in Hf as <-|done].
  - intros (_ & Hg%precompile_gas_ok & f & [= ->] & ->). rewrite Hg. by destruct f.
Qed.

(** ** Examples *)
(** The digits of a number, and the other crates as simple functions. *)
#[local] Instance plain_rug : Rug.
Proof.
  refine {| from_digits := from_be_bytes;
            to_digits := λ z, to_be_bytes (if z =? 0 then 0 else S (Z.to_nat (Z.log2 z / 8))) z;
            significant_bits := λ z, if z =? 0 then 0 else Z.log2 z + 1;
            pow_mod := λ b e m, if m =? 0 then None else Some (b ^ e mod m) |}.
  - done.
  - intros z Hz. apply from_to_be_bytes_id. split; [done|]. destruct (Z.eqb_spec z 0) as [->|]; [done|].
    destruct (Z.log2_spec z) as [_ Hlt]; [lia|]. pose proof (Z.log2_nonneg z).
    pose proof (Z.div_mod (Z.log2 z) 8 ltac:(lia)). pose proof (Z.mod_pos_bound (Z.log2 z) 8 ltac:(lia)).
    pose proof (Z.div_pos (Z.log2 z) 8 ltac:(lia) ltac:(lia)).
    eapply Z.lt_le_trans; [exact Hlt|]. change 256 with (2 ^ 8). rewrite <-Z.pow_mul_r by lia.
    apply Z.pow_le_mono_r; lia.
  - intros z n Hz. rewrite length_to_be_bytes. destruct (Z.eqb_spec z 0); [lia|].
    assert (Z.log2 z < 8 * Z.of_nat n) as Hlog.
    { apply Z.log2_lt_pow2; [lia|]. rewrite Z.pow_mul_r by lia. exact (proj2 Hz). }
    assert (Z.log2 z / 8 < Z.of_nat n) by (apply Z.div_lt_upper_bound; lia).
    pose proof (Z.log2_nonneg z). pose proof (Z.div_pos (Z.log2 z) 8 ltac:(lia) ltac:(lia)). lia.
  - done.
  - intros z Hz. by rewrite (proj2 (Z.eqb_neq _ _)) by lia.
  - intros b e m _ _ Hm. by rewrite (proj2 (Z.eqb_neq _ _)) by lia.
Defined.
#[local] Instance plain_hashes : HashCrates := {| sha256_digest := id; ripemd160_digest := id |}.
#[local] Instance any_key : Secp256k1Recover :=
  {| recoverable_signature := Some; secp256k1_recover := λ _ _, Some (replicate 65 x04) |}.
#[local] Instance no_curve : Bn.
Proof.
  refine {| Fq := Z; Fr := Z; Fq2 := Z * Z; G1 := Z * Z; G2 := Z; Gt := Z;
    fq_from_slice := λ b, Some (from_be_bytes b); fq_is_zero := Z.eqb 0;
    fq_to_big_endian := λ x, Some (to_be_bytes 32 x); fr_from_slice := λ b, Some (from_be_bytes b);
    fq2_new := pair; fq2_is_zero := λ x, (x.1 =? 0) && (x.2 =? 0); g1_zero := (0, 0);
    affine_g1_new := λ x y, Some (x, y); affine_from_jacobian := Some;
    g1_add := λ p q, (p.1 + q.1, p.2 + q.2); g1_mul := λ p k, (p.1 * k, p.2 * k); g2_zero := 0;
    affine_g2_new := λ x y, Some (x.1 + y.1); pairing_batch := λ l, Z.of_nat (length l); gt_is_one := Z.eqb 1 |}.
  intros x b [= <-]. apply length_to_be_bytes.
Defined.

(** An exponent of 33 bytes, the last 32 of them zero. *)
Definition panic_input : bytes := modexp_input [x02] (x01 :: replicate 32 x00) [x05].

Lemma precompile_calls_witness :
  ∃ f, build_precompile_set !! 5 = Some f ∧ f panic_input (Some 30000) = Panic ∧
       ∃ g, build_precompile_set !! 4 = Some g ∧ g [x01] (Some 100) ≠ Panic.
Proof.
  assert (build_precompile_set !! 5 = Some modexp) as H5 by reflexivity.
  assert (build_precompile_set !! 4 = Some identity) as H4 by reflexivity.
  exists modexp. split; [exact H5|]. split.
  - apply (precompile_calls 5 modexp panic_input (Some 30000) H5). split; [reflexivity|].
    eexists. split; [vm_compute; reflexivity|]. split; [cbn; lia|reflexivity].
  - exists identity. split; [exact H4|]. intros E.
    apply (precompile_calls 4 identity [x01] (Some 100) H4) in E as [E _]. discriminate E.
Defined.

Lemma modexp_correct_witness :
  modexp (modexp_input [x03] [x05] [x07]) (Some 200) = Ok (mkPrecompileOutput 200 [x05]) ∧
  modexp (modexp_input [x03] (x01 :: replicate 32 x00) [x07]) None = Panic.
Proof.
  split; (etransitivity; [apply modexp_correct; [cbn; lia..|reflexivity]|vm_compute; reflexivity]).
Defined.

(** Bytes after the modulus are read as part of it: with one of them, three to
    the fifth modulo seven becomes modulo 0x0700, and no longer fits the
    modulus' width when it is large. *)
Example modexp_trailing_bytes :
  modexp (modexp_input [x03] [x05] [x07] ++ [x00]) None = Ok (mkPrecompileOutput 200 [xf3]) ∧
  modexp (modexp_input [x03] [x06] [x07] ++ [x00]) None = Err (OtherError "Exec failed").
Proof. split; vm_compute; reflexivity. Qed.

(** The pairing of an empty input succeeds at any gas limit. *)
Example empty_pairing_over_limit :
  ec_pairing [] (Some 0) = Ok (mkPrecompileOutput 45000 (to_be_bytes 32 1)).
Proof. reflexivity. Qed.

(** A recovered address comes in 44 bytes: twelve zeros before the whole hash
    of the key. *)
Lemma ecrecover_length `{K : Keccak} `{!Secp256k1Recover} input limit out :
  ecrecover input limit = Ok out → length (po_output out) = 44%nat.
Proof.
  intros E. unfold ecrecover in E. ok_steps. cbn [po_output].
  by rewrite length_app, length_replicate, length_to_be_bytes.
Qed.

(** The vectors of the code's tests: hexadecimal digits to bytes. *)
Definition hex_digit (c : ascii) : Z :=
  let n := Z.of_N (N_of_ascii c) in if n <? 58 then n - 48 else n - 87.
Fixpoint hex (s : string) : bytes :=
  match s with
  | String a (String b s') => byte_of_Z (16 * hex_digit a + hex_digit b) :: hex s'
  | _ => []
  end.
Definition blake_vector (rounds : string) : bytes :=
  hex rounds ++ hex "48c9bdf267e6096a3ba7ca8485ae67bb2bf894fe72f36e3cf1361d5f3af54fa5d182e6ad7f520e511f6c3e2b8c68059b6bbd41fbabd9831f79217e1319cde05b" ++
  hex "616263" ++ replicate 125 x00 ++ hex "03000000000000000000000000000000" ++ [x01].

Example blake2f_vectors :
  blake2f (blake_vector "00000000") None = Ok (mkPrecompileOutput 0 (hex "08c9bcf367e6096a3ba7ca8485ae67bb2bf894fe72f36e3cf1361d5f3af54fa5d282e6ad7f520e511f6c3e2b8c68059b9442be0454267ce079217e1319cde05b")) ∧
  blake2f (blake_vector "0000000c") (Some 12) = Ok (mkPrecompileOutput 12 (hex "ba80a53f981c4d0d6a2797b69f12f6e94c212f14685ac4b74b12bb6fdbffa2d17d87c5392aab792dc252d5de4533cc9518d38aa8dbf1925ab92386edd4009923")).
Proof. split; vm_compute; reflexivity. Qed.
