(* ===== verification/Web3Types.v ===== *)
(** * The types of the JSON-RPC interface

    [core/api/src/jsonrpc/web3_types.rs]: what is sent to clients and how it is
    made of blocks, receipts and transactions; block identifiers and how they
    are read and written.  The field-by-field JSON that the derived
    (de)serializers make of the records is not modelled. *)

From Stdlib Require Import Ascii.
From S2P Require Import Prelude Types Codec Traits Storage Metadata Sync Numbers.

Local Open Scope Z_scope.

(** ** Errors *)
(** [jsonrpsee::core::Error::Custom]: the error of a call that was printed, or
    a message; of a formatted message the values apart from the text. *)
Inductive RpcError : Type :=
| CustomError (e : ProtocolError)
| CustomText (msg : string)
| CustomValue (msg : string) (value : Z).
Abbreviation RpcResult := (outcome RpcError).

(** [.unwrap()] of a result *)
Definition unwrap_res {E F A} (o : outcome E A) : outcome F A :=
  match o with Ok a => Ok a | _ => Panic end.

(** [H160::from(H256)], the low twenty bytes; [U256::from(&[u8])], which panics
    on more than 32. *)
Definition h160_of_h256 (h : H256) : H160 := h mod 2 ^ 160.
Definition u256_from_slice {E} (b : bytes) : outcome E U256 :=
  if decide (length b ≤ 32)%nat then Ok (from_be_bytes b) else Panic.

(** ** Transactions *)
Inductive RichTransactionOrHash : Type := TxHash (h : Hash) | TxRich (stx : SignedTransaction).

Definition get_hash (t : RichTransactionOrHash) : Hash :=
  match t with TxHash hash => hash | TxRich stx => stx_hash stx end.

Record Web3Transaction := mkWeb3Transaction {
  wt_block_number : U256;
  wt_block_hash : H256;
  wt_from : H160;
  wt_contract_address : option H160;
  wt_cumulative_gas_used : U256;
  wt_effective_gas_price : U256;
  wt_gas : U256;
  wt_creates : option H160;
  wt_raw : Hex;
  wt_public_key : option Z;
  wt_gas_price : U256;
  wt_max_fee_per_gas : U256;
  wt_max_priority_fee_per_gas : U256;
  wt_hash : Hash;
  wt_input : Hex;
  wt_nonece : U256;
  wt_to : option H160;
  wt_transaction_index : option U256;
  wt_value : U256;
  wt_type : option Z;
  wt_access_list : option (list AccessListItem);
  wt_chain_id : option U256;
  wt_standard_v : option U256;
  wt_r : U256;
  wt_s : U256
}.

Record Web3ReceiptLog := mkWeb3ReceiptLog {
  wrl_address : H160;
  wrl_topics : list H256;
  wrl_data : Hex;
  wrl_block_number : U256;
  wrl_transaction_hash : Hash;
  wrl_transaction_index : option U256;
  wrl_block_hash : Hash;
  wrl_log_index : U256;
  wrl_removed : bool
}.

Record Web3Receipt := mkWeb3Receipt {
  wr_block_number : U256;
  wr_block_hash : H256;
  wr_contract_address : option H160;
  wr_cumulative_gas_used : U256;
  wr_effective_gas_price : U256;
  wr_from : H160;
  wr_gas_used : U256;
  wr_logs : list Web3ReceiptLog;
  wr_logs_bloom : Z;
  wr_state_root : Hash;
  wr_status : U256;
  wr_to : option H160;
  wr_transaction_hash : Hash;
  wr_transaction_index : option U256;
  wr_transaction_type : option Z
}.

Record Web3Log := mkWeb3Log {
  wl_address : H160;
  wl_topics : list H256;
  wl_data : Hex;
  wl_block_hash : option H256;
  wl_block_number : option U256;
  wl_transaction_hash : option H256;
  wl_transaction_index : option U256;
  wl_log_index : option U256;
  wl_removed : bool
}.

Record Web3Block := mkWeb3Block {
  wb_hash : H256;
  wb_parent_hash : H256;
  wb_sha3_uncles : H256;
  wb_author : H160;
  wb_miner : H160;
  wb_state_root : H256;
  wb_transactions_root : H256;
  wb_receipts_root : H256;
  wb_number : U256;
  wb_gas_used : U256;
  wb_gas_limit : U256;
  wb_extra_data : Hex;
  wb_logs_bloom : option Z;
  wb_timestamp : U256;
  wb_difficulty : U256;
  wb_total_difficulty : option U256;
  wb_seal_fields : list bytes;
  wb_base_fee_per_gas : U256;
  wb_uncles : list H256;
  wb_transactions : list RichTransactionOrHash;
  wb_size : option U256;
  wb_mix_hash : H256;
  wb_nonce : U256
}.
Definition set_wb_transactions (txs : list RichTransactionOrHash) (b : Web3Block) : Web3Block :=
  mkWeb3Block (wb_hash b) (wb_parent_hash b) (wb_sha3_uncles b) (wb_author b) (wb_miner b)
    (wb_state_root b) (wb_transactions_root b) (wb_receipts_root b) (wb_number b) (wb_gas_used b)
    (wb_gas_limit b) (wb_extra_data b) (wb_logs_bloom b) (wb_timestamp b) (wb_difficulty b)
    (wb_total_difficulty b) (wb_seal_fields b) (wb_base_fee_per_gas b) (wb_uncles b) txs (wb_size b)
    (wb_mix_hash b) (wb_nonce b).

Record Web3Header := mkWeb3Header {
  wh_difficulty : U256;
  wh_extra_data : Hex;
  wh_gas_limit : U256;
  wh_gas_used : U256;
  wh_logs_bloom : option Z;
  wh_miner : H160;
  wh_nonce : U256;
  wh_number : U256;
  wh_parent_hash : H256;
  wh_receipts_root : H256;
  wh_sha3_uncles : H256;
  wh_state_root : H256;
  wh_timestamp : U256;
  wh_transactions_root : H256
}.

Section conversions.
Context `{R : Rlp} `{K : Keccak} `{!FasterHex}.

(** Without a signature [standard_v], [r] and [s] are zero. *)
Definition Web3Transaction_create {E} (receipt : Receipt) (stx : SignedTransaction)
    : outcome E Web3Transaction :=
  let tx := utx_unsigned (stx_transaction stx) in
  raw ← unwrap_res (UnverifiedTransaction_rlp_bytes (stx_transaction stx));
  '(v, r, s) ← (match utx_signature (stx_transaction stx) with
                | Some sc =>
                    r ← u256_from_slice (sig_r sc);
                    s ← u256_from_slice (sig_s sc);
                    Ok (sig_standard_v sc, r, s)
                | None => Ok (0, 0, 0)
                end);
  Ok {| wt_block_number := rc_block_number receipt;
        wt_block_hash := rc_block_hash receipt;
        wt_from := rc_sender receipt;
        wt_contract_address := h160_of_h256 <$> rc_code_address receipt;
        wt_cumulative_gas_used := rc_used_gas receipt;
        wt_effective_gas_price := rc_used_gas receipt;
        wt_gas := rc_used_gas receipt;
        wt_creates := h160_of_h256 <$> rc_code_address receipt;
        wt_raw := Hex_encode raw;
        wt_public_key := stx_public stx;
        wt_gas_price := tx_gas_price tx;
        wt_max_fee_per_gas := 1337;
        wt_max_priority_fee_per_gas := tx_max_priority_fee_per_gas tx;
        wt_hash := rc_tx_hash receipt;
        wt_input := Hex_encode (tx_data tx);
        wt_nonece := tx_value tx;
        wt_to := get_to stx;
        wt_transaction_index := Some (rc_tx_index receipt);
        wt_value := tx_value tx;
        wt_type := Some 2;
        wt_access_list := Some (tx_access_list tx);
        wt_chain_id := Some (utx_chain_id (stx_transaction stx));
        wt_standard_v := Some v;
        wt_r := r;
        wt_s := s |}.

Definition Web3ReceiptLog_of (receipt : Receipt) (item : Log) : Web3ReceiptLog := {|
  wrl_address := log_address item;
  wrl_topics := log_topics item;
  wrl_data := Hex_encode (log_data item);
  wrl_block_number := rc_block_number receipt;
  wrl_transaction_hash := rc_tx_hash receipt;
  wrl_transaction_index := Some (rc_tx_index receipt);
  wrl_block_hash := rc_block_hash receipt;
  wrl_log_index := 0;
  wrl_removed := false |}.

Definition Web3Receipt_new (receipt : Receipt) (stx : SignedTransaction) : Web3Receipt := {|
  wr_block_number := rc_block_number receipt;
  wr_block_hash := rc_block_hash receipt;
  wr_contract_address := h160_of_h256 <$> rc_code_address receipt;
  wr_cumulative_gas_used := rc_used_gas receipt;
  wr_effective_gas_price := rc_used_gas receipt;
  wr_from := rc_sender receipt;
  wr_gas_used := rc_used_gas receipt;
  wr_logs := Web3ReceiptLog_of receipt <$> rc_logs receipt;
  wr_logs_bloom := rc_logs_bloom receipt;
  wr_state_root := rc_state_root receipt;
  wr_status := status receipt;
  wr_to := get_to stx;
  wr_transaction_hash := rc_tx_hash receipt;
  wr_transaction_index := Some (rc_tx_index receipt);
  wr_transaction_type := Some 2 |}.

(** [Header::size] *)
Definition Header_size (h : Header) : Z := Z.of_nat (length (encode Header_codec h)).

Definition Web3Block_from (b : Block) : Web3Block :=
  let h := b_header b in {|
  wb_hash := header_hash b;
  wb_parent_hash := h_prev_hash h;
  wb_sha3_uncles := 0;
  wb_author := h_proposer h;
  wb_miner := h_proposer h;
  wb_state_root := h_state_root h;
  wb_transactions_root := h_transactions_root h;
  wb_receipts_root := h_receipts_root h;
  wb_number := h_number h;
  wb_gas_used := h_gas_used h;
  wb_gas_limit := h_gas_limit h;
  wb_extra_data := Hex_encode (h_extra_data h);
  wb_logs_bloom := Some (h_log_bloom h);
  wb_timestamp := h_timestamp h;
  wb_difficulty := h_difficulty h;
  wb_total_difficulty := None;
  wb_seal_fields := [];
  wb_base_fee_per_gas := h_base_fee_per_gas h;
  wb_uncles := [];
  wb_transactions := TxHash <$> b_tx_hashes b;
  wb_size := Some (Header_size h);
  wb_mix_hash := 0;
  wb_nonce := 0 |}.

Definition Web3Header_from (h : Header) : Web3Header := {|
  wh_difficulty := h_difficulty h;
  wh_extra_data := Hex_encode (h_extra_data h);
  wh_gas_limit := h_gas_limit h;
  wh_gas_used := h_gas_used h;
  wh_logs_bloom := Some (h_log_bloom h);
  wh_miner := h_proposer h;
  wh_nonce := 0;
  wh_number := h_number h;
  wh_parent_hash := h_prev_hash h;
  wh_receipts_root := h_receipts_root h;
  wh_sha3_uncles := 0;
  wh_state_root := h_state_root h;
  wh_timestamp := h_timestamp h;
  wh_transactions_root := h_transactions_root h |}.
End conversions.

(** ** Block identifiers *)
Inductive BlockId : Type := BlockNum (n : Z) | Latest.
Inductive BlockIdWithPending : Type := ById (id : BlockId) | Pending.

(** [Option::<u64>::from] *)
Definition block_id_number (id : BlockId) : option Z :=
  match id with BlockNum num => Some num | Latest => None end.

Definition LATEST : chars := chars_of "latest".
Definition PENDING : chars := chars_of "pending".
Definition PREFIX_0X : chars := chars_of "0x".

(** [Serialize] *)
Definition block_id_serialize (id : BlockId) : chars :=
  match id with BlockNum x => PREFIX_0X ++ u64_to_hex x | Latest => LATEST end.

(** A visitor's errors are told apart by their first words. *)
Inductive VisitError : Type := InvalidNumber | MissingPrefix | UnknownKey (key : chars) | InvalidInput.

(** [BlockIdVisitor::visit_str], [visit_string] *)
Definition visit_number (value : chars) : outcome VisitError Z :=
  if starts_with PREFIX_0X value then ok_or (from_str_radix (drop 2 value) 16) InvalidNumber
  else Err MissingPrefix.
Definition visit_str (value : chars) : outcome VisitError BlockId :=
  if decide (value = LATEST) then Ok Latest else BlockNum <$> visit_number value.

(** [BlockIdVisitor::visit_map], on the entries of a JSON object: only the
    first is looked at. *)
Definition BLOCK_NUMBER : chars := chars_of "blockNumber".
Definition visit_map (entries : list (chars * chars)) : outcome VisitError BlockId :=
  match entries with
  | (key, value) :: _ =>
      if decide (key = BLOCK_NUMBER) then BlockNum <$> visit_number value else Err (UnknownKey key)
  | [] => Err InvalidInput
  end.

(** The visitor of [BlockIdWithPending] *)
Definition visit_str_pending (value : chars) : outcome VisitError BlockIdWithPending :=
  if decide (value = PENDING) then Ok Pending else ById <$> visit_str value.
Definition visit_map_pending (entries : list (chars * chars)) : outcome VisitError BlockIdWithPending :=
  ById <$> visit_map entries.

(** [IndexVisitor::visit_str]: hexadecimal with a prefix, decimal without *)
Definition visit_index (value : chars) : outcome VisitError Z :=
  ok_or (if starts_with PREFIX_0X value then from_str_radix (drop 2 value) 16 else parse_u64 value)
    InvalidNumber.

(** ** Requests *)
Inductive MultiType (T : Type) : Type := Single (x : T) | Multi (l : list T) | MultiNull.
Arguments Single {T} x.
Arguments Multi {T} l.
Arguments MultiNull {T}.

(** [Option::<Vec<T>>::from] *)
Definition multi_list {T} (src : MultiType T) : option (list T) :=
  match src with MultiNull => None | Single i => Some [i] | Multi i => Some i end.

Record Web3CallRequest := mkWeb3CallRequest {
  cr_transaction_type : option Z;
  cr_from : option H160;
  cr_to : option H160;
  cr_gas_price : option U256;
  cr_max_fee_per_gas : option U256;
  cr_gas : option U256;
  cr_value : option U256;
  cr_data : Hex;
  cr_nonce : option U256;
  cr_access_list : option (list AccessListItem);
  cr_max_priority_fee_per_gas : option U256
}.

Record Web3Filter := mkWeb3Filter {
  wf_from_block : option BlockId;
  wf_to_block : option BlockId;
  wf_block_hash : option H256;
  wf_address : MultiType H160;
  wf_topics : option (list H256)
}.

Record Web3FeeHistory := mkWeb3FeeHistory {
  fh_oldest_block : U256;
  fh_reward : option (list U256);
  fh_base_fee_per_gas : list U256;
  fh_gas_used_ratio : list U256
}.

(** ** Synchronization status *)
Record Web3SyncProgress := mkWeb3SyncProgress {
  sp_starting_block : U256;
  sp_current_block : U256;
  sp_highest_block : U256;
  sp_known_states : U256;
  sp_pulled_states : U256
}.
Inductive Web3SyncStatus : Type := Doing (status : Web3SyncProgress) | SyncFalse.

Definition Web3SyncStatus_from (inner : SyncStatus) : Web3SyncStatus :=
  match inner with
  | NotSyncing => SyncFalse
  | Syncing start current highest => Doing (mkWeb3SyncProgress start current highest 0 0)
  end.
