(* ===== verification/ApiAdapter.v ===== *)
(** * The adapter of the interface

    The trait [APIAdapter] of [protocol/src/traits/api.rs] and its
    implementation, [core/api/src/adapter.rs]; a raw transaction's signer,
    [protocol/src/types/transaction.rs].  Storage and trie database are the ones
    the mempool's adapter holds: the node shares them. *)

From S2P Require Import Prelude Types Codec Traits Heap Pool Executor MemPool.
From S2P Require Import Storage Interoperation DefaultAdapter Precompiles Web3Types.

Local Open Scope Z_scope.

(** ** The trait *)
Class APIAdapter (A : Type) := {
  api_insert_signed_txs : Context → SignedTransaction → M A ProtocolError unit;
  api_get_block_by_number : Context → option Z → M A ProtocolError (option Block);
  api_get_block_by_hash : Context → Hash → M A ProtocolError (option Block);
  api_get_block_header_by_number : Context → option Z → M A ProtocolError (option Header);
  api_get_receipt_by_tx_hash : Context → Hash → M A ProtocolError (option Receipt);
  api_get_receipts_by_hashes : Context → Z → list Hash → M A ProtocolError (list (option Receipt));
  api_get_transaction_by_hash : Context → Hash → M A ProtocolError (option SignedTransaction);
  api_get_transactions_by_hashes :
    Context → Z → list Hash → M A ProtocolError (list (option SignedTransaction));
  api_get_account : Context → H160 → option Z → M A ProtocolError Account;
  api_get_pending_tx_count : Context → H160 → M A ProtocolError U256;
  api_evm_call :
    Context → option H160 → option H160 → bytes → Hash → Proposal → M A ProtocolError TxResp;
  api_get_code_by_hash : Context → Hash → M A ProtocolError (option bytes);
  api_peer_count : Context → M A ProtocolError U256;
  api_get_storage_at : Context → H160 → U256 → Hash → M A ProtocolError bytes
}.

(** [Network::peer_count] *)
Class NetworkCount (Net : Type) := { nw_peer_count : Net → Context → ProtocolResult Z }.

(** ** The implementation *)
Section adapter.
Context `{R : Rlp} `{K : Keccak} `{!StaticMerkleTree} `{!PatriciaTrie} {St Mt Net : Type} `{!Storage St}
  `{!MetadataControl Mt} `{!Evm (AxonExecutorAdapter St)} `{!Interoperation} `{!PullRpc}
  `{!Secp256k1Verify} `{!ErrorText} `{!NetworkCount Net}.

Record DefaultAPIAdapter := mkDefaultAPIAdapter {
  ap_mempool : MemPoolImpl (DefaultMemPoolAdapter St Mt);
  ap_net : Net
}.
Local Abbreviation AM := (M DefaultAPIAdapter ProtocolError).
Definition ap_on_mempool {X} (m : M (MemPoolImpl (DefaultMemPoolAdapter St Mt)) ProtocolError X) : AM X :=
  zoom ap_mempool (λ x a, mkDefaultAPIAdapter x (ap_net a)) m.
Definition ap_in_storage {X} (m : M St ProtocolError X) : AM X :=
  ap_on_mempool (on_adapter (on_storage m)).
(** [self.trie_db], [self.storage] *)
Definition ap_trie_db (a : DefaultAPIAdapter) : trie_db := da_trie_db (mp_adapter (ap_mempool a)).
Definition ap_storage (a : DefaultAPIAdapter) : St := da_storage (mp_adapter (ap_mempool a)).

Definition default_get_block_by_number (ctx : Context) (height : option Z) : AM (option Block) :=
  match height with
  | Some number => ap_in_storage (st_get_block ctx number)
  | None => block ← ap_in_storage (st_get_latest_block ctx); mret (Some block)
  end.

Definition default_get_block_header_by_number (ctx : Context) (number : option Z) : AM (option Header) :=
  match number with
  | Some num => ap_in_storage (st_get_block_header ctx num)
  | None => header ← ap_in_storage (st_get_latest_block_header ctx); mret (Some header)
  end.

Definition evm_backend (number : option Z) : AM (AxonExecutorAdapter St) :=
  block ← default_get_block_by_number ∅ number;
  block ← lift (ok_or block (PE_API (API_Adapter "Cannot get block")));
  a ← gets id;
  lift (ExecutorAdapter_from_root (h_state_root (b_header block)) (ap_trie_db a) (ap_storage a)
          (ExecutorContext_from_Proposal (Proposal_from_Block block))).

Definition default_get_account (ctx : Context) (address : H160) (number : option Z) : AM Account :=
  backend ← evm_backend number;
  raw ← lift (ok_or (adapter_get backend (address_bytes address)) (PE_API (API_Adapter "Cannot get account")));
  lift (account_decode raw).

Definition default_evm_call (ctx : Context) (from to : option H160) (data : bytes) (state_root : Hash)
    (mock_header : Proposal) : AM TxResp :=
  a ← gets id;
  backend ← lift (ExecutorAdapter_from_root state_root (ap_trie_db a) (ap_storage a)
                    (ExecutorContext_from_Proposal mock_header));
  mret (call backend from to data).

Definition default_get_storage_at (ctx : Context) (address : H160) (position : U256) (state_root : Hash)
    : AM bytes :=
  db ← gets ap_trie_db;
  state_mpt_tree ← lift (MPTTrie_from_root state_root db);
  raw ← lift (MPTTrie_get db state_mpt_tree (address_bytes address));
  raw_account ← lift (ok_or raw (PE_API (API_Adapter "Can't find this address")));
  account ← lift (expect (account_decode raw_account));
  storage_mpt_tree ← lift (MPTTrie_from_root (acc_storage_root account) db);
  value ← lift (MPTTrie_get db storage_mpt_tree (to_be_bytes 32 position));
  lift (ok_or value (PE_API (API_Adapter "Can't find this position"))).

#[global] Instance default_api : APIAdapter DefaultAPIAdapter := {|
  api_insert_signed_txs := λ ctx stx, ap_on_mempool (mempool_insert ctx stx);
  api_get_block_by_number := default_get_block_by_number;
  api_get_block_by_hash := λ ctx hash, ap_in_storage (st_get_block_by_hash ctx hash);
  api_get_block_header_by_number := default_get_block_header_by_number;
  api_get_receipt_by_tx_hash := λ ctx hash, ap_in_storage (st_get_receipt_by_hash ctx hash);
  api_get_receipts_by_hashes := λ ctx number hashes, ap_in_storage (st_get_receipts ctx number hashes);
  api_get_transaction_by_hash := λ ctx hash, ap_in_storage (st_get_transaction_by_hash ctx hash);
  api_get_transactions_by_hashes := λ ctx number hashes, ap_in_storage (st_get_transactions ctx number hashes);
  api_get_account := default_get_account;
  api_get_pending_tx_count := λ ctx address,
    n ← ap_on_mempool (mempool_get_tx_count_by_address ctx address); mret (Z.of_nat n);
  api_evm_call := default_evm_call;
  api_get_code_by_hash := λ ctx hash, ap_in_storage (st_get_code_by_hash ctx hash);
  api_peer_count := λ ctx, net ← gets ap_net; lift (nw_peer_count net ctx);
  api_get_storage_at := default_get_storage_at |}.
End adapter.
Arguments DefaultAPIAdapter {_} St Mt Net.

(** ** The signer of a raw transaction *)
Section signer.
Context `{R : Rlp} `{K : Keccak} `{!Secp256k1Recover}.

(** [SignedTransaction::try_from]: the key recovered from the signature, its
    bytes 1 to 65. *)
Definition SignedTransaction_try_from (utx : UnverifiedTransaction) : outcome TypesError SignedTransaction :=
  match utx_signature utx with
  | None => Err Unsigned
  | Some sc =>
      hash ← unwrap_res (signature_hash utx);
      key ← ok_or (secp256k1_recover (to_be_bytes 32 hash) (SignatureComponents_as_bytes sc)) Crypto;
      if decide (length key < 65)%nat then Panic else
      let public := from_be_bytes (take 64 (drop 1 key)) in
      Ok (mkSignedTransaction utx (public_to_address public) (Some public))
  end.
End signer.
