(* ===== verification/JsonRpc.v ===== *)
(** * The JSON-RPC server

    [core/api/src/jsonrpc/impl.rs]: one definition for each method of the trait
    [AxonJsonRpc], over any [APIAdapter]. *)

From S2P Require Import Prelude Types Codec Traits Storage Metadata Sync Precompiles.
From S2P Require Import Web3Types ApiAdapter.

Local Open Scope Z_scope.

(** ** Logs *)
Section logs.
Context `{!FasterHex}.

Definition web3_log_of (index : nat) (receipt : Receipt) (log : Log) (idx : nat) : Web3Log := {|
  wl_address := rc_sender receipt;
  wl_topics := log_topics log;
  wl_data := Hex_encode (log_data log);
  wl_block_hash := Some (rc_block_hash receipt);
  wl_block_number := Some (rc_block_number receipt);
  wl_transaction_hash := Some (rc_tx_hash receipt);
  wl_transaction_index := Some (rc_tx_index receipt);
  wl_log_index := Some (Z.of_nat (index + idx));
  wl_removed := false |}.

(** [topics.is_empty() || topics.contains(topic)] *)
Definition topic_selected (topics : list H256) (topic : H256) : bool :=
  match topics with [] => true | _ => bool_decide (topic ∈ topics) end.

(** One entry for every selected topic of every log. *)
Definition from_receipt_to_web3_log (index : nat) (topics : list H256) (receipt : Receipt)
    (logs : list Web3Log) : list Web3Log :=
  fold_left (λ logs log,
    fold_left (λ logs it, if topic_selected topics it.2 then logs ++ [web3_log_of index receipt log it.1] else logs)
      (zip (seq 0 (length (log_topics log))) (log_topics log)) logs)
    (rc_logs receipt) logs.

(** The closure [extend_logs]: [index] counts the logs of the block. *)
Fixpoint extend_logs (topics : list H256) (address : option (list H160)) (index : nat)
    (receipts : list (option Receipt)) (logs : list Web3Log) : list Web3Log :=
  match receipts with
  | [] => logs
  | None :: rest => extend_logs topics address index rest logs
  | Some receipt :: rest =>
      let logs :=
        match address with
        | Some s => if bool_decide (rc_sender receipt ∈ s)
                    then from_receipt_to_web3_log index topics receipt logs else logs
        | None => from_receipt_to_web3_log index topics receipt logs
        end in
      extend_logs topics address (index + length (rc_logs receipt)) rest logs
  end.
End logs.

Section server.
Context `{R : Rlp} `{K : Keccak} `{!FasterHex} `{!Secp256k1Recover} {A : Type} `{!APIAdapter A}.
Local Abbreviation RM := (M A RpcError).

(** [.map_err(|e| Error::Custom(e.to_string()))] *)
Definition rpc {X} (m : M A ProtocolError X) : RM X := λ a,
  let '(a', o) := m a in (a', map_err CustomError o).

(** ** Sending *)
Definition send_raw_transaction (tx : Hex) : RM H256 :=
  raw ← lift (unwrap_res (Hex_as_bytes tx));
  raw ← lift (match raw with [] => Panic | _ :: rest => Ok rest end);
  utx ← lift (map_err (λ e, CustomError (PE_Codec e)) (UnverifiedTransaction_decode (rlp_new raw)));
  utx ← lift (unwrap_res (utx_with_hash utx));
  stx ← lift (map_err (λ e, CustomError (PE_Types e)) (SignedTransaction_try_from utx));
  rpc (api_insert_signed_txs ∅ stx);;
  mret (stx_hash stx).

(** ** Transactions and blocks *)
(** The transaction and its receipt, or an error when there is no receipt. *)
Definition with_receipt {X} (hash : H256) (make : Receipt → SignedTransaction → RpcResult X) : RM (option X) :=
  res ← rpc (api_get_transaction_by_hash ∅ hash);
  match res with
  | Some stx =>
      receipt ← rpc (api_get_receipt_by_tx_hash ∅ hash);
      match receipt with
      | Some receipt => x ← lift (make receipt stx); mret (Some x)
      | None => throw (CustomValue "can not get receipt by hash" hash)
      end
  | None => mret None
  end.

Definition get_transaction_by_hash (hash : H256) : RM (option Web3Transaction) :=
  with_receipt hash Web3Transaction_create.
Definition get_transaction_receipt (hash : H256) : RM (option Web3Receipt) :=
  with_receipt hash (λ receipt stx, Ok (Web3Receipt_new receipt stx)).

(** The transactions of a block in place of their hashes. *)
Fixpoint rich_txs (txs : list RichTransactionOrHash) : RM (list RichTransactionOrHash) :=
  match txs with
  | [] => mret []
  | tx :: txs' =>
      res ← rpc (api_get_transaction_by_hash ∅ (get_hash tx));
      stx ← lift (unwrap res);
      rest ← rich_txs txs';
      mret (TxRich stx :: rest)
  end.

Definition web3_block (block : option Block) (show_rich_tx : bool) : RM (option Web3Block) :=
  match block with
  | Some b =>
      let ret := Web3Block_from b in
      if show_rich_tx then
        txs ← rich_txs (wb_transactions ret);
        mret (Some (set_wb_transactions txs ret))
      else mret (Some ret)
  | None => mret None
  end.

Definition get_block_by_number (number : BlockId) (show_rich_tx : bool) : RM (option Web3Block) :=
  block ← rpc (api_get_block_by_number ∅ (block_id_number number));
  web3_block block show_rich_tx.
Definition get_block_by_hash (hash : H256) (show_rich_tx : bool) : RM (option Web3Block) :=
  block ← rpc (api_get_block_by_hash ∅ hash);
  web3_block block show_rich_tx.

Definition get_transaction_count_by_number (number : BlockId) : RM U256 :=
  block ← rpc (api_get_block_by_number ∅ (block_id_number number));
  mret (match block with Some bc => Z.of_nat (length (b_tx_hashes bc)) | None => 0 end).
Definition get_block_transaction_count_by_hash (hash : Hash) : RM U256 :=
  block ← rpc (api_get_block_by_hash ∅ hash);
  mret (default 0 ((λ b, Z.of_nat (length (b_tx_hashes b))) <$> block)).

(** [usize::from_le_bytes] of the low eight of the position's 32 bytes *)
Definition position_index (position : U256) : RpcResult nat :=
  if 2 ^ 64 - 1 <? position then Err (CustomValue "invalid position" position)
  else Ok (Z.to_nat (from_le_bytes (take 8 (to_le_bytes 32 position)))).

Definition tx_of_block (block : option Block) (index : nat) : RM (option Web3Transaction) :=
  match block with
  | Some block =>
      match b_tx_hashes block !! index with
      | Some tx_hash => get_transaction_by_hash tx_hash
      | None => mret None
      end
  | None => mret None
  end.
Definition get_transaction_by_block_hash_and_index (hash : Hash) (position : U256)
    : RM (option Web3Transaction) :=
  index ← lift (position_index position);
  block ← rpc (api_get_block_by_hash ∅ hash);
  tx_of_block block index.
Definition get_transaction_by_block_number_and_index (number : BlockId) (position : U256)
    : RM (option Web3Transaction) :=
  index ← lift (position_index position);
  block ← rpc (api_get_block_by_number ∅ (block_id_number number));
  tx_of_block block index.

(** ** Accounts *)
Definition get_transaction_count (address : H160) (number : BlockIdWithPending) : RM U256 :=
  match number with
  | ById id =>
      account ← rpc (api_get_account ∅ address (block_id_number id));
      mret (acc_nonce account)
  | Pending => rpc (api_get_pending_tx_count ∅ address)
  end.
Definition get_balance (address : H160) (number : BlockId) : RM U256 :=
  account ← rpc (api_get_account ∅ address (block_id_number number));
  mret (acc_balance account).
Definition Hex_empty : Hex := mkHex HEX_PREFIX.
Definition get_code (address : H160) (number : BlockId) : RM Hex :=
  account ← rpc (api_get_account ∅ address (block_id_number number));
  code_result ← rpc (api_get_code_by_hash ∅ (acc_code_hash account));
  mret (match code_result with Some code_bytes => Hex_encode code_bytes | None => Hex_empty end).
Definition get_storage_at (address : H160) (position : U256) (number : BlockId) : RM Hex :=
  block ← rpc (api_get_block_by_number ∅ (block_id_number number));
  block ← lift (ok_or block (CustomText "Can't find this block"));
  value ← rpc (api_get_storage_at ∅ address position (h_state_root (b_header block)));
  mret (Hex_encode value).

(** ** The chain's head *)
Definition latest_header : RM Header :=
  header ← rpc (api_get_block_header_by_number ∅ None);
  lift (ok_or header (CustomText "Cannot get latest block header")).
Definition block_number : RM U256 := h ← latest_header; mret (h_number h).
Definition chain_id : RM U256 := h ← latest_header; mret (h_chain_id h).
Definition net_version : RM U256 := chain_id.

(** ** Calls *)
(** [H64::from_low_u64_le] *)
Definition h64_from_low_u64_le (n : Z) : Z := from_be_bytes (to_le_bytes 8 n).

Definition mock_header_by_call_req (latest_header : Header) (call_req : Web3CallRequest)
    : ProtocolResult Header :=
  nonce ← (match cr_nonce call_req with
           | Some nonce => n ← as_u64 nonce; Ok (h64_from_low_u64_le n)
           | None => Ok (h_nonce latest_header)
           end);
  Ok {| h_prev_hash := h_prev_hash latest_header;
        h_proposer := h_proposer latest_header;
        h_state_root := h_state_root latest_header;
        h_transactions_root := 0;
        h_signed_txs_hash := 0;
        h_receipts_root := 0;
        h_log_bloom := 0;
        h_difficulty := h_difficulty latest_header;
        h_timestamp := h_timestamp latest_header;
        h_number := h_number latest_header;
        h_gas_used := h_gas_used latest_header;
        h_gas_limit := default (h_gas_limit latest_header) (cr_gas call_req);
        h_extra_data := [];
        h_mixed_hash := None;
        h_nonce := nonce;
        h_base_fee_per_gas := default (h_base_fee_per_gas latest_header) (cr_max_fee_per_gas call_req);
        h_proof := h_proof latest_header;
        h_last_checkpoint_block_hash := h_last_checkpoint_block_hash latest_header;
        h_chain_id := h_chain_id latest_header |}.

Definition call_evm (req : Web3CallRequest) (data : bytes) (number : option Z) : M A ProtocolError TxResp :=
  match cr_from req, cr_to req with
  | None, None => throw (PE_API (RequestPayload "from and to are both None"))
  | _, _ =>
      header ← api_get_block_header_by_number ∅ number;
      header ← lift (ok_or header (PE_API (API_Storage "Cannot get header")));
      mock_header ← lift (mock_header_by_call_req header req);
      api_evm_call ∅ (cr_from req) (cr_to req) data (h_state_root mock_header)
        (Proposal_from_Header mock_header)
  end.

Definition eth_call (req : Web3CallRequest) (number : BlockId) : RM Hex :=
  data_bytes ← lift (unwrap_res (Hex_as_bytes (cr_data req)));
  resp ← rpc (call_evm req data_bytes (block_id_number number));
  mret (Hex_encode (tr_ret resp)).
Definition estimate_gas (req : Web3CallRequest) (number : option BlockId) : RM U256 :=
  let num := match number with Some (BlockNum n) => Some n | _ => None end in
  data_bytes ← lift (unwrap_res (Hex_as_bytes (cr_data req)));
  resp ← rpc (call_evm req data_bytes num);
  mret (tr_gas_used resp).

(** ** [eth_getLogs] *)
(** The logs of a block that was found. *)
Definition block_logs (topics : list H256) (address : option (list H160)) (block : Block)
    (logs : list Web3Log) : RM (list Web3Log) :=
  receipts ← rpc (api_get_receipts_by_hashes ∅ (h_number (b_header block)) (b_tx_hashes block));
  mret (extend_logs topics address 0 receipts logs).
(** [BlockPosition::Num]: the block is unwrapped. *)
Definition number_logs (topics : list H256) (address : option (list H160)) (n : Z)
    (logs : list Web3Log) : RM (list Web3Log) :=
  block ← rpc (api_get_block_by_number ∅ (Some n));
  block ← lift (unwrap block);
  block_logs topics address block logs.

(** [for n in start..=end]: the latest block is left for later. *)
Fixpoint range_logs (topics : list H256) (address : option (list H160)) (latest_number : Z)
    (ns : list Z) (visited : bool) (logs : list Web3Log) : RM (list Web3Log * bool) :=
  match ns with
  | [] => mret (logs, visited)
  | n :: ns' =>
      if n =? latest_number then range_logs topics address latest_number ns' true logs
      else
        logs ← number_logs topics address n logs;
        range_logs topics address latest_number ns' visited logs
  end.

(** The part of [get_logs] that the filter's [filter_logs] shares. *)
Definition logs_between (topics : list H256) (address : option (list H160))
    (from_block to_block : option BlockId) (latest_block : Block) : RM (list Web3Log) :=
  let latest_number := h_number (b_header latest_block) in
  let convert id := match id with BlockNum n => n | Latest => latest_number end in
  let start := default latest_number (convert <$> from_block) in
  let end_ := default latest_number (convert <$> to_block) in
  if latest_number <? start then throw (CustomValue "Invalid from_block" start) else
  '(logs, visited) ← range_logs topics address latest_number (seqZ start (end_ - start + 1)) false [];
  if visited : bool then block_logs topics address latest_block logs else mret logs.

Definition get_logs (filter : Web3Filter) : RM (list Web3Log) :=
  let topics := default [] (wf_topics filter) in
  let address_filter := multi_list (wf_address filter) in
  match wf_block_hash filter with
  | Some hash =>
      block ← rpc (api_get_block_by_hash ∅ hash);
      match block with
      | Some block => block_logs topics address_filter block []
      | None => throw (CustomValue "Invalid block hash" hash)
      end
  | None =>
      block ← rpc (api_get_block_by_number ∅ None);
      latest_block ← lift (unwrap block);
      logs_between topics address_filter (wf_from_block filter) (wf_to_block filter) latest_block
  end.

(** ** The rest *)
Definition peer_count : RM U256 := rpc (api_peer_count ∅).
Definition gas_price : RM U256 := mret 8.
Definition listening : RM bool := mret true.
Definition mining : RM bool := mret false.
Definition syncing (sync_status : SyncStatus) : RM Web3SyncStatus := mret (Web3SyncStatus_from sync_status).
Definition fee_history (block_count : Z) (newest_block : BlockId) (reward_percentiles : option (list Z))
    : RM Web3FeeHistory := mret (mkWeb3FeeHistory 0 None [] []).
Definition client_version (version : string) : RM string := mret version.
Definition accounts : RM (list Hex) := mret [].
Definition sha3 (data : Hex) : RM Hash :=
  decode_data ← lift (map_err CustomError (Hex_decode (hex_str data)));
  mret (digest decode_data).
Definition coinbase : RM H160 := mret 0.
Definition hashrate : RM U256 := mret 1.
Definition submit_work (nc : U256) (hash : H256) (summary : Hex) : RM bool := mret true.
Definition submit_hashrate (hash_rate client_id : Hex) : RM bool := mret true.
End server.
