(* ===== verification/Filters.v ===== *)
(** * Filters and subscriptions

    [core/api/src/jsonrpc/filter.rs]: the hub that keeps the filters clients
    poll; and [core/api/src/jsonrpc/ws_subscription.rs]: the task that pushes
    new heads, logs and the synchronization's progress to web sockets.  Times
    are milliseconds of the monotonic clock. *)

From S2P Require Import Prelude Types Codec Traits Storage Metadata Sync Web3Types.
From S2P Require Import ApiAdapter JsonRpc.

Local Open Scope Z_scope.

(** ** Polled filters *)
Inductive FilterChanges : Type := Blocks (hashes : list H256) | Logs (logs : list Web3Log).

Record LoggerFilter := mkLoggerFilter {
  lf_from_block : option BlockId;
  lf_to_block : option BlockId;
  lf_address : option (list H160);
  lf_topics : option (list Hash)
}.
Definition LoggerFilter_from (from_block to_block : option BlockId) (address : MultiType H160)
    (topics : option (list Hash)) : LoggerFilter :=
  mkLoggerFilter from_block to_block (multi_list address) topics.
Definition set_from_block (id : BlockId) (f : LoggerFilter) : LoggerFilter :=
  mkLoggerFilter (Some id) (lf_to_block f) (lf_address f) (lf_topics f).

(** A command with, for its answer, whether the caller still waits for it. *)
Inductive Command : Type :=
| NewLogs (filter : LoggerFilter)
| NewBlocks
| FilterRequest (id : U256)
| Uninstall (id : U256).
Inductive Answer : Type :=
| AnswerId (id : U256)
| AnswerChanges (res : RpcResult FilterChanges)
| AnswerRemoved (removed : bool).

Record FilterHub (A : Type) := mkFilterHub {
  logs_hub : gmap U256 (LoggerFilter * Z);
  blocks_hub : gmap U256 (Z * Z);
  fh_id : Z;
  fh_adapter : A
}.
Arguments mkFilterHub {A} logs_hub blocks_hub fh_id fh_adapter.
Arguments logs_hub {A} f.
Arguments blocks_hub {A} f.
Arguments fh_id {A} f.
Arguments fh_adapter {A} f.

Section hub.
Context `{R : Rlp} `{K : Keccak} `{!FasterHex} {A : Type} `{!APIAdapter A}.
Local Abbreviation hub := (FilterHub A).
Local Abbreviation HM := (M (FilterHub A) RpcError).

Definition set_logs_hub (x : gmap U256 (LoggerFilter * Z)) (h : hub) : hub :=
  mkFilterHub x (blocks_hub h) (fh_id h) (fh_adapter h).
Definition set_blocks_hub (x : gmap U256 (Z * Z)) (h : hub) : hub :=
  mkFilterHub (logs_hub h) x (fh_id h) (fh_adapter h).
Definition set_fh_id (x : Z) (h : hub) : hub := mkFilterHub (logs_hub h) (blocks_hub h) x (fh_adapter h).
Definition set_fh_adapter (x : A) (h : hub) : hub := mkFilterHub (logs_hub h) (blocks_hub h) (fh_id h) x.
Definition hub_ask {X} (m : M A RpcError X) : HM X := zoom fh_adapter set_fh_adapter m.
(** [.await.unwrap().unwrap()] *)
Definition unwrap_twice {X} (m : M A ProtocolError (option X)) : HM X :=
  r ← try (hub_ask (rpc m));
  lift (match r with Ok (Some x) => Ok x | _ => Panic end).

Definition FilterHub_new (adapter : A) : hub := mkFilterHub ∅ ∅ 0 adapter.

(** A filter lives for forty seconds after it was made or polled. *)
Definition FILTER_TIMEOUT : Z := 40000.
Definition check_hubs (now : Z) (h : hub) : hub :=
  let alive (time : Z) := saturating_sub now time < FILTER_TIMEOUT in
  set_logs_hub (filter (λ kv, alive kv.2.2) (logs_hub h))
    (set_blocks_hub (filter (λ kv, alive kv.2.2) (blocks_hub h)) h).

(** The headers of the blocks numbered [ns], hashed. *)
Fixpoint header_hashes (ns : list Z) : HM (list H256) :=
  match ns with
  | [] => mret []
  | n :: ns' =>
      header ← unwrap_twice (api_get_block_header_by_number ∅ (Some n));
      rest ← header_hashes ns';
      mret (Header_hash header :: rest)
  end.

Definition filter_block (now : Z) (id : U256) : HM (list H256) :=
  entry ← gets (λ h, blocks_hub h !! id);
  '(start, _) ← lift (unwrap entry);
  latest ← unwrap_twice (api_get_block_header_by_number ∅ None);
  _ ← lift (u64_sub (h_number latest) start);
  first ← lift (u64_add start 1);
  hashes ← header_hashes (seqZ first (h_number latest - first));
  modify (λ h, set_blocks_hub (<[id := (h_number latest, now)]> (blocks_hub h)) h);;
  mret (hashes ++ [Header_hash latest]).

Definition filter_logs (now : Z) (id : U256) : HM (list Web3Log) :=
  entry ← gets (λ h, logs_hub h !! id);
  '(f, _) ← lift (unwrap entry);
  let topics := default [] (lf_topics f) in
  block ← hub_ask (rpc (api_get_block_by_number ∅ None));
  latest_block ← lift (unwrap block);
  all_logs ← hub_ask (logs_between topics (lf_address f) (lf_from_block f) (lf_to_block f) latest_block);
  f ← (match lf_from_block f with
       | Some (BlockNum _) =>
           next ← lift (u64_add (h_number (b_header latest_block)) 1);
           mret (set_from_block (BlockNum next) f)
       | _ => mret f
       end);
  modify (λ h, set_logs_hub (<[id := (f, now)]> (logs_hub h)) h);;
  mret all_logs.

Definition impl_filter (now : Z) (id : U256) : HM Answer :=
  h ← gets (λ h, h);
  if decide (is_Some (blocks_hub h !! id)) then
    hashes ← filter_block now id;
    mret (AnswerChanges (Ok (Blocks hashes)))
  else if decide (is_Some (logs_hub h !! id)) then
    res ← try (filter_logs now id);
    (match res with
     | Err _ => modify (λ h, set_logs_hub (delete id (logs_hub h)) h)
     | _ => mret tt
     end);;
    mret (AnswerChanges (Logs <$> res))
  else mret (AnswerChanges (Err (CustomValue "Can't find this filter id" id))).

Definition run_command (now : Z) (cmd : Command) : HM Answer :=
  match cmd with
  | NewLogs f =>
      last ← gets fh_id;
      id ← lift (u64_add last 1);
      modify (set_fh_id id);;
      modify (λ h, set_logs_hub (<[id := (f, now)]> (logs_hub h)) h);;
      mret (AnswerId id)
  | NewBlocks =>
      last ← gets fh_id;
      id ← lift (u64_add last 1);
      modify (set_fh_id id);;
      header ← unwrap_twice (api_get_block_header_by_number ∅ None);
      modify (λ h, set_blocks_hub (<[id := (h_number header, now)]> (blocks_hub h)) h);;
      mret (AnswerId id)
  | FilterRequest id => impl_filter now id
  | Uninstall id =>
      h ← gets (λ h, h);
      if decide (is_Some (blocks_hub h !! id)) then
        modify (set_blocks_hub (delete id (blocks_hub h)));; mret (AnswerRemoved true)
      else
        modify (set_logs_hub (delete id (logs_hub h)));;
        mret (AnswerRemoved (bool_decide (is_Some (logs_hub h !! id))))
  end.

(** [handle]: the answer is sent with [sender.send(..).unwrap()], which panics
    when the caller is gone. *)
Definition handle (now : Z) (cmd : Command) (waiting : bool) : HM Answer :=
  answer ← run_command now cmd;
  if waiting then mret answer else lift Panic.
End hub.

(** ** Subscriptions *)
Record WsLoggerFilter := mkWsLoggerFilter { wsf_address : option (list H160); wsf_topics : option (list Hash) }.
Inductive SubscriptionType : Type := NewHeads | LogsOf (filter : WsLoggerFilter) | SyncProgress.

(** [Type::try_from]: the first parameter names the subscription, the second
    is a log filter. *)
Definition Type_try_from (method : string) (filter : option (MultiType H160 * option (list Hash)))
    : outcome RpcError SubscriptionType :=
  if decide (method = "newHeads"%string) then Ok NewHeads
  else if decide (method = "syncing"%string) then Ok SyncProgress
  else if decide (method = "logs"%string) then
    '(address, topics) ← ok_or filter (CustomText "missing parameter");
    Ok (LogsOf (mkWsLoggerFilter (multi_list address) topics))
  else Err (CustomText "invalid method").

Inductive WsMessage : Type := WsHeader (h : Web3Header) | WsSync (s : Web3SyncStatus) | WsLog (l : Web3Log).

(** A sink is a number; [sub_sent] lists what was sent to which sink. *)
Record Subscription (A : Type) := mkSubscription {
  log_hubs : list (WsLoggerFilter * nat);
  header_hubs : list nat;
  sync_hubs : list nat;
  sub_adapter : A;
  current_number : Z;
  sub_sent : list (nat * WsMessage)
}.
Arguments mkSubscription {A} log_hubs header_hubs sync_hubs sub_adapter current_number sub_sent.
Arguments log_hubs {A} s.
Arguments header_hubs {A} s.
Arguments sync_hubs {A} s.
Arguments sub_adapter {A} s.
Arguments current_number {A} s.
Arguments sub_sent {A} s.

Section subscription.
Context `{R : Rlp} `{K : Keccak} `{!FasterHex} {A : Type} `{!APIAdapter A}.
Local Abbreviation sub := (Subscription A).
Local Abbreviation SM := (M (Subscription A) RpcError).

Definition set_hubs (l : list (WsLoggerFilter * nat)) (hs ss : list nat) (s : sub) : sub :=
  mkSubscription l hs ss (sub_adapter s) (current_number s) (sub_sent s).
Definition set_sub_adapter (a : A) (s : sub) : sub :=
  mkSubscription (log_hubs s) (header_hubs s) (sync_hubs s) a (current_number s) (sub_sent s).
Definition set_current_number (n : Z) (s : sub) : sub :=
  mkSubscription (log_hubs s) (header_hubs s) (sync_hubs s) (sub_adapter s) n (sub_sent s).
Definition send_all (ms : list (nat * WsMessage)) (s : sub) : sub :=
  mkSubscription (log_hubs s) (header_hubs s) (sync_hubs s) (sub_adapter s) (current_number s) (sub_sent s ++ ms).

(** [.await.unwrap()], [.await.unwrap().unwrap()] *)
Definition sub_unwrap {X} (m : M A ProtocolError X) : SM X :=
  r ← try (zoom sub_adapter set_sub_adapter (rpc m));
  lift (unwrap_res r).
Definition sub_unwrap2 {X} (m : M A ProtocolError (option X)) : SM X :=
  r ← sub_unwrap m; lift (unwrap r).

Definition Subscription_new (adapter : A) : M A RpcError sub :=
  r ← try (rpc (api_get_block_header_by_number ∅ None));
  latest ← lift (match r with Ok (Some h) => Ok h | _ => Panic end);
  a ← gets (λ a, a);
  mret (mkSubscription [] [] [] a (h_number latest) []).

(** [for hub in hubs { hub.sink.send(m) }] *)
Definition to_sinks (sinks : list nat) (m : WsMessage) : list (nat * WsMessage) := (λ k, (k, m)) <$> sinks.

(** The blocks numbered [ns], each header sent to every header hub. *)
Fixpoint blocks_of (sinks : list nat) (ns : list Z) : SM (list (Z * list Hash)) :=
  match ns with
  | [] => mret []
  | n :: ns' =>
      block ← sub_unwrap2 (api_get_block_by_number ∅ (Some n));
      modify (send_all (to_sinks sinks (WsHeader (Web3Header_from (b_header block)))));;
      rest ← blocks_of sinks ns';
      mret ((h_number (b_header block), b_tx_hashes block) :: rest)
  end.

(** What a log hub is sent for a receipt. *)
Definition hub_logs (index : nat) (receipt : Receipt) (hub : WsLoggerFilter * nat) : list (nat * WsMessage) :=
  let topics := default [] (wsf_topics hub.1) in
  let logs := match wsf_address hub.1 with
              | Some s => if bool_decide (rc_sender receipt ∈ s)
                          then from_receipt_to_web3_log index topics receipt [] else []
              | None => from_receipt_to_web3_log index topics receipt []
              end in
  (λ log, (hub.2, WsLog log)) <$> logs.
Fixpoint receipts_logs (hubs : list (WsLoggerFilter * nat)) (index : nat) (receipts : list (option Receipt))
    : list (nat * WsMessage) :=
  match receipts with
  | [] => []
  | None :: rest => receipts_logs hubs index rest
  | Some receipt :: rest =>
      (hubs ≫= hub_logs index receipt) ++ receipts_logs hubs (index + length (rc_logs receipt)) rest
  end.

Definition notify (closed : nat → bool) (sync_status : SyncStatus) : SM unit :=
  modify (λ s, set_hubs (filter (λ h, closed h.2 = false) (log_hubs s))
                 (filter (λ k, closed k = false) (header_hubs s))
                 (filter (λ k, closed k = false) (sync_hubs s)) s);;
  latest_block ← sub_unwrap2 (api_get_block_by_number ∅ None);
  s ← gets (λ s, s);
  let latest := h_number (b_header latest_block) in
  if current_number s =? latest then mret tt else
  log_vec ← (match header_hubs s with
             | [] => mret []
             | sinks =>
                 first ← lift (u64_add (current_number s) 1);
                 v ← blocks_of sinks (seqZ first (latest - first));
                 modify (send_all (to_sinks sinks (WsHeader (Web3Header_from (b_header latest_block)))));;
                 mret v
             end);
  modify (send_all (to_sinks (sync_hubs s) (WsSync (Web3SyncStatus_from sync_status))));;
  (match log_hubs s with
   | [] => mret tt
   | hubs =>
       log_vec ← (match log_vec with
                  | [] => first ← lift (u64_add (current_number s) 1); blocks_of [] (seqZ first (latest - first))
                  | _ => mret log_vec
                  end);
       for_each (λ '(number, tx_hashes),
         receipts ← sub_unwrap (api_get_receipts_by_hashes ∅ number tx_hashes);
         modify (send_all (receipts_logs hubs 0 receipts)))
         (log_vec ++ [(latest, b_tx_hashes latest_block)])
   end);;
  modify (set_current_number latest).

(** A new subscription, in [run]. *)
Definition subscribe (typ : SubscriptionType) (sink : nat) (s : sub) : sub :=
  match typ with
  | NewHeads => set_hubs (log_hubs s) (header_hubs s ++ [sink]) (sync_hubs s) s
  | LogsOf f => set_hubs (log_hubs s ++ [(f, sink)]) (header_hubs s) (sync_hubs s) s
  | SyncProgress => set_hubs (log_hubs s) (header_hubs s) (sync_hubs s ++ [sink]) s
  end.

(** [HexIdProvider::next_id]: the counter wraps. *)
Definition next_id (id : Z) : Z * Hex := (wrap64 (id + 1), Hex_encode (to_be_bytes 32 id)).
End subscription.
