(* ===== verification/ApiProps.v ===== *)
(** * Theorems on the interface

    What [eth_getLogs] returns, what polled filters and subscriptions deliver,
    over an adapter that serves a chain; how block identifiers are read back. *)

From Stdlib Require Import Ascii.
From S2P Require Import Prelude Types Codec RlpInstance Traits Storage Metadata.
From S2P Require Import MetadataProps Sync CodecProps Numbers Web3Types ApiAdapter JsonRpc Filters.

Local Open Scope Z_scope.

(** ** Adapters that serve a chain *)
(** From every state that satisfies [V] the reads answer from the chain and its
    receipts, and lead to such a state.  Block [i] of the chain has number [i]. *)
Class ApiView {A : Type} `{!APIAdapter A} (chain : list Block) (receipts_of : Block → list (option Receipt))
    (V : A → Prop) := {
  view_block n a : V a → 0 ≤ n < 2 ^ 64 →
    ∃ a', api_get_block_by_number ∅ (Some n) a = (a', Ok (chain !! Z.to_nat n)) ∧ V a';
  view_latest a : V a → ∃ a', api_get_block_by_number ∅ None a = (a', Ok (last chain)) ∧ V a';
  view_header n a : V a → 0 ≤ n < 2 ^ 64 →
    ∃ a', api_get_block_header_by_number ∅ (Some n) a = (a', Ok (b_header <$> chain !! Z.to_nat n)) ∧ V a';
  view_latest_header a : V a →
    ∃ a', api_get_block_header_by_number ∅ None a = (a', Ok (b_header <$> last chain)) ∧ V a';
  view_receipts i b a : V a → chain !! i = Some b →
    ∃ a', api_get_receipts_by_hashes ∅ (Z.of_nat i) (b_tx_hashes b) a = (a', Ok (receipts_of b)) ∧ V a';
  view_size : Z.of_nat (length chain) < 2 ^ 64;
  view_number i b : chain !! i = Some b → h_number (b_header b) = Z.of_nat i
}.

Lemma rpc_ok {A X} (m : M A ProtocolError X) a a' x : m a = (a', Ok x) → rpc m a = (a', Ok x).
Proof. intros E. unfold rpc. by rewrite E. Qed.

(** ** Log entries *)
Section entries.
Context `{!FasterHex}.

(** The entries of a receipt: one for each topic of each log that is among
    [topics], any topic when there are none of these; a log without topics gives
    none.  [before] counts the logs of the block's earlier receipts. *)
Definition topic_entries (topics : list H256) (before : nat) (r : Receipt) : list Web3Log :=
  rc_logs r ≫= λ log, seq 0 (length (log_topics log)) ≫= λ i,
    match log_topics log !! i with
    | Some t =>
        if decide (topics = [] ∨ t ∈ topics) then
          [mkWeb3Log (rc_sender r) (log_topics log) (Hex_encode (log_data log)) (Some (rc_block_hash r))
             (Some (rc_block_number r)) (Some (rc_tx_hash r)) (Some (rc_tx_index r))
             (Some (Z.of_nat (before + i))) false]
        else []
    | None => []
    end.
(** A filter by address compares it with the sender of the transaction. *)
Definition addressed (address : option (list H160)) (r : Receipt) : bool :=
  match address with Some l => bool_decide (rc_sender r ∈ l) | None => true end.
Definition logs_before (receipts : list (option Receipt)) (j : nat) : nat :=
  sum_list ((λ r, length (rc_logs r)) <$> omap id (take j receipts)).
(** What the receipts of a block give, in order. *)
Definition per_receipt {X} (receipts : list (option Receipt)) (g : nat → Receipt → list X) : list X :=
  seq 0 (length receipts) ≫= λ j,
    match receipts !! j with Some (Some r) => g (logs_before receipts j) r | _ => [] end.

Lemma bind_seq_S {X} (g : nat → list X) n : seq 0 (S n) ≫= g = g 0%nat ++ (seq 0 n ≫= λ j, g (S j)).
Proof.
  change (seq 0 (S n)) with (0%nat :: seq 1 n). rewrite bind_cons. f_equal. rewrite <-fmap_S_seq.
  induction (seq 0 n) as [|x l IH]; [done|]. rewrite fmap_cons, !bind_cons. by rewrite IH.
Qed.
Lemma bind_ext {X Y} (f g : X → list Y) l : (∀ x, f x = g x) → l ≫= f = l ≫= g.
Proof. intros Hfg. induction l as [|x l IH]; [done|]. by rewrite !bind_cons, Hfg, IH. Qed.
Lemma per_receipt_cons {X} o receipts (g : nat → Receipt → list X) :
  per_receipt (o :: receipts) g =
    match o with Some r => g 0%nat r | None => [] end ++
    per_receipt receipts (λ n, g (match o with Some r => length (rc_logs r) | None => 0 end + n)%nat).
Proof.
  unfold per_receipt. cbn [length]. rewrite bind_seq_S. f_equal. apply bind_ext. intros j. cbn.
  destruct (receipts !! j) as [[r|]|]; [|done..]. f_equal. unfold logs_before. by destruct o.
Qed.

Lemma topic_selected_spec topics t : topic_selected topics t = bool_decide (topics = [] ∨ t ∈ topics).
Proof.
  unfold topic_selected. destruct topics as [|x l]; [by rewrite bool_decide_true by (by left)|].
  apply bool_decide_ext. split; [by right|by intros [?|?]].
Qed.
Lemma fold_topics {X} (P : H256 → bool) (g : nat → X) l : ∀ k acc,
  fold_left (λ acc it, if P it.2 then acc ++ [g it.1] else acc) (zip (seq k (length l)) l) acc =
  acc ++ (seq 0 (length l) ≫= λ i, match l !! i with Some t => if P t then [g (k + i)%nat] else [] | None => [] end).
Proof.
  induction l as [|t l IH]; intros k acc; cbn [length]; [by rewrite app_nil_r|].
  rewrite bind_seq_S. cbn. rewrite IH, Nat.add_0_r. destruct (P t).
  - rewrite <-app_assoc. do 2 f_equal. apply bind_ext. intros i. by rewrite Nat.add_succ_r.
  - f_equal. apply bind_ext. intros i. by rewrite Nat.add_succ_r.
Qed.
Lemma from_receipt_spec index topics receipt logs :
  from_receipt_to_web3_log index topics receipt logs = logs ++ topic_entries topics index receipt.
Proof.
  unfold from_receipt_to_web3_log, topic_entries. revert logs.
  induction (rc_logs receipt) as [|log l IH]; intros logs; cbn [fold_left]; [by rewrite app_nil_r|].
  rewrite IH, (fold_topics (topic_selected topics)), bind_cons, <-app_assoc. do 2 f_equal. apply bind_ext. intros i.
  destruct (log_topics log !! i) as [t|]; [|done]. rewrite topic_selected_spec.
  by case_bool_decide; [rewrite decide_True|rewrite decide_False].
Qed.

Lemma fold_app {X Y} (f : list Y → X → list Y) (l : list X) (acc : list Y) :
  (∀ acc x, f acc x = acc ++ f [] x) → fold_left f l acc = acc ++ fold_left f l [].
Proof.
  intros Hf. revert acc. induction l as [|x l IH]; intros acc; cbn; [by rewrite app_nil_r|].
  rewrite IH, (IH (f [] x)), (Hf acc x). by rewrite app_assoc.
Qed.

Lemma extend_logs_spec topics address receipts : ∀ index logs,
  extend_logs topics address index receipts logs = logs ++ per_receipt receipts (λ before r,
    if addressed address r then topic_entries topics (index + before) r else []).
Proof.
  induction receipts as [|o rs IH]; intros index logs; cbn [extend_logs]; [by rewrite app_nil_r|].
  rewrite per_receipt_cons. destruct o as [r|]; rewrite IH; [|done]. rewrite app_assoc. f_equal.
  - rewrite Nat.add_0_r. destruct address as [l|]; [|apply from_receipt_spec]. cbn [addressed].
    destruct (bool_decide _); [apply from_receipt_spec|by rewrite app_nil_r].
  - apply bind_ext. intros j. destruct (rs !! j) as [[x|]|]; [|done..]. by rewrite Nat.add_assoc.
Qed.

Lemma receipts_logs_spec hubs receipts : ∀ index,
  receipts_logs hubs index receipts = per_receipt receipts (λ before r, hubs ≫= λ hub,
    (λ e, (hub.2, WsLog e)) <$> if addressed (wsf_address hub.1) r
      then topic_entries (default [] (wsf_topics hub.1)) (index + before) r else []).
Proof.
  induction receipts as [|o rs IH]; intros index; cbn [receipts_logs]; [done|].
  rewrite per_receipt_cons. destruct o as [r|]; rewrite IH; [|done]. f_equal.
  - apply bind_ext. intros hub. unfold hub_logs. rewrite Nat.add_0_r. destruct (wsf_address hub.1) as [l|]; cbn [addressed];
      [|by rewrite from_receipt_spec]. destruct (bool_decide _); [by rewrite from_receipt_spec|done].
  - apply bind_ext. intros j. destruct (rs !! j) as [[x|]|]; [|done..]. apply bind_ext. intros hub. by rewrite Nat.add_assoc.
Qed.
End entries.

Section view.
Context `{R : Rlp} `{K : Keccak} `{!FasterHex} {A : Type} `{!APIAdapter A} (chain : list Block)
  (receipts_of : Block → list (option Receipt)) (V : A → Prop) `{!ApiView chain receipts_of V}.

(** The number of the latest block. *)
Definition head_number : Z := Z.of_nat (length chain) - 1.

Lemma view_last b : last chain = Some b → h_number (b_header b) = head_number ∧ (0 < length chain)%nat.
Proof.
  rewrite last_lookup. intros E. pose proof (lookup_lt_Some _ _ _ E). apply view_number in E.
  unfold head_number. lia.
Qed.

(** What a block contributes to the answer. *)
Definition block_entries (topics : list H256) (address : option (list H160)) (b : Block) : list Web3Log :=
  per_receipt (receipts_of b) (λ before r, if addressed address r then topic_entries topics before r else []).
Definition range_entries (topics : list H256) (address : option (list H160)) (ns : list Z) : list Web3Log :=
  ns ≫= λ n, match chain !! Z.to_nat n with Some b => block_entries topics address b | None => [] end.

Lemma in_range n b : 0 ≤ n → chain !! Z.to_nat n = Some b → 0 ≤ n < 2 ^ 64.
Proof. intros Hn Hb%lookup_lt_Some. pose proof view_size. lia. Qed.

Lemma block_logs_ok topics address i b logs a : V a → chain !! i = Some b →
  ∃ a', block_logs topics address b logs a = (a', Ok (logs ++ block_entries topics address b)) ∧ V a'.
Proof.
  intros Ha Hb. unfold block_logs. destruct (view_receipts i b a Ha Hb) as (a' & E & Ha').
  rewrite (view_number i b Hb).
  exists a'. split; [|done]. rewrite (bind_ok _ _ _ _ _ (rpc_ok _ _ _ _ E)). unfold mret, M_ret. f_equal. f_equal.
  apply extend_logs_spec.
Qed.

Lemma number_logs_ok topics address n b logs a : V a → 0 ≤ n → chain !! Z.to_nat n = Some b →
  ∃ a', number_logs topics address n logs a = (a', Ok (logs ++ block_entries topics address b)) ∧ V a'.
Proof.
  intros Ha Hn Hb. unfold number_logs.
  destruct (view_block n a Ha (in_range n b Hn Hb)) as (a' & E & Ha'). rewrite Hb in E.
  rewrite (bind_ok _ _ _ _ _ (rpc_ok _ _ _ _ E)). by eapply block_logs_ok.
Qed.

Lemma number_logs_panic topics address n logs a : V a → 0 ≤ n < 2 ^ 64 → chain !! Z.to_nat n = None →
  snd (number_logs topics address n logs a) = Panic.
Proof.
  intros Ha Hn Hb. unfold number_logs. destruct (view_block n a Ha Hn) as (a' & E & Ha'). rewrite Hb in E.
  by rewrite (bind_ok _ _ _ _ _ (rpc_ok _ _ _ _ E)).
Qed.

(** A range below the head. *)
Lemma range_below topics address k start visited logs a : V a → 0 ≤ start → start + Z.of_nat k ≤ head_number →
  ∃ a', range_logs topics address head_number (seqZ start (Z.of_nat k)) visited logs a =
    (a', Ok (logs ++ range_entries topics address (seqZ start (Z.of_nat k)), visited)) ∧ V a'.
Proof.
  intros Ha. revert start visited logs a Ha. induction k as [|k IH]; intros start visited logs a Ha H0 Hle.
  { exists a. cbn. by rewrite app_nil_r. }
  rewrite seqZ_cons by lia. cbn [range_logs]. rewrite (proj2 (Z.eqb_neq _ _)) by lia.
  destruct (lookup_lt_is_Some_2 chain (Z.to_nat start)) as [b Hb]; [unfold head_number in *; lia|].
  destruct (number_logs_ok topics address start b logs a Ha H0 Hb) as (a1 & E1 & Ha1).
  rewrite (bind_ok _ _ _ _ _ E1). replace (Z.pred (Z.of_nat (S k))) with (Z.of_nat k) by lia.
  destruct (IH (Z.succ start) visited (logs ++ block_entries topics address b) a1 Ha1) as (a2 & E2 & Ha2); [lia..|].
  exists a2. split; [|done]. rewrite E2. unfold range_entries. rewrite bind_cons, Hb. by rewrite app_assoc.
Qed.

Lemma range_logs_app topics address head ns1 ns2 visited logs (a a1 : A) logs1 v1 :
  range_logs topics address head ns1 visited logs a = (a1, Ok (logs1, v1)) →
  range_logs topics address head (ns1 ++ ns2) visited logs a = range_logs topics address head ns2 v1 logs1 a1.
Proof.
  revert visited logs a. induction ns1 as [|n ns1 IH]; intros visited logs a; cbn [range_logs app].
  { by intros [= <- <- <-]. }
  destruct (n =? head); [apply IH|]. intros (logs' & a' & E & Hrun)%bind_inv.
  rewrite (bind_ok _ _ _ _ _ E). by apply IH.
Qed.

(** The block a bound of the filter names. *)
Definition resolve (id : option BlockId) : Z :=
  match id with Some (BlockNum n) => n | _ => head_number end.

Lemma seqZ_below start n : seqZ start n = seqZ start (Z.of_nat (Z.to_nat n)).
Proof. destruct (decide (0 ≤ n)); [by rewrite Z2Nat.id|]. rewrite !seqZ_nil by lia. done. Qed.

Lemma logs_between_ok topics address from to_ b a : V a → last chain = Some b →
  0 ≤ resolve from → resolve from ≤ head_number → resolve to_ ≤ head_number →
  ∃ a', logs_between topics address from to_ b a =
    (a', Ok (range_entries topics address (seqZ (resolve from) (resolve to_ - resolve from + 1)))) ∧ V a'.
Proof.
  intros Ha Hb H0 Hs He. destruct (view_last b Hb) as [Hn Hlen]. unfold logs_between. rewrite Hn.
  set (start := resolve from) in *. set (stop := resolve to_) in *.
  replace (default head_number _) with start by (unfold start, resolve; by destruct from as [[]|]).
  replace (default head_number _) with stop by (unfold stop, resolve; by destruct to_ as [[]|]).
  rewrite (proj2 (Z.ltb_ge _ _)) by lia. destruct (decide (stop = head_number)) as [Hst|Hst].
  - assert (seqZ start (stop - start + 1) = seqZ start (Z.of_nat (Z.to_nat (head_number - start))) ++ [head_number]) as ->.
    { rewrite Z2Nat.id by lia. replace (stop - start + 1) with (head_number - start + 1) by lia.
      rewrite seqZ_app by lia. f_equal. rewrite seqZ_cons by lia. rewrite seqZ_nil by lia. f_equal. lia. }
    destruct (range_below topics address (Z.to_nat (head_number - start)) start false [] a Ha) as (a1 & E1 & Ha1); [lia..|].
    pose proof (range_logs_app topics address head_number _ [head_number] _ _ _ _ _ _ E1) as E2.
    cbn [range_logs] in E2. rewrite Z.eqb_refl in E2. rewrite (bind_ok _ _ _ _ _ E2).
    pose proof Hb as Hb'. rewrite last_lookup in Hb'.
    destruct (block_logs_ok topics address _ b (range_entries topics address
      (seqZ start (Z.of_nat (Z.to_nat (head_number - start))))) a1 Ha1 Hb') as (a2 & E3 & Ha2).
    exists a2. split; [|done]. rewrite app_nil_l, E3. unfold range_entries. rewrite bind_app. do 3 f_equal.
    rewrite bind_cons. change ([] ≫= _) with (@nil Web3Log). rewrite app_nil_r. rewrite last_lookup in Hb.
    replace (Z.to_nat head_number) with (pred (length chain)) by (unfold head_number; lia). by rewrite Hb.
  - rewrite seqZ_below.
    destruct (range_below topics address (Z.to_nat (stop - start + 1)) start false [] a Ha) as (a1 & E1 & Ha1); [lia|lia|].
    rewrite (bind_ok _ _ _ _ _ E1). by exists a1.
Qed.

Lemma logs_between_panic topics address from to_ b a : V a → last chain = Some b →
  0 ≤ resolve from → resolve from ≤ head_number → head_number < resolve to_ →
  snd (logs_between topics address from to_ b a) = Panic.
Proof.
  intros Ha Hb H0 Hs He. destruct (view_last b Hb) as [Hn Hlen]. unfold logs_between. rewrite Hn.
  set (start := resolve from) in *. set (stop := resolve to_) in *.
  replace (default head_number _) with start by (unfold start, resolve; by destruct from as [[]|]).
  replace (default head_number _) with stop by (unfold stop, resolve; by destruct to_ as [[]|]).
  rewrite (proj2 (Z.ltb_ge _ _)) by lia.
  assert (∃ rest, seqZ start (stop - start + 1) =
    seqZ start (Z.of_nat (Z.to_nat (head_number - start))) ++ head_number :: (head_number + 1) :: rest) as [rest ->].
  { exists (seqZ (head_number + 2) (stop - head_number - 1)). rewrite Z2Nat.id by lia.
    replace (stop - start + 1) with ((head_number - start) + (stop - head_number + 1)) by lia.
    rewrite seqZ_app by lia. f_equal. rewrite seqZ_cons by lia. f_equal; [lia|].
    rewrite seqZ_cons by lia. f_equal; [lia|]. f_equal; lia. }
  destruct (range_below topics address (Z.to_nat (head_number - start)) start false [] a Ha) as (a1 & E1 & Ha1); [lia..|].
  pose proof (range_logs_app topics address head_number _ (head_number :: (head_number + 1) :: rest) _ _ _ _ _ _ E1) as E2.
  cbn [range_logs] in E2. rewrite Z.eqb_refl, (proj2 (Z.eqb_neq _ _)) in E2 by lia.
  unfold mbind at 1, M_bind at 1. rewrite E2. unfold mbind at 1, M_bind at 1.
  set (logs := [] ++ _).
  pose proof (number_logs_panic topics address (head_number + 1) logs a1 Ha1) as Hp.
  pose proof view_size as Hsize. specialize (Hp ltac:(unfold head_number; lia)).
  rewrite lookup_ge_None_2 in Hp by (unfold head_number; lia). specialize (Hp eq_refl).
  destruct (number_logs topics address (head_number + 1) logs a1) as [a2 o]. cbn [snd] in Hp. by subst o.
Qed.

(** ** Polled filters *)
Lemma unwrap_twice_ok {X} (m : M A ProtocolError (option X)) (h : FilterHub A) a' x :
  m (fh_adapter h) = (a', Ok (Some x)) → unwrap_twice m h = (set_fh_adapter a' h, Ok x).
Proof. intros E. unfold unwrap_twice, try, hub_ask, zoom, mbind, M_bind. by rewrite (rpc_ok _ _ _ _ E). Qed.

(** The hashes of the blocks numbered [ns]. *)
Definition hashes_of (ns : list Z) : list H256 :=
  ns ≫= λ n, match chain !! Z.to_nat n with Some b => [header_hash b] | None => [] end.

Lemma header_hashes_ok k start (h : FilterHub A) : V (fh_adapter h) → 0 ≤ start →
  start + Z.of_nat k ≤ Z.of_nat (length chain) →
  ∃ a', header_hashes (seqZ start (Z.of_nat k)) h = (set_fh_adapter a' h, Ok (hashes_of (seqZ start (Z.of_nat k)))) ∧ V a'.
Proof.
  revert start h. induction k as [|k IH]; intros start h Hv H0 Hle.
  { exists (fh_adapter h). split; [by destruct h|done]. }
  rewrite seqZ_cons by lia. cbn [header_hashes].
  destruct (lookup_lt_is_Some_2 chain (Z.to_nat start)) as [b Hb]; [lia|].
  destruct (view_header start (fh_adapter h) Hv (in_range start b H0 Hb)) as (a1 & E1 & Hv1). rewrite Hb in E1. cbn in E1.
  rewrite (bind_ok _ _ _ _ _ (unwrap_twice_ok _ _ _ _ E1)).
  replace (Z.pred (Z.of_nat (S k))) with (Z.of_nat k) by lia.
  destruct (IH (Z.succ start) (set_fh_adapter a1 h) Hv1) as (a2 & E2 & Hv2); [lia..|].
  rewrite (bind_ok _ _ _ _ _ E2). exists a2. split; [|done]. unfold hashes_of. rewrite bind_cons, Hb. done.
Qed.

(** A poll of a block filter that was last polled at [start]. *)
Lemma filter_block_ok now id start time (h : FilterHub A) :
  V (fh_adapter h) → blocks_hub h !! id = Some (start, time) → 0 ≤ start ≤ head_number → start + 1 < 2 ^ 64 →
  ∃ a', filter_block now id h =
    (set_blocks_hub (<[id := (head_number, now)]> (blocks_hub h)) (set_fh_adapter a' h),
     Ok (if decide (start = head_number) then hashes_of [head_number] else hashes_of (seqZ (start + 1) (head_number - start)))) ∧ V a'.
Proof.
  intros Hv Hid Hs Hlt. unfold filter_block. rewrite bind_gets, Hid. cbn [unwrap]. rewrite bind_lift_ok.
  destruct (lookup_lt_is_Some_2 chain (pred (length chain))) as [b Hb]; [unfold head_number in *; lia|].
  assert (last chain = Some b) as Hlast by (by rewrite last_lookup).
  destruct (view_last b Hlast) as [Hn Hlen].
  destruct (view_latest_header (fh_adapter h) Hv) as (a1 & E1 & Hv1). rewrite Hlast in E1. cbn in E1.
  rewrite (bind_ok _ _ _ _ _ (unwrap_twice_ok _ _ _ _ E1)), Hn.
  rewrite u64_sub_small, bind_lift_ok, u64_add_small, bind_lift_ok by lia. rewrite seqZ_below.
  destruct (header_hashes_ok (Z.to_nat (head_number - (start + 1))) (start + 1) (set_fh_adapter a1 h) Hv1)
    as (a2 & E2 & Hv2); [lia|unfold head_number in *; lia|].
  rewrite (bind_ok _ _ _ _ _ E2), bind_modify. exists a2. split; [|done]. unfold mret, M_ret. f_equal. f_equal.
  assert (hashes_of [head_number] = [header_hash b]) as Hh.
  { unfold hashes_of. rewrite bind_cons. replace (Z.to_nat head_number) with (pred (length chain)) by (unfold head_number; lia).
    by rewrite Hb. }
  change (Header_hash (b_header b)) with (header_hash b). rewrite <-Hh.
  case_decide as Hd; [rewrite Hd; rewrite (seqZ_nil (head_number + 1)) by lia; done|].
  unfold hashes_of. rewrite <-bind_app. f_equal. rewrite Z2Nat.id by lia.
  replace (head_number - start) with (head_number - (start + 1) + 1) by lia. rewrite (seqZ_app _ _ 1) by lia. f_equal.
  rewrite seqZ_cons, seqZ_nil by lia. f_equal. lia.
Qed.

Lemma hub_ask_eq {X} (m : M A RpcError X) (h : FilterHub A) a' x :
  m (fh_adapter h) = (a', x) → hub_ask m h = (set_fh_adapter a' h, x).
Proof. intros E. unfold hub_ask, zoom. by rewrite E. Qed.

Lemma filter_logs_ok now id n address topics time (h : FilterHub A) :
  V (fh_adapter h) → chain ≠ [] →
  logs_hub h !! id = Some (mkLoggerFilter (Some (BlockNum n)) None address topics, time) →
  0 ≤ n → head_number + 1 < 2 ^ 64 →
  ∃ a', filter_logs now id h =
    (if decide (n ≤ head_number) then
       (set_logs_hub (<[id := (mkLoggerFilter (Some (BlockNum (head_number + 1))) None address topics, now)]>
          (logs_hub h)) (set_fh_adapter a' h),
        Ok (range_entries (default [] topics) address (seqZ n (head_number - n + 1))))
     else (set_fh_adapter a' h, Err (CustomValue "Invalid from_block" n))) ∧ V a'.
Proof.
  intros Hv Hne Hid H0 Hlt. destruct (last chain) as [b|] eqn:Hlast; [|by apply last_None in Hlast].
  destruct (view_last b Hlast) as [Hn Hlen].
  destruct (view_latest (fh_adapter h) Hv) as (a1 & E1 & Hv1). rewrite Hlast in E1.
  unfold filter_logs. rewrite bind_gets, Hid. cbn [unwrap lf_topics lf_from_block lf_to_block lf_address].
  rewrite bind_lift_ok, (bind_ok _ _ _ _ _ (hub_ask_eq _ _ _ _ (rpc_ok _ _ _ _ E1))). cbn [unwrap].
  rewrite bind_lift_ok. set (h1 := set_fh_adapter a1 h).
  case_decide as Hd.
  - destruct (logs_between_ok (default [] topics) address (Some (BlockNum n)) None b a1)
      as (a2 & E2 & Hv2); [done..|unfold resolve; cbn; lia|].
    rewrite (bind_ok _ _ _ _ _ (hub_ask_eq _ h1 _ _ E2)). exists a2. split; [|done]. rewrite Hn, u64_add_small by lia. reflexivity.
  - assert (E2 : logs_between (default [] topics) address (Some (BlockNum n)) None b a1 =
      (a1, Err (CustomValue "Invalid from_block" n))).
    { unfold logs_between. rewrite Hn. cbn. by rewrite (proj2 (Z.ltb_lt _ _)) by lia. }
    rewrite (bind_err _ _ _ _ _ (hub_ask_eq _ h1 _ _ E2)). by exists a1.
Qed.
End view.

(** ** The hub's invariant *)
Section hub.
Context `{R : Rlp} `{K : Keccak} `{!FasterHex} {A : Type} `{!APIAdapter A}.
Local Abbreviation hub := (FilterHub A).

(** Filters have numbers up to the last one given out, and a number is of one
    filter. *)
Record hub_inv (h : hub) : Prop := {
  hi_logs id : is_Some (logs_hub h !! id) → 1 ≤ id ≤ fh_id h;
  hi_blocks id : is_Some (blocks_hub h !! id) → 1 ≤ id ≤ fh_id h;
  hi_one id : is_Some (logs_hub h !! id) → blocks_hub h !! id = None;
  hi_id : 0 ≤ fh_id h
}.
Definition has_blocks (id : Z) (h : hub) : Prop := hub_inv h ∧ is_Some (blocks_hub h !! id).
Definition has_logs (id : Z) (h : hub) : Prop := hub_inv h ∧ is_Some (logs_hub h !! id).

(** Calls of the adapter. *)
Lemma ask_preserves (I : hub → Prop) {X} (m : M A RpcError X) :
  (∀ a h, I h → I (set_fh_adapter a h)) → preserves I (hub_ask m).
Proof. intros HI h Hh. unfold hub_ask, zoom. destruct (m _). by apply HI. Qed.
Lemma unwrap_preserves (I : hub → Prop) {X} (m : M A ProtocolError (option X)) :
  (∀ a h, I h → I (set_fh_adapter a h)) → preserves I (unwrap_twice m).
Proof.
  intros HI. apply preserves_bind; [by apply preserves_try, ask_preserves|].
  intros r. by apply preserves_pure.
Qed.
Lemma inv_adapter a (h : hub) : hub_inv h → hub_inv (set_fh_adapter a h).
Proof. by intros [? ? ? ?]. Qed.
Lemma has_blocks_adapter id a (h : hub) : has_blocks id h → has_blocks id (set_fh_adapter a h).
Proof. intros [? ?]. split; [by apply inv_adapter|done]. Qed.
Lemma has_logs_adapter id a (h : hub) : has_logs id h → has_logs id (set_fh_adapter a h).
Proof. intros [? ?]. split; [by apply inv_adapter|done]. Qed.

(** Replacing and removing entries. *)
Lemma replace_blocks id x (h : hub) : has_blocks id h → has_blocks id (set_blocks_hub (<[id := x]> (blocks_hub h)) h).
Proof.
  intros [[Hl Hb Ho Hi] [y Hy]]. assert (∀ i, is_Some (<[id := x]> (blocks_hub h) !! i) ↔ is_Some (blocks_hub h !! i)) as He.
  { intros i. destruct (decide (i = id)) as [->|]; [rewrite lookup_insert_eq, Hy|rewrite lookup_insert_ne by done]; by split. }
  split; [split; cbn; [done|by intros i ?%He; apply Hb| |done]|cbn; by rewrite lookup_insert_eq].
  intros i Hi'. specialize (Ho i Hi'). apply eq_None_not_Some. rewrite He. by rewrite Ho; intros [].
Qed.
Lemma replace_logs id x (h : hub) : has_logs id h → has_logs id (set_logs_hub (<[id := x]> (logs_hub h)) h).
Proof.
  intros [[Hl Hb Ho Hi] [y Hy]]. assert (∀ i, is_Some (<[id := x]> (logs_hub h) !! i) ↔ is_Some (logs_hub h !! i)) as He.
  { intros i. destruct (decide (i = id)) as [->|]; [rewrite lookup_insert_eq, Hy|rewrite lookup_insert_ne by done]; by split. }
  split; [split; cbn; [by intros i ?%He; apply Hl|done|by intros i ?%He; apply Ho|done]|cbn; by rewrite lookup_insert_eq].
Qed.
Lemma fewer_inv (h : hub) l b : l ⊆ logs_hub h → b ⊆ blocks_hub h → hub_inv h →
  hub_inv (set_logs_hub l (set_blocks_hub b h)).
Proof.
  intros Hl Hb [H1 H2 H3 H4]. split; cbn; [| | |done].
  - intros id [x Hx]. apply H1. exists x. by eapply lookup_weaken.
  - intros id [x Hx]. apply H2. exists x. by eapply lookup_weaken.
  - intros id [x Hx]. eapply lookup_weaken_None; [|exact Hb]. apply H3. exists x. by eapply lookup_weaken.
Qed.

Lemma header_hashes_preserves (I : hub → Prop) ns :
  (∀ a h, I h → I (set_fh_adapter a h)) → preserves I (header_hashes ns).
Proof.
  intros HI. induction ns as [|n ns IH]; [by apply preserves_pure|].
  apply preserves_bind; [by apply unwrap_preserves|]. intros x. apply preserves_bind; [done|]. intros y. by apply preserves_pure.
Qed.

Lemma filter_block_preserves now id : preserves (has_blocks id) (filter_block now id).
Proof.
  unfold filter_block. apply preserves_bind; [by apply preserves_pure|]. intros e.
  apply preserves_bind; [by apply preserves_pure|]. intros [start ?].
  apply preserves_bind; [apply unwrap_preserves, has_blocks_adapter|]. intros latest.
  apply preserves_bind; [by apply preserves_pure|]. intros _.
  apply preserves_bind; [by apply preserves_pure|]. intros first.
  apply preserves_bind; [apply header_hashes_preserves, has_blocks_adapter|]. intros hashes.
  apply preserves_bind; [apply preserves_modify, replace_blocks|]. intros _. by apply preserves_pure.
Qed.

Lemma filter_logs_preserves now id : preserves (has_logs id) (filter_logs now id).
Proof.
  unfold filter_logs. apply preserves_bind; [by apply preserves_pure|]. intros e.
  apply preserves_bind; [by apply preserves_pure|]. intros [f ?].
  apply preserves_bind; [apply ask_preserves, has_logs_adapter|]. intros b.
  apply preserves_bind; [by apply preserves_pure|]. intros latest.
  apply preserves_bind; [apply ask_preserves, has_logs_adapter|]. intros logs.
  apply preserves_bind; [destruct (lf_from_block f) as [[n|]|]; try by apply preserves_pure|].
  { apply preserves_bind; [by apply preserves_pure|]. intros next. by apply preserves_pure. }
  intros f'. apply preserves_bind; [apply preserves_modify, replace_logs|]. intros _. by apply preserves_pure.
Qed.

Lemma impl_filter_preserves now id : preserves hub_inv (impl_filter now id).
Proof.
  intros h Hh. unfold impl_filter. rewrite bind_gets. case_decide as Hb; [|case_decide as Hl; [|done]].
  - pose proof (filter_block_preserves now id h (conj Hh Hb)) as [Hp _]. unfold mbind, M_bind.
    by destruct (filter_block now id h) as [h1 [| |]].
  - pose proof (filter_logs_preserves now id h (conj Hh Hl)) as [Hp _]. unfold mbind, M_bind, try.
    destruct (filter_logs now id h) as [h1 [| |]]; cbn in *; [done| |done].
    destruct h1 as [l b i a]. apply (fewer_inv _ (delete id l) b) in Hp; [done|apply delete_subseteq|done].
Qed.

Lemma new_id_inv (h : hub) : hub_inv h → hub_inv (set_fh_id (fh_id h + 1) h).
Proof.
  intros [H1 H2 H3 H4]. split; cbn; [intros id Hid|intros id Hid|done|lia].
  - specialize (H1 id Hid). lia.
  - specialize (H2 id Hid). lia.
Qed.

(** A number that is not of a filter yet. *)
Definition fresh (id : Z) (h : hub) : Prop := hub_inv h ∧ logs_hub h !! id = None ∧ blocks_hub h !! id = None ∧ 1 ≤ id ≤ fh_id h.

Lemma new_id_fresh (h : hub) : hub_inv h → fresh (fh_id h + 1) (set_fh_id (fh_id h + 1) h).
Proof.
  intros Hh. pose proof Hh as [H1 H2 H3 H4]. split; [by apply new_id_inv|]. cbn.
  split_and!; [apply eq_None_not_Some; intros Hs%H1; lia|apply eq_None_not_Some; intros Hs%H2; lia|lia..].
Qed.

Lemma insert_logs_inv id x (h : hub) : fresh id h → hub_inv (set_logs_hub (<[id := x]> (logs_hub h)) h).
Proof.
  intros ([H1 H2 H3 H4] & Hl & Hb & Hid). split; cbn; [|done| |done].
  - intros i Hi. destruct (decide (i = id)) as [->|]; [done|]. rewrite lookup_insert_ne in Hi by done. by apply H1.
  - intros i Hi. destruct (decide (i = id)) as [->|]; [done|]. rewrite lookup_insert_ne in Hi by done. by apply H3.
Qed.
Lemma insert_blocks_inv id x (h : hub) : fresh id h → hub_inv (set_blocks_hub (<[id := x]> (blocks_hub h)) h).
Proof.
  intros ([H1 H2 H3 H4] & Hl & Hb & Hid). split; cbn; [done| | |done].
  - intros i Hi. destruct (decide (i = id)) as [->|]; [done|]. rewrite lookup_insert_ne in Hi by done. by apply H2.
  - intros i Hi. destruct (decide (i = id)) as [->|]; [rewrite Hl in Hi; by destruct Hi|].
    rewrite lookup_insert_ne by done. by apply H3.
Qed.

Lemma run_command_preserves now cmd : preserves hub_inv (run_command now cmd).
Proof.
  intros h Hh. destruct cmd as [f| |id|id]; cbn [run_command].
  - rewrite bind_gets. destruct (u64_add (fh_id h) 1) as [id| |] eqn:E; [|done..]. apply u64_add_ok in E as [-> _].
    rewrite bind_lift_ok, bind_modify, bind_modify. apply insert_logs_inv, new_id_fresh, Hh.
  - rewrite bind_gets. destruct (u64_add (fh_id h) 1) as [id| |] eqn:E; [|done..]. apply u64_add_ok in E as [-> _].
    rewrite bind_lift_ok, bind_modify. set (h1 := set_fh_id _ h).
    assert (Hf : fresh (fh_id h + 1) h1) by apply new_id_fresh, Hh.
    assert (Hp : preserves (fresh (fh_id h + 1)) (unwrap_twice (api_get_block_header_by_number ∅ None))).
    { apply unwrap_preserves. intros a h' (Hi & ? & ? & ?). split; [by apply inv_adapter|done]. }
    specialize (Hp h1 Hf). unfold mbind, M_bind. destruct (unwrap_twice _ h1) as [h2 [hd| |]]; cbn in *; [|apply Hp..].
    by apply insert_blocks_inv.
  - by apply impl_filter_preserves.
  - rewrite bind_gets. destruct h as [l b i a]. case_decide.
    + apply (fewer_inv _ l (delete id b)) in Hh; [exact Hh|done|apply delete_subseteq].
    + apply (fewer_inv _ (delete id l) b) in Hh; [exact Hh|apply delete_subseteq|done].
Qed.

(** What happens to a hub: a command, its caller waiting or gone, or a tick of
    the timer. *)
Inductive HubEvent : Type := EvCommand (now : Z) (cmd : Command) (waiting : bool) | EvTick (now : Z).
Definition hub_event (ev : HubEvent) (h : hub) : hub :=
  match ev with
  | EvCommand now cmd waiting => (handle now cmd waiting h).1
  | EvTick now => check_hubs now h
  end.

Lemma hub_event_inv ev (h : hub) : hub_inv h → hub_inv (hub_event ev h).
Proof.
  intros Hh. destruct ev as [now cmd waiting|now]; cbn [hub_event].
  - revert h Hh. apply preserves_bind; [apply run_command_preserves|]. intros x. by destruct waiting; apply preserves_pure.
  - destruct h as [l b i a]. unfold check_hubs. cbn.
    apply (fewer_inv (mkFilterHub l b i a)); [apply map_filter_subseteq..|done].
Qed.

Lemma hub_events_inv evs (h : hub) : hub_inv h → hub_inv (fold_left (λ h ev, hub_event ev h) evs h).
Proof. revert h. induction evs as [|ev evs IH]; intros h Hh; cbn; [done|]. by apply IH, hub_event_inv. Qed.
Lemma FilterHub_new_inv (a : A) : hub_inv (FilterHub_new a).
Proof. split; cbn; [by intros id [? ?%lookup_empty_Some]..|by intros id|lia]. Qed.
End hub.

(** ** Subscriptions *)
Section notify.
Context `{R : Rlp} `{K : Keccak} `{!FasterHex} {A : Type} `{!APIAdapter A} (chain : list Block)
  (receipts_of : Block → list (option Receipt)) (V : A → Prop) `{!ApiView chain receipts_of V}.
Local Abbreviation sub := (Subscription A).

(** What is sent for block [n]: its header, and its logs. *)
Definition head_messages (sinks : list nat) (n : Z) : list (nat * WsMessage) :=
  match chain !! Z.to_nat n with
  | Some b => to_sinks sinks (WsHeader (Web3Header_from (b_header b)))
  | None => []
  end.
Definition log_messages (hubs : list (WsLoggerFilter * nat)) (n : Z) : list (nat * WsMessage) :=
  match chain !! Z.to_nat n with
  | Some b => per_receipt (receipts_of b) (λ before r, hubs ≫= λ hub,
      (λ e, (hub.2, WsLog e)) <$> if addressed (wsf_address hub.1) r
        then topic_entries (default [] (wsf_topics hub.1)) before r else [])
  | None => []
  end.
Definition block_txs (n : Z) : list (Z * list Hash) :=
  match chain !! Z.to_nat n with Some b => [(n, b_tx_hashes b)] | None => [] end.

Lemma sub_unwrap_ok {X} (m : M A ProtocolError X) (s : sub) a' x :
  m (sub_adapter s) = (a', Ok x) → sub_unwrap m s = (set_sub_adapter a' s, Ok x).
Proof. intros E. unfold sub_unwrap, try, zoom, mbind, M_bind. by rewrite (rpc_ok _ _ _ _ E). Qed.
Lemma sub_unwrap2_ok {X} (m : M A ProtocolError (option X)) (s : sub) a' x :
  m (sub_adapter s) = (a', Ok (Some x)) → sub_unwrap2 m s = (set_sub_adapter a' s, Ok x).
Proof. intros E. unfold sub_unwrap2. by rewrite (bind_ok _ _ _ _ _ (sub_unwrap_ok _ _ _ _ E)). Qed.

Lemma send_all_app ms1 ms2 (s : sub) : send_all ms2 (send_all ms1 s) = send_all (ms1 ++ ms2) s.
Proof. unfold send_all. cbn. by rewrite app_assoc. Qed.
Lemma send_all_nil (s : sub) : send_all [] s = s.
Proof. unfold send_all. rewrite app_nil_r. by destruct s. Qed.

Lemma blocks_of_ok sinks k start (s : sub) : V (sub_adapter s) → 0 ≤ start →
  start + Z.of_nat k ≤ Z.of_nat (length chain) →
  ∃ a', blocks_of sinks (seqZ start (Z.of_nat k)) s =
    (send_all (seqZ start (Z.of_nat k) ≫= head_messages sinks) (set_sub_adapter a' s),
     Ok (seqZ start (Z.of_nat k) ≫= block_txs)) ∧ V a'.
Proof.
  revert start s. induction k as [|k IH]; intros start s Hv H0 Hle.
  { exists (sub_adapter s). split; [|done]. cbn. rewrite send_all_nil. by destruct s. }
  rewrite seqZ_cons by lia. cbn [blocks_of].
  destruct (lookup_lt_is_Some_2 chain (Z.to_nat start)) as [b Hb]; [lia|].
  destruct (view_block start (sub_adapter s) Hv (in_range chain receipts_of V start b H0 Hb)) as (a1 & E1 & Hv1). rewrite Hb in E1.
  rewrite (bind_ok _ _ _ _ _ (sub_unwrap2_ok _ _ _ _ E1)), bind_modify.
  replace (Z.pred (Z.of_nat (S k))) with (Z.of_nat k) by lia.
  set (s1 := send_all _ _). destruct (IH (Z.succ start) s1 Hv1) as (a2 & E2 & Hv2); [lia..|].
  rewrite (bind_ok _ _ _ _ _ E2). exists a2. split; [|done]. unfold mret, M_ret. f_equal.
  - rewrite bind_cons, <-send_all_app.
    assert (head_messages sinks start = to_sinks sinks (WsHeader (Web3Header_from (b_header b)))) as ->
      by (unfold head_messages; by rewrite Hb). done.
  - rewrite bind_cons. assert (block_txs start = [(start, b_tx_hashes b)]) as -> by (unfold block_txs; by rewrite Hb).
    pose proof (view_number _ _ Hb) as ->. by rewrite Z2Nat.id by lia.
Qed.

Lemma send_logs_ok hubs ns (s : sub) : V (sub_adapter s) → Forall (λ n, 0 ≤ n) ns →
  ∃ a', for_each (λ '(number, tx_hashes),
      receipts ← sub_unwrap (api_get_receipts_by_hashes ∅ number tx_hashes);
      modify (send_all (receipts_logs hubs 0 receipts))) (ns ≫= block_txs) s =
    (send_all (ns ≫= log_messages hubs) (set_sub_adapter a' s), Ok tt) ∧ V a'.
Proof.
  intros Hv Hns. revert s Hv. induction Hns as [|n ns Hn Hns IH]; intros s Hv.
  { exists (sub_adapter s). split; [|done]. cbn. rewrite send_all_nil. by destruct s. }
  rewrite !bind_cons. unfold block_txs at 1, log_messages at 1.
  destruct (chain !! Z.to_nat n) as [b|] eqn:Hb; [|by apply IH].
  cbn [app for_each]. destruct (view_receipts (Z.to_nat n) b (sub_adapter s) Hv Hb) as (a1 & E1 & Hv1).
  rewrite Z2Nat.id in E1 by done.
  erewrite bind_ok; [|rewrite (bind_ok _ _ _ _ _ (sub_unwrap_ok _ _ _ _ E1)); reflexivity].
  rewrite receipts_logs_spec. set (s1 := send_all _ _). destruct (IH s1 Hv1) as (a2 & E2 & Hv2). exists a2. split; [|done].
  rewrite E2. unfold s1. f_equal. by rewrite <-send_all_app.
Qed.

(** The blocks after [c]. *)
Abbreviation news c := (seqZ (c + 1) (head_number chain - c)).

Lemma news_snoc {X} (g : Z → list X) c b : c < head_number chain → last chain = Some b →
  news c ≫= g = (seqZ (c + 1) (Z.of_nat (Z.to_nat (head_number chain - (c + 1)))) ≫= g) ++ g (head_number chain).
Proof.
  intros Hc Hb. rewrite Z2Nat.id by lia.
  replace (head_number chain - c) with (head_number chain - (c + 1) + 1) by lia.
  rewrite seqZ_app, bind_app by lia. f_equal. rewrite (seqZ_cons _ 1), seqZ_nil by lia. rewrite bind_cons, app_nil_r. f_equal. lia.
Qed.

Lemma head_lookup b : last chain = Some b → chain !! Z.to_nat (head_number chain) = Some b.
Proof.
  rewrite last_lookup. intros Hb. pose proof (lookup_lt_Some _ _ _ Hb).
  by replace (Z.to_nat (head_number chain)) with (pred (length chain)) by (unfold head_number; lia).
Qed.
Lemma bind_none {X Y} (g : X → list Y) l : (∀ x, g x = []) → l ≫= g = [].
Proof. intros Hg. induction l as [|x l IH]; [done|]. by rewrite bind_cons, IH, Hg. Qed.
Lemma no_heads n : head_messages [] n = [].
Proof. unfold head_messages. by destruct (chain !! _). Qed.
Lemma no_logs n : log_messages [] n = [].
Proof.
  unfold log_messages. destruct (chain !! _) as [b|]; [|done].
  unfold per_receipt. induction (seq 0 _) as [|j l IH]; [done|]. rewrite bind_cons, IH. by destruct (_ !! j) as [[r|]|].
Qed.

(** The headers part of [notify]. *)
Lemma send_headers_ok c b (s : sub) : V (sub_adapter s) → last chain = Some b → current_number s = c →
  0 ≤ c < head_number chain → c + 1 < 2 ^ 64 →
  ∃ a' v, (match header_hubs s with
   | [] => mret []
   | sinks =>
       first ← lift (u64_add (current_number s) 1);
       v ← blocks_of sinks (seqZ first (head_number chain - first));
       modify (send_all (to_sinks sinks (WsHeader (Web3Header_from (b_header b)))));;
       mret v
   end : M sub RpcError _) s =
    (send_all (news c ≫= head_messages (header_hubs s)) (set_sub_adapter a' s), Ok v) ∧ V a' ∧
    (v ≠ [] → v = seqZ (c + 1) (Z.of_nat (Z.to_nat (head_number chain - (c + 1)))) ≫= block_txs).
Proof.
  intros Hv Hb Hc Hr Hlt. rewrite (news_snoc _ c b) by (done || lia). rewrite Hc.
  destruct (header_hubs s) as [|k ks] eqn:Hh.
  - exists (sub_adapter s), []. split; [|done]. rewrite (bind_none _ _ no_heads), no_heads. cbn.
    rewrite send_all_nil. by destruct s.
  - rewrite u64_add_small, bind_lift_ok by lia. rewrite (seqZ_below (c + 1) (head_number chain - (c + 1))).
    destruct (blocks_of_ok (k :: ks) (Z.to_nat (head_number chain - (c + 1))) (c + 1) s Hv) as (a' & E & Hv');
      [lia|unfold head_number in *; lia|].
    rewrite (bind_ok _ _ _ _ _ E), bind_modify. eexists a', _. split; [|split; [done|by intros _]].
    unfold mret, M_ret. f_equal. rewrite send_all_app. f_equal. f_equal. unfold head_messages. by rewrite (head_lookup b Hb).
Qed.

(** The logs part. *)
Lemma send_all_logs_ok c b v hubs (s : sub) : V (sub_adapter s) → last chain = Some b →
  0 ≤ c < head_number chain → c + 1 < 2 ^ 64 →
  (v ≠ [] → v = seqZ (c + 1) (Z.of_nat (Z.to_nat (head_number chain - (c + 1)))) ≫= block_txs) →
  ∃ a', (match hubs with
   | [] => mret tt
   | hub :: rest =>
       log_vec ← (match v with
                  | [] => first ← lift (u64_add c 1); blocks_of [] (seqZ first (head_number chain - first))
                  | _ => mret v
                  end);
       for_each (λ '(number, tx_hashes),
         receipts ← sub_unwrap (api_get_receipts_by_hashes ∅ number tx_hashes);
         modify (send_all (receipts_logs (hub :: rest) 0 receipts))) (log_vec ++ [(head_number chain, b_tx_hashes b)])
   end : M sub RpcError unit) s = (send_all (news c ≫= log_messages hubs) (set_sub_adapter a' s), Ok tt) ∧ V a'.
Proof.
  intros Hv Hb Hr Hlt Hlv. destruct hubs as [|hub hubs].
  { exists (sub_adapter s). split; [|done]. rewrite (bind_none _ _ no_logs), send_all_nil. by destruct s. }
  assert (∃ a1, (match v with
                  | [] => first ← lift (u64_add c 1); blocks_of [] (seqZ first (head_number chain - first))
                  | _ => mret v
                  end : M sub RpcError _) s =
    (set_sub_adapter a1 s, Ok (seqZ (c + 1) (Z.of_nat (Z.to_nat (head_number chain - (c + 1)))) ≫= block_txs)) ∧ V a1)
    as (a1 & E1 & Hv1).
  { destruct v as [|x v]; [|rewrite (Hlv ltac:(done)); exists (sub_adapter s); split; [by destruct s|done]].
    rewrite u64_add_small, bind_lift_ok by lia. rewrite (seqZ_below (c + 1) (head_number chain - (c + 1))).
    destruct (blocks_of_ok [] (Z.to_nat (head_number chain - (c + 1))) (c + 1) s Hv) as (a' & E & Hv');
      [lia|unfold head_number in *; lia|].
    exists a'. rewrite E. split; [|done]. f_equal.
    by rewrite (bind_none _ _ no_heads), send_all_nil. }
  rewrite (bind_ok _ _ _ _ _ E1).
  assert ((seqZ (c + 1) (Z.of_nat (Z.to_nat (head_number chain - (c + 1)))) ≫= block_txs) ++
    [(head_number chain, b_tx_hashes b)] = news c ≫= block_txs) as ->.
  { rewrite (news_snoc _ c b) by (done || lia). f_equal. unfold block_txs. by rewrite (head_lookup b Hb). }
  apply (send_logs_ok (hub :: hubs) (news c) (set_sub_adapter a1 s) Hv1), Forall_forall.
  intros n Hn%elem_of_seqZ. lia.
Qed.
End notify.

(** ** A chain of three blocks, for the witnesses *)
Definition numbered (n : Z) : Block :=
  mkBlock (mkHeader 11 12 13 14 15 16 17 1 1000 n 21000 30000 [xab] (Some 18) 0 1337 sample_proof 0 7) [100 + n].
Definition small_chain : list Block := numbered <$> [0; 1; 2].
Definition small_receipt (hash : Hash) : option Receipt :=
  Some (mkReceipt hash 1 55 0 13 21000 17 [mkLog 3 [4; 5] [x06]] None 12 (Succeed Returned)).
Definition small_receipts (b : Block) : list (option Receipt) := small_receipt <$> b_tx_hashes b.
Definition none_such {X} : M unit ProtocolError X := throw (PE_API (API_Adapter "none")).

#[local] Instance chain_adapter : APIAdapter unit := {|
  api_insert_signed_txs _ _ := none_such;
  api_get_block_by_number _ height :=
    mret (match height with Some n => small_chain !! Z.to_nat n | None => last small_chain end);
  api_get_block_by_hash _ _ := mret None;
  api_get_block_header_by_number _ height :=
    mret (b_header <$> (match height with Some n => small_chain !! Z.to_nat n | None => last small_chain end));
  api_get_receipt_by_tx_hash _ h := mret (small_receipt h);
  api_get_receipts_by_hashes _ _ hs := mret (small_receipt <$> hs);
  api_get_transaction_by_hash _ _ := mret None;
  api_get_transactions_by_hashes _ _ hs := mret ((λ _, None) <$> hs);
  api_get_account _ _ _ := none_such;
  api_get_pending_tx_count _ _ := mret 0;
  api_evm_call _ _ _ _ _ _ := none_such;
  api_get_code_by_hash _ _ := mret None;
  api_peer_count _ := mret 0;
  api_get_storage_at _ _ _ _ := none_such |}.

#[local] Instance chain_view : ApiView small_chain small_receipts (λ _, True).
Proof.
  split.
  - intros n [] _ _. by exists tt.
  - intros [] _. by exists tt.
  - intros n [] _ _. by exists tt.
  - intros [] _. by exists tt.
  - intros i b [] _ _. by exists tt.
  - by vm_compute.
  - intros i b Hb. do 3 (destruct i as [|i]; [by injection Hb as <-|]). done.
Qed.

#[local] Instance nibbles : FasterHex := {|
  hex_string := digits_of;
  hex_decode_into := bytes_of_digits;
  hex_decode_string := bytes_of_digits_of |}.

(** ** Properties *)

(** C33: What [eth_getLogs] answers for a range.  Over an adapter that serves a
    chain: a range that starts above the latest block is an error; a range
    within the chain gives the entries of its blocks, all of them and in order,
    one for each selected topic of each log of the receipts of the addresses
    asked for; and a range that ends above the latest block panics the call. *)
Theorem get_logs_outcome `{R : Rlp} `{K : Keccak} `{!FasterHex} {A} `{!APIAdapter A} chain receipts_of V
    `{!ApiView chain receipts_of V} f (a : A) :
  V a → chain ≠ [] → wf_block_hash f = None → 0 ≤ resolve chain (wf_from_block f) →
  let start := resolve chain (wf_from_block f) in
  let stop := resolve chain (wf_to_block f) in
  let head := head_number chain in
  (head < start → snd (get_logs f a) = Err (CustomValue "Invalid from_block" start)) ∧
  (start ≤ head → stop ≤ head → ∃ a', get_logs f a =
     (a', Ok (range_entries chain receipts_of (default [] (wf_topics f)) (multi_list (wf_address f))
                (seqZ start (stop - start + 1)))) ∧ V a') ∧
  (start ≤ head → head < stop → snd (get_logs f a) = Panic).
Proof.
  intros Ha Hne Hh H0 start stop head. destruct (last chain) as [b|] eqn:Hlast; [|by apply last_None in Hlast].
  destruct (view_last chain receipts_of V b Hlast) as [Hn Hlen].
  destruct (view_latest a Ha) as (a1 & E1 & Ha1). rewrite Hlast in E1. unfold get_logs. rewrite Hh.
  rewrite (bind_ok _ _ _ _ _ (rpc_ok _ _ _ _ E1)). cbn [unwrap]. rewrite bind_lift_ok. split_and!.
  - intros Hs. unfold logs_between. rewrite Hn.
    replace (default (head_number chain) _) with start by (unfold start, resolve; by destruct (wf_from_block f) as [[]|]).
    by rewrite (proj2 (Z.ltb_lt _ _)) by done.
  - intros Hs He. by apply (logs_between_ok chain receipts_of V).
  - intros Hs He. by apply (logs_between_panic chain receipts_of V).
Qed.
Definition logs_request (to_block : Z) : Web3Filter :=
  mkWeb3Filter (Some (BlockNum 1)) (Some (BlockNum to_block)) None MultiNull None.
Lemma get_logs_outcome_witness :
  (∃ a', get_logs (logs_request 2) tt =
     (a', Ok (range_entries small_chain small_receipts [] None [1; 2])) ∧ True) ∧
  length (range_entries small_chain small_receipts [] None [1; 2]) = 4%nat ∧
  snd (get_logs (logs_request 3) tt) = Panic.
Proof.
  split_and!.
  - refine (proj1 (proj2 (get_logs_outcome small_chain small_receipts (λ _, True) (logs_request 2) tt I _ eq_refl _)) _ _);
      by vm_compute.
  - by vm_compute.
  - refine (proj2 (proj2 (get_logs_outcome small_chain small_receipts (λ _, True) (logs_request 3) tt I _ eq_refl _)) _ _);
      by vm_compute.
Defined.

(** The hub never confuses filters: after any sequence of commands,
    answered or abandoned, and timer ticks, every filter has a number of its
    own, no larger than the last one given out, and a new filter gets a number
    that no filter has. *)
Theorem filter_ids_distinct `{R : Rlp} `{K : Keccak} `{!FasterHex} {A} `{!APIAdapter A} (a : A) evs now f h' id :
  let h := fold_left (λ h ev, hub_event ev h) evs (FilterHub_new a) in
  hub_inv h ∧
  (handle now (NewLogs f) true h = (h', Ok (AnswerId id)) →
     logs_hub h !! id = None ∧ blocks_hub h !! id = None ∧ logs_hub h' !! id = Some (f, now)).
Proof.
  intros h. assert (Hh : hub_inv h) by apply hub_events_inv, FilterHub_new_inv. split; [done|].
  unfold handle. cbn [run_command]. intros (ans & h1 & Hrun & Hret)%bind_inv. injection Hret as -> ->.
  rewrite bind_gets in Hrun. apply bind_lift_inv in Hrun as (id' & [-> _]%u64_add_ok & Hrun).
  rewrite bind_modify, bind_modify in Hrun. injection Hrun as <- <-.
  destruct (new_id_fresh h Hh) as (_ & Hl & Hb & _). split_and!; [done..|]. cbn. apply lookup_insert_eq.
Qed.
Definition any_log : LoggerFilter := mkLoggerFilter None None None None.
Lemma filter_ids_distinct_witness :
  let h := fold_left (λ h ev, hub_event ev h) [EvCommand 1 NewBlocks true; EvTick 2] (FilterHub_new tt) in
  logs_hub h !! 2 = None ∧ blocks_hub h !! 2 = None.
Proof.
  destruct (filter_ids_distinct tt [EvCommand 1 NewBlocks true; EvTick 2] 3 any_log
    (fst (handle 3 (NewLogs any_log) true
       (fold_left (λ h ev, hub_event ev h) [EvCommand 1 NewBlocks true; EvTick 2] (FilterHub_new tt)))) 2)
    as [_ (Hl & Hb & _)]; [by vm_compute|by split].
Defined.

(** A poll of a block filter delivers the hashes of exactly the blocks
    after the one of its last poll, in order, and remembers the latest, so that
    the next poll goes on from there; but when there is no new block it
    delivers the latest one again. *)
Theorem block_filter_poll `{R : Rlp} `{K : Keccak} `{!FasterHex} {A} `{!APIAdapter A} chain receipts_of V
    `{!ApiView chain receipts_of V} now id start time (h : FilterHub A) :
  V (fh_adapter h) → blocks_hub h !! id = Some (start, time) → 0 ≤ start ≤ head_number chain →
  start + 1 < 2 ^ 64 →
  ∃ h', handle now (FilterRequest id) true h = (h', Ok (AnswerChanges (Ok (Blocks
      (if decide (start = head_number chain) then hashes_of chain [start]
       else hashes_of chain (seqZ (start + 1) (head_number chain - start))))))) ∧
    blocks_hub h' !! id = Some (head_number chain, now) ∧ V (fh_adapter h').
Proof.
  intros Hv Hid Hs Hlt.
  destruct (filter_block_ok chain receipts_of V now id start time h Hv Hid Hs Hlt) as (a' & E & Hv').
  unfold handle. cbn [run_command]. unfold impl_filter.
  eexists (set_blocks_hub (<[id := (head_number chain, now)]> (blocks_hub h)) (set_fh_adapter a' h)).
  split; [|split; [cbn; apply lookup_insert_eq|exact Hv']].
  erewrite bind_ok; [reflexivity|]. rewrite bind_gets, decide_True by (by rewrite Hid).
  rewrite (bind_ok _ _ _ _ _ E). unfold mret, M_ret. do 4 f_equal. by case_decide as Hd; [rewrite <-Hd|].
Qed.
Definition polled_hub : FilterHub unit := mkFilterHub ∅ {[1 := (0, 5)]} 1 tt.
Lemma block_filter_poll_witness :
  ∃ h', handle 9 (FilterRequest 1) true polled_hub =
    (h', Ok (AnswerChanges (Ok (Blocks (hashes_of small_chain [1; 2]))))) ∧
  blocks_hub h' !! 1 = Some (2, 9) ∧ True.
Proof. refine (block_filter_poll small_chain small_receipts (λ _, True) 9 1 0 5 polled_hub I _ _ _); by vm_compute. Defined.

(** A poll of a log filter from a block number delivers the entries of
    every block from that number to the latest, and moves the number past the
    latest block.  A poll while there is no block of that number, which is the
    next one when no block has arrived since, is an error, and the filter is
    gone after it. *)
Theorem log_filter_poll `{R : Rlp} `{K : Keccak} `{!FasterHex} {A} `{!APIAdapter A} chain receipts_of V
    `{!ApiView chain receipts_of V} now id n address topics time (h : FilterHub A) :
  V (fh_adapter h) → chain ≠ [] → blocks_hub h !! id = None →
  logs_hub h !! id = Some (mkLoggerFilter (Some (BlockNum n)) None address topics, time) →
  0 ≤ n → head_number chain + 1 < 2 ^ 64 →
  ∃ h', handle now (FilterRequest id) true h = (h', Ok (AnswerChanges
      (if decide (n ≤ head_number chain) then
         Ok (Logs (range_entries chain receipts_of (default [] topics) address (seqZ n (head_number chain - n + 1))))
       else Err (CustomValue "Invalid from_block" n)))) ∧ V (fh_adapter h') ∧
    logs_hub h' !! id = (if decide (n ≤ head_number chain) then
      Some (mkLoggerFilter (Some (BlockNum (head_number chain + 1))) None address topics, now) else None).
Proof.
  intros Hv Hne Hb Hid H0 Hlt.
  destruct (filter_logs_ok chain receipts_of V now id n address topics time h) as (a' & Ef & Hv'); [done..|].
  unfold handle. cbn [run_command]. unfold impl_filter. unfold mbind at 1 2, M_bind, gets.
  rewrite decide_False by (rewrite Hb; by intros [? ?]). rewrite decide_True by (rewrite Hid; eauto).
  unfold mbind, M_bind, try. rewrite Ef. case_decide as Hd; cbn.
  - eexists. split; [reflexivity|]. split; [exact Hv'|apply lookup_insert_eq].
  - eexists. split; [reflexivity|]. split; [exact Hv'|apply lookup_delete_eq].
Qed.
Definition logging_hub : FilterHub unit :=
  mkFilterHub {[1 := (mkLoggerFilter (Some (BlockNum 1)) None None None, 5)]} ∅ 1 tt.
Lemma log_filter_poll_witness :
  ∃ h', handle 9 (FilterRequest 1) true logging_hub =
    (h', Ok (AnswerChanges (Ok (Logs (range_entries small_chain small_receipts [] None [1; 2]))))) ∧ True ∧
  logs_hub h' !! 1 = Some (mkLoggerFilter (Some (BlockNum 3)) None None None, 9).
Proof.
  refine (log_filter_poll small_chain small_receipts (λ _, True) 9 1 1 None None 5 logging_hub I _ _ _ _ _); by vm_compute.
Defined.

(** C21: What a pass of the subscription loop sends.  The closed sinks are
    dropped.  If the chain has grown, every remaining header subscriber is sent
    the header of every block after the last one notified, each once and in
    block order; every synchronisation subscriber is sent the status; and every
    log subscriber is sent, for the receipts of those blocks in order that were
    sent by one of its addresses, one entry for each topic of each log that its
    filter selects: as many for a log as it has such topics, and none for a log
    without topics.  An entry carries the receipt's sender, block and
    transaction, the log's topics and data, and for its index the number of logs
    before the receipt plus the position of the topic.  The latest block becomes
    the last one notified; if the chain has not grown, nothing is sent. *)
Theorem notify_complete `{R : Rlp} `{K : Keccak} `{!FasterHex} {A} `{!APIAdapter A} chain receipts_of V
    `{!ApiView chain receipts_of V} closed status (s : Subscription A) :
  V (sub_adapter s) → chain ≠ [] → 0 ≤ current_number s ≤ head_number chain → current_number s + 1 < 2 ^ 64 →
  let lh := filter (λ h, closed h.2 = false) (log_hubs s) in
  let hh := filter (λ k, closed k = false) (header_hubs s) in
  let sh := filter (λ k, closed k = false) (sync_hubs s) in
  let news := seqZ (current_number s + 1) (head_number chain - current_number s) in
  ∃ a', notify closed status s = (set_hubs lh hh sh (set_current_number (head_number chain)
      (send_all (if decide (current_number s = head_number chain) then [] else
         (news ≫= head_messages chain hh) ++ to_sinks sh (WsSync (Web3SyncStatus_from status)) ++
         (news ≫= log_messages chain receipts_of lh)) (set_sub_adapter a' s))), Ok tt) ∧ V a'.
Proof.
  intros Hv Hne Hc Hlt lh hh sh news. destruct (last chain) as [b|] eqn:Hb; [|by apply last_None in Hb].
  destruct (view_last chain receipts_of V b Hb) as [Hn Hlen].
  unfold notify. rewrite bind_modify. fold lh hh sh. set (s1 := set_hubs lh hh sh s).
  destruct (view_latest (sub_adapter s1) Hv) as (a1 & E1 & Hv1). rewrite Hb in E1.
  rewrite (bind_ok _ _ _ _ _ (sub_unwrap2_ok _ _ _ _ E1)), bind_gets. set (s2 := set_sub_adapter a1 s1). rewrite Hn.
  change (current_number s2) with (current_number s). case_decide as Hd.
  { rewrite (proj2 (Z.eqb_eq _ _)) by done. exists a1. split; [|done]. rewrite send_all_nil, <-Hd. by destruct s. }
  rewrite (proj2 (Z.eqb_neq _ _)) by done.
  destruct (send_headers_ok chain receipts_of V (current_number s) b s2) as (a2 & v & E2 & Hv2 & Hlv); [done..|lia|lia|].
  change (current_number s2) with (current_number s) in E2.
  rewrite (bind_ok _ _ _ _ _ E2), bind_modify. set (s3 := send_all _ (send_all _ _)).
  destruct (send_all_logs_ok chain receipts_of V (current_number s) b v (log_hubs s2) s3) as (a3 & E3 & Hv3);
    [done..|lia|lia|done|].
  rewrite (bind_ok _ _ _ _ _ E3). exists a3. split; [|done]. unfold modify, s3, s2, s1, send_all. destruct s. cbn.
  by rewrite <-!app_assoc.
Qed.
Definition one_of_each : Subscription unit :=
  mkSubscription [(mkWsLoggerFilter None None, 1%nat)] [2%nat; 3%nat] [4%nat] tt 0 [].
Lemma notify_complete_witness :
  let s' := fst (notify (Nat.eqb 3) (NotSyncing) one_of_each) in
  current_number s' = 2 ∧ header_hubs s' = [2%nat] ∧ fst <$> sub_sent s' = [2; 2; 4; 1; 1; 1; 1]%nat.
Proof.
  destruct (notify_complete small_chain small_receipts (λ _, True) (Nat.eqb 3) NotSyncing one_of_each)
    as (a' & -> & _); [done|done|vm_compute; intuition discriminate|done|by vm_compute].
Defined.

(** A block identifier written by the node is read back as itself, also
    where the pending block is allowed. *)
Theorem block_id_roundtrip id :
  (∀ n, id = BlockNum n → 0 ≤ n < 2 ^ 64) →
  visit_str (block_id_serialize id) = Ok id ∧ visit_str_pending (block_id_serialize id) = Ok (ById id).
Proof.
  intros Hid. assert (E : visit_str (block_id_serialize id) = Ok id).
  { destruct id as [n|]; [|by vm_compute]. unfold visit_str, visit_number. cbn [block_id_serialize].
    rewrite decide_False by (intros He; discriminate He).
    assert (starts_with PREFIX_0X (PREFIX_0X ++ u64_to_hex n) = true) as -> by done.
    change (drop 2 (PREFIX_0X ++ u64_to_hex n)) with (u64_to_hex n).
    by rewrite parse_u64_to_hex by (by apply Hid). }
  split; [done|]. unfold visit_str_pending. rewrite decide_False by (destruct id; intros He; discriminate He).
  by rewrite E.
Qed.
Lemma block_id_roundtrip_witness :
  block_id_serialize (BlockNum 255) = chars_of "0xff" ∧ visit_str (block_id_serialize (BlockNum 255)) = Ok (BlockNum 255).
Proof. split; [by vm_compute|]. apply (block_id_roundtrip (BlockNum 255)). intros n [= <-]. lia. Defined.
