(* ===== verification/Frame.v ===== *)
(** * What the calls of a node leave alone

    The storage and the trie database of a node are shared by the mempool, the
    consensus adapter and the engine.  A predicate of the two that the reads of
    the storage keep ([StoreReads]) is kept by every operation of the mempool, by
    every call the engine makes of its adapter but the execution and the saves
    ([AdapterReads]), and by the engine's own steps in between; one that the
    writes of transactions and receipts keep as well ([StoreFramed]) is kept by
    their saves ([AdapterFramed]); one that the world does not enter is kept by
    the execution of transactions ([ExecFramed]). *)

From S2P Require Import Prelude Types Codec Traits Heap Pool Executor MemPool Storage.
From S2P Require Import Interoperation DefaultAdapter Metadata Overlord Wal.
From S2P Require Import Engine ConsensusAdapterImpl.

Local Open Scope Z_scope.

(** ** Invariants, continued *)
Section more.
Context {E : Type}.
Lemma preserves_ret {S A} (I : S → Prop) (x : A) : preserves I (mret x : M S E A).
Proof. by intros s Hs. Qed.
Lemma preserves_lift {S A} (I : S → Prop) (o : outcome E A) : preserves I (lift o).
Proof. by intros s Hs. Qed.
Lemma preserves_gets {S A} (I : S → Prop) (f : S → A) : preserves I (gets f : M S E A).
Proof. by intros s Hs. Qed.
Lemma preserves_throw {S A} (I : S → Prop) (e : E) : preserves I (throw e : M S E A).
Proof. by intros s Hs. Qed.
Lemma preserves_for_each {S X} (I : S → Prop) (f : X → M S E unit) l :
  (∀ x, preserves I (f x)) → preserves I (for_each f l).
Proof.
  intros Hf. induction l as [|x l IH]; [apply preserves_ret|]. cbn. apply preserves_bind; [apply Hf|]. by intros [].
Qed.
Lemma preserves_inv {S X} (I : S → Prop) (op : M S E X) s s' o : preserves I op → op s = (s', o) → I s → I s'.
Proof. intros Hop Hrun Hs. specialize (Hop s Hs). by rewrite Hrun in Hop. Qed.
(** A component that holds what [I] speaks of, and one that does not. *)
Lemma preserves_zoom {S T A} (get : S → T) (set : T → S → S) (I : T → Prop) (J : S → Prop) (m : M T E A) :
  (∀ s, J s → I (get s)) → (∀ t s, J s → I t → J (set t s)) → preserves I m → preserves J (zoom get set m).
Proof.
  intros Hg Hs Hm s HJ. unfold zoom. specialize (Hm (get s) (Hg s HJ)). destruct (m (get s)) as [t o]. by apply Hs.
Qed.
Lemma preserves_zoom_other {S T A} (get : S → T) (set : T → S → S) (J : S → Prop) (m : M T E A) :
  (∀ t s, J s → J (set t s)) → preserves J (zoom get set m).
Proof. intros Hs s HJ. unfold zoom. destruct (m (get s)) as [t o]. by apply Hs. Qed.
End more.

#[export] Hint Resolve preserves_ret preserves_lift preserves_gets preserves_throw preserves_try : axon.

(** Walks through an operation. *)
Ltac keep :=
  repeat first
    [ solve [auto with axon]
    | apply preserves_bind; [|intros ?]
    | apply preserves_for_each; intros ?
    | match goal with
      | |- preserves _ (match ?x with _ => _ end) => destruct x
      | |- preserves _ (let _ := _ in _) => cbv zeta
      end ].

(** ** The storage *)
(** The reads keep it, and the writes of transactions and receipts too. *)
Class StoreReads {St : Type} `{!Storage St} (I : St → Prop) : Prop := {
  sf_get_transactions ctx h hs : preserves I (st_get_transactions ctx h hs);
  sf_get_transaction_by_hash ctx h : preserves I (st_get_transaction_by_hash ctx h);
  sf_get_latest_block ctx : preserves I (st_get_latest_block ctx);
  sf_get_latest_block_header ctx : preserves I (st_get_latest_block_header ctx);
  sf_get_block ctx n : preserves I (st_get_block ctx n);
  sf_get_block_header ctx n : preserves I (st_get_block_header ctx n)
}.
Class StoreFramed {St : Type} `{!Storage St} (I : St → Prop) : Prop := {
  sf_reads :: StoreReads I;
  sf_insert_transactions ctx n txs : preserves I (st_insert_transactions ctx n txs);
  sf_insert_receipts ctx n rs : preserves I (st_insert_receipts ctx n rs)
}.
#[export] Hint Resolve sf_get_transactions sf_get_transaction_by_hash sf_get_latest_block
  sf_get_latest_block_header sf_get_block sf_get_block_header sf_insert_transactions sf_insert_receipts : axon.
#[export] Hint Extern 0 (StoreReads _) => apply _ : axon.
#[export] Hint Extern 0 (StoreFramed _) => apply _ : axon.

(** A predicate with a ghost parameter. *)
Lemma framed_exists {St X : Type} `{!Storage St} (I : X → St → Prop) (Q : X → Prop) :
  (∀ x, StoreFramed (I x)) → StoreFramed (λ s, ∃ x, I x s ∧ Q x).
Proof. intros HI. split; [split|..]; intros; intros s (x & Hs & HQ); exists x; (split; [by apply HI|done]). Qed.

(** ** The executor *)
(** What the execution of transactions keeps: a predicate that does not speak of
    the world, the gas price and the logs, and that inserting a code keeps. *)
Class ExecFramed `{!PatriciaTrie} {St : Type} `{!Storage St} (I : AxonExecutorAdapter St → Prop) : Prop := {
  xf_trie a db t : I a → I (set_ea_trie a db t);
  xf_logs logs a : I a → I (set_logs logs a);
  xf_gas_price price a : I a → I (set_gas_price price a);
  xf_insert_code address h c a : I a →
    I (mkExecAdapter (exec_ctx a) (ea_trie a) (st_insert_code ∅ address h c (ea_storage a)).1 (ea_db a))
}.

Section exec_frame.
Context `{R : Rlp} `{K : Keccak} `{!StaticMerkleTree} `{!PatriciaTrie} {St : Type} `{!Storage St}
  `{!Evm (AxonExecutorAdapter St)} (I : AxonExecutorAdapter St → Prop) `{!ExecFramed I}.

Lemma store_code_framed address h code : preserves I (store_code address h code).
Proof.
  intros a Ha. unfold store_code. destruct code as [c|]; [|done]. destruct (_ =? _); [done|].
  pose proof (xf_insert_code (I := I) address (digest c) c a Ha) as Hs.
  by destruct (st_insert_code _ _ _ _ _) as [s o].
Qed.
Lemma put_account_framed address acc : preserves I (put_account address acc).
Proof.
  intros a Ha. unfold put_account. destruct (expect _); [|done..]. destruct (MPTTrie_commit _ _) as [[db t] r].
  by apply xf_trie.
Qed.
Lemma remove_account_framed address : preserves I (remove_account address).
Proof.
  intros a Ha. unfold remove_account. destruct (MPTTrie_remove _ _ _) as [t [[]| |]]; [|by apply xf_trie..].
  destruct (MPTTrie_commit _ _) as [[db t'] r]. by apply xf_trie.
Qed.
Lemma apply_account_framed address b code slots reset : preserves I (apply_account address b code slots reset).
Proof.
  unfold apply_account. apply preserves_bind; [auto with axon|intros a].
  do 2 (apply preserves_bind; [auto with axon|intros ?]). cbv zeta.
  destruct (MPTTrie_commit _ _) as [[db t] r].
  apply preserves_bind; [auto with axon|intros ?].
  apply preserves_bind; [apply preserves_modify; intros ?; apply xf_trie|intros _].
  apply preserves_bind; [apply store_code_framed|intros ?]. apply preserves_bind; [apply put_account_framed|intros _].
  auto with axon.
Qed.
Lemma backend_apply_framed values logs del : preserves I (backend_apply values logs del).
Proof.
  unfold backend_apply. apply preserves_bind; [|intros _; apply preserves_modify; intros ?; apply xf_logs].
  apply preserves_for_each. intros [address b code slots reset|address]; cbn [apply_value].
  - apply preserves_bind; [apply apply_account_framed|intros is_empty].
    destruct (_ && _)%bool; [apply remove_account_framed|auto with axon].
  - intros a Ha. destruct (MPTTrie_remove _ _ _) as [t [| |]]; by apply xf_trie.
Qed.
Hint Resolve backend_apply_framed : axon.
Lemma call_native_token_framed tx : preserves I (call_native_token tx).
Proof. unfold call_native_token. cbv zeta. cbn [be_apply exec_backend]. keep. Qed.
Lemma evm_inner_exec_framed tx : preserves I (evm_inner_exec tx).
Proof. unfold evm_inner_exec. cbv zeta. keep. Qed.
Hint Resolve call_native_token_framed evm_inner_exec_framed : axon.
Lemma exec_one_framed tx : preserves I (exec_one tx).
Proof.
  unfold exec_one, sys_inner_exec, Executor.get_logs.
  apply preserves_bind; [apply preserves_modify; intros ?; apply xf_gas_price|intros _]. keep.
  intros a Ha. by apply xf_logs.
Qed.
Lemma exec_loop_framed txs res g : preserves I (exec_loop txs res g).
Proof.
  revert res g. induction txs as [|tx txs IH]; intros res g; cbn [exec_loop]; [auto with axon|].
  apply preserves_bind; [apply exec_one_framed|intros r; apply preserves_bind; [auto with axon|intros ?; apply IH]].
Qed.
Lemma exec_framed txs : preserves I (exec txs).
Proof. unfold exec. apply preserves_bind; [apply exec_loop_framed|intros []; keep]. Qed.
End exec_frame.

(** ** Through the mempool and its adapter *)
Section pool_frame.
Context `{R : Rlp} `{K : Keccak} `{!PatriciaTrie} {St Mt : Type} `{!Storage St} `{!MetadataControl Mt}
  `{!Interoperation} `{!PullRpc} `{!Secp256k1Verify} `{!ErrorText} (P : St → trie_db → Prop) `{HP : ∀ db, StoreReads (λ s, P s db)}.
Definition shared_by (a : DefaultMemPoolAdapter St Mt) : Prop := P (da_storage a) (da_trie_db a).
Definition pool_shared (m : MemPoolImpl (DefaultMemPoolAdapter St Mt)) : Prop := shared_by (mp_adapter m).
Local Abbreviation held := shared_by.
Local Abbreviation pool_held := pool_shared.

Lemma on_storage_held {X} (m : M St ProtocolError X) :
  (∀ db, preserves (λ s, P s db) m) → preserves held (on_storage m).
Proof.
  intros Hm a Ha. unfold on_storage, zoom. specialize (Hm (da_trie_db a) (da_storage a) Ha).
  by destruct (m (da_storage a)).
Qed.
Lemma on_metadata_held {X} (m : M Mt ProtocolError X) : preserves held (on_metadata m).
Proof. by apply preserves_zoom_other. Qed.
Lemma on_adapter_held {X} (m : M (DefaultMemPoolAdapter St Mt) ProtocolError X) :
  preserves held m → preserves pool_held (on_adapter m).
Proof. by apply preserves_zoom. Qed.
Lemma on_pool_held {X} (m : M PriorityPool ProtocolError X) : preserves pool_held (on_pool m).
Proof. by apply preserves_zoom_other. Qed.
Hint Resolve on_storage_held on_metadata_held on_adapter_held on_pool_held : axon.

Lemma report_held ctx f : preserves held (report_if_network ctx f).
Proof. unfold report_if_network, report. keep. by apply preserves_modify. Qed.
Hint Resolve report_held : axon.

Lemma check_authorization_held ctx tx : preserves held (check_authorization ctx tx).
Proof.
  cbn [check_authorization default_adapter]. unfold default_check_authorization, check_system_script_tx_authorization, invalid_nonce.
  keep. by apply preserves_modify.
Qed.
Lemma check_transaction_held ctx tx : preserves held (check_transaction ctx tx).
Proof.
  cbn [check_transaction default_adapter].
  unfold default_check_transaction, check_size, DefaultAdapter.check_gas, check_chain, check_signature, check_secp256k1, check_ed25519.
  keep.
Qed.
Lemma check_storage_held ctx h : preserves held (check_storage_exist ctx h).
Proof. cbn [check_storage_exist default_adapter]. unfold default_check_storage_exist. keep. Qed.
Lemma get_each_held db ctx hs : preserves (λ s, P s db) (get_each ctx hs).
Proof. induction hs; cbn [get_each]; keep. Qed.
Hint Resolve check_authorization_held check_transaction_held check_storage_held get_each_held : axon.

Lemma spawn_all_held {X} (f : X → M (DefaultMemPoolAdapter St Mt) ProtocolError unit) l :
  (∀ x, preserves held (f x)) → preserves held (spawn_all f l).
Proof.
  intros Hf. induction l as [|x l IH]; cbn [spawn_all]; [auto with axon|].
  apply preserves_bind; [|intros r; keep]. intros a Ha. unfold spawn. specialize (Hf x a Ha).
  by destruct (f x a) as [a' [| |]].
Qed.

Lemma package_held ctx g n : preserves pool_held (mempool_package ctx g n).
Proof. unfold mempool_package. auto with axon. Qed.
Lemma flush_held ctx hs : preserves pool_held (mempool_flush ctx hs).
Proof.
  unfold mempool_flush. apply preserves_bind; [auto with axon|intros s]. apply preserves_bind; [|auto with axon].
  apply on_adapter_held. induction (map_to_list _) as [|[h tx] l IH]; cbn [nonce_verdicts]; keep.
Qed.
Lemma get_full_txs_held ctx h hs : preserves pool_held (get_full_txs ctx h hs).
Proof.
  unfold get_full_txs. cbn [get_transactions_from_storage default_adapter]. unfold default_get_transactions_from_storage. destruct h; keep.
Qed.
Lemma ensure_order_txs_held ctx h hs : preserves pool_held (ensure_order_txs ctx h hs).
Proof.
  unfold ensure_order_txs, verify_tx_in_parallel. cbn [pull_txs report_good default_adapter].
  unfold default_pull_txs, default_report_good. apply preserves_bind; [auto with axon|intros _].
  apply preserves_bind; [auto with axon|intros s]. destruct (show_unknown_txs _ _); [auto with axon|].
  apply preserves_bind; [auto with axon|intros txs]. case_decide; [|auto with axon].
  apply preserves_bind; [|intros _; keep]. apply preserves_bind; [|intros []; auto with axon].
  apply on_adapter_held, spawn_all_held. intros tx. unfold verify_tx. keep.
Qed.
Lemma set_args_held ctx r g m : preserves pool_held (mempool_set_args ctx r g m).
Proof.
  unfold mempool_set_args. apply on_adapter_held. cbn [adapter_set_args default_adapter]. unfold default_set_args.
  by apply preserves_modify.
Qed.
End pool_frame.

(** ** Through the consensus adapter *)
Class AdapterReads {A : Type} `{!ConsensusAdapter A} (I : A → Prop) : Prop := {
  af_txs_from_mempool ctx n g l : preserves I (ca_get_txs_from_mempool ctx n g l);
  af_full_txs ctx hs : preserves I (ca_get_full_txs ctx hs);
  af_verify_txs ctx n hs : preserves I (ca_verify_txs ctx n hs);
  af_get_block ctx n : preserves I (ca_get_block_by_number ctx n);
  af_verify_header ctx p : preserves I (ca_verify_block_header ctx p);
  af_verify_proof ctx b p : preserves I (ca_verify_proof ctx b p);
  af_metadata_unchecked ctx n : preserves I (ca_get_metadata_unchecked ctx n);
  af_metadata ctx h : preserves I (ca_get_metadata ctx h);
  af_update_metadata ctx h : preserves I (ca_update_metadata ctx h);
  af_need_change n : preserves I (ca_need_change_metadata n);
  af_tag ctx ks : preserves I (ca_tag_consensus ctx ks);
  af_flush ctx hs : preserves I (ca_flush_mempool ctx hs);
  af_logs ctx n h l : preserves I (ca_notify_block_logs ctx n h l);
  af_checkpoint ctx b p : preserves I (ca_notify_checkpoint ctx b p);
  af_swap r : preserves I (ca_swap_state_root r);
  af_set_args ctx r g m : preserves I (ca_set_args ctx r g m);
  af_broadcast ctx n : preserves I (ca_broadcast_number ctx n)
}.
Class AdapterFramed {A : Type} `{!ConsensusAdapter A} (I : A → Prop) : Prop := {
  af_reads :: AdapterReads I;
  af_save_txs ctx n txs : preserves I (ca_save_signed_txs ctx n txs);
  af_save_receipts ctx n rs : preserves I (ca_save_receipts ctx n rs)
}.
#[export] Hint Resolve af_txs_from_mempool af_full_txs af_verify_txs af_get_block af_verify_header af_verify_proof
  af_metadata_unchecked af_metadata af_update_metadata af_need_change af_tag af_save_txs af_save_receipts
  af_flush af_logs af_checkpoint af_swap af_set_args af_broadcast : axon.
#[export] Hint Extern 0 (AdapterReads _) => apply _ : axon.
#[export] Hint Extern 0 (AdapterFramed _) => apply _ : axon.

Section adapter_frame.
Context `{R : Rlp} `{K : Keccak} `{!StaticMerkleTree} `{!PatriciaTrie} {St Mt : Type} `{!Storage St}
  `{!MetadataControl Mt} `{!Evm (AxonExecutorAdapter St)} `{!Interoperation} `{!PullRpc}
  `{!Secp256k1Verify} `{!ErrorText} `{!Overlord} `{!Bls} `{!FasterHex} `{!ConsensusNet}
  (P : St → trie_db → Prop).
Local Abbreviation adapter := (OverlordConsensusAdapter St Mt).
Definition node_shared (o : adapter) : Prop := pool_shared P (oa_mempool o).
Local Abbreviation held := node_shared.

Lemma on_mempool_held {X} (m : M (MemPoolImpl (DefaultMemPoolAdapter St Mt)) ProtocolError X) :
  preserves (pool_shared P) m → preserves held (on_mempool m).
Proof. by apply preserves_zoom. Qed.
Lemma on_shared_held {X} (m : M (DefaultMemPoolAdapter St Mt) ProtocolError X) :
  preserves (shared_by P) m → preserves held (on_shared m).
Proof. intros Hm. by apply on_mempool_held, on_adapter_held. Qed.
Lemma in_storage_held {X} (m : M St ProtocolError X) :
  (∀ db, preserves (λ s, P s db) m) → preserves held (in_storage m).
Proof. intros Hm. by apply on_shared_held, on_storage_held. Qed.
Lemma in_metadata_held {X} (m : M Mt ProtocolError X) : preserves held (in_metadata m).
Proof. apply on_shared_held, on_metadata_held. Qed.
Hint Resolve on_mempool_held on_shared_held in_storage_held in_metadata_held : axon.
Hint Resolve package_held flush_held get_full_txs_held ensure_order_txs_held set_args_held : axon.

#[export] Instance overlord_reads `{HP : ∀ db, StoreReads (λ s, P s db)} : AdapterReads held.
Proof.
  split; intros; cbn [ca_common overlord_adapter overlord_common
    ca_get_txs_from_mempool ca_get_full_txs ca_verify_txs ca_get_block_by_number ca_verify_block_header
    ca_verify_proof ca_get_metadata_unchecked ca_get_metadata ca_update_metadata ca_need_change_metadata ca_tag_consensus
    ca_flush_mempool ca_notify_block_logs
    ca_notify_checkpoint ca_swap_state_root ca_set_args ca_broadcast_number].
  all: try solve [auto with axon].
  - unfold verify_txs. keep.
  - unfold get_block_by_number. keep.
  - unfold verify_block_header, get_block_header_by_number. keep.
  - unfold verify_proof. keep.
  - by apply preserves_modify.
  - by apply preserves_modify.
  - apply on_shared_held. by apply preserves_modify.
Qed.
(** The execution of a proposal, for a predicate of the storage. *)
Lemma exec_on_root_framed (I : St → Prop) root p txs : ExecFramed (λ a, I (ea_storage a)) →
  preserves (shared_by (λ s _, I s)) (exec_on_root (Mt := Mt) root p txs).
Proof.
  intros HI a Ha. unfold exec_on_root. rewrite bind_gets. cbn [id].
  destruct (ExecutorAdapter_from_root root (da_trie_db a) (da_storage a) (ExecutorContext_from_Proposal p))
    as [backend| |] eqn:Eb; [|exact Ha..]. rewrite bind_lift_ok.
  unfold ExecutorAdapter_from_root in Eb. apply outcome_inv in Eb as (t & _ & [= <-]).
  pose proof (exec_framed (λ a, I (ea_storage a)) txs (mkExecAdapter (ExecutorContext_from_Proposal p) t (da_storage a) (da_trie_db a)) Ha) as Hx.
  destruct (exec txs _) as [backend r]. exact Hx.
Qed.

#[export] Instance overlord_framed `{HP : ∀ db, StoreFramed (λ s, P s db)} : AdapterFramed held.
Proof.
  split; intros; [apply _|..]; cbn [ca_common overlord_adapter overlord_common ca_save_signed_txs ca_save_receipts];
    auto with axon.
Qed.
End adapter_frame.

(** ** Through the engine *)
Section engine_frame.
Context `{R : Rlp} `{K : Keccak} `{!StaticMerkleTree} `{!Overlord} `{!EthBloom} `{!Bls} `{!FasterHex}
  `{!WalName} {A : Type} `{!ConsensusAdapter A} (I : A → Prop) (st : CurrentStatus).
Definition same_as (e : ConsensusEngine A) : Prop := I (ce_adapter e) ∧ ce_status e = st.

Lemma ask_same {X} (m : M A ProtocolError X) : preserves I m → preserves same_as (ask m).
Proof. intros Hm. apply (preserves_zoom _ _ I); [by intros ? []|by intros ?? [_ ?] ?|done]. Qed.
Lemma on_wal_same {X} (m : M SignedTxsWAL ProtocolError X) : preserves same_as (on_wal m).
Proof. by apply preserves_zoom_other. Qed.
Hint Resolve ask_same on_wal_same : axon.

Context `{!AdapterReads I}.
Lemma get_proposal_same ctx now n : preserves same_as (get_proposal ctx now n).
Proof. unfold get_proposal. keep. by apply preserves_modify. Qed.
Lemma inner_check_same ctx now p : preserves I (inner_check_block ctx now p).
Proof. unfold inner_check_block. keep. Qed.
Hint Resolve inner_check_same : axon.
Lemma check_block_same ctx now n hash p : preserves same_as (check_block ctx now n hash p).
Proof. unfold check_block. keep; by apply preserves_modify. Qed.
Lemma committed_txs_same ctx n p : preserves same_as (committed_txs ctx n p).
Proof. unfold committed_txs. keep. Qed.
Lemma refresh_same ctx h n ch : preserves same_as (refresh_metadata ctx h n ch).
Proof. unfold refresh_metadata, update_overlord_crypto. keep; by apply preserves_modify. Qed.
End engine_frame.
#[export] Hint Resolve ask_same on_wal_same committed_txs_same : axon.
