(* ===== verification/BlockTable.v ===== *)
(** * The table of blocks

    What the node relies on when it says that the chain is in the storage: the
    interface [BlockTable], a view of the blocks a storage holds which only
    [insert_block] changes, its implementation by [ImplStorage] of
    [core/storage/src/lib.rs], and the same frame property carried through the
    executor and, by [Frame.v], the consensus adapter. *)

From S2P Require Import Prelude Types Codec Traits Heap Pool Executor MemPool Storage.
From S2P Require Import StorageLaws StorageProps Interoperation DefaultAdapter Metadata Overlord Wal.
From S2P Require Import Engine ConsensusAdapterImpl Frame.

Local Open Scope Z_scope.

(** ** The interface *)
(** What a storage holds: the blocks by number, the latest block and the latest
    proof. *)
Record ledger := mkLedger { ld_blocks : gmap Z Block; ld_latest : option Block; ld_proof : option Proof }.
Definition add_block (b : Block) (L : ledger) : ledger :=
  mkLedger (<[h_number (b_header b) := b]> (ld_blocks L)) (Some b) (ld_proof L).
Definition set_proof (p : Proof) (L : ledger) : ledger := mkLedger (ld_blocks L) (ld_latest L) (Some p).

(** [holds s L]: the storage [s] serves exactly what is in [L]. *)
Class BlockTable (St : Type) `{!Storage St} := {
  holds : St → ledger → Prop;
  bt_wf s L n b : holds s L → ld_blocks L !! n = Some b → block_wf b ∧ h_number (b_header b) = n;
  bt_framed L :: StoreFramed (λ s, holds s L);
  bt_insert_code ctx a h c L : preserves (λ s, holds s L) (st_insert_code ctx a h c);
  bt_update_latest_proof ctx p s L : holds s L → proof_wf p →
    ∃ s', st_update_latest_proof ctx p s = (s', Ok tt) ∧ holds s' (set_proof p L);
  bt_latest_block ctx s L : holds s L →
    ∃ s', st_get_latest_block ctx s = (s', ok_or (ld_latest L) (PE_Storage GetNone)) ∧ holds s' L;
  bt_latest_header ctx s L : holds s L →
    ∃ s', st_get_latest_block_header ctx s = (s', b_header <$> ok_or (ld_latest L) (PE_Storage GetNone)) ∧ holds s' L;
  bt_latest_proof ctx s L : holds s L →
    ∃ s', st_get_latest_proof ctx s = (s', ok_or (ld_proof L) (PE_Storage GetNone)) ∧ holds s' L;
  bt_block ctx n s L : holds s L → 0 ≤ n < 2 ^ 64 →
    ∃ s', st_get_block ctx n s = (s', Ok (ld_blocks L !! n)) ∧ holds s' L;
  bt_header ctx n s L : holds s L → 0 ≤ n < 2 ^ 64 →
    ∃ s', st_get_block_header ctx n s = (s', Ok (b_header <$> ld_blocks L !! n)) ∧ holds s' L;
  bt_insert_block ctx b s L : holds s L → block_wf b → ld_blocks L !! h_number (b_header b) = None →
    ∃ s', st_insert_block ctx b s = (s', Ok tt) ∧ holds s' (add_block b L)
}.
#[export] Hint Resolve bt_insert_code : axon.

(** ** Through the executor *)
#[export] Instance held_framed `{!PatriciaTrie} {St : Type} `{!Storage St} `{!BlockTable St} (L : ledger) :
  ExecFramed (λ a : AxonExecutorAdapter St, holds (ea_storage a) L).
Proof. split; [done..|]. intros address h c a. apply bt_insert_code. Qed.

(** ** Through the consensus adapter *)
(** What the engine relies on: the blocks an adapter serves change only when a
    block is saved, and a header is verified against them. *)
Class ChainAdapter `{R : Rlp} `{K : Keccak} (A : Type) `{!ConsensusAdapter A} := {
  serves : A → ledger → Prop;
  sv_framed L :: AdapterFramed (λ a, serves a L);
  sv_exec ctx root p txs L : preserves (λ a, serves a L) (ca_exec ctx root p txs);
  sv_save_proof ctx p a L : serves a L → proof_wf p →
    ∃ a', ca_save_proof ctx p a = (a', Ok tt) ∧ serves a' (set_proof p L);
  sv_linked ctx p a a' L : serves a L → p_number p < 2 ^ 64 → ca_verify_block_header ctx p a = (a', Ok tt) →
    ∃ b, ld_blocks L !! (p_number p - 1) = Some b ∧ header_hash b = p_prev_hash p;
  sv_save_block ctx b a L : serves a L → block_wf b → ld_blocks L !! h_number (b_header b) = None →
    ∃ a', ca_save_block ctx b a = (a', Ok tt) ∧ serves a' (add_block b L)
}.
#[export] Hint Resolve sv_exec : axon.

Section adapter_frame.
Context `{R : Rlp} `{K : Keccak} `{!StaticMerkleTree} `{!PatriciaTrie} {St Mt : Type} `{!Storage St}
  `{!MetadataControl Mt} `{!Evm (AxonExecutorAdapter St)} `{!Interoperation} `{!PullRpc}
  `{!Secp256k1Verify} `{!ErrorText} `{!Overlord} `{!Bls} `{!FasterHex} `{!ConsensusNet} `{!BlockTable St}.
Local Abbreviation adapter := (OverlordConsensusAdapter St Mt).
Definition adapter_serves (o : adapter) (L : ledger) : Prop := node_shared (λ s _, holds s L) o.

Lemma verify_header_linked ctx p o o' L : adapter_serves o L → p_number p < 2 ^ 64 →
  verify_block_header ctx p o = (o', Ok tt) →
  ∃ b, ld_blocks L !! (p_number p - 1) = Some b ∧ header_hash b = p_prev_hash p.
Proof.
  intros Ho Hp Hrun. unfold verify_block_header in Hrun.
  apply bind_lift_inv in Hrun as (n & [-> Hn]%u64_sub_ok & Hrun).
  apply bind_inv in Hrun as (h & o1 & Hh & Hrun). unfold get_block_header_by_number in Hh.
  apply bind_inv in Hh as (oh & o2 & Hget & Hok). unfold in_storage, on_shared, on_mempool, on_adapter, on_storage, zoom in Hget.
  destruct (st_get_block_header ctx (p_number p - 1) (da_storage (mp_adapter (oa_mempool o)))) as [s r] eqn:Es.
  injection Hget as <- ->. destruct oh as [h'|]; [|done]. injection Hok as <- ->.
  destruct (bt_header ctx (p_number p - 1) _ _ Ho ltac:(lia)) as (s' & Eh & _). rewrite Eh in Es.
  injection Es as _ Eb. destruct (ld_blocks L !! (p_number p - 1)) as [b|]; [|done]. injection Eb as <-.
  exists b. split; [done|].
  unfold header_hash. destruct (Z.eqb_spec (Header_hash (b_header b)) (p_prev_hash p)); [done|discriminate Hrun].
Qed.

#[export] Instance overlord_chain : ChainAdapter adapter.
Proof.
  refine {| serves := adapter_serves |}; intros.
  - by apply (on_shared_held (λ s _, holds s L)), exec_on_root_framed, held_framed.
  - destruct (bt_update_latest_proof ctx p (da_storage (mp_adapter (oa_mempool a))) L) as (s' & Es & Hs); [done..|].
    cbn. unfold in_storage, on_shared, on_mempool, on_adapter, on_storage, zoom. rewrite Es. eauto.
  - apply (verify_header_linked ctx p a a'); assumption.
  - destruct (bt_insert_block ctx b (da_storage (mp_adapter (oa_mempool a))) L) as (s' & Es & Hs); [done..|].
    cbn. unfold in_storage, on_shared, on_mempool, on_adapter, on_storage, zoom. rewrite Es. eauto.
Defined.
End adapter_frame.

(** ** The implementation *)
(** An operation of the adapter leaves the categories it is not about alone,
    whatever its outcome. *)
Class StoreFrame (Db : Type) `{!StorageAdapter Db} `{!StoreLaws Db} := {
  frame_get K V (s : StorageSchema K V) k db c : sa_view (sa_get s k db).1 c = sa_view db c;
  frame_iter K V (s : StorageSchema K V) p db c : sa_view (sa_iter s p db).1 c = sa_view db c;
  frame_insert K V (s : StorageSchema K V) k v db c : c ≠ category s →
    sa_view (sa_insert s k v db).1 c = sa_view db c;
  frame_batch K V (s : StorageSchema K V) ks vs db c : c ≠ category s →
    sa_view (sa_batch_modify s ks vs db).1 c = sa_view db c
}.

#[export] Instance memory_frame `{!HashOrder} : StoreFrame MemoryAdapter.
Proof.
  split.
  - intros K V s k db c. cbn. unfold memory_get, mbind, M_bind, lift. destruct (pc_encode _ _); [|done..].
    cbn. destruct (db (category s) !! _); [|done]. cbn. by destruct (pc_decode _ _).
  - done.
  - intros K V s k v db c Hc. cbn. unfold memory_insert, mbind, M_bind, lift. destruct (pc_encode _ k); [|done..].
    destruct (pc_encode _ v); [|done..]. cbn. unfold db_update. by rewrite decide_False.
  - intros K V s ks vs db c Hc. cbn. unfold memory_batch_modify. case_decide; [|done].
    unfold mbind, M_bind, lift. destruct (traverse _ _); [|done..]. cbn. unfold db_update. by rewrite decide_False.
Qed.

(** The keys of the latest block and of the latest proof are digests of two
    strings. *)
Class LatestKeys `{K : Keccak} : Prop := latest_keys : LATEST_BLOCK_KEY ≠ LATEST_PROOF_KEY.

Section impl.
Context `{R : Rlp} `{K : Keccak} `{!LruCrate} {Db : Type} `{!StorageAdapter Db} `{!StoreLaws Db} `{!StoreFrame Db}
  `{!LatestKeys}.
Local Abbreviation storage := (ImplStorage Db).

Record table (s : storage) (L : ledger) : Prop := {
  tb_wf n b : ld_blocks L !! n = Some b → block_wf b ∧ h_number (b_header b) = n;
  tb_block n : 0 ≤ n < 2 ^ 64 →
    sa_view (is_adapter s) SC_Block !! to_be_bytes 8 n = encode Block_codec <$> ld_blocks L !! n;
  tb_header n : 0 ≤ n < 2 ^ 64 →
    sa_view (is_adapter s) SC_BlockHeader !! to_be_bytes 8 n = encode Header_codec <$> (b_header <$> ld_blocks L !! n);
  tb_blocks n b : 0 ≤ n < 2 ^ 64 → lru_view (co_get blocks (is_cache s)) !! n = Some b → ld_blocks L !! n = Some b;
  tb_headers n h : 0 ≤ n < 2 ^ 64 → lru_view (co_get headers (is_cache s)) !! n = Some h →
    b_header <$> ld_blocks L !! n = Some h;
  tb_latest : sa_view (is_adapter s) SC_Block !! encode c_h256 LATEST_BLOCK_KEY = encode Block_codec <$> ld_latest L;
  tb_latest_kept b : latest_block s = Some b → ld_latest L = Some b;
  tb_latest_wf b : ld_latest L = Some b → block_wf b;
  tb_proof : sa_view (is_adapter s) SC_Block !! encode c_h256 LATEST_PROOF_KEY = encode Proof_codec <$> ld_proof L;
  tb_proof_kept p : latest_proof s = Some p → ld_proof L = Some p;
  tb_proof_wf p : ld_proof L = Some p → proof_wf p
}.

(** The categories and caches that hold no block. *)
Definition side_category (c : StorageCategory) : Prop := c ≠ SC_Block ∧ c ≠ SC_BlockHeader.
Inductive side : ∀ {V : Type}, cache_of V → Prop :=
| s_numbers : side block_numbers
| s_transactions : side transactions
| s_codes : side codes
| s_receipts : side receipts.

Lemma table_frame L (s s' : storage) : table s L →
  sa_view (is_adapter s') SC_Block = sa_view (is_adapter s) SC_Block →
  sa_view (is_adapter s') SC_BlockHeader = sa_view (is_adapter s) SC_BlockHeader →
  lru_view (co_get blocks (is_cache s')) = lru_view (co_get blocks (is_cache s)) →
  lru_view (co_get headers (is_cache s')) = lru_view (co_get headers (is_cache s)) →
  latest_block s' = latest_block s → latest_proof s' = latest_proof s → table s' L.
Proof.
  intros [T1 T2 T3 T4 T5 T6 T7 T8 T9 T10 T11] E1 E2 E3 E4 E5 E6.
  split; rewrite ?E1, ?E2, ?E3, ?E4, ?E5, ?E6; done.
Qed.

Lemma on_db_keeps {X} (m : M Db ProtocolError X) L :
  (∀ db c, ¬ side_category c → sa_view (m db).1 c = sa_view db c) → preserves (λ s, table s L) (on_db m).
Proof.
  intros Hm s Hs. unfold on_db, zoom. pose proof (Hm (is_adapter s)) as Hv. destruct (m (is_adapter s)) as [db o].
  cbn [fst] in *. apply (table_frame L s); [done|..]; cbn [is_adapter is_cache]; try done; apply Hv; by intros [].
Qed.
Lemma get_keeps {Key V} (sch : StorageSchema Key V) k L : preserves (λ s, table s L) (on_db (sa_get sch k)).
Proof. apply on_db_keeps. intros. apply frame_get. Qed.
Lemma iter_keeps {Key V} (sch : StorageSchema Key V) p L : preserves (λ s, table s L) (on_db (sa_iter sch p)).
Proof. apply on_db_keeps. intros. apply frame_iter. Qed.
Lemma insert_keeps {Key V} (sch : StorageSchema Key V) k v L :
  side_category (category sch) → preserves (λ s, table s L) (on_db (sa_insert sch k v)).
Proof. intros Hs. apply on_db_keeps. intros db c Hc. apply frame_insert. by intros ->. Qed.
Lemma batch_keeps {Key V} (sch : StorageSchema Key V) ks vs L :
  side_category (category sch) → preserves (λ s, table s L) (on_db (sa_batch_modify sch ks vs)).
Proof. intros Hs. apply on_db_keeps. intros db c Hc. apply frame_batch. by intros ->. Qed.

Lemma cache_get_keeps {V} (c : cache_of V) k L :
  side c → preserves (λ s, table s L) (cache_get c k).
Proof.
  intros Hc s Hs. unfold cache_get. destruct (lru_get k _) as [l r]. cbn [fst].
  apply (table_frame L s); try done; by destruct Hc.
Qed.
Lemma cache_put_keeps {V} (c : cache_of V) k v L : side c → preserves (λ s, table s L) (cache_put c k v).
Proof.
  intros Hc s Hs. unfold cache_put. destruct v as [v|]; [|done]. cbn [fst].
  apply (table_frame L s); try done; by destruct Hc.
Qed.
Hint Resolve get_keeps iter_keeps insert_keeps batch_keeps cache_get_keeps cache_put_keeps : axon.
Hint Constructors side : axon.
Hint Extern 1 (side_category _) => by split : axon.

Lemma get_transaction_keeps ctx h L : preserves (λ s, table s L) (get_transaction_by_hash ctx h).
Proof. unfold get_transaction_by_hash, get_cache, get_into. keep. Qed.
Lemma get_many_keeps {V} sch (dec : bytes → ProtocolResult V) n hs L : preserves (λ s, table s L) (get_many sch dec n hs).
Proof. unfold get_many. keep. Qed.
Lemma latest_keeps {Key V} (sch : StorageSchema Key V) k L : preserves (λ s, table s L) (ensure_get sch k).
Proof. unfold ensure_get. keep. Qed.
Hint Resolve get_transaction_keeps get_many_keeps latest_keeps : axon.

(** Reads of blocks and headers fill their caches with what the table holds. *)
Lemma block_decoded b : block_wf b → pc_decode (rlp_pcodec Block_codec) (encode Block_codec b) = Ok b.
Proof. apply (rlp_pcodec_ok block_wf), Block_lawful. Qed.
Lemma header_decoded b : block_wf b →
  pc_decode (rlp_pcodec Header_codec) (encode Header_codec (b_header b)) = Ok (b_header b).
Proof. intros [Hb _]. by apply (rlp_pcodec_ok header_wf), Hb; apply Header_lawful. Qed.

Lemma db_block s L n : table s L → 0 ≤ n < 2 ^ 64 → db_get s BlockSchema (CommonPrefix_new n) = Ok (ld_blocks L !! n).
Proof.
  intros Hs Hn. unfold db_get. cbn [pc_encode key_codec BlockSchema CommonPrefix_pcodec mbind outcome_bind category].
  cbn [block_height CommonPrefix_new]. rewrite (tb_block s L Hs n Hn). destruct (ld_blocks L !! n) as [b|] eqn:Eb; [|done].
  cbn [fmap option_fmap option_map]. change (val_codec BlockSchema) with (rlp_pcodec Block_codec).
  by rewrite block_decoded by (by apply (tb_wf s L Hs n)).
Qed.
Lemma db_header_of s L n : table s L → 0 ≤ n < 2 ^ 64 →
  db_get s BlockHeaderSchema (CommonPrefix_new n) = Ok (b_header <$> ld_blocks L !! n).
Proof.
  intros Hs Hn. unfold db_get. cbn [pc_encode key_codec BlockHeaderSchema CommonPrefix_pcodec mbind outcome_bind category].
  cbn [block_height CommonPrefix_new]. rewrite (tb_header s L Hs n Hn). destruct (ld_blocks L !! n) as [b|] eqn:Eb; [|done].
  cbn [fmap option_fmap option_map]. change (val_codec BlockHeaderSchema) with (rlp_pcodec Header_codec).
  by rewrite header_decoded by (by apply (tb_wf s L Hs n)).
Qed.

Lemma get_run {Key V} (sch : StorageSchema Key V) k kb (s : storage) L : pc_encode (key_codec sch) k = Ok kb →
  table s L → ∃ s', on_db (sa_get sch k) s = (s', db_get s sch k) ∧ table s' L.
Proof.
  intros Hk Hs. destruct (on_db_get sch k kb s Hk) as (s' & E & _). exists s'. split; [done|].
  pose proof (get_keeps sch k L s Hs) as Ht. by rewrite E in Ht.
Qed.

Lemma get_block_run ctx n (s : storage) L : table s L →
  ∃ s' r, get_block ctx n s = (s', r) ∧ table s' L ∧ (0 ≤ n < 2 ^ 64 → r = Ok (ld_blocks L !! n)).
Proof.
  intros Hs. unfold get_block, get_cache.
  destruct (lru_get_view _ n (co_get blocks (is_cache s))) as (l & Hl & Hv).
  set (s1 := mkStorage (is_adapter s) (co_set blocks l (is_cache s)) (latest_block s) (latest_proof s)).
  assert (cache_get blocks n s = (s1, Ok (lru_view (co_get blocks (is_cache s)) !! n))) as Hg
    by (unfold cache_get; by rewrite Hl).
  assert (Ht : table s1 L) by (by apply (table_frame L s)). mrun Hg.
  destruct (lru_view (co_get blocks (is_cache s)) !! n) as [b|] eqn:Eb.
  { eexists _, _. split; [done|]. split; [done|]. intros Hn. by rewrite (tb_blocks s L Hs n b Hn Eb). }
  unfold get_into. destruct (get_run BlockSchema (CommonPrefix_new n) _ s1 L eq_refl Ht) as (s2 & E2 & Ht2).
  destruct (db_get s1 BlockSchema (CommonPrefix_new n)) as [o| |] eqn:Ed; mrun E2.
  - destruct o as [b|].
    + eexists _, _. split; [reflexivity|]. split.
      * destruct Ht2 as [T1 T2 T3 T4 T5 T6 T7 T8 T9 T10 T11]. split; try done. intros n' b' Hn'. cbn.
        intros Hl'. pose proof (lookup_weaken _ _ _ _ Hl' (lru_put_view _ n b _)) as Hw. rewrite lookup_insert in Hw.
        case_decide as En; [|by apply T4]. injection Hw as <-. subst n'. rewrite (db_block s1 L n Ht Hn') in Ed. congruence.
      * intros Hn. rewrite (db_block s1 L n Ht Hn) in Ed. congruence.
    + eexists _, _. split; [reflexivity|]. split; [done|]. intros Hn. rewrite (db_block s1 L n Ht Hn) in Ed. congruence.
  - eexists _, _. split; [reflexivity|]. split; [done|]. intros Hn. by rewrite (db_block s1 L n Ht Hn) in Ed.
  - eexists _, _. split; [reflexivity|]. split; [done|]. intros Hn. by rewrite (db_block s1 L n Ht Hn) in Ed.
Qed.

Lemma get_header_run ctx n (s : storage) L : table s L →
  ∃ s' r, get_block_header ctx n s = (s', r) ∧ table s' L ∧ (0 ≤ n < 2 ^ 64 → r = Ok (b_header <$> ld_blocks L !! n)).
Proof.
  intros Hs. unfold get_block_header, get_cache.
  destruct (lru_get_view _ n (co_get headers (is_cache s))) as (l & Hl & Hv).
  set (s1 := mkStorage (is_adapter s) (co_set headers l (is_cache s)) (latest_block s) (latest_proof s)).
  assert (cache_get headers n s = (s1, Ok (lru_view (co_get headers (is_cache s)) !! n))) as Hg
    by (unfold cache_get; by rewrite Hl).
  assert (Ht : table s1 L) by (by apply (table_frame L s)). mrun Hg.
  destruct (lru_view (co_get headers (is_cache s)) !! n) as [h|] eqn:Eh.
  { eexists _, _. split; [done|]. split; [done|]. intros Hn. by rewrite (tb_headers s L Hs n h Hn Eh). }
  destruct (get_run BlockHeaderSchema (CommonPrefix_new n) _ s1 L eq_refl Ht) as (s2 & E2 & Ht2).
  destruct (db_get s1 BlockHeaderSchema (CommonPrefix_new n)) as [[h|]| |] eqn:Ed; mrun E2.
  - eexists _, _. split; [reflexivity|]. split.
    + destruct Ht2 as [T1 T2 T3 T4 T5 T6 T7 T8 T9 T10 T11]. split; try done. intros n' h' Hn'. cbn. intros Hl'.
      pose proof (lookup_weaken _ _ _ _ Hl' (lru_put_view _ n h _)) as Hw. rewrite lookup_insert in Hw.
      case_decide as En; [|by apply T5]. injection Hw as <-. subst n'. rewrite (db_header_of s1 L n Ht Hn') in Ed. congruence.
    + intros Hn. rewrite (db_header_of s1 L n Ht Hn) in Ed. congruence.
  - destruct (get_block_run ctx n s2 L Ht2) as (s3 & r & E3 & Ht3 & Hr). exists s3. destruct r as [b| |]; mrun E3;
      (eexists; split; [reflexivity|]; split; [done|]); intros Hn; specialize (Hr Hn); congruence.
  - eexists _, _. split; [reflexivity|]. split; [done|]. intros Hn. by rewrite (db_header_of s1 L n Ht Hn) in Ed.
  - eexists _, _. split; [reflexivity|]. split; [done|]. intros Hn. by rewrite (db_header_of s1 L n Ht Hn) in Ed.
Qed.

(** Keys of block numbers are eight bytes, the keys of the latest block and
    proof are longer. *)
Lemma number_key_ne h n : encode c_h256 h ≠ to_be_bytes 8 n.
Proof.
  intros Hk%(f_equal length). rewrite length_to_be_bytes in Hk. pose proof (c_h256_long h). unfold encode in Hk. lia.
Qed.
Lemma latest_key_ne : encode c_h256 LATEST_BLOCK_KEY ≠ encode c_h256 LATEST_PROOF_KEY.
Proof. intros E%encode_h256_inj; [by apply latest_keys|apply digest_range..]. Qed.

Lemma update_proof_table ctx p (s : storage) L : table s L → proof_wf p →
  ∃ s', update_latest_proof ctx p s = (s', Ok tt) ∧ table s' (set_proof p L).
Proof.
  intros Hs Hp. unfold update_latest_proof.
  destruct (on_db_insert LatestProofSchema LATEST_PROOF_KEY p _ _ s eq_refl eq_refl) as (s1 & E1 & (C1 & L1 & P1) & V1).
  mrun E1. eexists. split; [reflexivity|]. destruct Hs as [T1 T2 T3 T4 T5 T6 T7 T8 T9 T10 T11].
  assert (VB : sa_view (is_adapter s1) SC_Block =
    <[encode c_h256 LATEST_PROOF_KEY := encode Proof_codec p]> (sa_view (is_adapter s) SC_Block)) by (by rewrite V1).
  assert (VH : sa_view (is_adapter s1) SC_BlockHeader = sa_view (is_adapter s) SC_BlockHeader) by (by rewrite V1).
  split; cbn [ld_blocks ld_latest ld_proof set_proof is_adapter is_cache latest_block latest_proof]; rewrite ?C1, ?VB, ?VH, ?L1; try done.
  - intros n Hn. rewrite lookup_insert_ne by apply number_key_ne. by apply T2.
  - rewrite lookup_insert_ne by (intros E; by apply latest_key_ne). done.
  - apply lookup_insert_eq.
  - by intros p' [= <-].
Qed.

Lemma insert_block_table ctx b (s : storage) L : table s L → block_wf b → ld_blocks L !! h_number (b_header b) = None →
  ∃ s', insert_block ctx b s = (s', Ok tt) ∧ table s' (add_block b L).
Proof.
  intros Hs Hb Hn. destruct (insert_block_writes s b) as (s' & E & Ec & El & Ep & V1 & V2 & _).
  exists s'. split; [exact E|]. assert (Hr : 0 ≤ h_number (b_header b) < 2 ^ 64) by apply Hb.
  assert (Hkey : ∀ n, 0 ≤ n < 2 ^ 64 → to_be_bytes 8 (h_number (b_header b)) = to_be_bytes 8 n → h_number (b_header b) = n).
  { intros n Hn' Heq. by apply (to_be_bytes_inj 8) in Heq; [|cbn; lia..]. }
  destruct Hs as [T1 T2 T3 T4 T5 T6 T7 T8 T9 T10 T11].
  split; cbn [ld_blocks ld_latest ld_proof add_block]; rewrite ?Ec, ?El, ?Ep; try done.
  - intros n b'. rewrite lookup_insert. case_decide as En; [intros [= <-]; by subst n|apply T1].
  - intros n Hn'. rewrite V1, lookup_insert_ne by apply number_key_ne.
    rewrite !lookup_insert. case_decide as Ek; case_decide as En; [done|by apply Hkey in Ek|by subst n|by apply T2].
  - intros n Hn'. rewrite V2, !lookup_insert. case_decide as Ek; case_decide as En; [done|by apply Hkey in Ek|by subst n|by apply T3].
  - intros n b' Hn' Hc%T4; [|done]. rewrite lookup_insert_ne; [done|congruence].
  - intros n h Hn' Hc%T5; [|done]. rewrite lookup_insert_ne; [done|]. intros <-. by rewrite Hn in Hc.
  - rewrite V1. apply lookup_insert_eq.
  - by intros b' [= <-].
  - rewrite V1, lookup_insert_ne by apply latest_key_ne. rewrite lookup_insert_ne by (intros E'; by apply (number_key_ne LATEST_PROOF_KEY (h_number (b_header b)))). done.
Qed.

(** The latest block and proof. *)
Lemma db_get_absent {Key V} s (sch : StorageSchema Key V) key kb : pc_encode (key_codec sch) key = Ok kb →
  sa_view (is_adapter s) (category sch) !! kb = None → db_get s sch key = Ok None.
Proof. intros Hk Hv. unfold db_get. rewrite Hk. cbn. by rewrite Hv. Qed.
Lemma latest_block_run ctx (s : storage) L : table s L →
  ∃ s', get_latest_block ctx s = (s', ok_or (ld_latest L) (PE_Storage GetNone)) ∧ table s' L.
Proof.
  intros Hs. unfold get_latest_block. rewrite bind_gets. destruct (latest_block s) as [b|] eqn:Eb.
  { exists s. by rewrite (tb_latest_kept s L Hs b Eb). }
  unfold ensure_get. destruct (get_run LatestBlockSchema LATEST_BLOCK_KEY _ s L eq_refl Hs) as (s1 & E1 & Ht).
  assert (Ed : db_get s LatestBlockSchema LATEST_BLOCK_KEY = Ok (ld_latest L)).
  { destruct (ld_latest L) as [b|] eqn:El.
    - eapply db_get_found; [done|apply (block_decoded b), (tb_latest_wf s L Hs b El)|].
      change (category LatestBlockSchema) with SC_Block. by rewrite (tb_latest s L Hs), El.
    - apply (db_get_absent s LatestBlockSchema _ _ eq_refl). change (category LatestBlockSchema) with SC_Block.
      etransitivity; [apply (tb_latest s L Hs)|by rewrite El]. }
  rewrite Ed in E1. mrun E1. exists s1. by destruct (ld_latest L).
Qed.
(** The latest header is that of the latest block. *)
Lemma latest_header_run ctx (s : storage) L : table s L →
  ∃ s', get_latest_block_header ctx s = (s', b_header <$> ok_or (ld_latest L) (PE_Storage GetNone)) ∧ table s' L.
Proof.
  intros Hs. destruct (latest_block_run ctx s L Hs) as (s' & E & Ht). exists s'. split; [|done].
  unfold get_latest_block in E. unfold get_latest_block_header. rewrite bind_gets in E. rewrite bind_gets.
  destruct (latest_block s) as [b|]; [injection E as <- <-; done|]. unfold mbind, M_bind. rewrite E.
  by destruct (ld_latest L).
Qed.
Lemma latest_proof_run ctx (s : storage) L : table s L →
  ∃ s', get_latest_proof ctx s = (s', ok_or (ld_proof L) (PE_Storage GetNone)) ∧ table s' L.
Proof.
  intros Hs. unfold get_latest_proof. rewrite bind_gets. destruct (latest_proof s) as [p|] eqn:Eb.
  { exists s. by rewrite (tb_proof_kept s L Hs p Eb). }
  unfold ensure_get. destruct (get_run LatestProofSchema LATEST_PROOF_KEY _ s L eq_refl Hs) as (s1 & E1 & Ht).
  assert (Ed : db_get s LatestProofSchema LATEST_PROOF_KEY = Ok (ld_proof L)).
  { destruct (ld_proof L) as [p|] eqn:El.
    - eapply db_get_found; [done|by apply (rlp_pcodec_ok proof_wf), (tb_proof_wf s L Hs p El); apply Proof_lawful|].
      change (category LatestProofSchema) with SC_Block. by rewrite (tb_proof s L Hs), El.
    - apply (db_get_absent s LatestProofSchema _ _ eq_refl). change (category LatestProofSchema) with SC_Block.
      etransitivity; [apply (tb_proof s L Hs)|by rewrite El]. }
  rewrite Ed in E1. mrun E1. exists s1. by destruct (ld_proof L).
Qed.

(** Opening the database again: the caches are empty. *)
Lemma reopen_table (s : storage) L : table s L → table (ImplStorage_new (is_adapter s)) L.
Proof.
  intros [T1 T2 T3 T4 T5 T6 T7 T8 T9 T10 T11].
  split; try done; intros n x _; cbn; rewrite lru_view_new; by intros ?%lookup_empty_Some.
Qed.

#[export] Instance table_framed L : StoreFramed (λ s : storage, table s L).
Proof.
  split; [split|..]; intros;
    cbn [impl_storage st_get_transactions st_get_transaction_by_hash st_get_latest_block st_get_latest_block_header
         st_get_block st_get_block_header st_insert_transactions st_insert_receipts].
  - apply get_many_keeps.
  - apply get_transaction_keeps.
  - unfold get_latest_block. keep.
  - unfold get_latest_block_header. keep.
  - intros s Hs. by destruct (get_block_run ctx n s L Hs) as (s' & r & -> & Ht & _).
  - intros s Hs. by destruct (get_header_run ctx n s L Hs) as (s' & r & -> & Ht & _).
  - unfold insert_transactions, batch_insert_stxs. keep.
  - unfold insert_receipts, batch_insert_receipts. keep.
Qed.

#[export] Instance impl_table : BlockTable storage.
Proof.
  refine {| holds := table |}; intros;
    cbn [impl_storage st_insert_code st_get_block st_get_block_header st_update_latest_proof st_insert_block].
  - by eapply tb_wf.
  - unfold insert_code. keep.
  - by apply update_proof_table.
  - by apply latest_block_run.
  - by apply latest_header_run.
  - by apply latest_proof_run.
  - destruct (get_block_run ctx n s L) as (s1 & r & E & Ht & Hr); [assumption|]. rewrite E, Hr by assumption. eauto.
  - destruct (get_header_run ctx n s L) as (s1 & r & E & Ht & Hr); [assumption|]. rewrite E, Hr by assumption. eauto.
  - by apply insert_block_table.
Defined.
End impl.
