(* ===== verification/BlockEnv.v ===== *)
(** * The environment of a transaction

    The part of [impl Backend for AxonExecutorAdapter] in
    [core/executor/src/adapter/mod.rs] that answers the opcodes about the block
    and the transaction, and what it answers in every transaction of a block. *)

From S2P Require Import Prelude Types Codec RlpInstance Traits Executor Storage Frame.
From S2P Require Import StorageLaws StorageProps TrieInstance ExecProps.

Local Open Scope Z_scope.

(** ** [impl Backend] *)
Section backend.
Context `{R : Rlp} `{!PatriciaTrie} {St : Type} `{!Storage St}.
Implicit Types (a : AxonExecutorAdapter St).

Definition gas_price a : U256 := ec_gas_price (exec_ctx a).
Definition origin a : H160 := ec_origin (exec_ctx a).
Definition block_number a : U256 := ec_block_number (exec_ctx a).
Definition block_hash a (number : U256) : H256 := ec_block_hash (exec_ctx a).
Definition block_coinbase a : H160 := ec_block_coinbase (exec_ctx a).
Definition block_timestamp a : U256 := ec_block_timestamp (exec_ctx a).
Definition block_difficulty a : U256 := ec_difficulty (exec_ctx a).
Definition block_gas_limit a : U256 := ec_block_gas_limit (exec_ctx a).
Definition block_base_fee_per_gas a : U256 := ec_block_base_fee_per_gas (exec_ctx a).
Definition backend_chain_id a : U256 := ec_chain_id (exec_ctx a).
Definition original_storage a (address : H160) (index : H256) : ProtocolResult (option H256) :=
  v ← storage a address index;
  Ok (Some v).

(** What the transactions of a block share of it. *)
Definition block_env a : ExecutorContext :=
  let c := exec_ctx a in
  mkExecutorContext (ec_block_number c) (ec_block_hash c) (ec_block_coinbase c) (ec_block_timestamp c)
    (ec_chain_id c) (ec_difficulty c) (ec_origin c) 0 (ec_block_gas_limit c) (ec_block_base_fee_per_gas c) [].

#[export] Instance env_framed c : ExecFramed (λ a, block_env a = c).
Proof. by split. Qed.
End backend.

(** ** In a block *)
Section env.
Context `{R : Rlp} `{K : Keccak} `{!StaticMerkleTree} `{!PatriciaTrie} {St : Type} `{!Storage St}
  `{!Evm (AxonExecutorAdapter St)}.

(** A plain transaction is run by the EVM on the state before it with its own
    gas price set, and its response reports that run. *)
Lemma exec_one_transact tx (a a' : AxonExecutorAdapter St) r :
  is_call_system_script (stx_action tx) = false → ec_logs (exec_ctx a) = [] → exec_one tx a = (a', Ok r) →
  let g := tx_gas_limit (utx_unsigned (stx_transaction tx)) in
  let v := transact (set_gas_price (stx_gas_price tx) a) (evm_call_of tx g) in
  g < 2 ^ 64 ∧ tr_exit_reason r = er_exit v ∧ tr_ret r = er_ret v ∧ tr_gas_used r = er_used_gas v ∧
  tr_remain_gas r = er_gas v ∧ tr_logs r = if is_succeed (er_exit v) then er_evm_logs v else [].
Proof.
  intros Hs Hl E. unfold exec_one in E. rewrite bind_modify, Hs in E.
  apply bind_inv in E as (r0 & a1 & E1 & E). apply bind_inv in E as (logs & a2 & [= <- <-] & [= <- <-]).
  unfold evm_inner_exec in E1. rewrite bind_gets in E1. apply bind_lift_inv in E1 as (g & Eg & E1).
  unfold as_u64 in Eg. destruct (Z.ltb_spec (tx_gas_limit (utx_unsigned (stx_transaction tx))) (2 ^ 64)); [|done].
  injection Eg as <-. apply bind_inv in E1 as (ca & a2 & E2 & [= <- <-]). unfold id in E2. cbn zeta.
  split_and!; [done..|]. cbn [tr_logs tr_exit_reason]. destruct (is_succeed _).
  - apply bind_inv in E2 as ([] & a3 & E3 & [= <- _]). by apply backend_apply_logs in E3.
  - by injection E2 as <- _.
Qed.

Lemma exec_run_keeps (a a' : AxonExecutorAdapter St) txs rs :
  exec_run a txs rs a' → ec_logs (exec_ctx a) = [] →
  block_env a' = block_env a ∧ ec_logs (exec_ctx a') = [].
Proof.
  induction 1 as [a|a a1 a' tx txs r rs H1 Hrun IH]; intros Hl; [done|].
  destruct (exec_one_logs _ _ _ _ Hl H1) as [Hl1 _]. destruct (IH Hl1) as [-> ->]. split; [|done].
  apply (preserves_inv (λ x, block_env x = block_env a)) in H1; [done|by apply exec_one_framed, env_framed|done].
Qed.

(** C39: Every transaction of an executed block that is not a system script call
    was run by the EVM on the state the transactions before it
    left, with its own sender, target, value, data and gas limit, and its
    response reports the exit, return data, gas and logs of that run.  The EVM
    ran in an environment with the transaction's own gas price and the number,
    time, coinbase, chain, gas limit and base fee of the proposal; its [origin]
    is the proposer of the block and not the sender of the transaction, and the
    hash of the proposal answers for the hash of every block number. *)
Theorem transaction_environment p root db s a a' txs resp i tx t :
  ExecutorAdapter_from_root root db s (ExecutorContext_from_Proposal p) = Ok a →
  exec txs a = (a', Ok resp) → txs !! i = Some tx → er_tx_resp resp !! i = Some t →
  is_call_system_script (stx_action tx) = false →
  ∃ before e g, exec_run a (take i txs) (take i (er_tx_resp resp)) before ∧
    ea_trie e = ea_trie before ∧ ea_db e = ea_db before ∧ ea_storage e = ea_storage before ∧
    gas_price e = stx_gas_price tx ∧ block_number e = p_number p ∧ block_timestamp e = p_timestamp p ∧
    block_coinbase e = p_proposer p ∧ backend_chain_id e = p_chain_id p ∧ block_gas_limit e = p_gas_limit p ∧
    block_base_fee_per_gas e = p_base_fee_per_gas p ∧ block_difficulty e = 1 ∧ origin e = p_proposer p ∧
    (∀ n, block_hash e n = digest (encode Proposal_codec p)) ∧
    ev_caller g = stx_sender tx ∧ ev_to g = get_to tx ∧
    ev_value g = tx_value (utx_unsigned (stx_transaction tx)) ∧
    ev_data g = tx_data (utx_unsigned (stx_transaction tx)) ∧
    ev_gas_limit g = tx_gas_limit (utx_unsigned (stx_transaction tx)) ∧
    tr_exit_reason t = er_exit (transact e g) ∧ tr_ret t = er_ret (transact e g) ∧
    tr_gas_used t = er_used_gas (transact e g) ∧ tr_remain_gas t = er_gas (transact e g) ∧
    tr_logs t = if is_succeed (er_exit (transact e g)) then er_evm_logs (transact e g) else [].
Proof.
  unfold ExecutorAdapter_from_root. destruct (MPTTrie_from_root root db) as [m| |]; [|done..].
  cbn [mbind outcome_bind]. intros [= <-] E Ht Hr Hs. set (a0 := mkExecAdapter _ m s db) in *.
  apply bind_inv in E as ([res gas] & a1 & E1 & [= <- <-]). cbn [er_tx_resp] in *.
  destruct (exec_loop_spec _ _ _ _ _ _ _ (eq_refl : ec_logs (exec_ctx a0) = []) E1) as (rs & -> & Hrun & _).
  cbn [app] in *. destruct (exec_run_at _ _ _ _ _ _ _ Hrun Ht Hr) as (before & a2 & Hb & Hone).
  destruct (exec_run_keeps _ _ _ _ Hb eq_refl) as [Henv Hl].
  destruct (exec_one_transact _ _ _ _ Hs Hl Hone) as (Hg & H1 & H2 & H3 & H4 & H5).
  exists before, (set_gas_price (stx_gas_price tx) before), (evm_call_of tx (tx_gas_limit (utx_unsigned (stx_transaction tx)))).
  destruct before as [c t' s' db']. destruct c. injection Henv as -> -> -> -> -> -> -> -> ->.
  split_and!; done.
Qed.
End env.

(** ** Example *)
Definition sample_proposal : Proposal :=
  mkProposal 1 42 3 4 1000 5 30000000 [] None 7 (mkProof 4 0 1 [] []) 0 2022 [9].

Lemma transaction_environment_witness : ∃ (e : AxonExecutorAdapter sample_storage) g t,
  gas_price e = 1 ∧ origin e = 42 ∧ ev_caller g = 77 ∧ tr_gas_used t = er_used_gas (transact e g).
Proof.
  set (txs := [token_tx x00 1; transfer_tx 100]).
  set (start := ExecutorAdapter_from_root (state_root one_account) (ea_db one_account) (ea_storage one_account)
    (ExecutorContext_from_Proposal sample_proposal)).
  assert (is_ok (a ← start; snd (exec txs a)) = true) as Hok by (vm_compute; reflexivity).
  destruct start as [a| |] eqn:Ha; [|discriminate Hok..]. unfold start in Ha. cbn [mbind outcome_bind] in Hok.
  destruct (exec txs a) as [a' [r| |]] eqn:Hrun; [|discriminate Hok..].
  destruct (er_tx_resp r !! 1%nat) as [t|] eqn:Ht.
  - destruct (transaction_environment sample_proposal _ _ _ a a' txs r 1 (transfer_tx 100) t Ha Hrun eq_refl Ht eq_refl)
      as (b & e & g & _ & _ & _ & _ & Hp & _ & _ & _ & _ & _ & _ & _ & Ho & _ & Hf & _ & _ & _ & _ & _ & _ & Hg & _).
    exists e, g, t. split; [exact Hp|]. split; [exact Ho|]. split; [exact Hf|exact Hg].
  - exfalso. assert (length (er_tx_resp r) = 2%nat) as Hl.
    { apply bind_inv in Hrun as ([res gas] & a1 & E1 & [= _ <-]).
      assert (ec_logs (exec_ctx a) = []) as Hnil by (by apply outcome_inv in Ha as (m & _ & [= <-])).
      destruct (exec_loop_spec _ _ _ _ _ _ _ Hnil E1) as (rs & -> & Hx & _). exact (exec_run_length _ _ _ _ Hx). }
    apply lookup_ge_None in Ht. lia.
Defined.
