(* ===== verification/ChainProps.v ===== *)
(** * The chain

    The blocks a node stores over the life of its consensus engine: proposals
    made and checked, blocks committed.  The theorem is proved against the
    interface [ChainAdapter], which the consensus adapter over the storage of
    the node implements.  A synchronization that succeeds extends the stored
    chain the way commits do: the blocks fetched are linked to the stored ones,
    and the status it leaves is that of the last of them.  The block a peer
    answers with is asked to be the one that was asked for, which the code does
    not look at. *)

From S2P Require Import Prelude Types Codec RlpInstance Traits CodecProps Heap Pool PoolProps.
From S2P Require Import Executor MemPool Storage Interoperation DefaultAdapter StorageLaws StorageProps.
From S2P Require Import ExecRefine TrieInstance Metadata MetadataProps AdapterProps Overlord Wal.
From S2P Require Import Engine ConsensusAdapterImpl QuorumProps EngineProps Frame BlockTable.
From S2P Require Import Sync SyncProps.

Local Open Scope Z_scope.

(** ** Histories *)
Section history.
Context `{R : Rlp} `{K : Keccak} `{!StaticMerkleTree} `{!Overlord} `{!EthBloom} `{!Bls} `{!FasterHex}
  `{!WalName} {A : Type} `{!ConsensusAdapter A} `{!ChainAdapter A}.
Local Abbreviation engine := (ConsensusEngine A).
Local Abbreviation last e := (cs_last_number (ce_status e)).

(** A node: its engine, and the proposals it made or found right.  The
    consensus crate commits a proposal only after it was made by the node or
    checked by it, and at the height that is the proposal's number. *)
Record node := mkNode { nd_engine : engine; nd_accepted : list Proposal }.

(** The widths of the executed block's fields are those of their types. *)
Definition in_types (ctx : Context) (n : Z) (c : Commit) (e : engine) : Prop :=
  ∀ proof txs resp,
    (execute_commit ctx n c (set_ce_adapter (ca_get_metadata_unchecked ctx (n + 1) (ce_adapter e)).1 e)).2
      = Ok (proof, txs, resp) → proof_wf proof ∧ block_wf (Block_new (cm_content c) resp).

Inductive node_step : node → node → Prop :=
| step_propose ctx now e acc e' p h : get_proposal ctx now (last e + 1) e = (e', Ok (p, h)) →
    node_step (mkNode e acc) (mkNode e' (p :: acc))
| step_propose_fails ctx now n e acc e' o : get_proposal ctx now n e = (e', o) →
    node_step (mkNode e acc) (mkNode e' acc)
| step_check ctx now hash h p e acc e' : check_block ctx now (p_number p) hash p e = (e', Ok tt) →
    h256_from_slice hash = Ok h → h ∉ exemption_hash e → p_number p < 2 ^ 64 →
    node_step (mkNode e acc) (mkNode e' (p :: acc))
| step_check_other ctx now n hash p e acc e' o : check_block ctx now n hash p e = (e', o) →
    node_step (mkNode e acc) (mkNode e' acc)
| step_commit ctx c e acc e' st : commit ctx (p_number (cm_content c)) c e = (e', Ok st) →
    cm_content c ∈ acc → in_types ctx (p_number (cm_content c)) c e →
    node_step (mkNode e acc) (mkNode e' acc).

(** [B] holds a chain from block [lo] to block [hi] and nothing above. *)
Definition linked (B : gmap Z Block) (lo hi : Z) : Prop :=
  (∀ n, lo < n ≤ hi → ∃ b b', B !! n = Some b ∧ B !! (n - 1) = Some b' ∧ h_prev_hash (b_header b) = header_hash b') ∧
  ∀ n, hi < n → B !! n = None.

(** The node's status is that of the chain's last block, which is the latest
    block of the storage. *)
Definition at_head (L : ledger) (lo : Z) (e : engine) : Prop :=
  serves (ce_adapter e) L ∧ linked (ld_blocks L) lo (last e) ∧
  ∃ b, ld_blocks L !! last e = Some b ∧ header_hash b = cs_prev_hash (ce_status e) ∧ ld_latest L = Some b.

(** What the status says of the last block can be read from the storage. *)
Definition head_known (L : ledger) (st : CurrentStatus) : Prop :=
  ∃ b, ld_latest L = Some b ∧ h_number (b_header b) = cs_last_number st ∧ header_hash b = cs_prev_hash st ∧
    h_state_root (b_header b) = cs_last_state_root st ∧ h_base_fee_per_gas (b_header b) = cs_base_fee_per_gas st.
Definition settled (L : ledger) (st : CurrentStatus) : Prop := ld_proof L = Some (cs_proof st) ∧ head_known L st.

Definition accepted_ok (e : engine) (p : Proposal) : Prop :=
  p_number p ≤ last e ∨ p_number p = last e + 1 ∧ p_prev_hash p = cs_prev_hash (ce_status e).

Definition node_inv (L : ledger) (lo : Z) (nd : node) : Prop :=
  at_head L lo (nd_engine nd) ∧ Forall (accepted_ok (nd_engine nd)) (nd_accepted nd).

(** Outcomes that do not depend on what the calls before did. *)
Lemma bind_outcome {S E X Y} (op : M S E X) (k k' : X → M S E Y) s :
  (∀ x s1, (k x s1).2 = (k' x s1).2) → ((op ≫= k) s).2 = ((op ≫= k') s).2.
Proof. intros Hk. unfold mbind, M_bind. by destruct (op s) as [s1 [x| |]]. Qed.

(** ** Proposals *)
(** Neither a proposal nor a check changes the blocks or the status. *)
Local Abbreviation same L st := (same_as (λ a : A, serves a L) st).

Lemma execute_commit_serves ctx n c L st (e e' : engine) proof txs resp :
  execute_commit ctx n c e = (e', Ok (proof, txs, resp)) → same L st e → proof_wf proof → same (set_proof proof L) st e'.
Proof.
  intros Hrun [Hs Hst] Hwf. unfold execute_commit in Hrun. apply bind_lift_inv in Hrun as (proof' & _ & Hrun).
  apply bind_inv in Hrun as ([] & e1 & Hsave & Hrun). rewrite ask_eq in Hsave. injection Hsave as <- Hok.
  apply bind_inv in Hrun as (txs' & e2 & Htxs & Hrun). rewrite bind_gets in Hrun.
  apply bind_inv in Hrun as (resp' & e3 & Hx & Hret). injection Hret as <- -> <- <-.
  destruct (sv_save_proof ctx proof _ _ Hs Hwf) as (a & Ea & Hs1). rewrite Ea in Htxs.
  apply (preserves_inv (same (set_proof proof L) st)) in Htxs; [|by auto with axon|by split].
  by apply (preserves_inv (same (set_proof proof L) st)) in Hx; [|by auto with axon|].
Qed.
Lemma get_proposal_prev ctx now n (e e' : engine) p h : get_proposal ctx now n e = (e', Ok (p, h)) →
  p_number p = n ∧ p_prev_hash p = cs_prev_hash (ce_status e).
Proof.
  unfold get_proposal. rewrite bind_gets. intros (txs & e1 & _ & Hrun)%bind_inv.
  apply bind_inv in Hrun as (stxs & e2 & _ & Hrun). apply bind_lift_inv in Hrun as (hash & _ & Hrun).
  apply bind_lift_inv in Hrun as ([] & _ & Hrun). rewrite bind_modify in Hrun. by injection Hrun as _ <- _.
Qed.

Lemma check_block_linked ctx now n hash h p L lo (e e' : engine) : check_block ctx now n hash p e = (e', Ok tt) →
  h256_from_slice hash = Ok h → h ∉ exemption_hash e → p_number p < 2 ^ 64 → at_head L lo e → accepted_ok e p.
Proof.
  intros Hrun Hh Hex Hp (Hs & [_ Hnone] & b & Hb & Hhash & _). unfold check_block in Hrun.
  apply bind_lift_inv in Hrun as ([] & _ & Hrun). rewrite Hh, bind_lift_ok, bind_gets in Hrun. cbn [id] in Hrun.
  rewrite decide_False in Hrun by done. apply bind_inv in Hrun as ([] & e1 & Hin & _).
  apply bind_inv in Hin as (r & e2 & Ht & Hr). unfold try in Ht. rewrite ask_eq in Ht.
  destruct (inner_check_block ctx now p (ce_adapter e)) as [a [[]|err|]] eqn:Ei; cbn [fst snd] in Ht;
    [| |discriminate Ht].
  2: { injection Ht as <- <-. by apply bind_inv in Hr as (? & ? & _ & ?). }
  unfold inner_check_block in Ei. apply bind_inv in Ei as ([] & a1 & Hv & _).
  destruct (sv_linked _ _ _ _ _ Hs Hp Hv) as (b' & Hb' & Hprev).
  destruct (Z.lt_trichotomy (p_number p - 1) (last e)) as [?|[Heq|Hgt]]; [left; lia| |].
  - right. split; [lia|]. rewrite Heq, Hb in Hb'. injection Hb' as <-. congruence.
  - rewrite (Hnone _ Hgt) in Hb'. done.
Qed.
(** ** Commits *)

Lemma save_executed_serves ctx resp b proof txs L st (e e' : engine) :
  save_executed ctx resp b proof txs e = (e', Ok tt) → same L st e → block_wf b → ld_blocks L !! h_number (b_header b) = None →
  same (add_block b L) st e'.
Proof.
  intros Hrun Hs Hwf Hnone. unfold save_executed in Hrun. rewrite bind_gets in Hrun. cbn [id] in Hrun.
  destruct (generate_receipts_and_logs _ _ _ _ _) as [receipts logs].
  apply bind_inv in Hrun as ([] & e1 & Hq1 & Hrun). apply bind_inv in Hrun as ([] & e2 & Hq2 & Hrun).
  apply bind_inv in Hrun as ([] & e3 & Hq3 & Hrun). apply bind_inv in Hrun as ([] & e4 & Hq4 & Hrun).
  apply (preserves_inv (same L st)) in Hq1; [|by auto with axon|done].
  apply (preserves_inv (same L st)) in Hq2; [|by keep|done].
  apply (preserves_inv (same L st)) in Hq3; [|by auto with axon|done].
  apply (preserves_inv (same L st)) in Hq4 as [Ha Hst]; [|by auto with axon|done].
  apply ask_inv in Hrun as [Hsave ->]. destruct (sv_save_block ctx b _ _ Ha Hwf Hnone) as (a & Ea & Hb).
  rewrite Hsave in Ea. injection Ea as ->. done.
Qed.

Lemma at_head_add L lo (e e' : engine) b b0 : linked (ld_blocks L) lo (last e) → ld_blocks L !! last e = Some b0 →
  header_hash b0 = cs_prev_hash (ce_status e) → lo ≤ last e → h_number (b_header b) = last e + 1 →
  h_prev_hash (b_header b) = cs_prev_hash (ce_status e) → serves (ce_adapter e') (add_block b L) →
  last e' = h_number (b_header b) → cs_prev_hash (ce_status e') = header_hash b → at_head (add_block b L) lo e'.
Proof.
  intros [Hlink Hnone] Hb0 Hh0 Hlo Hn Hp Hs' Hl' Hh'. unfold at_head. rewrite Hl'. cbn [ld_blocks ld_latest add_block].
  split_and!; [done| |exists b; by rewrite lookup_insert_eq].
  split; [|intros n Hgt; rewrite lookup_insert_ne by lia; apply Hnone; lia].
  intros n Hr. destruct (decide (n = h_number (b_header b))) as [->|Hne].
  - exists b, b0. rewrite lookup_insert_eq, lookup_insert_ne by lia.
    replace (h_number (b_header b) - 1) with (last e) by lia. split_and!; [done..|]. congruence.
  - rewrite !lookup_insert_ne by lia. apply Hlink. lia.
Qed.

Lemma update_status_linked ctx resp p proof txs L lo (e e' : engine) :
  update_status ctx resp p proof txs e = (e', Ok tt) → at_head L lo e → lo ≤ last e → ld_proof L = Some proof →
  p_number p = last e + 1 → p_prev_hash p = cs_prev_hash (ce_status e) → block_wf (Block_new p resp) →
  at_head (add_block (Block_new p resp) L) lo e' ∧ last e' = p_number p ∧
  settled (add_block (Block_new p resp) L) (ce_status e').
Proof.
  intros Hrun Hhead Hlo Hpf Hn Hp Hwf. pose proof Hhead as (Hs & Hlink & b0 & Hb0 & Hh0 & _). pose proof Hlink as [_ Hnone].
  unfold update_status in Hrun. rewrite bind_gets in Hrun.
  cbn [id] in Hrun. apply bind_lift_inv in Hrun as (next & _ & Hrun).
  apply bind_inv in Hrun as ([] & e1 & Hq1 & Hrun). set (L' := add_block _ L).
  apply (save_executed_serves _ _ _ _ _ L (ce_status e)) in Hq1; [|done|done|apply Hnone; cbn; lia].
  apply bind_inv in Hrun as ([] & e2 & Hq2 & Hrun). apply (preserves_inv (same L' (ce_status e))) in Hq2; [|apply refresh_same, _|exact Hq1].
  rewrite bind_gets in Hrun. apply bind_inv in Hrun as ([] & e3 & Hq3 & Hrun). rewrite bind_modify in Hrun.
  apply bind_lift_inv in Hrun as (g & _ & Hrun). apply bind_lift_inv in Hrun as (m & _ & Hrun).
  apply (preserves_inv (same L' (ce_status e))) in Hq3; [|by auto with axon|exact Hq2].
  set (e4 := set_ce_status _ e3) in Hrun.
  assert (Hq4 : same L' (ce_status e4) e4) by (split; [apply Hq3|done]).
  apply (preserves_inv (same L' (ce_status e4))) in Hrun as [Ha Hst]; [|by auto with axon|exact Hq4].
  split; [|split].
  - apply (at_head_add _ _ e _ _ b0); [done..|by rewrite Hst|by rewrite Hst].
  - by rewrite Hst.
  - rewrite Hst. split; [done|]. eexists. split; [reflexivity|]. done.
Qed.

Lemma commit_linked ctx c L lo (e e' : engine) st :
  commit ctx (p_number (cm_content c)) c e = (e', Ok st) → in_types ctx (p_number (cm_content c)) c e →
  at_head L lo e → lo ≤ last e → accepted_ok e (cm_content c) →
  ∃ L', at_head L' lo e' ∧ ld_blocks L ⊆ ld_blocks L' ∧
    (ce_status e' = ce_status e ∧ L' = L ∨ last e' = last e + 1 ∧ settled L' (ce_status e')).
Proof.
  intros Hrun Hty Hhead Hlo Hacc. unfold commit in Hrun. rewrite bind_gets in Hrun. cbn [id] in Hrun.
  destruct (ce_locked e); [done|]. apply bind_lift_inv in Hrun as (n1 & [-> _]%u64_add_ok & Hrun).
  apply bind_inv in Hrun as (md & e1 & Hmd & Hrun).
  assert (E1 : e1 = set_ce_adapter (ca_get_metadata_unchecked ctx (p_number (cm_content c) + 1) (ce_adapter e)).1 e)
    by (rewrite ask_eq in Hmd; by injection Hmd).
  pose proof Hhead as (Hs & Hl & Hb).
  apply (preserves_inv (same L (ce_status e))) in Hmd as [Hs1 Hst1]; [|by auto with axon|done].
  assert (Hhead1 : at_head L lo e1) by (unfold at_head; by rewrite Hst1).
  destruct (Z.eqb_spec (p_number (cm_content c)) (last e)) as [Heq|Hne].
  { exists L. assert (e' = e1) as -> by (by unfold lift in Hrun; injection Hrun). split_and!; [done..|]. by left. }
  apply bind_lift_inv in Hrun as (n2 & [-> _]%u64_add_ok & Hrun).
  destruct (Z.eqb_spec (p_number (cm_content c)) (last e + 1)) as [Heq|]; cbn [negb] in Hrun; [|done].
  destruct Hacc as [?|[_ Hprev]]; [lia|]. unfold commit_new in Hrun.
  apply bind_inv in Hrun as ([[proof txs] resp] & e2 & Hx & Hrun).
  assert (Hwf : proof_wf proof ∧ block_wf (Block_new (cm_content c) resp)).
  { apply (Hty proof txs). rewrite <-E1. by rewrite Hx. }
  apply (execute_commit_serves _ _ _ L (ce_status e)) in Hx as [Hs2 Hst2]; [|done|apply Hwf].
  assert (Hhead2 : at_head (set_proof proof L) lo e2) by (unfold at_head; by rewrite Hst2).
  apply bind_inv in Hrun as ([] & e3 & Hu & Hrun).
  apply (update_status_linked _ _ _ _ _ (set_proof proof L) lo) in Hu as (Hhead3 & Hlast & Hset);
    [|done|by rewrite Hst2|done|by rewrite Hst2..|apply Hwf].
  set (L' := add_block _ _) in Hhead3, Hset. exists L'.
  assert (Hend : same L' (ce_status e3) e').
  { apply (preserves_inv (same L' (ce_status e3))) in Hrun; [exact Hrun| |by split; [apply Hhead3|]].
    keep. by apply preserves_modify. }
  destruct Hend as [Hs' Hst']. split; [|split].
  - unfold at_head. rewrite Hst'. by destruct Hhead3 as (_ & ? & ?).
  - apply insert_subseteq. apply Hl. cbn. lia.
  - right. rewrite Hst', Hlast. done.
Qed.

Lemma accepted_later (e e' : engine) p : accepted_ok e p →
  ce_status e' = ce_status e ∨ last e' = last e + 1 → accepted_ok e' p.
Proof. intros Hp [Hst|Hl]; unfold accepted_ok in *; [by rewrite Hst|]. left. destruct Hp as [?|[? _]]; lia. Qed.

Lemma node_inv_later L lo (e e' : engine) acc : Forall (accepted_ok e) acc → at_head L lo e' →
  ce_status e' = ce_status e ∨ last e' = last e + 1 → node_inv L lo (mkNode e' acc).
Proof.
  intros Hacc Hhead Hst. split; [done|]. eapply Forall_impl; [exact Hacc|]. intros q Hq. by apply (accepted_later e).
Qed.
Lemma node_inv_same L lo (e e' : engine) acc : node_inv L lo (mkNode e acc) → same L (ce_status e) e' →
  node_inv L lo (mkNode e' acc) ∧ last e ≤ last e'.
Proof.
  intros [(_ & ? & ?) Hacc] [Hs Hst]. split; [|by rewrite Hst]. apply (node_inv_later _ _ e); [done| |by left].
  unfold at_head. by rewrite Hst.
Qed.
Lemma node_inv_cons L lo (e : engine) acc p : node_inv L lo (mkNode e acc) → accepted_ok e p →
  node_inv L lo (mkNode e (p :: acc)).
Proof. intros [Hhead Hacc] Hp. split; [done|]. by constructor. Qed.

Lemma node_step_inv L lo nd nd' : node_step nd nd' → lo ≤ last (nd_engine nd) → node_inv L lo nd →
  ∃ L', node_inv L' lo nd' ∧ ld_blocks L ⊆ ld_blocks L' ∧ last (nd_engine nd) ≤ last (nd_engine nd') ∧
    (ce_status (nd_engine nd') = ce_status (nd_engine nd) ∧ L' = L ∨ settled L' (ce_status (nd_engine nd'))).
Proof.
  intros Hstep Hlo Hinv.
  destruct Hstep as [ctx now e acc e' p h Hrun|ctx now n e acc e' o Hrun|ctx now hash h p e acc e' Hrun Hh Hex Hp
    |ctx now n hash p e acc e' o Hrun|ctx c e acc e' st Hrun Hin Hty]; cbn [nd_engine nd_accepted] in *.
  5: { destruct Hinv as [Hhead Hacc]. destruct (commit_linked ctx c L lo e e' st Hrun Hty Hhead Hlo) as (L' & Hhead' & Hsub & Hst).
       { rewrite Forall_forall in Hacc. by apply Hacc. }
       exists L'. split_and!; [apply (node_inv_later _ _ e); [done..|tauto]|done|destruct Hst as [[-> _]|[-> _]]; lia|tauto]. }
  all: exists L; pose proof Hinv as [(Hs & _ & _) _].
  - destruct (get_proposal_prev _ _ _ _ _ _ _ Hrun) as [Hn Hprev].
    apply (preserves_inv _ _ _ _ _ (get_proposal_same (λ a, serves a L) (ce_status e) ctx now _)) in Hrun; [|done].
    destruct (node_inv_same _ _ _ _ (p :: acc) (node_inv_cons _ _ _ _ p Hinv ltac:(by right)) Hrun).
    destruct Hrun. split_and!; [done..|by left].
  - apply (preserves_inv _ _ _ _ _ (get_proposal_same (λ a, serves a L) (ce_status e) ctx now _)) in Hrun; [|done].
    destruct (node_inv_same _ _ _ _ acc Hinv Hrun). destruct Hrun. split_and!; [done..|by left].
  - assert (Hok : accepted_ok e p) by (eapply check_block_linked; [done..|apply Hinv]).
    apply (preserves_inv _ _ _ _ _ (check_block_same (λ a, serves a L) (ce_status e) ctx now _ hash p)) in Hrun; [|done].
    destruct (node_inv_same _ _ _ _ (p :: acc) (node_inv_cons _ _ _ _ p Hinv Hok) Hrun).
    destruct Hrun. split_and!; [done..|by left].
  - apply (preserves_inv _ _ _ _ _ (check_block_same (λ a, serves a L) (ce_status e) ctx now n hash p)) in Hrun; [|done].
    destruct (node_inv_same _ _ _ _ acc Hinv Hrun). destruct Hrun. split_and!; [done..|by left].
Qed.

Lemma history_inv L lo nd nd' : rtc node_step nd nd' → lo ≤ last (nd_engine nd) → node_inv L lo nd →
  ∃ L', node_inv L' lo nd' ∧ ld_blocks L ⊆ ld_blocks L' ∧ last (nd_engine nd) ≤ last (nd_engine nd') ∧
    (ce_status (nd_engine nd') = ce_status (nd_engine nd) ∧ L' = L ∨ settled L' (ce_status (nd_engine nd'))).
Proof.
  intros Hsteps. revert L. induction Hsteps as [nd|nd nd1 nd' Hstep _ IH]; intros L Hlo Hinv.
  - exists L. split_and!; [done..|by left].
  - destruct (node_step_inv L lo nd nd1 Hstep Hlo Hinv) as (L1 & Hinv1 & Hsub & Hle & Hset).
    destruct (IH L1 ltac:(lia) Hinv1) as (L' & Hinv' & Hsub' & Hle' & Hset'). exists L'.
    split_and!; [done|by etrans|lia|]. destruct Hset' as [[-> ->]|?]; [|by right].
    destruct Hset as [[-> ->]|?]; [by left|by right].
Qed.
End history.

(** ** Property *)
(** The stored chain is linked, and what is committed stays.  A node that
    starts with a chain, its status that of the last block, still has one after
    any history of proposals made, proposals checked, right or wrong, and
    commits of proposals it made or found right: each block's previous hash is
    the hash of the stored block below it, nothing is stored above the last
    block, whose hash the status holds, and no block stored before is replaced
    or lost.  Once a block was committed, what the status says of the last block
    and its proof is what the storage holds.  The commits of the history are
    those that succeed. *)
Theorem chain_linked `{R : Rlp} `{K : Keccak} `{!StaticMerkleTree} `{!Overlord} `{!EthBloom} `{!Bls}
    `{!FasterHex} `{!WalName} {A : Type} `{!ConsensusAdapter A} `{!ChainAdapter A} L lo (nd nd' : node (A := A)) :
  rtc node_step nd nd' → nd_accepted nd = [] → at_head L lo (nd_engine nd) →
  lo ≤ cs_last_number (ce_status (nd_engine nd)) →
  ∃ L', at_head L' lo (nd_engine nd') ∧ ld_blocks L ⊆ ld_blocks L' ∧
    cs_last_number (ce_status (nd_engine nd)) ≤ cs_last_number (ce_status (nd_engine nd')) ∧
    (cs_last_number (ce_status (nd_engine nd)) < cs_last_number (ce_status (nd_engine nd')) →
     settled L' (ce_status (nd_engine nd'))).
Proof.
  intros Hsteps Hacc Hhead Hlo. assert (Hinv : node_inv L lo nd) by (split; [done|by rewrite Hacc]).
  destruct (history_inv L lo nd nd' Hsteps Hlo Hinv) as (L' & [Hhead' _] & Hsub & Hle & Hset).
  exists L'. split_and!; [done..|]. destruct Hset as [[-> _]|Hset]; [lia|by intros _].
Qed.

(** The height at which a proposal is checked and committed is not compared
    with its own number.  Whatever the height, the check answers the same; and
    a commit at the next height of a proposal of any number answers with the
    height after, while the status is set to the proposal's number. *)
Theorem height_unchecked `{R : Rlp} `{K : Keccak} `{!StaticMerkleTree} `{!Overlord} `{!EthBloom} `{!Bls}
    `{!FasterHex} `{!WalName} {A : Type} `{!ConsensusAdapter A} ctx now hash p n n' c (e e' : ConsensusEngine A) st :
  (check_block ctx now n hash p e).2 = (check_block ctx now n' hash p e).2 ∧
  (commit ctx n c e = (e', Ok st) → n ≠ cs_last_number (ce_status e) →
   n = cs_last_number (ce_status e) + 1 ∧ os_height st = n + 1 ∧
   cs_last_number (ce_status e') = p_number (cm_content c)).
Proof.
  split.
  - unfold check_block. do 5 (apply bind_outcome; intros ? ?). unfold on_wal, zoom, wal_save. rewrite !bind_gets, !bind_modify.
    by destruct (encode_signed_txs _).
  - intros Hrun Hn. unfold commit in Hrun. rewrite bind_gets in Hrun. cbn [id] in Hrun. destruct (ce_locked e); [done|].
    apply bind_lift_inv in Hrun as (n1 & [-> _]%u64_add_ok & Hrun). apply bind_inv in Hrun as (md & e1 & Hmd%keeps_ask & Hrun).
    rewrite (proj2 (Z.eqb_neq _ _)) in Hrun by done. apply bind_lift_inv in Hrun as (n2 & [-> _]%u64_add_ok & Hrun).
    destruct (Z.eqb_spec n (cs_last_number (ce_status e) + 1)) as [Heq|]; cbn [negb] in Hrun; [|done].
    apply commit_new_ok in Hrun as (Hh & _ & ? & ? & ? & ? & ? & _ & _ & _ & Hnum & _). done.
Qed.

(** ** Witness *)
(** The sample engine proposes block 6 and commits it. *)
#[local] Existing Instances plain_hex echo_abi echo_evm list_overlord list_bls zero_bloom.
#[local] Existing Instances any_interop any_secp no_peer no_text one_name no_net.

Definition proposing_engine : ConsensusEngine sample_adapter :=
  (get_proposal ∅ (2 ^ 40) 6 (sample_engine false)).1.
Definition committed_engine : ConsensusEngine sample_adapter :=
  (commit ∅ 6 next_commit proposing_engine).1.

Definition no_ledger : ledger := mkLedger ∅ None None.
Lemma new_table : table new_storage no_ledger.
Proof.
  split; try done; intros n b _; vm_compute; by destruct n.
Qed.
#[local] Instance keys_differ : LatestKeys.
Proof. unfold LatestKeys. by vm_compute. Qed.

Definition sample_ledger : ledger := add_block sample_block no_ledger.
Lemma sample_table : table (insert_block ∅ sample_block new_storage).1 sample_ledger.
Proof.
  destruct (insert_block_table ∅ sample_block new_storage no_ledger new_table) as (s' & Hi & Ht);
    [by repeat constructor|done|]. by rewrite Hi.
Qed.
Lemma sample_at_head : at_head sample_ledger 5 (sample_engine false).
Proof.
  split_and!.
  - exact sample_table.
  - split; [intros n; cbn; lia|]. intros n Hn. apply (lookup_singleton_ne 5). change (5 < n) in Hn. lia.
  - exists sample_block. split; [apply lookup_singleton_eq|done].
Qed.

Lemma sample_in_types : in_types ∅ 6 next_commit proposing_engine.
Proof.
  intros proof txs resp Hx. vm_compute in Hx. injection Hx as <- <- <-.
  split; repeat constructor; vm_compute; discriminate.
Qed.

Lemma chain_linked_witness :
  cs_last_number (ce_status committed_engine) = 6 ∧
  ∃ L', at_head L' 5 committed_engine ∧ settled L' (ce_status committed_engine).
Proof.
  split; [vm_compute; reflexivity|].
  destruct (run_is_ok (get_proposal ∅ (2 ^ 40) 6) (sample_engine false)) as (e1 & [p h] & Hp); [vm_compute; reflexivity|].
  destruct (run_is_ok (commit ∅ 6 next_commit) proposing_engine) as (e2 & st & Hc); [vm_compute; reflexivity|].
  assert (Hpe : proposing_engine = e1) by (unfold proposing_engine; by rewrite Hp).
  assert (Hce : committed_engine = e2) by (unfold committed_engine; by rewrite Hc).
  assert (Hnext : next_proposal = p) by (unfold next_proposal; by rewrite Hp).
  assert (Hlast : cs_last_number (ce_status e2) = 6) by (rewrite <-Hce; vm_compute; reflexivity).
  rewrite Hce. rewrite Hpe in Hc.
  destruct (chain_linked sample_ledger 5 (mkNode (sample_engine false) []) (mkNode e2 [p])) as (L' & Hhead & _ & _ & Hset).
  - eapply rtc_l; [exact (step_propose ∅ (2 ^ 40) _ _ _ _ _ Hp)|]. apply rtc_once.
    apply (step_commit ∅ next_commit e1 [p] e2 st); [exact Hc|by rewrite <-Hnext; left|rewrite <-Hpe; apply sample_in_types].
  - reflexivity.
  - apply sample_at_head.
  - cbn. lia.
  - exists L'. split; [exact Hhead|]. apply Hset. cbn [nd_engine]. rewrite Hlast. by vm_compute.
Defined.

(** At height 6 a proposal numbered 5 is committed. *)
Definition rewriting_commit : Commit :=
  mkCommit 6 (Proposal_from_Block (mkBlock sample_header [])) (mkOverlordProof 6 0 (to_be_bytes 32 1) [] []).
Lemma height_unchecked_witness :
  ∃ e' st, commit ∅ 6 rewriting_commit (sample_engine false) = (e', Ok st) ∧ os_height st = 7 ∧
    cs_last_number (ce_status e') = 5.
Proof.
  destruct (run_is_ok (commit ∅ 6 rewriting_commit) (sample_engine false)) as (e' & st & Hc); [vm_compute; reflexivity|].
  exists e', st. split; [exact Hc|].
  destruct (height_unchecked ∅ 0 [] next_proposal 6 6 rewriting_commit (sample_engine false) e' st) as [_ Hh].
  destruct (Hh Hc) as (_ & Hst & Hnum); [discriminate|]. split; [exact Hst|exact Hnum].
Defined.

Section sync_chain.
Context `{R : Rlp} `{K : Keccak} `{!StaticMerkleTree} `{!PatriciaTrie} {St Mt : Type} `{!Storage St}
  `{!MetadataControl Mt} `{!Evm (AxonExecutorAdapter St)} `{!Interoperation} `{!PullRpc}
  `{!Secp256k1Verify} `{!ErrorText} `{!Overlord} `{!EthBloom} `{!Bls} `{!FasterHex} `{!ConsensusNet} `{!BlockTable St}.
Local Abbreviation adapter := (OverlordConsensusAdapter St Mt).
Local Abbreviation engine := (ConsensusEngine adapter).
Local Abbreviation sync := (OverlordSynchronization adapter).
Local Abbreviation held L := (λ a : adapter, serves a L).

(** The engine with the adapter of the synchronization and a status. *)
Definition carrier (e : engine) (a : adapter) (st : CurrentStatus) : engine := set_ce_status st (set_ce_adapter a e).

(** Peers answer with the block of the number they are asked for. *)
Definition honest_peers (ctx : Context) : Prop :=
  ∀ n b, call_pull_block ctx n RPC_SYNC_PULL_BLOCK = Ok b → block_wf b ∧ h_number (b_header b) = n.

(** The stored proof: that of the status, or the one in the last block's
    header. *)
Definition proof_known (L : ledger) (st : CurrentStatus) : Prop :=
  ld_proof L = Some (cs_proof st) ∨ ∃ b, ld_latest L = Some b ∧ ld_proof L = Some (h_proof (b_header b)).

(** ** What the steps leave *)
(** The synchronization sees the same adapter through its own trait. *)
Local Ltac framed law := let F := fresh "F" in pose proof law as F; apply F.

Lemma get_chunks_held ctx n hss L : preserves (held L) (get_chunks ctx n hss).
Proof. induction hss as [|hs hss IH]; cbn [get_chunks sa_get_txs_from_remote overlord_sync]; keep. Qed.
Hint Resolve get_chunks_held : axon.
Lemma get_rich_block_held ctx n size L : preserves (held L) (get_rich_block_from_remote ctx n size).
Proof. unfold get_rich_block_from_remote. cbn [sa_get_block_from_remote overlord_sync]. keep. Qed.

Lemma save_chain_data_serves ctx txs rs b (a a' : adapter) L : save_chain_data ctx txs rs b a = (a', Ok tt) → serves a L →
  block_wf b → ld_blocks L !! h_number (b_header b) = None →
  serves a' (add_block b (set_proof (h_proof (b_header b)) L)).
Proof.
  intros Hrun Hs Hwf Hnone. unfold save_chain_data in Hrun. apply bind_inv in Hrun as ([] & a1 & Hq1 & Hrun).
  apply bind_inv in Hrun as ([] & a2 & Hq2 & Hrun). apply bind_inv in Hrun as ([] & a3 & Hq3 & Hq4).
  apply (preserves_inv (held L)) in Hq1; [|framed (af_save_txs (A := adapter) (I := held L) ctx)|done].
  apply (preserves_inv (held L)) in Hq2; [|framed (af_save_receipts (A := adapter) (I := held L) ctx)|done].
  destruct (sv_save_proof (A := adapter) ctx (h_proof (b_header b)) a2 L Hq2 ltac:(apply Hwf)) as (a3' & E3 & Hs3).
  assert (a3' = a3) as -> by (pose proof (eq_trans (eq_sym E3) Hq3) as E; by injection E).
  destruct (sv_save_block (A := adapter) ctx b a3 _ Hs3 Hwf Hnone) as (a4 & E4 & Hs4).
  assert (a4 = a') as -> by (pose proof (eq_trans (eq_sym E4) Hq4) as E; by injection E). done.
Qed.

Lemma verify_block_linked ctx rich (a a' : adapter) proof L : verify_block ctx rich a = (a', Ok proof) → serves a L →
  block_wf (rb_block rich) → let h := b_header (rb_block rich) in
  serves a' L ∧ ∃ b, ld_blocks L !! (h_number h - 1) = Some b ∧ header_hash b = h_prev_hash h.
Proof.
  intros Hrun Hs Hwf h. unfold verify_block in Hrun. apply bind_inv in Hrun as (pf & a1 & Hq1 & Hrun).
  injection Hq1 as <- _. apply bind_inv in Hrun as ([] & a2 & Hq2 & Hrun).
  apply (preserves_inv (held L)) in Hq2; [|framed (af_verify_proof (A := adapter) (I := held L) ctx)|done].
  apply bind_inv in Hrun as ([] & a3 & Hq3 & Hrun).
  assert (Hu : u64_ok (h_number h)) by apply Hwf.
  destruct (sv_linked (A := adapter) ctx (Proposal_from_Block (rb_block rich)) a2 a3 L Hq2 (proj2 Hu) Hq3) as (b & Hb & Hprev).
  apply (preserves_inv (held L)) in Hq3; [|framed (af_verify_header (A := adapter) (I := held L) ctx)|done]. split; [|by exists b].
  apply (preserves_inv (held L)) in Hrun; [exact Hrun| |done].
  apply preserves_bind; [by auto with axon|intros n]. apply preserves_bind; [framed (af_get_block (A := adapter) (I := held L) ctx)|intros prev].
  apply preserves_bind; [framed (af_verify_proof (A := adapter) (I := held L) ctx)|intros _]. keep.
Qed.

Lemma commit_block_linked ctx rich proof (y y' : sync) L : commit_block ctx rich proof y = (y', Ok tt) →
  serves (sy_adapter y) L → let b := rb_block rich in block_wf b → ld_blocks L !! h_number (b_header b) = None →
  let L' := add_block b (set_proof (h_proof (b_header b)) L) in
  serves (sy_adapter y') L' ∧ head_known L' (sy_agent y').
Proof.
  intros Hrun Hs b Hwf Hnone L'. pose proof (commit_block_ok _ _ _ _ _ Hrun) as (resp & md & a' & _ & Hroot & _ & Hag & _).
  split; [|rewrite Hag; exists b; by split_and!]. clear resp md a' Hroot Hag.
  unfold commit_block, store_synced in Hrun. rewrite bind_gets in Hrun.
  apply bind_inv in Hrun as (resp & y1 & [Hq1 _]%call_adapter_inv & Hrun).
  apply (preserves_inv (held L)) in Hq1; [|framed (sv_exec (A := adapter) ctx)|done].
  destruct (negb _); [done|]. destruct (negb _); [done|]. destruct (generate_receipts_and_logs _ _ _ _ _) as [receipts logs].
  apply bind_inv in Hrun as (md & y2 & [Hq2 _]%call_adapter_inv & Hrun). rewrite bind_modify in Hrun.
  apply (preserves_inv (held L)) in Hq2; [|framed (af_metadata (A := adapter) (I := held L) ctx)|done].
  apply bind_inv in Hrun as ([] & y3 & [Hq3 _]%call_adapter_inv & [Hq4 _]%call_adapter_inv).
  apply (save_chain_data_serves _ _ _ _ _ _ L) in Hq3; [|done..].
  by apply (preserves_inv (held L')) in Hq4; [|framed (af_flush (A := adapter) (I := held L') ctx)|].
Qed.

Local Abbreviation top y := (cs_last_number (sy_agent y)).
Lemma sync_one_linked ctx n (y y' : sync) L lo (e : engine) : sync_one ctx n y = (y', Ok tt) → honest_peers ctx →
  n = top y + 1 → at_head L lo (carrier e (sy_adapter y) (sy_agent y)) → lo ≤ top y →
  ∃ L', at_head L' lo (carrier e (sy_adapter y') (sy_agent y')) ∧ ld_blocks L ⊆ ld_blocks L' ∧ top y' = n ∧
    head_known L' (sy_agent y') ∧ proof_known L' (sy_agent y').
Proof.
  intros Hrun Hhon Hn Hhead Hlo. unfold sync_one in Hrun. rewrite bind_gets in Hrun. cbn [id] in Hrun.
  apply bind_inv in Hrun as (rich & y1 & [Hq1 Ey1]%call_adapter_inv & Hrun).
  apply bind_inv in Hrun as (proof & y2 & [Hq2 Ey2]%call_adapter_inv & Hrun).
  apply bind_inv in Hrun as ([] & y3 & Hq3 & Hrun). rewrite bind_gets in Hrun.
  apply bind_lift_inv in Hrun as (s & _ & [= <-]). cbn [id sy_adapter sy_agent set_sync_status].
  pose proof Hhead as (Hs & [_ Hnone] & b0 & Hb0 & Hh0 & _). cbn in Hs, Hnone, Hb0, Hh0.
  destruct (get_rich_block_ok _ _ _ _ _ _ Hq1) as (a1 & [= _ [Hwf Hnum]%Hhon]).
  apply (preserves_inv (held L)) in Hq1; [|apply get_rich_block_held|done].
  destruct (verify_block_linked _ _ _ _ _ L Hq2 Hq1 Hwf) as [Hs2 (b & Hb & Hprev)].
  assert (b = b0) as -> by (rewrite Hnum, Hn, Z.add_simpl_r, Hb0 in Hb; by injection Hb).
  destruct (commit_block_linked _ _ _ _ _ L Hq3 Hs2 Hwf) as [Hs3 Hk]; [apply Hnone; lia|].
  pose proof Hk as (b' & [= <-] & Hn' & Hh' & _). exists (add_block (rb_block rich) (set_proof (h_proof (b_header (rb_block rich))) L)). split_and!; [|..|exact Hk|].
  - apply (at_head_add _ lo (carrier e (sy_adapter y) (sy_agent y)) _ _ b0); try done; [apply Hhead|cbn; congruence..].
  - apply insert_subseteq, Hnone. lia.
  - congruence.
  - right. by eexists.
Qed.

Lemma sync_loop_linked ctx m n (y y' : sync) L lo (e : engine) : sync_loop ctx m n y = (y', Ok tt) → honest_peers ctx →
  n = top y → at_head L lo (carrier e (sy_adapter y) (sy_agent y)) → lo ≤ top y →
  ∃ L', at_head L' lo (carrier e (sy_adapter y') (sy_agent y')) ∧ ld_blocks L ⊆ ld_blocks L' ∧
    top y' = top y + Z.of_nat m ∧ (m ≠ 0%nat → head_known L' (sy_agent y') ∧ proof_known L' (sy_agent y')).
Proof.
  intros Hrun Hhon. revert n y L Hrun. induction m as [|m IH]; intros n y L Hrun -> Hhead Hlo; cbn [sync_loop] in Hrun.
  { injection Hrun as <-. exists L. split_and!; [done..|lia|done]. }
  apply bind_inv in Hrun as ([] & y1 & Hone & Hrun).
  destruct (sync_one_linked _ _ _ _ L lo e Hone Hhon eq_refl Hhead Hlo) as (L1 & Hhead1 & Hsub1 & Htop1 & Hk).
  destruct (IH (top y + 1) y1 L1 Hrun ltac:(lia) Hhead1 ltac:(lia)) as (L' & Hhead' & Hsub & Htop & Hlast).
  destruct m as [|m].
  - injection Hrun as <-. exists L1. split_and!; [done..|lia|done].
  - exists L'. split_and!; [done|by etrans|lia|]. intros _. by apply Hlast.
Qed.

(** Deciding whether to synchronize changes nothing. *)
Lemma need_sync_same ctx remote st L : preserves (λ y : sync, serves (sy_adapter y) L ∧ sy_status y = st)
  (need_sync ctx st remote).
Proof.
  assert (∀ X (m : M adapter ProtocolError X), preserves (held L) m →
    preserves (λ y : sync, serves (sy_adapter y) L ∧ sy_status y = st) (call_adapter m)) as Hcall.
  { intros X m Hm. apply (preserves_zoom _ _ (held L)); [tauto|by intros ?? [_ ?] ?|done]. }
  unfold need_sync. apply preserves_bind; [apply preserves_gets|intros y]. destruct (_ =? _); [apply preserves_ret|].
  destruct (_ <=? _); [apply preserves_ret|]. apply preserves_bind.
  - destruct (_ =? _); [|apply preserves_ret]. apply preserves_bind; [|intros _].
    + apply Hcall. framed (af_metadata_unchecked (A := adapter) (I := held L) ctx).
    + apply preserves_bind; [apply preserves_modify; by intros ? []|intros _; apply preserves_ret].
  - intros []; [apply preserves_ret|]. apply preserves_bind; [|intros b; apply preserves_ret].
    apply Hcall, preserves_lift.
Qed.

(** ** A synchronization *)
(** Where a synchronization leaves the node: as it was, or further up the
    chain. *)
Definition synced (L : ledger) (lo : Z) (e : engine) (y : sync) : Prop :=
  ∃ L', at_head L' lo (carrier e (sy_adapter y) (sy_status y)) ∧ ld_blocks L ⊆ ld_blocks L' ∧
    (sy_status y = ce_status e ∧ L' = L ∨
     cs_last_number (ce_status e) < cs_last_number (sy_status y) ∧
     head_known L' (sy_status y) ∧ proof_known L' (sy_status y)).

Lemma sync_update_engine_ok ctx (y y' : sync) L : sync_update_engine ctx y = (y', Ok tt) → serves (sy_adapter y) L →
  serves (sy_adapter y') L ∧ sy_status y' = sy_agent y.
Proof.
  unfold sync_update_engine. rewrite bind_gets, bind_modify. cbn [id].
  intros (next & _ & Hrun)%bind_lift_inv Hs. apply bind_inv in Hrun as (md & y1 & [Hq1 Ey1]%call_adapter_inv & Hrun).
  apply bind_lift_inv in Hrun as (vs & _ & [Hq2 Ey2]%call_adapter_inv).
  apply (preserves_inv (held L)) in Hq1; [|framed (af_metadata_unchecked (A := adapter) (I := held L) ctx)|done].
  apply (preserves_inv (held L)) in Hq2; [split; [exact Hq2|by rewrite Ey2, Ey1]| |done].
  cbn [sa_update_status overlord_sync]. unfold sync_update_status. keep. by apply preserves_modify.
Qed.

Lemma start_sync_linked ctx remote (y y' : sync) L lo (e : engine) :
  start_sync ctx (top y) remote y = (y', Ok tt) → honest_peers ctx → top y < remote →
  at_head L lo (carrier e (sy_adapter y) (sy_agent y)) → lo ≤ top y →
  ∃ L', at_head L' lo (carrier e (sy_adapter y') (sy_agent y')) ∧ ld_blocks L ⊆ ld_blocks L' ∧ top y < top y' ∧
    head_known L' (sy_agent y') ∧ proof_known L' (sy_agent y').
Proof.
  intros Hrun Hhon Hlt Hhead Hlo. unfold start_sync in Hrun. apply bind_lift_inv in Hrun as (target & Ht & Hrun).
  unfold sync_target in Ht. apply outcome_inv in Ht as (limit & [-> _]%u64_add_ok & Ht).
  assert (top y < target).
  { unfold ONCE_SYNC_BLOCK_LIMIT in Ht. destruct (Z.ltb_spec remote (top y + 50)); injection Ht as <-; lia. }
  rewrite bind_modify in Hrun.
  destruct (sync_loop_linked _ _ _ _ _ L lo e Hrun Hhon eq_refl Hhead Hlo) as (L' & Hhead' & Hsub & Htop & Hk).
  exists L'. split_and!; [done|done| |apply Hk; lia..]. cbn [sy_agent set_sync_status] in Htop. lia.
Qed.

Lemma receive_remote_block_linked ctx remote (y y' : sync) L lo (e : engine) :
  receive_remote_block ctx (ce_status e) remote y = (y', Ok tt) → honest_peers ctx → sy_adapter y = ce_adapter e →
  sy_status y = ce_status e → at_head L lo e → lo ≤ cs_last_number (ce_status e) → synced L lo e y'.
Proof.
  intros Hrun Hhon Ha Hst Hhead Hlo. pose proof Hhead as (Hs & Hlink & Hb). rewrite <-Ha in Hs.
  assert (Hkeep : ∀ y1 : sync, serves (sy_adapter y1) L ∧ sy_status y1 = ce_status e →
    at_head L lo (carrier e (sy_adapter y1) (sy_status y1))) by (intros y1 [Hs1 ->]; by split_and!).
  assert (Hno : ∀ y1 : sync, serves (sy_adapter y1) L ∧ sy_status y1 = ce_status e → synced L lo e y1).
  { intros y1 Hy1. exists L. split_and!; [by apply Hkeep|done|left; by split; [apply Hy1|]]. }
  unfold receive_remote_block in Hrun. rewrite bind_gets in Hrun. cbn [id] in Hrun.
  destruct (sy_syncing y); [injection Hrun as <-; by apply Hno|].
  apply bind_inv in Hrun as (needed & y1 & Hneed & Hrun).
  apply (preserves_inv _ _ _ _ _ (need_sync_same ctx remote (ce_status e) L)) in Hneed as Hy1; [|done].
  destruct needed; cbn [negb] in Hrun; [|injection Hrun as <-; by apply Hno]. rewrite bind_gets in Hrun. cbn [id] in Hrun.
  destruct (sy_commit_locked y1); [injection Hrun as <-; by apply Hno|].
  destruct (Z.leb_spec remote (cs_last_number (sy_status y1))); [injection Hrun as <-; by apply Hno|].
  rewrite bind_modify in Hrun. apply bind_inv in Hrun as ([] & y2 & Hsync & Hrun).
  apply bind_inv in Hrun as ([] & y3 & Hup & [= <-]).
  apply (start_sync_linked _ _ (set_sy_agent (sy_status y1) y1) _ L lo e) in Hsync as (L' & (Hs2 & Hhead') & Hsub & Hlt & Hk);
    [|done|done|by apply Hkeep|cbn; by rewrite (proj2 Hy1)].
  apply sync_update_engine_ok with (L := L') in Hup as [Hs3 Hst3]; [|exact Hs2].
  exists L'. cbn [sy_adapter sy_status set_sync_status]. rewrite Hst3. split; [by split|split; [done|]].
  right. split; [|done]. cbn in Hlt. by rewrite (proj2 Hy1) in Hlt.
Qed.
End sync_chain.
