(* ===== verification/Replica.v ===== *)
(** * Two replicas of the world state

    Every validator executes the committed transactions on its own databases,
    and the state and receipts roots it computes end up in block headers other
    nodes check.  Here two executor adapters, over different trie databases and
    storages, are related when they show the same world; every operation of
    [core/executor/src] keeps them related and answers the same on both.

    [CanonicalRoots], [EvmReads] and [DeployedCodes] state what this takes of
    the [cita_trie], [evm] and [hasher] crates; [CodeTable] is what it takes of
    the storage. *)

From S2P Require Import Prelude Types Codec Traits Executor ExecRefine Frame.

Local Open Scope Z_scope.

(** ** Runs in lockstep *)
Section lockstep.
Context {S E : Type} (R : S → S → Prop).

(** Two finished runs: the same outcome, and related states after a success. *)
Definition related {A} (r r' : S * outcome E A) : Prop :=
  r.2 = r'.2 ∧ ∀ x, r.2 = Ok x → R r.1 r'.1.

Definition lockstep {A} (op : M S E A) : Prop := ∀ s s', R s s' → related (op s) (op s').

Lemma related_bind {A B} (op op' : M S E A) (k k' : A → M S E B) s s' :
  related (op s) (op' s') → (∀ x t t', R t t' → related (k x t) (k' x t')) →
  related ((op ≫= k) s) ((op' ≫= k') s').
Proof.
  intros [Ho Hr] Hk. unfold mbind, M_bind. destruct (op s) as [t o], (op' s') as [t' o'].
  cbn in Ho, Hr. subst o'. destruct o as [x|e|]; [|by split..]. apply Hk. by eapply Hr.
Qed.

Lemma lockstep_bind {A B} (op : M S E A) (k : A → M S E B) :
  lockstep op → (∀ x, lockstep (k x)) → lockstep (op ≫= k).
Proof. intros Ho Hk s s' Hs. apply related_bind; [by apply Ho|]. intros x t t'. apply Hk. Qed.

Lemma lockstep_ret {A} (x : A) : lockstep (mret x).
Proof. by intros s s' Hs. Qed.
Lemma lockstep_lift {A} (o : outcome E A) : lockstep (lift o).
Proof. by intros s s' Hs. Qed.
Lemma lockstep_throw {A} (e : E) : lockstep (throw e : M S E A).
Proof. by intros s s' Hs. Qed.
Lemma lockstep_gets {A} (f : S → A) : (∀ s s', R s s' → f s = f s') → lockstep (gets f).
Proof. intros Hf s s' Hs. split; [by cbn; rewrite (Hf s s')|done]. Qed.
Lemma lockstep_modify (f : S → S) : (∀ s s', R s s' → R (f s) (f s')) → lockstep (modify f).
Proof. intros Hf s s' Hs. split; [done|]. intros _ _. by apply Hf. Qed.

(** The outcomes of a run of [for_each] and of a conditional. *)
Lemma lockstep_for_each {X} (f : X → M S E unit) l :
  Forall (λ x, lockstep (f x)) l → lockstep (for_each f l).
Proof.
  induction 1 as [|x l Hx Hl IH]; [apply lockstep_ret|]. cbn [for_each]. by apply lockstep_bind.
Qed.
End lockstep.

(** ** What the crates and the storage promise *)
(** The root of a Merkle Patricia trie is the digest of its content, whatever
    the database and however the content came about. *)
Class CanonicalRoots `{!PatriciaTrie} : Prop :=
  root_canonical d t d' t' m d1 t1 r d2 t2 r' :
    pt_view d t = Some m → pt_view d' t' = Some m →
    pt_root d t = (d1, Ok (t1, r)) → pt_root d' t' = (d2, Ok (t2, r')) → r = r'.

(** The codes that are ever deployed: no two share a digest, and none has a
    digest that reads as an address padded to 32 bytes. *)
Class DeployedCodes `{K : Keccak} := {
  deployed : bytes → Prop;
  deployed_inj c c' : deployed c → deployed c' → digest c = digest c' → c = c';
  deployed_hash c : deployed c → 2 ^ 160 ≤ digest c
}.

Definition code_hash_ok (h : Hash) : Prop := 2 ^ 160 ≤ h < 2 ^ 256.

(** [serves_codes s C]: the storage [s] answers a code hash from [C].  The
    column of the codes also maps padded addresses to code hashes, so the
    hashes of [C] are no addresses. *)
Class CodeTable (St : Type) `{!Storage St} := {
  serves_codes : St → gmap Hash bytes → Prop;
  ct_get ctx h s C : serves_codes s C → code_hash_ok h →
    ∃ s', st_get_code_by_hash ctx h s = (s', Ok (C !! h)) ∧ serves_codes s' C;
  ct_insert ctx a h c s C : serves_codes s C → h160_ok a → code_hash_ok h →
    C !! h = None ∨ C !! h = Some c →
    ∃ s', st_insert_code ctx a h c s = (s', Ok tt) ∧ serves_codes s' (<[h := c]> C);
  ct_framed C :: StoreFramed (λ s, serves_codes s C);
  ct_update_latest_proof ctx p C : preserves (λ s, serves_codes s C) (st_update_latest_proof ctx p);
  ct_insert_block ctx b C : preserves (λ s, serves_codes s C) (st_insert_block ctx b)
}.

(** What an [Apply] of the EVM carries: words of the width of their types, and
    deployed code. *)
Definition apply_ok `{DeployedCodes} (v : Apply) : Prop :=
  match v with
  | Modify address b code _ _ =>
      h160_ok address ∧ u256_ok (basic_nonce b) ∧ u256_ok (basic_balance b) ∧
      ∀ c, code = Some c → deployed c
  | Delete address => h160_ok address
  end.

(** The EVM sees the world only through [trait Backend]. *)
Class EvmReads `{R : Rlp} `{K : Keccak} `{!PatriciaTrie} {St : Type} `{!Storage St}
    `{!Evm (AxonExecutorAdapter St)} `{!DeployedCodes} : Prop := {
  transact_reads (a a' : AxonExecutorAdapter St) c :
    exec_ctx a = exec_ctx a' → (∀ x, exists_account a x = exists_account a' x) →
    (∀ x, basic a x = basic a' x) → (∀ x, (code x a).2 = (code x a').2) →
    (∀ x k, storage a x k = storage a' x k) → transact a c = transact a' c;
  transact_ok (a : AxonExecutorAdapter St) c : Forall apply_ok (er_values (transact a c))
}.

(** ** The relation *)
Section agree.
Context `{R : Rlp} `{K : Keccak} `{!PatriciaTrie} {St : Type} `{!Storage St} `{!CodeTable St} `{!DeployedCodes}.
Local Abbreviation adapter := (AxonExecutorAdapter St).
Local Abbreviation codes := (gmap Hash bytes).

Definition codes_ok (C : codes) : Prop := ∀ h c, C !! h = Some c → deployed c ∧ h = digest c.

(** An account both replicas can follow: its storage root opens the same slots
    and its code hash gives the same code. *)
Definition shared_account (db db' : trie_db) (C C' : codes) (acc : Account) : Prop :=
  account_wf acc ∧
  (acc_storage_root acc ≠ RLP_NULL →
     ∃ sm, opens db (acc_storage_root acc) sm ∧ opens db' (acc_storage_root acc) sm) ∧
  (acc_code_hash acc ≠ NIL_DATA →
     code_hash_ok (acc_code_hash acc) ∧ C !! acc_code_hash acc = C' !! acc_code_hash acc).

Definition shared_accounts (db db' : trie_db) (C C' : codes) (m : gmap bytes bytes) : Prop :=
  ∀ k raw, m !! k = Some raw → ∃ acc, account_decode raw = Ok acc ∧ shared_account db db' C C' acc.

(** A state root both replicas open, with the world behind it. *)
Definition shared_root (db db' : trie_db) (C C' : codes) (root : MerkleRoot) : Prop :=
  ∃ m, opens db root m ∧ opens db' root m ∧ shared_accounts db db' C C' m.

(** The two adapters show the same world [m], and have the same committed
    root. *)
Record agree_with (C C' : codes) (m : gmap bytes bytes) (a a' : adapter) : Prop := {
  ag_ctx : exec_ctx a = exec_ctx a';
  ag_root : state_root a = state_root a';
  ag_codes : serves_codes (ea_storage a) C;
  ag_codes' : serves_codes (ea_storage a') C';
  ag_ok : codes_ok C;
  ag_ok' : codes_ok C';
  ag_view : pt_view (ea_db a) (mpt_trie (ea_trie a)) = Some m;
  ag_view' : pt_view (ea_db a') (mpt_trie (ea_trie a')) = Some m;
  ag_accounts : shared_accounts (ea_db a) (ea_db a') C C' m;
  ag_committed : shared_root (ea_db a) (ea_db a') C C' (state_root a)
}.

Definition agree (a a' : adapter) : Prop := ∃ C C' m, agree_with C C' m a a'.

(** A database that still has all that another had. *)
Definition grows (db db1 : trie_db) : Prop :=
  (∀ r m, opens db r m → opens db1 r m) ∧ (∀ t m, pt_view db t = Some m → pt_view db1 t = Some m).

Lemma grows_refl db : grows db db.
Proof. done. Qed.

(** The codes two replicas share stay shared when both store one more. *)
Definition codes_grow (C C' C1 C1' : codes) : Prop :=
  ∀ h, C !! h = C' !! h → C1 !! h = C1' !! h.

Lemma codes_grow_insert C C' h c : codes_grow C C' (<[h := c]> C) (<[h := c]> C').
Proof. intros h0 E. rewrite !lookup_insert. by case_decide. Qed.

Lemma shared_account_grows db db' C C' db1 db1' C1 C1' acc :
  grows db db1 → grows db' db1' → codes_grow C C' C1 C1' →
  shared_account db db' C C' acc → shared_account db1 db1' C1 C1' acc.
Proof.
  intros [Hg _] [Hg' _] Hc (Hwf & Hs & Hh). split; [done|]. split.
  - intros Hne. destruct (Hs Hne) as (sm & ? & ?). exists sm. auto.
  - intros Hne. destruct (Hh Hne) as [? E]. auto.
Qed.

Lemma shared_accounts_grows db db' C C' db1 db1' C1 C1' m :
  grows db db1 → grows db' db1' → codes_grow C C' C1 C1' →
  shared_accounts db db' C C' m → shared_accounts db1 db1' C1 C1' m.
Proof.
  intros Hg Hg' Hc Hm k raw Hk. destruct (Hm k raw Hk) as (acc & Hd & Hacc).
  exists acc. split; [done|]. by eapply shared_account_grows.
Qed.

Lemma shared_root_grows db db' C C' db1 db1' C1 C1' root :
  grows db db1 → grows db' db1' → codes_grow C C' C1 C1' →
  shared_root db db' C C' root → shared_root db1 db1' C1 C1' root.
Proof.
  intros Hg Hg' Hc (m & Ho & Ho' & Hm). exists m.
  split; [by apply Hg|]. split; [by apply Hg'|]. by eapply shared_accounts_grows.
Qed.

Lemma shared_accounts_insert db db' C C' m k acc :
  shared_accounts db db' C C' m → shared_account db db' C C' acc →
  shared_accounts db db' C C' (<[k := encode c_account acc]> m).
Proof.
  intros Hm Ha k0 raw. rewrite lookup_insert. case_decide; [|apply Hm]. intros [= <-].
  exists acc. split; [|done]. apply account_decode_encode, Ha.
Qed.

Lemma shared_accounts_delete db db' C C' m k :
  shared_accounts db db' C C' m → shared_accounts db db' C C' (delete k m).
Proof. intros Hm k0 raw E. apply (Hm k0). by apply lookup_delete_Some in E as [_ E]. Qed.

(** ** Reads *)
Section reads.
Context (a a' : adapter) (Ha : agree a a').

Lemma agree_get k : ∃ o, MPTTrie_get (ea_db a) (ea_trie a) k = Ok o ∧ MPTTrie_get (ea_db a') (ea_trie a') k = Ok o.
Proof.
  destruct Ha as (C & C' & m & [Hx Hr Hs Hs' Hk Hk' Hv Hv' Hm Hc]). exists (m !! k). unfold MPTTrie_get.
  by rewrite (pt_get_view _ _ _ k Hv), (pt_get_view _ _ _ k Hv').
Qed.

Lemma agree_exists x : exists_account a x = exists_account a' x.
Proof.
  destruct Ha as (C & C' & m & [Hx Hr Hs Hs' Hk Hk' Hv Hv' Hm Hc]). unfold exists_account, MPTTrie_contains.
  by rewrite (pt_contains_view _ _ _ _ Hv), (pt_contains_view _ _ _ _ Hv').
Qed.

Lemma agree_basic x : basic a x = basic a' x.
Proof. unfold basic. by destruct (agree_get (address_bytes x)) as (o & -> & ->). Qed.

Lemma agree_adapter_get k : adapter_get a k = adapter_get a' k.
Proof. unfold adapter_get. by destruct (agree_get k) as (o & -> & ->). Qed.

(** An account read on both sides is one both can follow. *)
Lemma agree_account x raw :
  MPTTrie_get (ea_db a) (ea_trie a) (address_bytes x) = Ok (Some raw) →
  ∃ C C' acc, serves_codes (ea_storage a) C ∧ serves_codes (ea_storage a') C' ∧
    account_decode raw = Ok acc ∧ shared_account (ea_db a) (ea_db a') C C' acc.
Proof.
  destruct Ha as (C & C' & m & [Hx Hr Hs Hs' Hk Hk' Hv Hv' Hm Hc]). unfold MPTTrie_get.
  rewrite (pt_get_view _ _ _ _ Hv). intros [= E]. destruct (Hm _ _ E) as (acc & Hd & Hacc). by exists C, C', acc.
Qed.

Lemma agree_code x : (code x a).2 = (code x a').2.
Proof.
  unfold code. destruct (agree_get (address_bytes x)) as ([raw|] & E & ->); rewrite E; [|done].
  destruct (agree_account x raw E) as (C & C' & acc & Hs & Hs' & Hd & _ & _ & Hc). cbn [expect]. rewrite Hd.
  cbn [expect]. destruct (Z.eqb_spec (acc_code_hash acc) NIL_DATA) as [|Hne]; [done|].
  destruct (Hc Hne) as [Hh Hcc]. destruct (ct_get ∅ _ _ _ Hs Hh) as (s & -> & _).
  destruct (ct_get ∅ _ _ _ Hs' Hh) as (s' & -> & _). cbn. by rewrite Hcc.
Qed.

Lemma agree_storage x k : storage a x k = storage a' x k.
Proof.
  unfold storage. destruct (agree_get (address_bytes x)) as ([raw|] & E & ->); rewrite E; [|done].
  destruct (agree_account x raw E) as (C & C' & acc & _ & _ & Hd & _ & Hst & _). rewrite Hd.
  destruct (Z.eqb_spec (acc_storage_root acc) RLP_NULL) as [|Hne]; [done|].
  destruct (Hst Hne) as (sm & (t & Ht & Hv) & (t' & Ht' & Hv')). unfold MPTTrie_from_root, MPTTrie_get.
  rewrite Ht, Ht'. cbn [map_err mbind outcome_bind mpt_trie].
  by rewrite (pt_get_view _ _ _ _ Hv), (pt_get_view _ _ _ _ Hv').
Qed.
End reads.

(** ** Writes *)
Context `{!CanonicalRoots}.

Lemma commit_both db t db' t' m :
  pt_view db (mpt_trie t) = Some m → pt_view db' (mpt_trie t') = Some m →
  ∃ db1 t1 db1' t1' root,
    MPTTrie_commit db t = (db1, t1, Ok root) ∧ MPTTrie_commit db' t' = (db1', t1', Ok root) ∧
    (mpt_root t1 = root ∧ mpt_root t1' = root) ∧
    (pt_view db1 (mpt_trie t1) = Some m ∧ pt_view db1' (mpt_trie t1') = Some m) ∧
    (opens db1 root m ∧ opens db1' root m) ∧ grows db db1 ∧ grows db' db1'.
Proof.
  intros Hv Hv'.
  destruct (pt_root_view db _ m Hv) as (d1 & t1 & r & Hr & Hv1 & Ho & _ & Hm & Hk).
  destruct (pt_root_view db' _ m Hv') as (d1' & t1' & r' & Hr' & Hv1' & Ho' & _ & Hm' & Hk').
  assert (r' = r) as -> by (symmetry; exact (root_canonical _ _ _ _ m _ _ _ _ _ _ Hv Hv' Hr Hr')).
  exists d1, (mkMPT r t1), d1', (mkMPT r t1'), r. unfold MPTTrie_commit. rewrite Hr, Hr'.
  do 5 (split; [done|]). split; (split; [|done]); intros r0 m0 (t0 & Ht0 & Hv0); [by eapply Hm|by eapply Hm'].
Qed.

(** What a list of slot writes makes of a storage trie. *)
Definition write_slots (kvs : list (H256 * H256)) (sm : gmap bytes bytes) : gmap bytes bytes :=
  fold_left (λ sm kv, <[to_be_bytes 32 kv.1 := to_be_bytes 32 kv.2]> sm) kvs sm.

Lemma insert_slots_content db kvs : ∀ t sm, pt_view db (mpt_trie t) = Some sm →
  pt_view db (mpt_trie (insert_slots db t kvs)) = Some (write_slots kvs sm).
Proof.
  unfold insert_slots, write_slots. induction kvs as [|[k v] kvs IH]; intros t sm Hv; cbn [fold_left fst snd]; [done|].
  destruct (pt_insert_view db (mpt_trie t) sm (to_be_bytes 32 k) (to_be_bytes 32 v) Hv) as (t' & Ht & Hv2); [done|].
  unfold MPTTrie_insert at 2. rewrite Ht. by apply (IH (mkMPT (mpt_root t) t')).
Qed.

(** The storage of both grows under an unchanged world. *)
Lemma agree_grows C C' C1 C1' m a a' db db' s s' :
  agree_with C C' m a a' → grows (ea_db a) db → grows (ea_db a') db' → codes_grow C C' C1 C1' →
  serves_codes s C1 → serves_codes s' C1' → codes_ok C1 → codes_ok C1' →
  agree_with C1 C1' m (mkExecAdapter (exec_ctx a) (ea_trie a) s db) (mkExecAdapter (exec_ctx a') (ea_trie a') s' db').
Proof.
  intros [Hx Hr _ _ _ _ Hv Hv' Hm Hcm] Hg Hg' Hc Hs Hs' Hok Hok'. split; cbn [exec_ctx ea_trie ea_storage ea_db]; try done.
  - by apply Hg.
  - by apply Hg'.
  - by eapply shared_accounts_grows.
  - by eapply shared_root_grows.
Qed.

(** A content both replicas committed. *)
Lemma agree_committed C C' m m1 a a' db t db' t' root :
  agree_with C C' m a a' → grows (ea_db a) db → grows (ea_db a') db' →
  mpt_root t = root ∧ mpt_root t' = root →
  pt_view db (mpt_trie t) = Some m1 ∧ pt_view db' (mpt_trie t') = Some m1 →
  opens db root m1 ∧ opens db' root m1 → shared_accounts db db' C C' m1 →
  agree (set_ea_trie a db t) (set_ea_trie a' db' t').
Proof.
  intros [Hx _ Hs Hs' Hk Hk' _ _ _ _] Hg Hg' [Hr Hr'] [Hv Hv'] [Ho Ho'] Hm. exists C, C', m1.
  split; unfold state_root; cbn [set_ea_trie exec_ctx ea_trie ea_storage ea_db]; try done; [congruence|].
  rewrite Hr. by exists m1.
Qed.

Lemma put_account_agree C C' m x acc a a' :
  agree_with C C' m a a' → shared_account (ea_db a) (ea_db a') C C' acc →
  related agree (put_account x acc a) (put_account x acc a').
Proof.
  intros Ha Hacc. pose proof (ag_view _ _ _ _ _ Ha) as Hv. pose proof (ag_view' _ _ _ _ _ Ha) as Hv'.
  unfold put_account, MPTTrie_insert.
  assert (encode c_account acc ≠ []) as Hne by apply rlp_out_non_empty.
  destruct (pt_insert_view _ _ _ (address_bytes x) _ Hv Hne) as (t & -> & Ht).
  destruct (pt_insert_view _ _ _ (address_bytes x) _ Hv' Hne) as (t' & -> & Ht').
  cbn [map_err mbind outcome_bind expect].
  destruct (commit_both (ea_db a) (mkMPT (mpt_root (ea_trie a)) t) (ea_db a') (mkMPT (mpt_root (ea_trie a')) t') _ Ht Ht')
    as (db1 & t1 & db1' & t1' & root & -> & -> & Hr & Hv1 & Ho & Hg & Hg').
  split; [done|]. intros _ _. eapply agree_committed; [done..|].
  apply (shared_accounts_grows (ea_db a) (ea_db a') C C'); [done|done|by intros h|].
  apply shared_accounts_insert; [by destruct Ha|done].
Qed.

(** Taking a key out of the tries, not yet committed. *)
Lemma remove_both C C' m k a a' :
  agree_with C C' m a a' →
  ∃ t t' (o : ProtocolResult unit),
    MPTTrie_remove (ea_db a) (ea_trie a) k = (t, o) ∧ MPTTrie_remove (ea_db a') (ea_trie a') k = (t', o) ∧
    mpt_root t = mpt_root (ea_trie a) ∧ mpt_root t' = mpt_root (ea_trie a') ∧
    pt_view (ea_db a) (mpt_trie t) = Some (delete k m) ∧ pt_view (ea_db a') (mpt_trie t') = Some (delete k m).
Proof.
  intros [_ _ _ _ _ _ Hv Hv' _ _].
  destruct (pt_remove_view _ _ _ k Hv) as (t & Ht & Hd). destruct (pt_remove_view _ _ _ k Hv') as (t' & Ht' & Hd').
  unfold MPTTrie_remove. rewrite Ht, Ht'. destruct (bool_decide _); do 3 eexists; by split_and!.
Qed.

Lemma remove_account_agree x : lockstep agree (remove_account x : M adapter ProtocolError unit).
Proof.
  intros a a' (C & C' & m & Ha). destruct (remove_both _ _ _ (address_bytes x) _ _ Ha)
    as (t & t' & o & Ht & Ht' & _ & _ & Hv & Hv'). unfold remove_account. rewrite Ht, Ht'.
  destruct o as [[]|e|]; [|by split..].
  destruct (commit_both _ _ _ _ _ Hv Hv') as (db1 & t1 & db1' & t1' & root & -> & -> & Hr & Hv1 & Ho1 & Hg & Hg').
  split; [done|]. intros _ _. eapply agree_committed; [done..|].
  apply (shared_accounts_grows (ea_db a) (ea_db a') C C'); [done|done|by intros h|].
  apply shared_accounts_delete. by destruct Ha.
Qed.

(** [Apply::Delete]: the key is gone from the open tries and the committed root
    is the old one. *)
Lemma delete_agree del x : lockstep agree (apply_value (St := St) del (Delete x)).
Proof.
  intros a a' (C & C' & m & Ha). destruct (remove_both _ _ _ (address_bytes x) _ _ Ha)
    as (t & t' & o & Ht & Ht' & Hr & Hr' & Hv & Hv'). cbn [apply_value]. rewrite Ht, Ht'.
  assert (agree (set_ea_trie a (ea_db a) t) (set_ea_trie a' (ea_db a') t')).
  { destruct Ha as [Hx Hroot Hs Hs' Hk Hk' _ _ Hm Hc]. unfold state_root in *. exists C, C', (delete (address_bytes x) m).
    split; unfold state_root; cbn [set_ea_trie exec_ctx ea_trie ea_storage ea_db]; rewrite ?Hr, ?Hr'; try done.
    by apply shared_accounts_delete. }
  destruct o; by split.
Qed.

Lemma old_account_agree C C' m x a a' :
  agree_with C C' m a a' →
  ∃ acc, old_account_of a x = Ok acc ∧ old_account_of a' x = Ok acc ∧
    shared_account (ea_db a) (ea_db a') C C' acc.
Proof.
  intros [_ _ _ _ _ _ Hv Hv' Hm _]. unfold old_account_of, MPTTrie_get.
  rewrite (pt_get_view _ _ _ _ Hv), (pt_get_view _ _ _ _ Hv'). cbn [map_err].
  destruct (m !! address_bytes x) as [raw|] eqn:E; [|by exists empty_account].
  destruct (Hm _ _ E) as (acc & Hd & Hacc). exists acc. by rewrite Hd.
Qed.

Lemma open_storage_agree C C' acc reset (a a' : adapter) :
  shared_account (ea_db a) (ea_db a') C C' acc →
  ∃ t t' sm, open_storage a acc reset = Ok t ∧ open_storage a' acc reset = Ok t' ∧
    pt_view (ea_db a) (mpt_trie t) = Some sm ∧ pt_view (ea_db a') (mpt_trie t') = Some sm.
Proof.
  intros (_ & Hst & _). unfold open_storage.
  destruct (Z.eqb_spec (if reset then RLP_NULL else acc_storage_root acc) RLP_NULL) as [|Hne].
  { exists MPTTrie_new, MPTTrie_new, ∅. split_and!; try done; apply pt_view_new. }
  destruct reset; [done|]. destruct (Hst Hne) as (sm & (t & Ht & Hv) & (t' & Ht' & Hv')).
  exists (mkMPT (acc_storage_root acc) t), (mkMPT (acc_storage_root acc) t'), sm.
  unfold MPTTrie_from_root. by rewrite Ht, Ht'.
Qed.

Lemma codes_ok_insert C c : codes_ok C → deployed c →
  codes_ok (<[digest c := c]> C) ∧ (C !! digest c = None ∨ C !! digest c = Some c).
Proof.
  intros Hok Hc. split.
  - intros h c0. rewrite lookup_insert. case_decide; [|apply Hok]. by intros [= <-].
  - destruct (C !! digest c) as [c0|] eqn:E; [right|by left]. destruct (Hok _ _ E) as [? ?].
    f_equal. by apply deployed_inj.
Qed.

(** Storing a code in both: the hash it leaves gives the same code in both. *)
Lemma store_code_agree C C' m x old code a a' :
  agree_with C C' m a a' → h160_ok x → (∀ c, code = Some c → deployed c) → h256_ok old →
  (old ≠ NIL_DATA → code_hash_ok old ∧ C !! old = C' !! old) →
  ∃ a1 a1' C1 C1' h, store_code x old code a = (a1, Ok h) ∧ store_code x old code a' = (a1', Ok h) ∧
    (ea_db a1 = ea_db a ∧ ea_db a1' = ea_db a') ∧ agree_with C1 C1' m a1 a1' ∧ h256_ok h ∧
    (h ≠ NIL_DATA → code_hash_ok h ∧ C1 !! h = C1' !! h).
Proof.
  intros Ha Hx Hd Hold Hh. unfold store_code. destruct code as [c|]; [|by do 5 eexists].
  destruct (Z.eqb_spec (digest c) old) as [|Hne]; [by do 5 eexists|].
  specialize (Hd c eq_refl). pose proof (digest_range c) as Hrange. pose proof (deployed_hash c Hd) as Hlow.
  assert (code_hash_ok (digest c)) as Hok by (unfold code_hash_ok, h256_ok, in_width in *; lia).
  pose proof Ha as [_ _ Hs Hs' Hk Hk' _ _ _ _].
  destruct (codes_ok_insert C c Hk Hd) as [Hk1 Hfree]. destruct (codes_ok_insert C' c Hk' Hd) as [Hk1' Hfree'].
  destruct (ct_insert ∅ x _ c _ _ Hs Hx Hok Hfree) as (s & -> & Hs1).
  destruct (ct_insert ∅ x _ c _ _ Hs' Hx Hok Hfree') as (s' & -> & Hs1').
  do 2 eexists. exists (<[digest c := c]> C), (<[digest c := c]> C'), (digest c).
  split; [done|]. split; [done|]. split; [done|]. split; [|split; [done|]].
  - apply (agree_grows C C'); [done|done|done|apply codes_grow_insert|done..].
  - intros _. split; [done|]. by rewrite !lookup_insert_eq.
Qed.

Lemma apply_account_agree x b code slots reset :
  h160_ok x → u256_ok (basic_nonce b) → u256_ok (basic_balance b) → (∀ c, code = Some c → deployed c) →
  lockstep agree (apply_account (St := St) x b code slots reset).
Proof.
  intros Hx Hn Hb Hd a a' (C & C' & m & Ha). unfold apply_account. msteps. unfold id.
  destruct (old_account_agree C C' m x a a' Ha) as (old & -> & -> & Hold). msteps.
  destruct (open_storage_agree C C' old reset a a' Hold) as (t & t' & sm & -> & -> & Hv & Hv'). msteps.
  apply (insert_slots_content _ slots) in Hv. apply (insert_slots_content _ slots) in Hv'.
  destruct (commit_both _ _ _ _ _ Hv Hv') as (db1 & t1 & db1' & t1' & root & -> & -> & _ & _ & Ho & Hg & Hg'). msteps.
  assert (agree_with C C' m (set_ea_trie a db1 (ea_trie a)) (set_ea_trie a' db1' (ea_trie a'))) as Ha1.
  { apply (agree_grows C C'); [done|done|done|by intros h|by destruct Ha..]. }
  destruct Hold as ((_ & _ & Hch) & _ & Hcc).
  destruct (store_code_agree C C' m x (acc_code_hash old) code _ _ Ha1 Hx Hd Hch Hcc)
    as (a2 & a2' & C1 & C1' & h & Hs & Hs' & [Edb Edb'] & Ha2 & Hh & Hch2). mrun Hs. mrun Hs'.
  apply related_bind; [|by intros; split]. eapply put_account_agree; [exact Ha2|].
  split; [done|]. split; [|done]. intros _. rewrite Edb, Edb'. by exists (write_slots slots sm).
Qed.

Lemma backend_apply_agree values logs del :
  Forall apply_ok values → lockstep agree (backend_apply (St := St) values logs del).
Proof.
  intros Hv. apply lockstep_bind.
  - apply lockstep_for_each. eapply Forall_impl; [exact Hv|].
    intros [x b code slots reset|x] Hok; [|apply delete_agree]. cbn [apply_value].
    destruct Hok as (Hx & Hn & Hb & Hd). apply lockstep_bind; [by apply apply_account_agree|].
    intros e. destruct (_ && _)%bool; [apply remove_account_agree|apply lockstep_ret].
  - intros []. apply lockstep_modify. intros a a' (C & C' & m & [Hx Hr Hs Hs' Hk Hk' Hvw Hvw' Hm Hc]).
    exists C, C', m. split; try done. cbn. unfold set_logs. by rewrite Hx.
Qed.

Lemma agree_basic_ok a a' x : agree a a' → u256_ok (basic_balance (basic a x)) ∧ u256_ok (basic_nonce (basic a x)).
Proof.
  intros Ha. unfold basic. destruct (agree_get a a' Ha (address_bytes x)) as ([raw|] & E & _); rewrite E; [|done].
  by destruct (agree_account a a' Ha x raw E) as (C & C' & acc & _ & _ & -> & (? & ? & ?) & _).
Qed.

(** The value of a transaction is a [U256]. *)
Definition value_ok (tx : SignedTransaction) : Prop := u256_ok (tx_value (utx_unsigned (stx_transaction tx))).

Lemma call_native_token_agree tx : value_ok tx → lockstep agree (call_native_token (B := adapter) tx).
Proof.
  intros Hval a a' Ha. unfold call_native_token. cbv zeta.
  destruct (tx_data _) as [|dir rest]; [by apply lockstep_lift|].
  destruct (Nat.ltb_spec (length (dir :: rest)) 21); [by apply lockstep_lift|].
  destruct (1 <? _); [by apply lockstep_lift|]. cbn [orb]. msteps. cbn [be_basic exec_backend].
  set (x := from_be_bytes (take 20 rest)). rewrite <-(agree_basic a a' Ha x).
  destruct (agree_basic_ok a a' x Ha) as [Hb Hn]. destruct (basic a x) as [balance nonce].
  cbn [basic_balance basic_nonce] in *. destruct (_ && _)%bool eqn:Eb; [by apply lockstep_lift|].
  unfold value_ok, in_width in Hval, Hb, Hn. set (v := tx_value _) in *.
  set (o := if Z_of_byte dir =? 0 then _ else _).
  assert (∀ b, o = Ok b → u256_ok b) as Ho.
  { intros b. subst o. unfold u256_add, u256_sub, in_width. destruct (_ =? 0).
    - destruct (Z.ltb_spec (balance + v) (2 ^ 256)); [intros [= <-]; lia|done].
    - destruct (Z.leb_spec v balance); [intros [= <-]; lia|done]. }
  destruct o as [b|e|]; [|by split..]. specialize (Ho b eq_refl). msteps.
  unfold u256_add at 1 2. destruct (Z.ltb_spec (nonce + 1) (2 ^ 256)); [|by split]. msteps.
  apply related_bind; [|intros x0 t t' Ht; apply related_bind; [by apply lockstep_lift|intros; by apply lockstep_ret]].
  apply backend_apply_agree; [|done]. constructor; [|done]. split_and!; try done; [|unfold in_width; cbn; lia].
  apply token_address. cbn in *. lia.
Qed.
End agree.

(** ** The executor *)
Section exec_agree.
Context `{R : Rlp} `{K : Keccak} `{!StaticMerkleTree} `{!PatriciaTrie} `{!CanonicalRoots} {St : Type} `{!Storage St}
  `{!CodeTable St} `{!DeployedCodes} `{!Evm (AxonExecutorAdapter St)} `{!EvmReads}.
Local Abbreviation adapter := (AxonExecutorAdapter St).

Lemma transact_agree (a a' : adapter) c : agree a a' → transact a c = transact a' c.
Proof.
  intros Ha. apply transact_reads; [by destruct Ha as (C & C' & m & [])|..]; intros.
  - by apply agree_exists.
  - by apply agree_basic.
  - by apply agree_code.
  - by apply agree_storage.
Qed.

Lemma evm_inner_exec_agree tx : lockstep agree (evm_inner_exec (St := St) tx).
Proof.
  intros a a' Ha. unfold evm_inner_exec. msteps. unfold id. rewrite <-(agree_basic a a' Ha).
  apply related_bind; [by apply lockstep_lift|]. intros g t t' Ht. cbv zeta. rewrite <-(transact_agree a a') by done.
  apply related_bind; [|intros; by apply lockstep_ret].
  destruct (is_succeed _); [|by apply lockstep_ret].
  apply related_bind; [apply backend_apply_agree; [apply transact_ok|done]|intros; by apply lockstep_ret].
Qed.

Lemma agree_ctx (f : ExecutorContext → ExecutorContext) (a a' : adapter) : agree a a' →
  agree (mkExecAdapter (f (exec_ctx a)) (ea_trie a) (ea_storage a) (ea_db a))
        (mkExecAdapter (f (exec_ctx a')) (ea_trie a') (ea_storage a') (ea_db a')).
Proof.
  intros (C & C' & m & [Hx Hr Hs Hs' Hk Hk' Hv Hv' Hm Hc]). exists C, C', m. split; try done. cbn. by rewrite Hx.
Qed.

Lemma get_logs_agree : lockstep agree (get_logs (St := St)).
Proof.
  intros a a' Ha. split.
  - destruct Ha as (C & C' & m & [Hx]). cbn. by rewrite Hx.
  - intros _ _. apply (agree_ctx (λ c, mkExecutorContext (ec_block_number c) (ec_block_hash c) (ec_block_coinbase c)
      (ec_block_timestamp c) (ec_chain_id c) (ec_difficulty c) (ec_origin c) (ec_gas_price c)
      (ec_block_gas_limit c) (ec_block_base_fee_per_gas c) [])). done.
Qed.

Lemma exec_one_agree tx : value_ok tx → lockstep agree (exec_one (St := St) tx).
Proof.
  intros Hv. unfold exec_one. apply lockstep_bind.
  - apply lockstep_modify. intros a a' Ha. apply (agree_ctx (λ c, mkExecutorContext (ec_block_number c) (ec_block_hash c)
      (ec_block_coinbase c) (ec_block_timestamp c) (ec_chain_id c) (ec_difficulty c) (ec_origin c) (stx_gas_price tx)
      (ec_block_gas_limit c) (ec_block_base_fee_per_gas c) (ec_logs c))). done.
  - intros []. apply lockstep_bind.
    + destruct (is_call_system_script _); [|apply evm_inner_exec_agree].
      unfold sys_inner_exec. apply lockstep_bind; [apply lockstep_lift|]. intros []. by apply call_native_token_agree.
    + intros r. apply lockstep_bind; [apply get_logs_agree|intros; apply lockstep_ret].
Qed.

Lemma exec_agree txs : Forall value_ok txs → lockstep agree (exec (St := St) txs).
Proof.
  intros Htx. apply lockstep_bind.
  - generalize ([] : list TxResp) 0. induction Htx as [|tx txs Hv Htx IH]; intros res gas; cbn [exec_loop]; [apply lockstep_ret|].
    apply lockstep_bind; [by apply exec_one_agree|]. intros r. apply lockstep_bind; [apply lockstep_lift|]. intros g. apply IH.
  - intros [res gas]. apply lockstep_bind; [|intros; apply lockstep_ret].
    apply lockstep_gets. by intros a a' (C & C' & m & []).
Qed.
End exec_agree.
