(* ===== verification/Tables.v ===== *)
(** * The codes and transactions a storage serves

    [ImplStorage] of [core/storage/src/lib.rs] implements the interface
    [CodeTable] of [Replica.v]: a code that was inserted is read back, through
    the cache or past it, and no other call of the storage touches the codes.
    The interface [TxTable] says what a storage answers about one transaction
    hash, before the transaction is committed and after; [ImplStorage]
    implements it through the caches of transactions and receipts and past
    them. *)

From S2P Require Import Prelude Types Codec Traits Executor Storage StorageLaws StorageProps.
From S2P Require Import Frame BlockTable Replica.
From S2P Require Import StorageTxProps.

Local Open Scope Z_scope.

Section impl.
Context `{R : Rlp} `{K : Keccak} `{!LruCrate} {Db : Type} `{!StorageAdapter Db} `{!StoreLaws Db} `{!StoreFrame Db}.
Local Abbreviation storage := (ImplStorage Db).

(** The column of the codes and the cache hold the codes of [C] under their
    hashes. *)
Record code_table (s : storage) (C : gmap Hash bytes) : Prop := {
  cd_stored h : code_hash_ok h → sa_view (is_adapter s) SC_Code !! encode c_h256 h = encode c_bytes <$> C !! h;
  cd_cached h c : code_hash_ok h → lru_view (co_get codes (is_cache s)) !! h = Some c → C !! h = Some c
}.

Lemma code_hash_wide h : code_hash_ok h → h256_ok h.
Proof. unfold code_hash_ok, in_width. lia. Qed.


Lemma code_table_frame C (s s' : storage) : code_table s C →
  sa_view (is_adapter s') SC_Code = sa_view (is_adapter s) SC_Code →
  lru_view (co_get codes (is_cache s')) = lru_view (co_get codes (is_cache s)) → code_table s' C.
Proof. intros [T1 T2] E1 E2. split; intros h; rewrite ?E1, ?E2; auto. Qed.

(** ** What leaves the codes alone *)
Inductive other : ∀ {V : Type}, cache_of V → Prop :=
| o_blocks : other blocks
| o_numbers : other block_numbers
| o_headers : other headers
| o_transactions : other transactions
| o_receipts : other receipts.

Local Abbreviation coded C := (λ s : storage, code_table s C).

Lemma on_db_coded {X} (m : M Db ProtocolError X) C :
  (∀ db, sa_view (m db).1 SC_Code = sa_view db SC_Code) → preserves (coded C) (on_db m).
Proof.
  intros Hm s Hs. unfold on_db, zoom. pose proof (Hm (is_adapter s)) as Hv. destruct (m (is_adapter s)) as [db o].
  by apply (code_table_frame C s).
Qed.
Lemma get_coded {Key V} (sch : StorageSchema Key V) k C : preserves (coded C) (on_db (sa_get sch k)).
Proof. apply on_db_coded. intros. apply frame_get. Qed.
Lemma iter_coded {Key V} (sch : StorageSchema Key V) p C : preserves (coded C) (on_db (sa_iter sch p)).
Proof. apply on_db_coded. intros. apply frame_iter. Qed.
Lemma insert_coded {Key V} (sch : StorageSchema Key V) k v C :
  SC_Code ≠ category sch → preserves (coded C) (on_db (sa_insert sch k v)).
Proof. intros Hs. apply on_db_coded. intros db. by apply frame_insert. Qed.
Lemma batch_coded {Key V} (sch : StorageSchema Key V) ks vs C :
  SC_Code ≠ category sch → preserves (coded C) (on_db (sa_batch_modify sch ks vs)).
Proof. intros Hs. apply on_db_coded. intros db. by apply frame_batch. Qed.
Lemma cache_get_coded {V} (c : cache_of V) k C : other c → preserves (coded C) (cache_get c k).
Proof.
  intros Hc s Hs. unfold cache_get. destruct (lru_get k _) as [l r]. apply (code_table_frame C s); try done; by destruct Hc.
Qed.
Lemma cache_put_coded {V} (c : cache_of V) k v C : other c → preserves (coded C) (cache_put c k v).
Proof.
  intros Hc s Hs. unfold cache_put. destruct v as [v|]; [|done]. apply (code_table_frame C s); try done; by destruct Hc.
Qed.
Hint Resolve get_coded iter_coded insert_coded batch_coded cache_get_coded cache_put_coded : axon.
Hint Constructors other : axon.
Hint Extern 1 (SC_Code ≠ _) => done : axon.

#[export] Instance codes_framed C : StoreFramed (coded C).
Proof.
  split; [split|..]; intros;
    cbn [impl_storage st_get_transactions st_get_transaction_by_hash st_get_latest_block st_get_latest_block_header
         st_get_block st_get_block_header st_insert_transactions st_insert_receipts].
  - unfold get_transactions, get_many. keep.
  - unfold get_transaction_by_hash, get_cache, get_into. keep.
  - unfold get_latest_block, ensure_get. keep.
  - unfold get_latest_block_header, ensure_get. keep.
  - unfold get_block, get_cache, get_into. keep.
  - unfold get_block_header, get_block, get_cache, get_into. keep.
  - unfold insert_transactions, batch_insert_stxs. keep.
  - unfold insert_receipts, batch_insert_receipts. keep.
Qed.

Lemma insert_block_coded ctx b C : preserves (coded C) (insert_block ctx b).
Proof. unfold insert_block, set_block, set_latest_block. keep. apply preserves_modify. intros s Hs. by apply (code_table_frame C s). Qed.
Lemma update_proof_coded ctx p C : preserves (coded C) (update_latest_proof ctx p).
Proof. unfold update_latest_proof. keep. apply preserves_modify. intros s Hs. by apply (code_table_frame C s). Qed.

(** ** Reading and writing a code *)
Lemma get_code_run ctx h (s : storage) C : code_table s C → code_hash_ok h →
  ∃ s', get_code_by_hash ctx h s = (s', Ok (C !! h)) ∧ code_table s' C.
Proof.
  intros Hs Hh. unfold get_code_by_hash, get_cache.
  destruct (lru_get_view _ h (co_get codes (is_cache s))) as (l & El & Hl).
  set (s1 := mkStorage (is_adapter s) (co_set codes l (is_cache s)) (latest_block s) (latest_proof s)).
  assert (Hs1 : code_table s1 C) by (by apply (code_table_frame C s)).
  rewrite (bind_ok _ _ s s1 (lru_view (co_get codes (is_cache s)) !! h)) by (unfold cache_get; by rewrite El).
  destruct (lru_view (co_get codes (is_cache s)) !! h) as [c|] eqn:E.
  { exists s1. by rewrite (cd_cached s C Hs h c Hh E). }
  destruct (on_db_get EvmCodeSchema h (encode c_h256 h) s1 eq_refl) as (s2 & E2 & Hsame & _ & Hch).
  assert (Hs2 : code_table s2 C) by (apply (code_table_frame C s1); [done|apply Hsame|by rewrite Hch]).
  assert (Hget : db_get s1 EvmCodeSchema h = Ok (C !! h)).
  { unfold db_get. cbn [EvmCodeSchema key_codec val_codec category pc_encode hash_pcodec rlp_pcodec mbind outcome_bind].
    rewrite (cd_stored s1 C Hs1 h Hh). destruct (C !! h) as [c|]; [|done]. cbn [fmap option_fmap option_map].
    by rewrite (rlp_pcodec_ok _ c_bytes c c_bytes_ok I). }
  unfold get_into. rewrite Hget in E2. mrun E2. destruct (C !! h) as [c|] eqn:Ec; [|by exists s2].
  eexists. split; [done|]. split; [apply Hs2|]. intros h' c' Hh'. cbn. intros Hv.
  pose proof (lookup_weaken _ _ _ _ Hv (lru_put_view _ h c _)) as Hw.
  rewrite lookup_insert in Hw. case_decide as Ek; [subst h'; congruence|]. by apply (cd_cached s2 C Hs2).
Qed.

Lemma insert_code_run ctx a h c (s : storage) C : code_table s C → h160_ok a → code_hash_ok h →
  C !! h = None ∨ C !! h = Some c →
  ∃ s', insert_code ctx a h c s = (s', Ok tt) ∧ code_table s' (<[h := c]> C).
Proof.
  intros Hs Ha Hh Hfree. unfold insert_code.
  destruct (on_db_insert EvmCodeSchema h c (encode c_h256 h) (encode c_bytes c) s eq_refl eq_refl) as (s1 & E1 & (Hc1 & _ & _) & Hv1).
  destruct (on_db_insert EvmCodeAddressSchema a h (encode c_h256 a) (encode c_h256 h) s1 eq_refl eq_refl)
    as (s2 & E2 & (Hc2 & _ & _) & Hv2).
  exists s2. mrun E1. split; [exact E2|]. split.
  - intros k Hk. rewrite Hv2, Hv1. cbn [category EvmCodeSchema EvmCodeAddressSchema]. rewrite !decide_True by done.
    rewrite lookup_insert_ne; [|].
    + rewrite !lookup_insert. destruct (decide (h = k)) as [->|Hne]; [by rewrite !decide_True by done|].
      assert (encode c_h256 h ≠ encode c_h256 k) by (intros E%encode_h256_inj; [done|by apply code_hash_wide..]).
      rewrite !decide_False by done. by apply Hs.
    + intros E%encode_h256_inj; [|unfold in_width in *; lia|by apply code_hash_wide].
      unfold code_hash_ok, in_width in *. lia.
  - intros k c0 Hk. rewrite Hc2, Hc1. intros E%(cd_cached s C Hs k c0 Hk). rewrite lookup_insert.
    case_decide; [subst k|done]. destruct Hfree as [Hf|Hf]; congruence.
Qed.

Lemma empty_codes (db : Db) : sa_view db SC_Code = ∅ → code_table (ImplStorage_new db) ∅.
Proof.
  intros Hdb. split; intros h; cbn; [by rewrite Hdb, !lookup_empty|]. intros c _. by rewrite lru_view_new, lookup_empty.
Qed.

#[export] Instance impl_codes : CodeTable storage.
Proof.
  refine {| serves_codes := code_table |}; intros.
  - by apply get_code_run.
  - by apply insert_code_run.
  - apply update_proof_coded.
  - apply insert_block_coded.
Defined.
End impl.

(** ** The interface *)
(** A transaction as it comes back from its encoding. *)
Definition stored_as `{R : Rlp} `{K : Keccak} (stx stx' : SignedTransaction) : Prop :=
  ∃ b, SignedTransaction_encode stx = Ok b ∧ SignedTransaction_decode_bytes b = Ok stx'.

(** What is known of a hash: nothing, or the height, transaction and receipt. *)
Abbreviation tx_row := (option (Z * SignedTransaction * Receipt)).
Definition row_tx (x : tx_row) : option SignedTransaction := (λ y : Z * SignedTransaction * Receipt, y.1.2) <$> x.
Definition row_receipt (x : tx_row) : option Receipt := (λ y : Z * SignedTransaction * Receipt, y.2) <$> x.

Class TxTable (St : Type) `{R : Rlp} `{K : Keccak} `{!Storage St} := {
  tracked : St → Hash → tx_row → Prop;
  tt_reads h x :: StoreReads (λ s, tracked s h x);
  tt_code ctx a ch c h x : preserves (λ s, tracked s h x) (st_insert_code ctx a ch c);
  tt_proof ctx p h x : preserves (λ s, tracked s h x) (st_update_latest_proof ctx p);
  tt_block ctx b h n stx r : h_number (b_header b) = n →
    preserves (λ s, tracked s h (Some (n, stx, r))) (st_insert_block ctx b);
  tt_transaction ctx h x s : tracked s h x →
    ∃ s', st_get_transaction_by_hash ctx h s = (s', Ok (row_tx x)) ∧ tracked s' h x;
  tt_receipt ctx h x s : tracked s h x →
    ∃ s', st_get_receipt_by_hash ctx h s = (s', Ok (row_receipt x)) ∧ tracked s' h x;
  tt_insert ctx n txs stored rs s : u64_ok n → NoDup (stx_hash <$> txs) →
    Forall (λ tx, h256_ok (stx_hash tx) ∧ tracked s (stx_hash tx) None) txs → Forall2 stored_as txs stored →
    Forall2 (λ tx r, rc_tx_hash r = stx_hash tx ∧ receipt_wf r) txs rs →
    ∃ s1 s2, st_insert_transactions ctx n txs s = (s1, Ok tt) ∧ st_insert_receipts ctx n rs s1 = (s2, Ok tt) ∧
      ∀ i tx stx r, txs !! i = Some tx → stored !! i = Some stx → rs !! i = Some r →
        tracked s2 (stx_hash tx) (Some (n, stx, r))
}.
#[export] Hint Resolve tt_code tt_proof : axon.

(** ** [ImplStorage] *)
Section impl.
Context `{R : Rlp} `{K : Keccak} `{!LruCrate} {Db : Type} `{!StorageAdapter Db} `{!StoreLaws Db} `{!StoreFrame Db}.
Local Abbreviation storage := (ImplStorage Db).
Local Abbreviation row_key n h := (make_hash_key (CommonPrefix_new n) h).

(** The row of a transaction in the two columns. *)
Definition row_stored (s : storage) (h : Hash) (x : tx_row) : Prop :=
  match x with
  | Some (n, stx, r) => u64_ok n ∧ receipt_wf r ∧
      (∃ b, sa_view (is_adapter s) SC_SignedTransaction !! row_key n h = Some b ∧ SignedTransaction_decode_bytes b = Ok stx) ∧
      sa_view (is_adapter s) SC_Receipt !! row_key n h = Some (encode Receipt_codec r)
  | None => True
  end.

Record tx_table (s : storage) (h : Hash) (x : tx_row) : Prop := {
  tk_index : sa_view (is_adapter s) SC_HashHeight !! encode c_h256 h = (λ y : Z * SignedTransaction * Receipt, encode c_u64 y.1.1) <$> x;
  tk_row : row_stored s h x;
  tk_transaction v : lru_view (co_get transactions (is_cache s)) !! h = Some v → row_tx x = Some v;
  tk_receipt v : lru_view (co_get receipts (is_cache s)) !! h = Some v → row_receipt x = Some v
}.
Local Abbreviation listed h x := (λ s : storage, tx_table s h x).

Lemma tx_table_frame h x (s s' : storage) : tx_table s h x →
  (∀ c, c = SC_HashHeight ∨ c = SC_SignedTransaction ∨ c = SC_Receipt →
    sa_view (is_adapter s') c = sa_view (is_adapter s) c) →
  (∀ v, lru_view (co_get transactions (is_cache s')) !! h = Some v →
    row_tx x = Some v ∨ lru_view (co_get transactions (is_cache s)) !! h = Some v) →
  (∀ v, lru_view (co_get receipts (is_cache s')) !! h = Some v →
    row_receipt x = Some v ∨ lru_view (co_get receipts (is_cache s)) !! h = Some v) → tx_table s' h x.
Proof.
  intros [T1 T2 T3 T4] Hv Ht Hr. split.
  - rewrite Hv by auto. exact T1.
  - unfold row_stored in *. destruct x as [[[n stx] r]|]; [|done]. rewrite !Hv by auto. exact T2.
  - intros v [|]%Ht; auto.
  - intros v [|]%Hr; auto.
Qed.

(** ** What leaves a row alone *)
Lemma on_db_listed {X} (m : M Db ProtocolError X) h x :
  (∀ db c, c = SC_HashHeight ∨ c = SC_SignedTransaction ∨ c = SC_Receipt → sa_view (m db).1 c = sa_view db c) →
  preserves (listed h x) (on_db m).
Proof.
  intros Hm s Hs. unfold on_db, zoom. pose proof (Hm (is_adapter s)) as Hv. destruct (m (is_adapter s)) as [db o].
  apply (tx_table_frame h x s); auto.
Qed.
Lemma get_listed {Key V} (sch : StorageSchema Key V) k h x : preserves (listed h x) (on_db (sa_get sch k)).
Proof. apply on_db_listed. intros. apply frame_get. Qed.
Lemma iter_listed {Key V} (sch : StorageSchema Key V) p h x : preserves (listed h x) (on_db (sa_iter sch p)).
Proof. apply on_db_listed. intros. apply frame_iter. Qed.
Lemma insert_listed {Key V} (sch : StorageSchema Key V) k v h x :
  category sch ≠ SC_HashHeight → category sch ≠ SC_SignedTransaction → category sch ≠ SC_Receipt →
  preserves (listed h x) (on_db (sa_insert sch k v)).
Proof. intros H1 H2 H3. apply on_db_listed. intros db c Hc. apply frame_insert. naive_solver. Qed.

(** The caches that hold no row, and the two that do. *)
Inductive plain : ∀ {V : Type}, cache_of V → Prop :=
| p_blocks : plain blocks
| p_numbers : plain block_numbers
| p_headers : plain headers
| p_codes : plain codes.
Inductive row_cache : ∀ {V : Type}, cache_of V → (tx_row → option V) → StorageSchema CommonHashKey V → Prop :=
| rc_transactions : row_cache transactions row_tx TransactionSchema
| rc_receipts : row_cache receipts row_receipt ReceiptSchema.

Lemma row_cached {V} (c : cache_of V) proj sch (s : storage) h x v : row_cache c proj sch → tx_table s h x →
  lru_view (co_get c (is_cache s)) !! h = Some v → proj x = Some v.
Proof. intros Hc Hs. revert v. destruct Hc; intros v; [apply (tk_transaction s h x Hs)|apply (tk_receipt s h x Hs)]. Qed.

Lemma plain_get_listed {V} (c : cache_of V) k h x : plain c → preserves (listed h x) (cache_get c k).
Proof.
  intros Hc s Hs. unfold cache_get. destruct (lru_get k _) as [l r].
  apply (tx_table_frame h x s); try done; intros v; destruct Hc; by right.
Qed.
Lemma plain_put_listed {V} (c : cache_of V) k v h x : plain c → preserves (listed h x) (cache_put c k v).
Proof.
  intros Hc s Hs. unfold cache_put. destruct v as [v|]; [|done].
  apply (tx_table_frame h x s); try done; intros w; destruct Hc; by right.
Qed.

(** Replacing a cache of rows by one that agrees at the row. *)
Lemma set_row_cache {V} (c : cache_of V) proj sch l (s : storage) h x : row_cache c proj sch → tx_table s h x →
  (∀ v, lru_view l !! h = Some v → proj x = Some v ∨ lru_view (co_get c (is_cache s)) !! h = Some v) →
  tx_table (set_cache s (co_set c l (is_cache s))) h x.
Proof.
  intros Hc Hs. destruct Hc; intros Hl; apply (tx_table_frame h x s); try done; intros v Hv; (by right) || by apply Hl.
Qed.
Lemma row_get_listed {V} (c : cache_of V) proj sch k h x : row_cache c proj sch → preserves (listed h x) (cache_get c k).
Proof.
  intros Hc s Hs. unfold cache_get. destruct (lru_get_view _ k (co_get c (is_cache s))) as (l & -> & Hl).
  apply (set_row_cache c proj sch); [done..|]. intros v. rewrite Hl. by right.
Qed.
Lemma row_put_listed {V} (c : cache_of V) proj sch k v h x : row_cache c proj sch →
  (k = h → v = proj x) → preserves (listed h x) (cache_put c k v).
Proof.
  intros Hc Hk s Hs. unfold cache_put. destruct v as [v|]; [|done]. apply (set_row_cache c proj sch); [done..|].
  intros w Hw. pose proof (lookup_weaken _ _ _ _ Hw (lru_put_view _ k v _)) as Hw'.
  rewrite lookup_insert in Hw'. case_decide; [left; by rewrite <-Hk by done|by right].
Qed.
Hint Resolve get_listed iter_listed insert_listed plain_get_listed plain_put_listed : axon.
Hint Constructors plain : axon.
Hint Extern 1 (category _ ≠ _) => done : axon.

(** ** Reading a row *)
Definition get_row {V} (c : cache_of V) (sch : StorageSchema CommonHashKey V) (hash : Hash) : M storage ProtocolError (option V) :=
  get_cache c hash
    (h ← on_db (sa_get TxHashNumberSchema hash);
     match h with
     | Some height => get_into sch (CommonHashKey_new height hash) c hash
     | None => mret None
     end).

Lemma row_found {V} (c : cache_of V) proj sch (s : storage) h n stx r : row_cache c proj sch →
  tx_table s h (Some (n, stx, r)) → db_get s sch (CommonHashKey_new n h) = Ok (proj (Some (n, stx, r))).
Proof.
  intros Hc [_ (Hn & Hr & (b & Hb & Hdec) & Hrb) _ _]. destruct Hc; unfold db_get;
    cbn [TransactionSchema ReceiptSchema key_codec val_codec category pc_encode CommonHashKey_pcodec
      rlp_pcodec mbind outcome_bind hk_prefix hk_hash CommonHashKey_new].
  - rewrite Hb. cbn [pc_decode SignedTransaction_pcodec]. by rewrite Hdec.
  - rewrite Hrb. by rewrite (rlp_pcodec_ok receipt_wf Receipt_codec r Receipt_lawful Hr).
Qed.

Lemma get_row_run {V} (c : cache_of V) proj sch (s : storage) h x : row_cache c proj sch → tx_table s h x →
  ∃ s', get_row c sch h s = (s', Ok (proj x)) ∧ tx_table s' h x.
Proof.
  intros Hc Hs. unfold get_row, get_cache.
  destruct (lru_get_view _ h (co_get c (is_cache s))) as (l & El & Hl).
  pose proof (row_get_listed c proj sch h h x Hc s Hs) as Hs1. unfold cache_get in Hs1. rewrite El in Hs1.
  rewrite (bind_ok _ _ s _ (lru_view (co_get c (is_cache s)) !! h)) by (unfold cache_get; by rewrite El).
  destruct (lru_view (co_get c (is_cache s)) !! h) as [v|] eqn:E.
  { rewrite (row_cached c proj sch s h x v Hc Hs E). eexists. by split. }
  revert Hs1. generalize (mkStorage (is_adapter s) (co_set c l (is_cache s)) (latest_block s) (latest_proof s)).
  intros s1 Hs1. cbn [fst] in Hs1.
  destruct (on_db_get TxHashNumberSchema h (encode c_h256 h) s1 eq_refl) as (s2 & E2 & _).
  pose proof (get_listed TxHashNumberSchema h h x s1 Hs1) as Hs2. rewrite E2 in Hs2. cbn [fst] in Hs2.
  assert (db_get s1 TxHashNumberSchema h = Ok ((λ y : Z * SignedTransaction * Receipt, y.1.1) <$> x)) as Hix.
  { unfold db_get. cbn [TxHashNumberSchema key_codec val_codec category pc_encode hash_pcodec rlp_pcodec mbind outcome_bind].
    rewrite (tk_index _ _ _ Hs1). destruct x as [[[n stx] r]|]; [|done]. cbn [fmap option_fmap option_map fst].
    destruct (tk_row _ _ _ Hs1) as (Hn & _). by rewrite (rlp_pcodec_ok u64_ok c_u64 n c_u64_ok Hn). }
  rewrite Hix in E2. mrun E2. destruct x as [[[n stx] r]|]; cbn [fmap option_fmap option_map fst]; [|exists s2; by destruct Hc].
  unfold get_into. destruct (on_db_get sch (CommonHashKey_new n h) (row_key n h) s2) as (s3 & E3 & _); [by destruct Hc|].
  pose proof (get_listed sch (CommonHashKey_new n h) h (Some (n, stx, r)) s2 Hs2) as Hs3. rewrite E3 in Hs3. cbn [fst] in Hs3.
  rewrite (row_found c proj sch s2 h n stx r Hc Hs2) in E3. mrun E3.
  pose proof (row_put_listed c proj sch h (proj (Some (n, stx, r))) h _ Hc (λ _, eq_refl) s3 Hs3) as Hs4.
  unfold cache_put in *. destruct (proj _) as [v|]; eexists; (split; [reflexivity|done]).
Qed.

(** The row of another hash. *)
Lemma get_row_other {V} (c : cache_of V) proj sch k h x : row_cache c proj sch → k ≠ h →
  preserves (listed h x) (get_row c sch k).
Proof.
  intros Hc Hk. unfold get_row, get_cache, get_into.
  apply preserves_bind; [by apply (row_get_listed c proj sch)|intros o]. keep. by apply (row_put_listed c proj sch).
Qed.
Lemma get_row_listed {V} (c : cache_of V) proj sch k h x : row_cache c proj sch → preserves (listed h x) (get_row c sch k).
Proof.
  intros Hc. destruct (decide (k = h)) as [->|Hk]; [|by apply (get_row_other c proj)].
  intros s Hs. by destruct (get_row_run c proj sch s h x Hc Hs) as (s' & -> & ?).
Qed.

#[export] Instance listed_reads h x : StoreReads (listed h x).
Proof.
  split; intros;
    cbn [impl_storage st_get_transactions st_get_transaction_by_hash st_get_latest_block st_get_latest_block_header
         st_get_block st_get_block_header].
  - unfold get_transactions, get_many. keep.
  - apply (get_row_listed transactions row_tx TransactionSchema), rc_transactions.
  - unfold get_latest_block, ensure_get. keep.
  - unfold get_latest_block_header, ensure_get. keep.
  - unfold get_block, get_cache, get_into. keep.
  - unfold get_block_header, get_block, get_cache, get_into. keep.
Qed.

(** ** Writing rows *)
Lemma insert_code_listed ctx a ch c h x : preserves (listed h x) (insert_code ctx a ch c).
Proof. unfold insert_code. keep. Qed.
Lemma update_proof_listed ctx p h x : preserves (listed h x) (update_latest_proof ctx p).
Proof.
  unfold update_latest_proof. keep. apply preserves_modify. intros s Hs. apply (tx_table_frame h x s); auto.
Qed.

(** The block of the row's height: a block and a transaction of the same hash
    would share the entry of the index. *)
Lemma insert_block_listed ctx b h n stx r : h_number (b_header b) = n →
  preserves (listed h (Some (n, stx, r))) (insert_block ctx b).
Proof.
  intros Hn s [T1 T2 T3 T4]. destruct (insert_block_writes s b) as (s' & E & Ec & _ & _ & _ & _ & Vh & Vo).
  change (insert_block ctx b s) with (insert_block ∅ b s). rewrite E. split; cbn [fst].
  - rewrite Vh, lookup_insert, Hn. cbn in *. by case_decide.
  - unfold row_stored in *. by rewrite !Vo.
  - by rewrite Ec.
  - by rewrite Ec.
Qed.

(** What [insert_receipts] writes. *)
Lemma insert_receipts_writes (s : storage) n rs :
  ∃ s', insert_receipts ∅ n rs s = (s', Ok tt) ∧ only_db s s' ∧
    let v := sa_view (is_adapter s) in
    sa_view (is_adapter s') SC_Receipt =
      fold_left write_pair (zip_with (λ r b, (row_key n (rc_tx_hash r), Some b)) rs (encode Receipt_codec <$> rs)) (v SC_Receipt) ∧
    sa_view (is_adapter s') SC_HashHeight =
      fold_left write_pair (zip_with (λ r b, (encode c_h256 (rc_tx_hash r), Some b)) rs
        (replicate (length rs) (encode c_u64 n))) (v SC_HashHeight) ∧
    ∀ c, c ≠ SC_Receipt → c ≠ SC_HashHeight → sa_view (is_adapter s') c = v c.
Proof.
  destruct (on_db_batch ReceiptSchema (map (λ r, CommonHashKey_new n (rc_tx_hash r)) rs) (map BatchInsert rs)
    (zip_with (λ r b, (row_key n (rc_tx_hash r), Some b)) rs (encode Receipt_codec <$> rs)) s)
    as (s1 & E1 & (C1 & L1 & P1) & V1); [by rewrite !length_map| |].
  { apply (encode_pairs ReceiptSchema _ id (λ r, row_key n (rc_tx_hash r))); [done|].
    apply Forall2_fmap_r. by apply Forall_Forall2_diag, Forall_true. }
  destruct (on_db_batch TxHashNumberSchema (map rc_tx_hash rs) (map (λ _, BatchInsert n) rs)
    (zip_with (λ r b, (encode c_h256 (rc_tx_hash r), Some b)) rs (replicate (length rs) (encode c_u64 n))) s1)
    as (s2 & E2 & (C2 & L2 & P2) & V2); [by rewrite !length_map| |].
  { apply (encode_pairs TxHashNumberSchema rc_tx_hash (λ _, n) (λ r, encode c_h256 (rc_tx_hash r))); [done|].
    clear. induction rs; cbn; constructor; done. }
  exists s2. split; [unfold insert_receipts, batch_insert_receipts; by mrun E1|].
  split; [split_and!; congruence|]. split_and!.
  1-2: rewrite V2, V1; reflexivity.
  intros c Hc1 Hc2. rewrite V2, V1. by rewrite !decide_False by done.
Qed.

(** A batch of entries under distinct keys. *)
Lemma batch_lookup {A} (kb : A → bytes) (xs : list A) (vbs : list bytes) (m : gmap bytes bytes) i x vb : length xs = length vbs →
  NoDup (kb <$> xs) → xs !! i = Some x → vbs !! i = Some vb →
  fold_left write_pair (zip_with (λ x vb, (kb x, Some vb)) xs vbs) m !! kb x = Some vb.
Proof.
  intros Hl Hnd Hx Hvb. apply write_pairs_lookup; [by rewrite zip_with_keys|]. by eapply zip_with_elem.
Qed.

Lemma same_keys {A B C} (f : A → C) (g : B → C) (k : C → bytes) (xs : list A) (ys : list B) :
  f <$> xs = g <$> ys → (λ x, k (f x)) <$> xs = (λ y, k (g y)) <$> ys.
Proof.
  intros E. change (k ∘ f <$> xs = k ∘ g <$> ys). by rewrite !list_fmap_compose, E.
Qed.

(** A transaction and its receipt at the same place of the two lists. *)
Lemma rows_inserted ctx n txs stored rs (s : storage) : u64_ok n → NoDup (stx_hash <$> txs) →
  Forall (λ tx, h256_ok (stx_hash tx) ∧ tx_table s (stx_hash tx) None) txs → Forall2 stored_as txs stored →
  Forall2 (λ tx r, rc_tx_hash r = stx_hash tx ∧ receipt_wf r) txs rs →
  ∃ s1 s2, insert_transactions ctx n txs s = (s1, Ok tt) ∧ insert_receipts ctx n rs s1 = (s2, Ok tt) ∧
    ∀ i tx stx r, txs !! i = Some tx → stored !! i = Some stx → rs !! i = Some r →
      tx_table s2 (stx_hash tx) (Some (n, stx, r)).
Proof.
  intros Hn Hnd Hnew Hst Hrs.
  assert (∃ bs, traverse SignedTransaction_encode txs = Ok bs ∧
    Forall2 (λ b stx, SignedTransaction_decode_bytes b = Ok stx) bs stored) as (bs & Hbs & Hdec).
  { clear -Hst. induction Hst as [|tx stx txs stored (b & He & Hd) _ (bs & IH1 & IH2)]; [by exists []|].
    exists (b :: bs). cbn [traverse]. rewrite He. cbn [mbind outcome_bind]. rewrite IH1. split; [done|by constructor]. }
  destruct (insert_transactions_writes s n txs bs Hbs) as (s1 & E1 & (Ec1 & _) & VT & VH & VO).
  destruct (insert_receipts_writes s1 n rs) as (s2 & E2 & (Ec2 & _) & WR & WH & WO).
  exists s1, s2. split; [exact E1|]. split; [exact E2|]. intros i tx stx r Htx Hstx Hr.
  assert (rc_tx_hash <$> rs = stx_hash <$> txs) as Hkeys.
  { clear -Hrs. induction Hrs as [|? ? ? ? [] _ IH]; [done|]. cbn. congruence. }
  destruct (tx_keys_NoDup n txs) as [Hnd1 Hnd2]; [eapply Forall_impl; [exact Hnew|]; by intros ? []|done|].
  pose proof (Forall_lookup_1 _ _ _ _ Hnew Htx) as [_ [_ _ T3 T4]].
  destruct (Forall2_lookup_lr _ _ _ _ _ _ Hrs Htx Hr) as [Hrt Hrw].
  pose proof (Forall2_length _ _ _ Hdec) as Hlen. pose proof (Forall2_length _ _ _ Hst) as Hlen'.
  destruct (lookup_lt_is_Some_2 bs i) as [b Hb]; [rewrite Hlen; by apply lookup_lt_Some in Hstx|].
  pose proof (Forall2_lookup_lr _ _ _ _ _ _ Hdec Hb Hstx) as Hd. split.
  - rewrite WH, <-Hrt. apply (batch_lookup (λ r, encode c_h256 (rc_tx_hash r))) with i;
      [by rewrite length_replicate| |done|apply lookup_replicate; split; [done|by eapply lookup_lt_Some]].
    by rewrite (same_keys rc_tx_hash stx_hash (encode c_h256) rs txs Hkeys).
  - split; [done|]. split; [done|]. split.
    + exists b. split; [|done]. rewrite WO, VT by done.
      apply (batch_lookup (λ x, row_key n (stx_hash x))) with i; [congruence|done..].
    + rewrite WR, <-Hrt. apply (batch_lookup (λ r, row_key n (rc_tx_hash r))) with i;
        [by rewrite length_fmap| |done|by rewrite list_lookup_fmap, Hr].
      by rewrite (same_keys rc_tx_hash stx_hash (λ h, row_key n h) rs txs Hkeys).
  - rewrite Ec2, Ec1. by intros v ?%T3.
  - rewrite Ec2, Ec1. by intros v ?%T4.
Qed.

Lemma unlisted (db : Db) h : sa_view db SC_HashHeight !! encode c_h256 h = None → tx_table (ImplStorage_new db) h None.
Proof. intros Hdb. split; [exact Hdb|done|..]; intros v; cbn; by rewrite lru_view_new, lookup_empty. Qed.

#[export] Instance impl_txs : TxTable storage.
Proof.
  refine {| tracked := tx_table |}; intros.
  - apply insert_code_listed.
  - apply update_proof_listed.
  - by apply insert_block_listed.
  - by apply (get_row_run transactions row_tx TransactionSchema _ _ _ rc_transactions).
  - by apply (get_row_run receipts row_receipt ReceiptSchema _ _ _ rc_receipts).
  - by apply rows_inserted.
Defined.
End impl.
