(* ===== verification/ReplicaNode.v ===== *)
(** * Replicated nodes

    Two nodes that commit the same proposals with the same transactions keep
    the same state root and the same last block, whatever else they do in
    between, and a block one of them committed passes the root checks of the
    other's synchronization.  The engine's side is proved against the interface
    [ReplicaAdapter]; the consensus adapter over the node's databases implements
    it by the executor's agreement ([Replica.v]). *)

From S2P Require Import Prelude Types Codec Traits Heap Pool Executor MemPool ExecRefine Storage.
From S2P Require Import StorageLaws Interoperation DefaultAdapter Metadata Overlord Wal.
From S2P Require Import Engine ConsensusAdapterImpl Sync EngineProps SyncProps Frame Replica.

Local Open Scope Z_scope.

(** ** The interface *)
(** [shares r a a']: the adapters of two nodes open the state root [r] to the
    same world.  Only execution changes the world, the same on both. *)
Class ReplicaAdapter (A : Type) `{!ConsensusAdapter A} := {
  shares : MerkleRoot → A → A → Prop;
  rp_sym r a a' : shares r a a' → shares r a' a;
  rp_framed r b :: AdapterFramed (λ a, shares r a b);
  rp_save_proof r b ctx p : preserves (λ a, shares r a b) (ca_save_proof ctx p);
  rp_save_block r b ctx blk : preserves (λ a, shares r a b) (ca_save_block ctx blk);
  rp_exec ctx ctx' r p txs a a' : shares r a a' → Forall value_ok txs →
    (ca_exec ctx r p txs a).2 = (ca_exec ctx' r p txs a').2 ∧
    ∀ resp, (ca_exec ctx r p txs a).2 = Ok resp →
      shares (er_state_root resp) (ca_exec ctx r p txs a).1 (ca_exec ctx' r p txs a').1
}.
#[export] Hint Resolve rp_save_proof rp_save_block : axon.

(** ** The engine *)
Section engine.
Context `{R : Rlp} `{K : Keccak} `{!StaticMerkleTree} `{!Overlord} `{!EthBloom} `{!Bls} `{!FasterHex}
  `{!WalName} {A : Type} `{!ConsensusAdapter A} `{!ReplicaAdapter A}.
Local Abbreviation engine := (ConsensusEngine A).
Local Abbreviation last e := (cs_last_number (ce_status e)).
Local Abbreviation root e := (cs_last_state_root (ce_status e)).
Local Abbreviation same r b st := (same_as (λ a : A, shares r a b) st).

(** What two replicas have in common. *)
Record mirrored (e e' : engine) : Prop := {
  mi_number : last e = last e';
  mi_hash : cs_prev_hash (ce_status e) = cs_prev_hash (ce_status e');
  mi_root : root e = root e';
  mi_world : shares (root e) (ce_adapter e) (ce_adapter e')
}.

(** The transactions a commit executes, and what comes of them. *)
Definition executes (ctx : Context) (c : Commit) (e e1 : engine) (proof : Proof)
    (txs : list SignedTransaction) (resp : ExecResp) : Prop :=
  let n := p_number (cm_content c) in
  execute_commit ctx n c (set_ce_adapter (ca_get_metadata_unchecked ctx (n + 1) (ce_adapter e)).1 e)
    = (e1, Ok (proof, txs, resp)).

(** A run of a node: its commits with the transactions they executed, and in
    between proposals made and checked, whatever their outcome. *)
Inductive replica_run : engine → list (Commit * list SignedTransaction) → engine → Prop :=
| run_done e : replica_run e [] e
| run_propose ctx now n e e1 o l e' : get_proposal ctx now n e = (e1, o) → replica_run e1 l e' → replica_run e l e'
| run_check ctx now n hash p e e1 o l e' : check_block ctx now n hash p e = (e1, o) →
    replica_run e1 l e' → replica_run e l e'
| run_commit ctx c txs proof resp ex e e1 st l e' :
    commit ctx (p_number (cm_content c)) c e = (e1, Ok st) → p_number (cm_content c) = last e + 1 →
    executes ctx c e ex proof txs resp → Forall value_ok txs →
    replica_run e1 l e' → replica_run e ((c, txs) :: l) e'.

Lemma mirrored_sym e e' : mirrored e e' → mirrored e' e.
Proof. intros [Hn Hh Hr Hw]. split; [done..|]. rewrite <-Hr. by apply rp_sym. Qed.

Lemma mirrored_same e e1 e' : mirrored e e' → same (root e) (ce_adapter e') (ce_status e) e1 → mirrored e1 e'.
Proof. intros [Hn Hh Hr Hw] [Hw1 Hst]. by split; rewrite Hst. Qed.

Lemma mirrored_as e e' : mirrored e e' → same (root e) (ce_adapter e') (ce_status e) e.
Proof. by intros []. Qed.

(** What the execution inside a commit did. *)
Lemma executes_inv ctx c (e e1 : engine) proof txs resp b r :
  executes ctx c e e1 proof txs resp → shares r (ce_adapter e) b → root e = r →
  ∃ a, shares r a b ∧ ca_exec ctx r (cm_content c) txs a = (ce_adapter e1, Ok resp) ∧ ce_status e1 = ce_status e.
Proof.
  intros Hx Hs Hr. unfold executes, execute_commit in Hx. cbv zeta in Hx.
  assert (same r b (ce_status e) (set_ce_adapter (ca_get_metadata_unchecked ctx (p_number (cm_content c) + 1) (ce_adapter e)).1 e)) as Hs0.
  { split; [|done]. by apply (af_metadata_unchecked (I := λ a, shares r a b)). }
  revert Hx Hs0. generalize (set_ce_adapter (ca_get_metadata_unchecked ctx (p_number (cm_content c) + 1) (ce_adapter e)).1 e).
  intros e0 Hx Hs0. apply bind_lift_inv in Hx as (pf & _ & Hx). apply bind_inv in Hx as ([] & e2 & Hq1 & Hx).
  apply (preserves_inv (same r b (ce_status e))) in Hq1; [|by auto with axon|done].
  apply bind_inv in Hx as (txs' & e3 & Hq2 & Hx).
  apply (preserves_inv (same r b (ce_status e))) in Hq2 as [Hs3 Hst3]; [|by auto with axon|done].
  rewrite bind_gets in Hx. apply bind_inv in Hx as (resp' & e4 & [Hq3 ->]%ask_inv & [= <- -> -> ->]).
  exists (ce_adapter e3). rewrite Hst3, Hr in Hq3. done.
Qed.

(** Two replicas execute the same transactions of the same proposal. *)
Lemma executes_agree ctx ctx' c (e e' e1 e1' : engine) proof proof' txs resp resp' :
  mirrored e e' → executes ctx c e e1 proof txs resp → executes ctx' c e' e1' proof' txs resp' → Forall value_ok txs →
  resp' = resp ∧ shares (er_state_root resp) (ce_adapter e1) (ce_adapter e1').
Proof.
  intros [_ _ Hr Hw] Hx Hx' Htxs.
  destruct (executes_inv _ _ _ _ _ _ _ _ _ Hx Hw eq_refl) as (a & Ha & Hex & _).
  destruct (executes_inv _ _ _ _ _ _ _ a (root e) Hx' (rp_sym _ _ _ Ha) (eq_sym Hr)) as (a' & Ha' & Hex' & _).
  apply rp_sym in Ha'. destruct (rp_exec ctx ctx' _ (cm_content c) txs a a' Ha' Htxs) as [Ho Hs].
  rewrite Hex, Hex' in Ho, Hs. cbn [fst snd] in Ho, Hs. injection Ho as <-. split; [done|]. by apply Hs.
Qed.

(** The bookkeeping after the execution leaves the world alone. *)
Local Abbreviation worldly r b := (λ e : engine, shares r (ce_adapter e) b).
Lemma ask_world {X} (m : M A ProtocolError X) r b : preserves (λ a, shares r a b) m → preserves (worldly r b) (ask m).
Proof. by apply preserves_zoom. Qed.
Lemma on_wal_world {X} (m : M SignedTxsWAL ProtocolError X) r b : preserves (worldly r b) (on_wal m).
Proof. by apply preserves_zoom_other. Qed.
Hint Resolve ask_world on_wal_world : axon.
Lemma update_status_world ctx resp p proof txs r b : preserves (worldly r b) (update_status ctx resp p proof txs).
Proof.
  unfold update_status, save_executed, refresh_metadata, update_overlord_crypto. keep; by apply preserves_modify.
Qed.

(** A commit of the next block, from its execution on. *)
Definition settle (ctx : Context) (p : Proposal) : M engine ProtocolError Status :=
  let n := p_number p in
  ask (ca_flush_mempool ctx (p_tx_hashes p));;
  on_wal (modify (wal_remove (saturating_sub n 2)));;
  modify (set_exemption ∅);;
  next_block_number ← lift (u64_add n 1);
  metadata ← ask (ca_get_metadata_unchecked ctx next_block_number);
  st ← lift (next_status next_block_number metadata);
  ask (ca_broadcast_number ctx n);;
  mret st.
Lemma commit_updates ctx c (e e1 e2 : engine) proof txs resp st :
  commit ctx (p_number (cm_content c)) c e = (e2, Ok st) → p_number (cm_content c) = last e + 1 →
  executes ctx c e e1 proof txs resp →
  ∃ e3, update_status ctx resp (cm_content c) proof txs e1 = (e3, Ok tt) ∧ settle ctx (cm_content c) e3 = (e2, Ok st).
Proof.
  intros Hrun Hn Hx. unfold commit in Hrun. rewrite bind_gets in Hrun. cbn [id] in Hrun.
  destruct (ce_locked e); [done|]. apply bind_lift_inv in Hrun as (n1 & [-> _]%u64_add_ok & Hrun).
  apply bind_inv in Hrun as (md & e0 & Hmd & Hrun). rewrite ask_eq in Hmd. injection Hmd as <- _.
  destruct (Z.eqb_spec (p_number (cm_content c)) (last e)); [lia|].
  apply bind_lift_inv in Hrun as (n2 & _ & Hrun). destruct (negb _); [done|]. unfold commit_new in Hrun.
  unfold executes in Hx. rewrite (bind_ok _ _ _ _ _ Hx) in Hrun.
  apply bind_inv in Hrun as ([] & e3 & Hu & Hrun). by exists e3.
Qed.

(** What a commit of the next block leaves. *)
Lemma commit_leaves ctx c (e e1 e2 : engine) proof txs resp st b :
  commit ctx (p_number (cm_content c)) c e = (e2, Ok st) → p_number (cm_content c) = last e + 1 →
  executes ctx c e e1 proof txs resp → shares (er_state_root resp) (ce_adapter e1) b →
  last e2 = p_number (cm_content c) ∧ cs_prev_hash (ce_status e2) = header_hash (Block_new (cm_content c) resp) ∧
  root e2 = er_state_root resp ∧ shares (er_state_root resp) (ce_adapter e2) b.
Proof.
  intros Hrun Hn Hx Hs. destruct (commit_updates _ _ _ _ _ _ _ _ _ Hrun Hn Hx) as (e3 & Hu & Hset).
  pose proof (update_status_ok _ _ _ _ _ _ _ Hu) as (Hh & Hl & Hr & _).
  pose proof (preserves_inv (worldly (er_state_root resp) b) _ _ _ _ (update_status_world _ _ _ _ _ _ _) Hu Hs) as Hs3.
  apply (preserves_inv (same (er_state_root resp) b (ce_status e3))) in Hset as [Hs2 Hst]; [by rewrite Hst| |done].
  unfold settle. keep. by apply preserves_modify.
Qed.

(** ** Runs *)
Lemma run_next e l e' x : replica_run e (x :: l) e' → ∀ b r st, same r b st e →
  ∃ e0, same r b st e0 ∧ ∃ ctx proof resp ex e1 s,
    commit ctx (p_number (cm_content x.1)) x.1 e0 = (e1, Ok s) ∧ p_number (cm_content x.1) = last e0 + 1 ∧
    executes ctx x.1 e0 ex proof x.2 resp ∧ Forall value_ok x.2 ∧ replica_run e1 l e'.
Proof.
  remember (x :: l) as l0 eqn:El. intros Hrun. revert x l El.
  induction Hrun as [e|ctx now n e e1 o l0 e' Hp _ IH|ctx now n hash p e e1 o l0 e' Hc _ IH
    |ctx c txs proof resp ex e e1 st l0 e' Hc Hn Hx Hv Hrun _]; intros x l El b r st0 Hs; [done|..].
  - apply (IH x l El). by apply (preserves_inv _ _ _ _ _ (get_proposal_same (λ a, shares r a b) st0 ctx now n) Hp).
  - apply (IH x l El). by apply (preserves_inv _ _ _ _ _ (check_block_same (λ a, shares r a b) st0 ctx now n hash p) Hc).
  - injection El as <- <-. exists e. split; [done|]. by exists ctx, proof, resp, ex, e1, st.
Qed.

Lemma run_idle e e' : replica_run e [] e' → ∀ b r st, same r b st e → same r b st e'.
Proof.
  remember [] as l0 eqn:El. intros Hrun. revert El.
  induction Hrun as [e|ctx now n e e1 o l0 e' Hp _ IH|ctx now n hash p e e1 o l0 e' Hc _ IH|]; intros El b r st0 Hs; [done|..|done].
  - apply (IH El). by apply (preserves_inv _ _ _ _ _ (get_proposal_same (λ a, shares r a b) st0 ctx now n) Hp).
  - apply (IH El). by apply (preserves_inv _ _ _ _ _ (check_block_same (λ a, shares r a b) st0 ctx now n hash p) Hc).
Qed.

(** One commit on each side. *)
Lemma commit_mirrored ctx ctx' c txs (e e' ex ex' e1 e1' : engine) proof proof' resp resp' st st' :
  mirrored e e' → Forall value_ok txs → p_number (cm_content c) = last e + 1 →
  commit ctx (p_number (cm_content c)) c e = (e1, Ok st) → executes ctx c e ex proof txs resp →
  commit ctx' (p_number (cm_content c)) c e' = (e1', Ok st') → executes ctx' c e' ex' proof' txs resp' →
  mirrored e1 e1'.
Proof.
  intros Hm Htxs Hn Hc Hx Hc' Hx'. destruct (executes_agree _ _ _ _ _ _ _ _ _ _ _ _ Hm Hx Hx' Htxs) as [-> Hs].
  assert (Hn' : p_number (cm_content c) = last e' + 1) by (rewrite Hn; f_equal; apply Hm).
  destruct (commit_leaves _ _ _ _ _ _ _ _ _ _ Hc Hn Hx Hs) as (Hl & Hh & Hr & Hs1).
  destruct (commit_leaves _ _ _ _ _ _ _ _ _ _ Hc' Hn' Hx' (rp_sym _ _ _ Hs1)) as (Hl' & Hh' & Hr' & Hs2).
  split; [congruence|congruence|congruence|]. rewrite Hr. by apply rp_sym.
Qed.

Lemma runs_mirrored l : ∀ e e' e1 e1', mirrored e e' → replica_run e l e1 → replica_run e' l e1' → mirrored e1 e1'.
Proof.
  induction l as [|[c txs] l IH]; intros e e' e1 e1' Hm Hrun Hrun'.
  - pose proof (run_idle _ _ Hrun _ _ _ (mirrored_as _ _ Hm)) as Hs. apply (mirrored_same _ _ _ Hm), mirrored_sym in Hs.
    pose proof (run_idle _ _ Hrun' _ _ _ (mirrored_as _ _ Hs)) as Hs'. by apply mirrored_sym, (mirrored_same _ _ _ Hs).
  - destruct (run_next _ _ _ _ Hrun _ _ _ (mirrored_as _ _ Hm)) as (e0 & Hs & ctx & pf & resp & ex & e2 & st & Hc & Hn & Hx & Hv & Hrest).
    apply (mirrored_same _ _ _ Hm), mirrored_sym in Hs.
    destruct (run_next _ _ _ _ Hrun' _ _ _ (mirrored_as _ _ Hs)) as (e0' & Hs' & ctx' & pf' & resp' & ex' & e2' & st' & Hc' & _ & Hx' & _ & Hrest').
    apply (mirrored_same _ _ _ Hs), mirrored_sym in Hs'.
    apply (IH e2 e2'); [|done..]. exact (commit_mirrored _ _ _ _ _ _ _ _ _ _ _ _ _ _ _ _ Hs' Hv Hn Hc Hx Hc' Hx').
Qed.
End engine.

(** ** The implementation *)
Section overlord.
Context `{R : Rlp} `{K : Keccak} `{!StaticMerkleTree} `{!PatriciaTrie} `{!CanonicalRoots} {St Mt : Type}
  `{!Storage St} `{!CodeTable St} `{!DeployedCodes} `{!MetadataControl Mt} `{!Evm (AxonExecutorAdapter St)}
  `{!EvmReads} `{!Interoperation} `{!PullRpc} `{!Secp256k1Verify} `{!ErrorText} `{!Overlord} `{!EthBloom} `{!Bls}
  `{!FasterHex} `{!ConsensusNet}.
Local Abbreviation adapter := (OverlordConsensusAdapter St Mt).

(** The databases of two nodes open [r] to the same world. *)
Definition same_world (r : MerkleRoot) (s : St) (db : trie_db) (s' : St) (db' : trie_db) : Prop :=
  ∃ CC : gmap Hash bytes * gmap Hash bytes, serves_codes s CC.1 ∧
    (serves_codes s' CC.2 ∧ codes_ok CC.1 ∧ codes_ok CC.2 ∧ shared_root db db' CC.1 CC.2 r).

Local Abbreviation world_of a' r := (λ s db, same_world r s db (da_storage a') (da_trie_db a')).
Definition adapter_shares (r : MerkleRoot) (o o' : adapter) : Prop :=
  node_shared (world_of (mp_adapter (oa_mempool o')) r) o.

#[export] Instance world_framed r s' db' db : StoreFramed (λ s, same_world r s db s' db').
Proof. apply (framed_exists (λ CC s, serves_codes s CC.1)). intros CC. apply ct_framed. Qed.

Lemma same_world_sym r s db s' db' : same_world r s db s' db' → same_world r s' db' s db.
Proof.
  intros ([C C'] & Hs & Hs' & Hk & Hk' & m & Ho & Ho' & Hm). exists (C', C). split_and!; try done.
  exists m. split_and!; try done. intros k raw Hraw. destruct (Hm k raw Hraw) as (acc & Hd & Hwf & Hst & Hc).
  exists acc. split; [done|]. split; [done|]. split.
  - intros Hne. destruct (Hst Hne) as (sm & ? & ?). by exists sm.
  - intros Hne. destruct (Hc Hne). by split.
Qed.

(** Adapters made from a shared root agree. *)
Lemma from_root_agree r s db s' db' ctx : same_world r s db s' db' →
  ∃ a a', ExecutorAdapter_from_root r db s ctx = Ok a ∧ ExecutorAdapter_from_root r db' s' ctx = Ok a' ∧ agree a a'.
Proof.
  intros ([C C'] & Hs & Hs' & Hk & Hk' & m & (t & Ht & Hv) & (t' & Ht' & Hv') & Hm).
  unfold ExecutorAdapter_from_root, MPTTrie_from_root. rewrite Ht, Ht'. do 2 eexists. do 2 (split; [done|]).
  exists C, C', m. split; try done. exists m. split; [by exists t|]. split; [by exists t'|done].
Qed.

Lemma agree_same_world (a a' : AxonExecutorAdapter St) : agree a a' →
  same_world (state_root a) (ea_storage a) (ea_db a) (ea_storage a') (ea_db a').
Proof. intros (C & C' & m & [_ _ Hs Hs' Hk Hk' _ _ _ Hc]). by exists (C, C'). Qed.

(** The state root [exec] answers with is that of the adapter it leaves. *)
Lemma exec_root txs (a : AxonExecutorAdapter St) resp :
  (exec txs a).2 = Ok resp → er_state_root resp = state_root (exec txs a).1.
Proof.
  destruct (exec txs a) as [a1 o] eqn:Ex. cbn [fst snd]. intros ->. unfold exec in Ex.
  apply bind_inv in Ex as ([res gas] & a2 & _ & Ex). rewrite bind_gets in Ex. by injection Ex as <- <-.
Qed.

Lemma exec_on_root_agree r p txs (a a' : DefaultMemPoolAdapter St Mt) :
  same_world r (da_storage a) (da_trie_db a) (da_storage a') (da_trie_db a') → Forall value_ok txs →
  (exec_on_root r p txs a).2 = (exec_on_root r p txs a').2 ∧
  ∀ resp, (exec_on_root r p txs a).2 = Ok resp →
    shared_by (world_of (exec_on_root r p txs a').1 (er_state_root resp)) (exec_on_root r p txs a).1.
Proof.
  intros Hw Htxs. destruct (from_root_agree r _ _ _ _ (ExecutorContext_from_Proposal p) Hw) as (b & b' & Hb & Hb' & Hag).
  unfold exec_on_root. rewrite !bind_gets. cbn [id]. rewrite Hb, Hb', !bind_lift_ok.
  destruct (exec_agree txs Htxs b b' Hag) as [Ho Hs]. pose proof (exec_root txs b) as Hr.
  destruct (exec txs b) as [b1 o], (exec txs b') as [b1' o']. cbn [fst snd] in *. subst o'. split; [done|].
  intros resp Hresp. change (o = Ok resp) in Hresp. subst o. rewrite (Hr resp eq_refl). exact (agree_same_world _ _ (Hs resp eq_refl)).
Qed.

#[export] Instance overlord_replica : ReplicaAdapter adapter.
Proof.
  refine {| shares := adapter_shares |}.
  - intros r a a'. apply same_world_sym.
  - intros r b ctx p. apply (in_storage_held (world_of (mp_adapter (oa_mempool b)) r)).
    intros db s (CC & Hs & HQ). exists CC. split; [by apply ct_update_latest_proof|done].
  - intros r b ctx blk. apply (in_storage_held (world_of (mp_adapter (oa_mempool b)) r)).
    intros db s (CC & Hs & HQ). exists CC. split; [by apply ct_insert_block|done].
  - intros ctx ctx' r p txs a a' Hw Htxs.
    destruct (exec_on_root_agree r p txs _ _ Hw Htxs) as [Ho Hs].
    cbn [ca_exec ca_common overlord_adapter overlord_common]. unfold on_shared, on_mempool, on_adapter, zoom.
    destruct (exec_on_root r p txs (mp_adapter (oa_mempool a))) as [d o],
             (exec_on_root r p txs (mp_adapter (oa_mempool a'))) as [d' o']. cbn in Ho, Hs |- *. by subst o'.
Defined.
End overlord.

(** ** Synchronization *)
Section sync.
Context `{R : Rlp} `{K : Keccak} `{!StaticMerkleTree} `{!PatriciaTrie} `{!CanonicalRoots} {St Mt : Type}
  `{!Storage St} `{!CodeTable St} `{!DeployedCodes} `{!MetadataControl Mt} `{!Evm (AxonExecutorAdapter St)}
  `{!EvmReads} `{!Interoperation} `{!PullRpc} `{!Secp256k1Verify} `{!ErrorText} `{!Overlord} `{!EthBloom} `{!Bls}
  `{!FasterHex} `{!WalName} `{!ConsensusNet}.
Local Abbreviation adapter := (OverlordConsensusAdapter St Mt).
Local Abbreviation engine := (ConsensusEngine adapter).
Local Abbreviation sync := (OverlordSynchronization adapter).

(** The block a proposal becomes is one it is read back from. *)
Lemma proposal_of_block p resp : Proposal_from_Block (Block_new p resp) = p.
Proof. by destruct p. Qed.

(** The checks of [commit_block] on a block whose roots are those of its
    execution. *)
Lemma commit_block_checked ctx rich pf (y : sync) a resp :
  ca_exec ctx (cs_last_state_root (sy_agent y)) (Proposal_from_Block (rb_block rich)) (rb_txs rich) (sy_adapter y)
    = (a, Ok resp) →
  er_state_root resp = h_state_root (b_header (rb_block rich)) →
  er_receipt_root resp = h_receipts_root (b_header (rb_block rich)) →
  commit_block ctx rich pf y = store_synced ctx rich pf resp (set_sy_adapter a y).
Proof.
  intros Hx Hs Hr. unfold commit_block. rewrite bind_gets.
  rewrite (bind_ok _ _ y (set_sy_adapter a y) resp) by (unfold call_adapter, zoom; by rewrite Hx).
  by rewrite Hs, Hr, !Z.eqb_refl.
Qed.

(** What storing a synchronized block leaves. *)
Lemma store_synced_leaves ctx rich pf resp (y y' : sync) r b :
  store_synced ctx rich pf resp y = (y', Ok tt) → adapter_shares r (sy_adapter y) b →
  cs_last_number (sy_agent y') = h_number (b_header (rb_block rich)) ∧
  cs_prev_hash (sy_agent y') = header_hash (rb_block rich) ∧
  cs_last_state_root (sy_agent y') = er_state_root resp ∧ adapter_shares r (sy_adapter y') b.
Proof.
  intros Hrun Hs. unfold store_synced in Hrun. destruct (generate_receipts_and_logs _ _ _ _ _) as [receipts logs].
  apply bind_inv in Hrun as (md & y2 & [Hq2 _]%call_adapter_inv & Hrun). rewrite bind_modify in Hrun.
  apply bind_inv in Hrun as ([] & y3 & [Hq3 E3]%call_adapter_inv & [Hq4 E4]%call_adapter_inv).
  rewrite E4, E3. split_and!; try done. clear E3 E4. set (I := λ a : adapter, adapter_shares r a b).
  pose proof (rp_framed r b : AdapterFramed I) as HI.
  apply (preserves_inv I) in Hq2; [|exact (af_metadata (I := I) ctx _)|done].
  assert (preserves I (save_chain_data ctx (rb_txs rich) receipts (rb_block rich))) as Hsave.
  { unfold save_chain_data. repeat (apply preserves_bind; [|intros _]).
    - exact (af_save_txs (I := I) ctx _ _).
    - exact (af_save_receipts (I := I) ctx _ _).
    - exact (rp_save_proof r b ctx _).
    - exact (rp_save_block r b ctx _). }
  apply (preserves_inv I) in Hq3; [|exact Hsave|done].
  by apply (preserves_inv I) in Hq4; [|exact (af_flush (I := I) ctx _)|].
Qed.

(** ** Headers the checks do not cover *)
(** The two headers differ at most in the bloom filter, the difficulty, the gas
    used and the nonce, which are neither part of the proposal the proof is
    about nor compared with the execution. *)
Definition forged (h h' : Header) : Prop :=
  h' = {| h_prev_hash := h_prev_hash h; h_proposer := h_proposer h; h_state_root := h_state_root h;
          h_transactions_root := h_transactions_root h; h_signed_txs_hash := h_signed_txs_hash h;
          h_receipts_root := h_receipts_root h; h_log_bloom := h_log_bloom h'; h_difficulty := h_difficulty h';
          h_timestamp := h_timestamp h; h_number := h_number h; h_gas_used := h_gas_used h';
          h_gas_limit := h_gas_limit h; h_extra_data := h_extra_data h; h_mixed_hash := h_mixed_hash h;
          h_nonce := h_nonce h'; h_base_fee_per_gas := h_base_fee_per_gas h; h_proof := h_proof h;
          h_last_checkpoint_block_hash := h_last_checkpoint_block_hash h; h_chain_id := h_chain_id h |}.

Definition with_header (h : Header) (rich : RichBlock) : RichBlock :=
  mkRichBlock (mkBlock h (b_tx_hashes (rb_block rich))) (rb_txs rich).

Lemma forged_proposal h h' hashes : forged h h' →
  Proposal_from_Block (mkBlock h' hashes) = Proposal_from_Block (mkBlock h hashes).
Proof. by intros ->. Qed.

Lemma forged_proof ctx h h' hashes pf (o : adapter) : forged h h' →
  (∀ m : Mt, mc_get_metadata ctx h' m = mc_get_metadata ctx h m) →
  verify_proof ctx (mkBlock h' hashes) pf o = verify_proof ctx (mkBlock h hashes) pf o.
Proof.
  intros Hf Hmd. unfold verify_proof. rewrite (forged_proposal h h') by done. cbn [b_header].
  assert (h_number h' = h_number h) as -> by (by rewrite Hf).
  destruct (_ =? 0); [done|]. destruct (negb _); [done|]. cbv zeta. destruct (negb _); [done|].
  apply bind_same; [|done]. unfold in_metadata, on_shared, on_mempool, on_adapter, on_metadata, zoom. by rewrite Hmd.
Qed.

Lemma forged_verify ctx h' rich (a : adapter) : forged (b_header (rb_block rich)) h' →
  (∀ m : Mt, mc_get_metadata ctx h' m = mc_get_metadata ctx (b_header (rb_block rich)) m) →
  verify_block ctx (with_header h' rich) a = verify_block ctx rich a.
Proof.
  intros Hf Hmd. destruct rich as [[h hashes] txs]. unfold verify_block, with_header. cbn [rb_block b_header rb_txs b_tx_hashes] in *.
  rewrite (forged_proposal h h') by done.
  assert (h_number h' = h_number h ∧ h_proof h' = h_proof h ∧ h_signed_txs_hash h' = h_signed_txs_hash h) as (-> & -> & ->)
    by (by rewrite Hf).
  apply bind_same; [done|]. intros pf a1. apply bind_same; [|done]. by apply forged_proof.
Qed.
End sync.
