(* ===== verification/ApiChain.v ===== *)
(** * The interface over the chain

    The queries of [core/api/src/jsonrpc/impl.rs] through the adapter of
    [core/api/src/adapter.rs], over a storage that holds a chain and a trie
    database that opens its state roots: what execution wrote is what a client
    reads, at the latest block and at any block below. *)

From S2P Require Import Prelude Types Codec RlpInstance Traits Heap Pool Executor MemPool ExecRefine.
From S2P Require Import Storage StorageLaws StorageProps Interoperation DefaultAdapter Precompiles Metadata Web3Types.
From S2P Require Import TrieInstance ExecProps MetadataProps AdapterProps CodecProps PoolProps EngineProps ChainProps.
From S2P Require Import ApiAdapter JsonRpc ApiProps Frame BlockTable Replica Tables.

Local Open Scope Z_scope.

(** The block an identifier names. *)
Definition block_named (L : ledger) (id : BlockId) : option Block :=
  match id with BlockNum n => ld_blocks L !! n | Latest => ld_latest L end.
Definition id_ok (id : BlockId) : Prop :=
  match id with BlockNum n => 0 ≤ n < 2 ^ 64 | Latest => True end.

(** A state root that opens the world [W]. *)
Definition opens_world `{R : Rlp} `{K : Keccak} `{!PatriciaTrie} (db : trie_db) (root : MerkleRoot) (W : World) : Prop :=
  ∃ m, opens db root m ∧ ∀ addr, h160_ok addr → abs_account db (m !! address_bytes addr) (W !! addr).

(** The answers for an account that does not exist. *)
Definition no_account : RpcError := CustomError (PE_API (API_Adapter "Cannot get account")).

Section queries.
Context `{R : Rlp} `{K : Keccak} `{!StaticMerkleTree} `{!PatriciaTrie} {St Mt Net : Type} `{!Storage St}
  `{!BlockTable St} `{!CodeTable St} `{!MetadataControl Mt} `{!Evm (AxonExecutorAdapter St)} `{!Interoperation}
  `{!PullRpc} `{!Secp256k1Verify} `{!ErrorText} `{!NetworkCount Net} `{!FasterHex}.
Local Abbreviation api := (DefaultAPIAdapter St Mt Net).

(** The interface of a node whose storage holds [L] and the codes [C]. *)
Definition api_holds (L : ledger) (C : gmap Hash bytes) (db : trie_db) (a : api) : Prop :=
  holds (ap_storage a) L ∧ serves_codes (ap_storage a) C ∧ ap_trie_db a = db.

Lemma in_storage_run {X} (m : M St ProtocolError X) L C db (a : api) s' o :
  api_holds L C db a → m (ap_storage a) = (s', o) → holds s' L →
  preserves (λ s, serves_codes s C) m →
  ∃ a', ap_in_storage m a = (a', o) ∧ api_holds L C db a'.
Proof.
  intros (Hh & Hc & Hdb) Hm Hs' Hp. specialize (Hp _ Hc). rewrite Hm in Hp.
  unfold ap_in_storage, ap_on_mempool, on_adapter, on_storage, zoom. unfold ap_storage in Hm. rewrite Hm.
  eexists. split; [reflexivity|]. by split.
Qed.

Lemma block_query L C db bid (a : api) : api_holds L C db a → id_ok bid →
  ∃ a', api_get_block_by_number ∅ (block_id_number bid) a =
    (a', match bid with
         | BlockNum n => Ok (ld_blocks L !! n)
         | Latest => Some <$> ok_or (ld_latest L) (PE_Storage GetNone)
         end) ∧ api_holds L C db a'.
Proof.
  intros Ha Hid. pose proof Ha as (Hh & _ & _). cbn [api_get_block_by_number default_api].
  destruct bid as [n|]; cbn [block_id_number default_get_block_by_number].
  - destruct (bt_block ∅ n _ _ Hh Hid) as (s' & E & Hs'). exact (in_storage_run _ L C db a s' _ Ha E Hs' (sf_get_block (I := λ s, serves_codes s C) ∅ n)).
  - destruct (bt_latest_block ∅ _ _ Hh) as (s' & E & Hs').
    destruct (in_storage_run _ L C db a s' _ Ha E Hs') as (a' & Ea & Ha');
      [apply (sf_get_latest_block (I := λ s, serves_codes s C))|].
    exists a'. destruct (ld_latest L) as [b|]; by mrun Ea.
Qed.

Lemma named_query L C db bid b (a : api) : api_holds L C db a → id_ok bid → block_named L bid = Some b →
  ∃ a', api_get_block_by_number ∅ (block_id_number bid) a = (a', Ok (Some b)) ∧ api_holds L C db a'.
Proof.
  intros Ha Hid Hb. destruct (block_query L C db bid a Ha Hid) as (a' & E & Ha'). exists a'. split; [|done].
  rewrite E. by destruct bid; cbn in Hb; rewrite Hb.
Qed.

(** ** Accounts *)
Lemma account_query L C db bid b W addr (a : api) : api_holds L C db a → id_ok bid → block_named L bid = Some b →
  opens_world db (h_state_root (b_header b)) W → h160_ok addr →
  ∃ a', api_holds L C db a' ∧
    match W !! addr with
    | Some w => ∃ acc, api_get_account ∅ addr (block_id_number bid) a = (a', Ok acc) ∧ acc_balance acc = w_balance w ∧
        acc_nonce acc = w_nonce w ∧ acc_code_hash acc = w_code_hash w
    | None => rpc (api_get_account ∅ addr (block_id_number bid)) a = (a', Err no_account)
    end.
Proof.
  intros Ha Hid Hb (m & (t & Ht & Hv) & Hm) Haddr.
  destruct (named_query L C db bid b a Ha Hid Hb) as (a' & E & Ha'). exists a'. split; [done|].
  specialize (Hm addr Haddr). pose proof Ha' as (_ & _ & Hdb).
  assert (∀ X (k : AxonExecutorAdapter St → M api ProtocolError X),
    (evm_backend (block_id_number bid) ≫= k) a = k (mkExecAdapter (ExecutorContext_from_Proposal (Proposal_from_Block b))
      (mkMPT (h_state_root (b_header b)) t) (ap_storage a') db) a') as Hback.
  { intros X k. apply bind_ok. unfold evm_backend. mrun E. cbn [ok_or]. msteps. unfold id.
    unfold ExecutorAdapter_from_root, MPTTrie_from_root. rewrite bind_gets, Hdb, Ht. done. }
  assert (∀ acc, m !! address_bytes addr = Some (encode c_account acc) → account_wf acc →
    default_get_account ∅ addr (block_id_number bid) a = (a', Ok acc)) as Hsome.
  { intros acc Hraw Hwf. unfold default_get_account. rewrite Hback. unfold adapter_get, MPTTrie_get. cbn [ea_db ea_trie mpt_trie].
    rewrite (pt_get_view _ _ _ _ Hv), Hraw. cbn [map_err ok_or]. msteps. by rewrite account_decode_encode. }
  destruct (W !! addr) as [w|]; cbn [abs_account] in Hm.
  - destruct Hm as (acc & Hraw & Hwf & Hn & Hbal & Hc & _). exists acc. split; [exact (Hsome acc Hraw Hwf)|done].
  - unfold rpc. cbn [api_get_account default_api]. unfold default_get_account. rewrite Hback.
    unfold adapter_get, MPTTrie_get. cbn [ea_db ea_trie mpt_trie]. by rewrite (pt_get_view _ _ _ _ Hv), Hm.
Qed.

(** Why a slot cannot be read: it was never written, or the account has no slots
    and the trie database does not open the empty root. *)
Definition no_slot (db : trie_db) (w : WAccount) (err : ProtocolError) : Prop :=
  err = PE_API (API_Adapter "Can't find this position") ∨
  w_slots w = ∅ ∧ ∃ c, pt_from db RLP_NULL = Err c ∧ err = trie_err c.

(** The storage trie of an account. *)
Lemma storage_trie db root w k : abs_storage db root (w_slots w) → h256_ok k →
  match MPTTrie_from_root root db with
  | Ok t => MPTTrie_get db t (to_be_bytes 32 k) = Ok (to_be_bytes 32 <$> w_slots w !! k)
  | Err err => w_slots w = ∅ ∧ no_slot db w err
  | Panic => False
  end.
Proof.
  intros [_ Hs] Hk. unfold MPTTrie_from_root. destruct (Z.eqb_spec root RLP_NULL) as [->|Hroot].
  - pose proof (pt_from_null db) as Hn. destruct (pt_from db RLP_NULL) as [t|c|] eqn:E; [|split; [done|right; eauto]|done].
    cbn [map_err mbind outcome_bind]. unfold MPTTrie_get. cbn [mpt_trie]. by rewrite (pt_get_view _ _ _ _ Hn), Hs, !lookup_empty.
  - destruct Hs as (sm & (t & Ht & Hv) & Hsm). rewrite Ht. cbn [map_err mbind outcome_bind]. unfold MPTTrie_get. cbn [mpt_trie].
    by rewrite (pt_get_view _ _ _ _ Hv), (Hsm k Hk).
Qed.

Lemma slot_query L C db bid b W addr k (a : api) : api_holds L C db a → id_ok bid → block_named L bid = Some b →
  opens_world db (h_state_root (b_header b)) W → h160_ok addr → h256_ok k →
  match W !! addr with
  | Some w =>
      match w_slots w !! k with
      | Some v => (get_storage_at addr k bid a).2 = Ok (Hex_encode (to_be_bytes 32 v))
      | None => ∃ err, (get_storage_at addr k bid a).2 = Err (CustomError err) ∧ no_slot db w err
      end
  | None => (get_storage_at addr k bid a).2 = Err (CustomError (PE_API (API_Adapter "Can't find this address")))
  end.
Proof.
  intros Ha Hid Hb (m & (t & Ht & Hv) & Hm) Haddr Hk.
  destruct (named_query L C db bid b a Ha Hid Hb) as (a' & E & Ha'). specialize (Hm addr Haddr).
  unfold get_storage_at. rewrite (bind_ok _ _ _ _ _ (rpc_ok _ _ _ _ E)). cbn [ok_or]. msteps.
  assert (∀ o, (api_get_storage_at ∅ addr k (h_state_root (b_header b)) a').2 = o →
    ((value ← rpc (api_get_storage_at ∅ addr k (h_state_root (b_header b))); mret (Hex_encode value)) a').2 =
    match o with Ok v => Ok (Hex_encode v) | Err err => Err (CustomError err) | Panic => Panic end) as Hrpc.
  { intros o <-. unfold mbind, M_bind, rpc. by destruct (api_get_storage_at _ _ _ _ a') as [? []]. }
  cbn [api_get_storage_at default_api] in Hrpc. unfold default_get_storage_at in Hrpc. rewrite bind_gets in Hrpc.
  destruct Ha' as (_ & _ & Hdb). rewrite Hdb in Hrpc.
  assert (MPTTrie_from_root (h_state_root (b_header b)) db = Ok (mkMPT (h_state_root (b_header b)) t)) as Eroot
    by (unfold MPTTrie_from_root; by rewrite Ht).
  assert (MPTTrie_get db (mkMPT (h_state_root (b_header b)) t) (address_bytes addr) = Ok (m !! address_bytes addr)) as Eget
    by (unfold MPTTrie_get; cbn [mpt_trie]; by rewrite (pt_get_view _ _ _ _ Hv)).
  rewrite Eroot, bind_lift_ok, Eget, bind_lift_ok in Hrpc.
  destruct (W !! addr) as [w|]; cbn [abs_account] in Hm.
  - destruct Hm as (acc & Hraw & Hwf & _ & _ & _ & Hs). rewrite Hraw in Hrpc. cbn [ok_or] in Hrpc.
    rewrite bind_lift_ok, account_decode_encode in Hrpc by done. cbn [expect] in Hrpc. rewrite bind_lift_ok in Hrpc.
    pose proof (storage_trie db _ w k Hs Hk) as Htr. destruct (MPTTrie_from_root (acc_storage_root acc) db) as [t'|err|]; [| |done].
    + rewrite bind_lift_ok, Htr, bind_lift_ok in Hrpc. destruct (w_slots w !! k) as [v|]; [exact (Hrpc _ eq_refl)|].
      eexists. split; [exact (Hrpc _ eq_refl)|by left].
    + destruct Htr as [He Hno]. rewrite He, lookup_empty. exists err. split; [exact (Hrpc _ eq_refl)|done].
  - rewrite Hm in Hrpc. exact (Hrpc _ eq_refl).
Qed.

(** The code behind a code hash. *)
Lemma code_query L C db h (a : api) : api_holds L C db a → code_hash_ok h →
  ∃ a', api_get_code_by_hash ∅ h a = (a', Ok (C !! h)).
Proof.
  intros (Hh & Hc & Hdb) Hok. destruct (ct_get ∅ h _ _ Hc Hok) as (s' & E & Hs').
  cbn [api_get_code_by_hash default_api]. unfold ap_in_storage, ap_on_mempool, on_adapter, on_storage, zoom.
  unfold ap_storage in E. rewrite E. by eexists.
Qed.

Lemma head_query L C db b (a : api) : api_holds L C db a → ld_latest L = Some b →
  ∃ a', api_get_block_header_by_number ∅ None a = (a', Ok (Some (b_header b))) ∧ api_holds L C db a'.
Proof.
  intros Ha Hb. pose proof Ha as (Hh & _ & _). destruct (bt_latest_header ∅ _ _ Hh) as (s' & E & Hs').
  destruct (in_storage_run _ L C db a s' _ Ha E Hs') as (a' & Ea & Ha');
    [apply (sf_get_latest_block_header (I := λ s, serves_codes s C))|].
  exists a'. split; [|done]. cbn [api_get_block_header_by_number default_api default_get_block_header_by_number].
  rewrite Hb in Ea. by mrun Ea.
Qed.
End queries.

(** ** Property *)
(** C12: A client reads what execution wrote.  Over a storage that holds a chain
    and a trie database that opens the state root of the block asked for, the
    block number is that of the latest block, and the queries for an account at
    that block, the latest or any other, answer with the balance, the nonce, the
    code (of a code hash that is no padded address) and the written slots of the
    world behind its root.  A slot that was never written is an error, whether
    or not the account has others, and so is every query for an account that
    does not exist. *)
Theorem account_queries `{R : Rlp} `{K : Keccak} `{!StaticMerkleTree} `{!PatriciaTrie} {St Mt Net : Type} `{!Storage St}
    `{!BlockTable St} `{!CodeTable St} `{!MetadataControl Mt} `{!Evm (AxonExecutorAdapter St)} `{!Interoperation}
    `{!PullRpc} `{!Secp256k1Verify} `{!ErrorText} `{!NetworkCount Net} `{!FasterHex}
    L C db bid b W addr (a : DefaultAPIAdapter St Mt Net) :
  api_holds L C db a → id_ok bid → block_named L bid = Some b →
  opens_world db (h_state_root (b_header b)) W → h160_ok addr →
  (∀ top, ld_latest L = Some top → (block_number a).2 = Ok (h_number (b_header top))) ∧
  match W !! addr with
  | Some w =>
      (get_balance addr bid a).2 = Ok (w_balance w) ∧
      (get_transaction_count addr (ById bid) a).2 = Ok (w_nonce w) ∧
      (code_hash_ok (w_code_hash w) →
       (get_code addr bid a).2 = Ok (match C !! w_code_hash w with Some c => Hex_encode c | None => Hex_empty end)) ∧
      ∀ k, h256_ok k →
       match w_slots w !! k with
       | Some v => (get_storage_at addr k bid a).2 = Ok (Hex_encode (to_be_bytes 32 v))
       | None => ∃ err, (get_storage_at addr k bid a).2 = Err (CustomError err) ∧ no_slot db w err
       end
  | None =>
      (get_balance addr bid a).2 = Err no_account ∧
      (get_transaction_count addr (ById bid) a).2 = Err no_account ∧ (get_code addr bid a).2 = Err no_account ∧
      ∀ k, h256_ok k →
       (get_storage_at addr k bid a).2 = Err (CustomError (PE_API (API_Adapter "Can't find this address")))
  end.
Proof.
  intros Ha Hid Hb HW Haddr. split.
  { intros top Htop. destruct (head_query L C db top a Ha Htop) as (a1 & E & _).
    unfold block_number, latest_header. by rewrite (bind_ok _ _ _ _ _ (bind_ok _ _ _ _ _ (rpc_ok _ _ _ _ E))). }
  destruct (account_query L C db bid b W addr a Ha Hid Hb HW Haddr) as (a1 & Ha1 & Hacc).
  assert (Hslot := λ k, slot_query L C db bid b W addr k a Ha Hid Hb HW Haddr).
  destruct (W !! addr) as [w|] eqn:Ew.
  - destruct Hacc as (acc & E & Hbal & Hn & Hc). apply rpc_ok in E.
    unfold get_balance, get_transaction_count, get_code. rewrite !(bind_ok _ _ _ _ _ E).
    split; [by rewrite <-Hbal|]. split; [by rewrite <-Hn|]. split; [|done].
    intros Hok. rewrite <-Hc in Hok |- *. destruct (code_query L C db _ a1 Ha1 Hok) as (a2 & E2).
      by rewrite (bind_ok _ _ _ _ _ (rpc_ok _ _ _ _ E2)).
  - unfold get_balance, get_transaction_count, get_code. by rewrite !(bind_err _ _ _ _ _ Hacc).
Qed.

(** ** Witness *)
(** A block whose state root opens a world with the account 77. *)
Lemma opens_world_from_root `{R : Rlp} `{K : Keccak} `{!PatriciaTrie} {St : Type} `{!Storage St} root db (s : St) ctx a W :
  ExecutorAdapter_from_root root db s ctx = Ok a → represents a W → opens_world db root W.
Proof.
  unfold ExecutorAdapter_from_root, MPTTrie_from_root. destruct (pt_from db root) as [t| |] eqn:Ht; [|done..].
  intros [= <-] (m & Hv & Hm). exists m. split; [by exists t|done].
Qed.

#[local] Existing Instance log_trie.
#[local] Existing Instances plain_hex echo_abi echo_evm any_interop any_secp no_peer no_text keys_differ.
#[local] Instance no_count : NetworkCount unit := {| nw_peer_count _ _ := Ok 0 |}.

Definition start_world : AxonExecutorAdapter sample_storage :=
  mkExecAdapter sample_ctx MPTTrie_new (ImplStorage_new MemoryAdapter_new) ([] : list content).
Definition paid_world : AxonExecutorAdapter sample_storage :=
  (apply_account 77 (mkBasic 500 3) None [(1, 2)] false start_world).1.
Definition paid_header : Header :=
  mkHeader 0 0 (state_root paid_world) 0 0 0 0 0 0 5 0 0 [] None 0 0 (mkProof 0 0 0 [] []) 0 0.
Definition paid_block : Block := mkBlock paid_header [].
Definition paid_ledger : ledger := add_block paid_block no_ledger.
Definition paid_api : DefaultAPIAdapter sample_storage (MetadataController unit) unit :=
  mkDefaultAPIAdapter (mkMemPool (sample_pool 5 [])
    (DefaultMemPoolAdapter_new (insert_block ∅ paid_block new_storage).1 (ea_db paid_world) four_metadata 0 ∅ 7 30000 100000)) tt.

Definition paid_accounts : World := w_apply ∅ 77 (mkBasic 500 3) NIL_DATA [(1, 2)] false.
Lemma paid_opens : opens_world (ea_db paid_world) (h_state_root paid_header) paid_accounts.
Proof.
  destruct (apply_account_sim start_world ∅ 77 (mkBasic 500 3) None [(1, 2)] false) as (a' & E & _ & _ & a2 & Hf & Hr);
    [|done|done|done|by repeat constructor|done|].
  - exists ∅. split; [done|]. intros addr _. cbn. by rewrite !lookup_empty.
  - change (h_state_root paid_header) with (state_root paid_world).
    assert (paid_world = a') as -> by (unfold paid_world; by rewrite E). exact (opens_world_from_root _ _ _ _ _ _ Hf Hr).
Qed.

Lemma paid_holds : api_holds paid_ledger ∅ (ea_db paid_world) paid_api.
Proof.
  split; [|split; [|done]].
  - destruct (insert_block_table ∅ paid_block new_storage no_ledger new_table) as (s' & Hi & Ht);
      [by repeat constructor|done|]. unfold ap_storage. cbn. by rewrite Hi.
  - apply insert_block_coded, empty_codes. reflexivity.
Qed.

Lemma paid_named : block_named paid_ledger (BlockNum 5) = Some paid_block.
Proof. apply lookup_insert_eq. Qed.

Lemma paid_ids : id_ok (BlockNum 5) ∧ h160_ok 77 ∧ h160_ok 78 ∧ h256_ok 1.
Proof. done. Qed.
Lemma account_queries_witness :
  (get_balance 77 Latest paid_api).2 = Ok 500 ∧ (get_balance 78 (BlockNum 5) paid_api).2 = Err no_account ∧
  (get_storage_at 77 1 (BlockNum 5) paid_api).2 = Ok (Hex_encode (to_be_bytes 32 2)) ∧
  (get_storage_at 78 1 (BlockNum 5) paid_api).2 = Err (CustomError (PE_API (API_Adapter "Can't find this address"))).
Proof.
  pose proof paid_ids as (Hid & H77 & H78 & H1).
  destruct (account_queries paid_ledger ∅ (ea_db paid_world) Latest paid_block paid_accounts 77 paid_api paid_holds I eq_refl
    paid_opens H77) as (_ & Hb & _).
  destruct (account_queries paid_ledger ∅ (ea_db paid_world) (BlockNum 5) paid_block paid_accounts 78 paid_api paid_holds Hid
    paid_named paid_opens H78) as (_ & Hn & _ & _ & Hno).
  destruct (account_queries paid_ledger ∅ (ea_db paid_world) (BlockNum 5) paid_block paid_accounts 77 paid_api paid_holds Hid
    paid_named paid_opens H77) as (_ & _ & _ & _ & Hs).
  split; [exact Hb|]. split; [exact Hn|]. split; [exact (Hs 1 H1)|exact (Hno 1 H1)].
Defined.
