(* ===== verification/ConsensusMsg.v ===== *)
(** * Consensus messages

    The way of a consensus message through a node: what [ConsensusEngine] sends
    ([core/consensus/src/engine.rs]), [OverlordConsensus] ([consensus.rs]), the
    newtypes and the message handlers of [message.rs], the messages of
    [types.rs], [transmit] of [adapter.rs] over the network's gossip, and the
    registration of the handlers in [core/run/src/lib.rs].  Spans are left
    out. *)

From S2P Require Import Prelude Types Codec Traits.
From S2P Require Import Executor Storage DefaultAdapter Metadata Overlord Wal Engine ConsensusAdapterImpl Sync.
From S2P Require Import NetAddr AddrManager PeerStore PeerManager Numbers Endpoint Router.

Local Open Scope Z_scope.

(** ** Endpoints *)
Definition END_GOSSIP_SIGNED_PROPOSAL : string := "/gossip/consensus/signed_proposal".
Definition END_GOSSIP_SIGNED_VOTE : string := "/gossip/consensus/signed_vote".
Definition END_GOSSIP_AGGREGATED_VOTE : string := "/gossip/consensus/qc".
Definition END_GOSSIP_SIGNED_CHOKE : string := "/gossip/consensus/signed_choke".
Definition RPC_RESP_SYNC_PULL_BLOCK : string := "/rpc_resp/consensus/sync_pull_block".
Definition RPC_SYNC_PULL_TXS : string := "/rpc_call/consensus/sync_pull_txs".
Definition RPC_RESP_SYNC_PULL_TXS : string := "/rpc_resp/consensus/sync_pull_txs".
Definition BROADCAST_HEIGHT : string := "/gossip/consensus/broadcast_height".
Definition RPC_SYNC_PULL_PROOF : string := "/rpc_call/consensus/sync_pull_proof".
Definition RPC_RESP_SYNC_PULL_PROOF : string := "/rpc_resp/consensus/sync_pull_proof".
(** of the mempool's [message.rs] *)
Definition END_GOSSIP_NEW_TXS : string := "/gossip/mempool/new_txs".
Definition RPC_PULL_TXS : string := "/rpc_call/mempool/pull_txs".
Definition RPC_RESP_PULL_TXS : string := "/rpc_resp/mempool/pull_txs".
Definition RPC_RESP_PULL_TXS_SYNC : string := "/rpc_resp/mempool/pull_txs_sync".

(** ** [overlord]'s messages *)
(** [rlp_bytes] and [decode] of the four message types of [overlord]. *)
Class OverlordMessages := {
  SignedProposal : Type;
  SignedVote : Type;
  AggregatedVote : Type;
  SignedChoke : Type;
  sp_bytes : SignedProposal → bytes;
  sp_decode : bytes → option SignedProposal;
  sv_bytes : SignedVote → bytes;
  sv_decode : bytes → option SignedVote;
  av_bytes : AggregatedVote → bytes;
  av_decode : bytes → option AggregatedVote;
  sc_bytes : SignedChoke → bytes;
  sc_decode : bytes → option SignedChoke;
  sp_decode_bytes m : sp_decode (sp_bytes m) = Some m;
  sv_decode_bytes m : sv_decode (sv_bytes m) = Some m;
  av_decode_bytes m : av_decode (av_bytes m) = Some m;
  sc_decode_bytes m : sc_decode (sc_bytes m) = Some m
}.

(** [PublicKey::secp256k1_raw_key] and [PeerId::from_public_key] *)
Class PeerKeys `{!Tentacle} := {
  peer_id_of_key : bytes → option PeerId;
  (** [PeerId::from_bytes] reads what [into_bytes] wrote. *)
  peer_id_bytes id : peer_id_from_bytes (peer_id_as_bytes id) = Some id
}.

Section messages.
Context `{R : Rlp} `{!OverlordMessages}.

Inductive OverlordMsg : Type :=
| Msg_SignedProposal (sp : SignedProposal)
| Msg_SignedVote (sv : SignedVote)
| Msg_AggregatedVote (av : AggregatedVote)
| Msg_RichStatus (s : Status)
| Msg_SignedChoke (sc : SignedChoke)
| Msg_Stop.

(** *** [overlord_message!]: the newtypes of the handlers' messages *)
Record OverlordBytes := mkOverlordBytes { ob_inner : bytes }.
Definition Proposal_from (m : SignedProposal) : OverlordBytes := mkOverlordBytes (sp_bytes m).
Definition Vote_from (m : SignedVote) : OverlordBytes := mkOverlordBytes (sv_bytes m).
Definition QC_from (m : AggregatedVote) : OverlordBytes := mkOverlordBytes (av_bytes m).
Definition Choke_from (m : SignedChoke) : OverlordBytes := mkOverlordBytes (sc_bytes m).
Definition to_vec (b : OverlordBytes) : bytes := ob_inner b.
(** The error names [SignedChoke] for all four. *)
Definition OverlordBytes_encode (b : OverlordBytes) : ProtocolResult bytes := Ok (ob_inner b).
Definition OverlordBytes_decode (b : bytes) : ProtocolResult OverlordBytes :=
  inner ← map_err (λ _, PE_Consensus (DecodeErr CT_SignedChoke)) (decode c_bytes b);
  Ok (mkOverlordBytes inner).

(** *** What the engine sends *)
Definition broadcast_content (msg : OverlordMsg) : ProtocolResult (string * bytes) :=
  match msg with
  | Msg_SignedProposal sp => Ok (END_GOSSIP_SIGNED_PROPOSAL, sp_bytes sp)
  | Msg_AggregatedVote av => Ok (END_GOSSIP_AGGREGATED_VOTE, av_bytes av)
  | Msg_SignedChoke sc => Ok (END_GOSSIP_SIGNED_CHOKE, sc_bytes sc)
  | _ => Panic
  end.
Definition relay_content (msg : OverlordMsg) : ProtocolResult (string * bytes) :=
  match msg with
  | Msg_SignedVote sv => Ok (END_GOSSIP_SIGNED_VOTE, sv_bytes sv)
  | Msg_AggregatedVote av => Ok (END_GOSSIP_AGGREGATED_VOTE, av_bytes av)
  | _ => Panic
  end.

(** *** [types.rs] *)
Record PullTxsRequest := mkPullTxsRequest { ptr_height : Z; ptr_inner : list Hash }.
Definition PullTxsRequest_rlp_append (q : PullTxsRequest) : item :=
  rlp_list [enc c_u64 (ptr_height q); enc (c_vec c_h256) (ptr_inner q)].
Definition PullTxsRequest_decode (r : item) : outcome DecoderError PullTxsRequest :=
  height ← val_at c_u64 r 0;
  inner ← list_at c_h256 r 1;
  Ok (mkPullTxsRequest height inner).
Definition PullTxsRequest_codec : codec item PullTxsRequest :=
  mkCodec PullTxsRequest_rlp_append PullTxsRequest_decode.

Inductive ConsensusRpcResponse : Type :=
| PullBlocks (b : Block)
| PullTxs (txs : list SignedTransaction).
Definition ConsensusRpcResponse_encode_msg (r : ConsensusRpcResponse) : ProtocolResult bytes :=
  match r with
  | PullBlocks ep => Ok (encode Block_codec ep ++ [x61])
  | PullTxs txs => tmp ← encode_signed_txs txs; Ok (tmp ++ [x62])
  end.
End messages.

Section response_decode.
Context `{R : Rlp} `{K : Keccak}.
(** [bytes.len() - 1] is checked; an unknown flag is [unreachable!]. *)
Definition ConsensusRpcResponse_decode_msg (b : bytes) : ProtocolResult ConsensusRpcResponse :=
  len ← u64_sub (Z.of_nat (length b)) 1;
  let flag := drop (Z.to_nat len) b in
  let b := take (Z.to_nat len) b in
  if decide (flag = [x61]) then
    res ← map_err PE_Codec (decode Block_codec b);
    Ok (PullBlocks res)
  else if decide (flag = [x62]) then
    res ← map_err (λ _, PE_Consensus (DecodeErr CT_RpcPullTxs)) (decode_signed_txs b);
    Ok (PullTxs res)
  else Panic.
End response_decode.

(** ** The engine's outgoing side *)
Section engine.
Context `{R : Rlp} `{K : Keccak} `{!StaticMerkleTree} `{!Overlord} `{!EthBloom} `{!Bls}
  `{!FasterHex} `{!WalName} `{!OverlordMessages} {A : Type} `{!ConsensusAdapter A}.
Local Abbreviation EM := (M (ConsensusEngine A) ProtocolError).

Definition broadcast_to_other (ctx : Context) (msg : OverlordMsg) : EM unit :=
  out ← lift (broadcast_content msg);
  ask (ca_transmit ctx out.2 out.1 Broadcast).

Definition transmit_to_relayer (ctx : Context) (pub_key : bytes) (msg : OverlordMsg) : EM unit :=
  out ← lift (relay_content msg);
  ask (ca_transmit ctx out.2 out.1 (Specified pub_key)).

(** [Wal for ConsensusEngine]: saving cannot fail once a fresh time was read, an
    error of loading is no record. *)
Definition engine_wal_save (clock : list Z) (info : bytes) (w : ConsensusWal)
    : option (ConsensusWal * ProtocolResult unit) :=
  (λ w', (w', Ok tt)) <$> update_overlord_wal clock info w.
Definition engine_wal_load (fuel : nat) (w : ConsensusWal) : option (ProtocolResult (option bytes)) :=
  (λ r, match r with Ok b => Ok (Some b) | Err _ => Ok None | Panic => Panic end) <$> load_overlord_wal fuel w.

(** ** [OverlordConsensus] *)
(** What was sent to the running [overlord]; [None] once it has stopped and its
    channel is closed. *)
Record OverlordConsensus := mkOverlordConsensus { oc_handler : option (list OverlordMsg) }.
Local Abbreviation CM := (M OverlordConsensus ProtocolError).

(** [self.handler.send_msg(..).expect(..)] *)
Definition send_msg (msg : OverlordMsg) : CM unit := λ c,
  match oc_handler c with
  | Some queue => (mkOverlordConsensus (Some (queue ++ [msg])), Ok tt)
  | None => (c, Panic)
  end.

Definition set_proposal (proposal : bytes) : CM unit :=
  signed_proposal ← lift (ok_or (sp_decode proposal) (PE_Consensus (DecodeErr CT_SignedProposal)));
  send_msg (Msg_SignedProposal signed_proposal).
Definition set_vote (vote : bytes) : CM unit :=
  signed_vote ← lift (ok_or (sv_decode vote) (PE_Consensus (DecodeErr CT_SignedVote)));
  send_msg (Msg_SignedVote signed_vote).
Definition set_qc (qc : bytes) : CM unit :=
  aggregated_vote ← lift (ok_or (av_decode qc) (PE_Consensus (DecodeErr CT_AggregateVote)));
  send_msg (Msg_AggregatedVote aggregated_vote).
Definition set_choke (choke : bytes) : CM unit :=
  signed_choke ← lift (ok_or (sc_decode choke) (PE_Consensus (DecodeErr CT_SignedChoke)));
  send_msg (Msg_SignedChoke signed_choke).

(** [OverlordConsensus::new] once the engine is made: a node whose last block is
    the genesis block starts [overlord] at once. *)
Definition OverlordConsensus_start : EM OverlordConsensus :=
  status ← gets ce_status;
  next ← lift (u64_add (cs_last_number status) 1);
  metadata ← ask (ca_get_metadata_unchecked ∅ next);
  if cs_last_number status =? 0 then
    validators ← lift (traverse Validator_from (md_verifier_list metadata));
    mret (mkOverlordConsensus (Some [Msg_RichStatus (gen_overlord_status next (md_interval metadata)
      (md_propose_ratio metadata) (md_prevote_ratio metadata) (md_precommit_ratio metadata)
      (md_brake_ratio metadata) validators)]))
  else mret (mkOverlordConsensus (Some [])).
Definition OverlordConsensus_new (status : CurrentStatus) (metadata_address : H160) (node_info : NodeInfo)
    (crypto : OverlordCrypto) (txs_wal : SignedTxsWAL) (adapter : A) (interval : Z)
    : ConsensusEngine A * ProtocolResult OverlordConsensus :=
  OverlordConsensus_start (ConsensusEngine_new status metadata_address node_info txs_wal adapter crypto interval).
End engine.

(** ** Message handlers *)
Section handlers.
Context `{R : Rlp} `{!OverlordMessages} `{!ErrorText}.
Local Abbreviation CM := (M OverlordConsensus ProtocolError).

Definition feedback (set : bytes → CM unit) (msg : OverlordBytes) : CM TrustFeedback :=
  r ← try (set (to_vec msg));
  match r with
  | Err e => mret (Worse (error_text e))
  | _ => mret Good
  end.
Definition ProposalMessageHandler_process : OverlordBytes → CM TrustFeedback := feedback set_proposal.
Definition VoteMessageHandler_process : OverlordBytes → CM TrustFeedback := feedback set_vote.
Definition QCMessageHandler_process : OverlordBytes → CM TrustFeedback := feedback set_qc.
Definition ChokeMessageHandler_process : OverlordBytes → CM TrustFeedback := feedback set_choke.
End handlers.

Section remote_height.
Context `{R : Rlp} `{K : Keccak} `{!Overlord} `{!EthBloom} `{!FasterHex} {A : Type} `{!SynchronizationAdapter A}
  `{!ErrorText}.

Definition RemoteHeightMessageHandler_process (ctx : Context) (after_sleep : CurrentStatus) (remote_height : Z)
    : M (OverlordSynchronization A) ProtocolError TrustFeedback :=
  r ← try (receive_remote_block ctx after_sleep remote_height);
  match r with
  | Err e =>
      if decide (is_Some (String.index 0 "timeout" (error_text e)))
      then mret (Bad "sync block timeout")
      else mret (Bad (error_text e))
  | _ => mret Good
  end.
End remote_height.

(** *** The pull handlers *)
Section pull.
Context `{R : Rlp} `{K : Keccak} `{!Tentacle} `{!NetworkCodec} `{!Tracer} `{!ErrorText} {St : Type} `{!Storage St}.

(** What the handlers share with the node: its storage and its network. *)
Record PullServer := mkPullServer { ps_storage : St; ps_rpc : MessageRouter }.
Local Abbreviation PM := (M PullServer ProtocolError).
Definition set_ps_storage (s : St) (p : PullServer) : PullServer := mkPullServer s (ps_rpc p).
Definition on_ps_storage {X} (m : M St ProtocolError X) : PM X := zoom ps_storage set_ps_storage m.

(** [ret.map_err(to_string)] and the encoding in [response] *)
Definition rpc_answer {X} (encode_msg : X → ProtocolResult bytes) (ret : ProtocolResult X)
    : outcome NetworkError RpcResponse :=
  match ret with
  | Ok m => data ← map_err NE_Boxed (encode_msg m); Ok (Success data)
  | Err e => Ok (RpcError (String.list_byte_of_string (error_text e)))
  | Panic => Panic
  end.

(** [self.rpc.response(..).unwrap_or_else(warn)] *)
Definition respond (cx : NetContext) (endpoint : string) (ret : outcome NetworkError RpcResponse) : PM unit := λ p,
  let '(r, o) := response cx (chars_of endpoint) ret High (ps_rpc p) in
  (mkPullServer (ps_storage p) r, match o with Panic => Panic | _ => Ok tt end).

Definition PullBlockRpcHandler_process (ctx : Context) (cx : NetContext) (msg : Z) : PM TrustFeedback :=
  ret ← try (on_ps_storage (pull_block_answer ctx msg));
  respond cx RPC_RESP_SYNC_PULL_BLOCK (rpc_answer (λ b, Ok (encode Block_codec b)) ret);;
  mret Neutral.
Definition PullProofRpcHandler_process (ctx : Context) (cx : NetContext) (msg : Z) : PM TrustFeedback :=
  ret ← try (on_ps_storage (pull_proof_answer ctx msg));
  respond cx RPC_RESP_SYNC_PULL_PROOF (rpc_answer (λ p, Ok (encode Proof_codec p)) ret);;
  mret Neutral.
Definition PullTxsRpcHandler_process (ctx : Context) (cx : NetContext) (msg : PullTxsRequest) : PM TrustFeedback :=
  ret ← try (on_ps_storage (pull_txs_answer ctx (ptr_height msg) (ptr_inner msg)));
  respond cx RPC_RESP_SYNC_PULL_TXS (rpc_answer encode_signed_txs ret);;
  mret Neutral.
End pull.

(** ** [transmit] of the consensus adapter, over the network's gossip *)
Section transmit.
Context `{R : Rlp} `{!Tentacle} `{!IpNetworks} `{!Randomness} `{!NetworkCodec} `{!Tracer} `{!PeerKeys}.

(** [PeerIdExt::from_pubkey_bytes] *)
Definition from_pubkey_bytes (b : bytes) : outcome NetworkError PeerId := ok_or (peer_id_of_key b) InvalidPublicKey.

(** A [Vec<u8>] is encoded as an RLP string. *)
Definition adapter_transmit (now_ms : Z) (cx : NetContext) (msg : bytes) (endpoint : string) (target : MessageTarget)
    : M NetworkGossip NetworkError unit :=
  match target with
  | Broadcast => broadcast cx (chars_of endpoint) (Ok (encode c_bytes msg)) High
  | Specified pub_key =>
      peer ← lift (from_pubkey_bytes pub_key);
      multicast now_ms cx (chars_of endpoint) [peer_id_as_bytes peer] (Ok (encode c_bytes msg)) High
  end.
End transmit.

(** ** Registration of the handlers *)
Section register.
Context `{R : Rlp} `{K : Keccak} `{!Tentacle} `{!NetworkCodec} `{!Tracer} `{!OverlordMessages} `{!ErrorText}.
Local Abbreviation MR := (M MessageRouter NetworkError).

(** [M::decode_msg] of a handler's message *)
Definition reactor_of {X} (decode_msg : bytes → ProtocolResult X) : Reactor :=
  mkReactor (λ b, _ ← map_err NE_Boxed (decode_msg b); Ok tt).
Definition rlp_reactor {X} (c : codec item X) : Reactor := reactor_of (λ b, map_err PE_Codec (decode c b)).
Definition overlord_reactor : Reactor := reactor_of OverlordBytes_decode.

(** The endpoints and handlers of the messages of [overlord] *)
Definition gossip_handlers : list (string * (OverlordBytes → M OverlordConsensus ProtocolError TrustFeedback)) :=
  [(END_GOSSIP_SIGNED_PROPOSAL, ProposalMessageHandler_process);
   (END_GOSSIP_AGGREGATED_VOTE, QCMessageHandler_process);
   (END_GOSSIP_SIGNED_VOTE, VoteMessageHandler_process);
   (END_GOSSIP_SIGNED_CHOKE, ChokeMessageHandler_process)].
Definition register_gossip_handlers : MR unit :=
  for_each (λ h, register_endpoint_handler (chars_of h.1) overlord_reactor) gossip_handlers;;
  register_endpoint_handler (chars_of BROADCAST_HEIGHT) (rlp_reactor c_u64).
Definition register_pull_handlers : MR unit :=
  register_endpoint_handler (chars_of RPC_SYNC_PULL_BLOCK) (rlp_reactor c_u64);;
  register_endpoint_handler (chars_of RPC_SYNC_PULL_PROOF) (rlp_reactor c_u64);;
  register_endpoint_handler (chars_of RPC_SYNC_PULL_TXS) (rlp_reactor PullTxsRequest_codec);;
  register_rpc_response (chars_of RPC_RESP_SYNC_PULL_BLOCK);;
  register_rpc_response (chars_of RPC_RESP_SYNC_PULL_PROOF);;
  register_rpc_response (chars_of RPC_RESP_SYNC_PULL_TXS).
Definition register_consensus_handlers : MR unit := register_gossip_handlers;; register_pull_handlers.
End register.
