(* ===== verification/ConsensusMsgProps.v ===== *)
(** * Consensus messages arrive

    A message of [overlord] that the engine of one node sends is, on a node that
    receives it, appended unchanged to what that node's [overlord] is given; a
    block that a node pulls from a peer is the one in the peer's storage; the
    messages of [core/consensus/src/types.rs] survive their codecs. *)

From S2P Require Import Prelude Types Codec RlpInstance CodecProps Traits.
From S2P Require Import Executor Storage DefaultAdapter Metadata Overlord Wal Engine ConsensusAdapterImpl Sync.
From S2P Require Import NetAddr AddrManager PeerStore PeerManager Numbers Endpoint Router Protocols RouterProps.
From S2P Require Import NetServiceProps ConsensusMsg StorageProps StorageTxProps BlockTable ChainProps RocksLaws.

Local Open Scope Z_scope.

(** ** Tables *)
Lemma foldr_insert_lookup {A} (m : gmap chars A) (l : list (chars * A)) k v : NoDup l.*1 → (k, v) ∈ l →
  foldr (λ kv m, <[kv.1 := kv.2]> m) m l !! k = Some v.
Proof.
  intros Hnd. induction l as [|[k' v'] l IH]; intros Hin; [by apply elem_of_nil in Hin|].
  apply NoDup_cons in Hnd as [Hk Hnd]. cbn. apply elem_of_cons in Hin as [[= -> ->]|Hin].
  { by rewrite lookup_insert_eq. }
  rewrite lookup_insert_ne; [by apply IH|]. intros ->. apply Hk, list_elem_of_fmap. by exists (k, v).
Qed.

Section gossip.
Context `{R : Rlp} `{K : Keccak} `{!Tentacle} `{!IpNetworks} `{!Randomness} `{!NetworkCodec} `{!Tracer}
  `{!PeerKeys} `{!OverlordMessages} `{!ErrorText}.
Implicit Types (r : MessageRouter).

(** ** Registration *)
(** What registering adds, last first. *)
Definition consensus_reactors : list (chars * Reactor) :=
  [(chars_of RPC_RESP_SYNC_PULL_TXS, mkReactor (λ _, Ok tt));
   (chars_of RPC_RESP_SYNC_PULL_PROOF, mkReactor (λ _, Ok tt));
   (chars_of RPC_RESP_SYNC_PULL_BLOCK, mkReactor (λ _, Ok tt));
   (chars_of RPC_SYNC_PULL_TXS, rlp_reactor PullTxsRequest_codec);
   (chars_of RPC_SYNC_PULL_PROOF, rlp_reactor c_u64);
   (chars_of RPC_SYNC_PULL_BLOCK, rlp_reactor c_u64);
   (chars_of BROADCAST_HEIGHT, rlp_reactor c_u64);
   (chars_of END_GOSSIP_SIGNED_CHOKE, overlord_reactor);
   (chars_of END_GOSSIP_SIGNED_VOTE, overlord_reactor);
   (chars_of END_GOSSIP_AGGREGATED_VOTE, overlord_reactor);
   (chars_of END_GOSSIP_SIGNED_PROPOSAL, overlord_reactor)].

Lemma register_handlers_run r : register_consensus_handlers r =
  (set_reactor_map (foldr (λ kv m, <[kv.1 := kv.2]> m) (reactor_map r) consensus_reactors) r, Ok tt).
Proof. reflexivity. Qed.

Lemma registered r0 r k v : register_consensus_handlers r0 = (r, Ok tt) → (k, v) ∈ consensus_reactors →
  reactor_map r !! k = Some v.
Proof.
  rewrite register_handlers_run. intros E%(f_equal fst) Hin. cbn [fst] in E. subst r.
  cbn [reactor_map set_reactor_map]. apply foldr_insert_lookup; [|done].
  apply (bool_decide_unpack _). vm_compute. exact I.
Qed.

(** ** Gossip *)
(** The context the handler of a gossip message is given. *)
Definition gossip_context (peer : RemotePeer) (cx : NetContext) : NetContext :=
  mkNetContext (Some (rp_session_id peer)) (Some (rp_peer_id peer)) None None (nc_span cx).

Lemma react_gossip peer reactor e cx content r : scheme e = Ok Gossip → rx_decode reactor content = Ok tt →
  span_ok cx → react peer reactor e (mkNetworkMessage (span_headers cx) (full_url e) content) r =
    (set_delivered (delivered r ++ [(full_url e, gossip_context peer cx, content)]) r, Ok tt).
Proof.
  intros Hs Hdec Hspan. unfold react.
  destruct (span_headers_read cx (full_url e) content Hspan) as [-> ->]. rewrite !bind_lift_ok, Hs, bind_lift_ok.
  cbn [nm_content]. rewrite Hdec, bind_lift_ok, span_pair. done.
Qed.

(** The endpoints of the gossip handlers. *)
Lemma gossip_endpoint endpoint h : (endpoint, h) ∈ gossip_handlers →
  let e := mkEndpoint (chars_of endpoint) in
  parse_endpoint (chars_of endpoint) = Ok e ∧ scheme e = Ok Gossip ∧ root e = Ok (chars_of endpoint) ∧
  (chars_of endpoint, overlord_reactor) ∈ consensus_reactors.
Proof.
  intros Hin e. apply list_elem_of_lookup in Hin as [i Hi].
  do 4 (destruct i as [|i]; [injection Hi as <- _; subst e; split_and!; [reflexivity..|]; unfold consensus_reactors;
    repeat first [apply list_elem_of_here|apply list_elem_of_further]|]). done.
Qed.

(** What one node packs, the router of another hands to the handler. *)
Lemma gossip_route endpoint h cx raw peer r0 r : (endpoint, h) ∈ gossip_handlers → span_ok cx →
  register_consensus_handlers r0 = (r, Ok tt) →
  let content := encode c_bytes raw in
  ∃ data, package_message cx (chars_of endpoint) (Ok content) = Ok data ∧
    route_message peer data r =
      (set_delivered (delivered r ++ [(chars_of endpoint, gossip_context peer cx, content)]) r, Ok tt) ∧
    OverlordBytes_decode content = Ok (mkOverlordBytes raw).
Proof.
  intros Hh Hspan Hreg content. destruct (gossip_endpoint _ _ Hh) as (Hp & Hs & Hr & Hin).
  pose proof (registered _ _ _ _ Hreg Hin) as Hre.
  assert (OverlordBytes_decode content = Ok (mkOverlordBytes raw)) as Hdec.
  { unfold OverlordBytes_decode, content. by rewrite (decode_encode_lawful (λ _, True)) by eauto with codec. }
  eexists. split; [|split; [|done]].
  { unfold package_message. by rewrite Hp. }
  apply parse_endpoint_iff in Hp as [_ Hwf].
  rewrite (route_message_run peer overlord_reactor _ cx content (chars_of endpoint) r) by done.
  apply react_gossip; [done| |done]. unfold overlord_reactor, reactor_of. cbn [rx_decode]. by rewrite Hdec.
Qed.

(** What is sent, and the handler that the receiver has for it. *)
Definition sends (m : OverlordMsg) (endpoint : string) (raw : bytes) : Prop :=
  broadcast_content m = Ok (endpoint, raw) ∨ relay_content m = Ok (endpoint, raw).

Lemma sent_handled m endpoint raw : sends m endpoint raw → ∃ h, (endpoint, h) ∈ gossip_handlers ∧
  ∀ queue, h (mkOverlordBytes raw) (mkOverlordConsensus (Some queue)) =
    (mkOverlordConsensus (Some (queue ++ [m])), Ok Good).
Proof.
  intros [Hm|Hm]; destruct m; try done; injection Hm as <- <-; eexists;
    (split; [unfold gossip_handlers; repeat first [apply list_elem_of_here|apply list_elem_of_further]|]); intros queue;
    unfold ProposalMessageHandler_process, QCMessageHandler_process, VoteMessageHandler_process,
      ChokeMessageHandler_process, feedback, set_proposal, set_qc, set_vote, set_choke; cbn;
    unfold to_vec; cbn; by rewrite ?sp_decode_bytes, ?sv_decode_bytes, ?av_decode_bytes, ?sc_decode_bytes.
Qed.

Lemma for_each_dials (dials : list Multiaddr) (g : NetworkGossip) :
  for_each (λ addr, transmit (GossipDial addr)) dials g =
    (mkNetworkGossip (gossip_peers g) (transmitter g ++ (GossipDial <$> dials)), Ok tt).
Proof.
  revert g. induction dials as [|a l IH]; intros g; cbn; [by rewrite app_nil_r; destruct g|].
  change (for_each (λ addr, transmit (GossipDial addr)) l (mkNetworkGossip (gossip_peers g) (transmitter g ++ [GossipDial a])) =
    (mkNetworkGossip (gossip_peers g) (transmitter g ++ GossipDial a :: (GossipDial <$> l)), Ok tt)).
  rewrite IH. cbn. by rewrite <-app_assoc.
Qed.

(** A message to one peer: to the session it has, or to none when it has to be
    dialed. *)
Lemma transmit_specified now_ms cx raw endpoint key data (g : NetworkGossip) :
  package_message cx (chars_of endpoint) (Ok (encode c_bytes raw)) = Ok data →
  adapter_transmit now_ms cx raw endpoint (Specified key) g =
  match peer_id_of_key key with
  | None => (g, Err InvalidPublicKey)
  | Some id => let mgr := gossip_peers g in
      match on_peers (online mgr) !! id with
      | Some info => (mkNetworkGossip mgr (transmitter g ++ [BroadcastTo [pi_session_id info] High data]), Ok tt)
      | None =>
          match fetch_addr_by_peer_id now_ms id (peer_store mgr) with
          | Ok addrs =>
              (mkNetworkGossip (set_peer_store (mark_all_tried now_ms (iter_order (elements addrs)) (peer_store mgr)) mgr)
                 (transmitter g ++ (GossipDial <$> iter_order (elements addrs)) ++ [BroadcastTo [] High data]), Ok tt)
          | Err e => (g, Err e)
          | Panic => (g, Panic)
          end
      end
  end.
Proof.
  intros Hp. unfold adapter_transmit, from_pubkey_bytes. destruct (peer_id_of_key key) as [id|]; [|done].
  cbn [ok_or]. rewrite bind_lift_ok. unfold multicast. rewrite Hp, bind_lift_ok. unfold send_to_peers.
  cbn [traverse]. rewrite peer_id_bytes. cbn [ok_or mbind outcome_bind]. rewrite bind_lift_ok.
  destruct g as [mgr sent]. unfold mbind at 1, M_bind at 1, zoom. cbn [gossip_peers transmitter peers].
  rewrite bind_gets. destruct (on_peers (online mgr) !! id) as [info|]; [done|].
  unfold take_unconnected. destruct (fetch_addr_by_peer_id now_ms id (peer_store mgr)) as [addrs|e|] eqn:Ef.
  2-3: unfold mbind, M_bind, gets, lift; by rewrite Ef.
  rewrite (bind_ok _ _ mgr (set_peer_store (mark_all_tried now_ms (iter_order (elements addrs)) (peer_store mgr)) mgr)
    (iter_order (elements addrs))).
  - set (mgr' := set_peer_store _ mgr).
    change ((for_each (λ addr, transmit (GossipDial addr)) (iter_order (elements addrs) ++ []);;
      transmit (BroadcastTo [] High data)) (mkNetworkGossip mgr' sent) =
      (mkNetworkGossip mgr' (sent ++ (GossipDial <$> iter_order (elements addrs)) ++ [BroadcastTo [] High data]), Ok tt)).
    rewrite app_nil_r. rewrite (bind_ok _ _ _ _ _ (for_each_dials _ _)). unfold transmit, modify. cbn [gossip_peers Router.transmitter]. by rewrite <-app_assoc.
  - unfold mbind, M_bind, gets, lift. by rewrite Ef.
Qed.

(** A consensus message arrives.  What the engine hands to the network for
    a proposal, a vote, a quorum certificate or a choke is broadcast to every
    session, or sent to the session of the relayer, as one network message; a
    relayer that is not connected is dialed, and gets nothing; the router of a node that registered its handlers, given that message by any
    peer, hands its content to the handler of the endpoint, and this handler
    decodes it to the message that was sent, appends exactly that message to
    what the node's [overlord] is given. *)
Theorem gossip_delivered (m : OverlordMsg) endpoint raw cx peer now_ms (g : NetworkGossip) (r0 r : MessageRouter) :
  sends m endpoint raw → span_ok cx → register_consensus_handlers r0 = (r, Ok tt) →
  ∃ data content, adapter_transmit now_ms cx raw endpoint Broadcast g =
      (mkNetworkGossip (gossip_peers g) (transmitter g ++ [BroadcastAll High data]), Ok tt) ∧
    (∀ key id info, peer_id_of_key key = Some id → on_peers (online (gossip_peers g)) !! id = Some info →
       adapter_transmit now_ms cx raw endpoint (Specified key) g =
         (mkNetworkGossip (gossip_peers g) (transmitter g ++ [BroadcastTo [pi_session_id info] High data]), Ok tt)) ∧
    (∀ key id addrs, peer_id_of_key key = Some id → on_peers (online (gossip_peers g)) !! id = None →
       fetch_addr_by_peer_id now_ms id (peer_store (gossip_peers g)) = Ok addrs →
       ∃ mgr', adapter_transmit now_ms cx raw endpoint (Specified key) g =
         (mkNetworkGossip mgr' (transmitter g ++ (GossipDial <$> iter_order (elements addrs)) ++
            [BroadcastTo [] High data]), Ok tt)) ∧
    route_message peer data r =
      (set_delivered (delivered r ++ [(chars_of endpoint, gossip_context peer cx, content)]) r, Ok tt) ∧
    ∃ h msg, (endpoint, h) ∈ gossip_handlers ∧ OverlordBytes_decode content = Ok msg ∧
      ∀ queue, h msg (mkOverlordConsensus (Some queue)) = (mkOverlordConsensus (Some (queue ++ [m])), Ok Good).
Proof.
  intros Hm Hspan Hreg. destruct (sent_handled _ _ _ Hm) as (h & Hh & Hrun).
  destruct (gossip_route endpoint h cx raw peer r0 r Hh Hspan Hreg) as (data & Hpack & Hroute & Hdec).
  exists data, (encode c_bytes raw). split_and!; [| | |done|].
  - unfold adapter_transmit, broadcast. by rewrite Hpack, bind_lift_ok.
  - intros key id info Hk Hon. rewrite (transmit_specified _ _ _ _ _ _ _ Hpack), Hk. cbn zeta. by rewrite Hon.
  - intros key id addrs Hk Hon Hf. rewrite (transmit_specified _ _ _ _ _ _ _ Hpack), Hk. cbn zeta.
    rewrite Hon, Hf. eauto.
  - by exists h, (mkOverlordBytes raw).
Qed.
End gossip.

(** ** Pulling from a peer *)
Section pull.
Context `{R : Rlp} `{K : Keccak} `{!Tentacle} `{!NetworkCodec} `{!Tracer} `{!OverlordMessages} `{!ErrorText}
  {St : Type} `{!Storage St} `{!BlockTable St}.

(** What a pull handler does once its answer is known. *)
Lemma pull_run {X} (m : M St ProtocolError X) enc cx endpoint s s' o ret (b b' : MessageRouter) :
  m s = (s', o) → o ≠ Panic → rpc_answer enc o = Ok ret → response cx (chars_of endpoint) (Ok ret) High b = (b', Ok tt) →
  (o ← try (on_ps_storage m); respond cx endpoint (rpc_answer enc o);; mret Neutral) (mkPullServer s b) =
    (mkPullServer s' b', Ok Neutral).
Proof.
  intros Hm Ho Hret Hresp. rewrite (bind_ok _ _ _ (mkPullServer s' b) o).
  - rewrite (bind_ok _ _ _ (mkPullServer s' b') tt); [done|]. unfold respond. cbn [ps_rpc ps_storage].
    by rewrite Hret, Hresp.
  - unfold try, on_ps_storage, zoom. cbn. rewrite Hm. by destruct o.
Qed.

(** The answer to a request for a block. *)
Lemma pull_block_run ctx n s L : holds s L → 0 ≤ n < 2 ^ 64 → ∃ s',
  pull_block_answer ctx n s = (s', ok_or (ld_blocks L !! n) (PE_Storage GetNone)) ∧ holds s' L.
Proof.
  intros Hs Hn. destruct (bt_block ctx n s L Hs Hn) as (s' & Hget & Hs'). exists s'. split; [|done].
  unfold pull_block_answer. by rewrite (bind_ok _ _ _ _ _ Hget).
Qed.

Definition decode_block (b : bytes) : outcome NetworkError Block := map_err NE_Boxed (map_err PE_Codec (decode Block_codec b)).

Lemma block_answered (o : option Block) : (∀ blk, o = Some blk → block_wf blk) →
  ∃ ret, rpc_answer (λ b, Ok (encode Block_codec b)) (ok_or o (PE_Storage GetNone)) = Ok ret ∧
    match o with
    | Some blk => answered decode_block (RpcResponse_decode (RpcResponse_encode ret)) = Ok blk
    | None => ∃ text, answered decode_block (RpcResponse_decode (RpcResponse_encode ret)) = Err (RemoteResponse text)
    end.
Proof.
  intros Hwf. destruct o as [blk|]; (eexists; split; [reflexivity|]); [|by eexists].
  change (decode_block (encode Block_codec blk) = Ok blk). unfold decode_block. by rewrite (decode_encode_lawful block_wf Block_codec blk Block_lawful (Hwf _ eq_refl)).
Qed.

(** C17: A block pulled from a peer is the peer's block.  Node A asks node B for
    the block of a number: the message A sends is routed by B to its handler
    with that number, the handler reads B's storage and answers in the call's
    context, and the answer, routed by A, ends A's call, with the block B holds
    under the number, or with an error of the peer when it holds none; B's table
    of blocks is unchanged and A is left with the calls it had pending. *)
Theorem pull_block_end_to_end (a0 a b0 b : MessageRouter) (s : St) L n ctx cx sid peerA peerB elapsed :
  holds s L → 0 ≤ n < 2 ^ 64 →
  register_consensus_handlers a0 = (a, Ok tt) → register_consensus_handlers b0 = (b, Ok tt) →
  nc_session_id cx = Some sid → rp_session_id peerB = sid → span_ok cx →
  0 ≤ rm_next_id a < 2 ^ 64 → rm_map a !! (sid, rm_next_id a) = None →
  ∃ a1 call data b1 url cxB s' b2 data' a2 a3 res,
    call_begin cx (chars_of RPC_SYNC_PULL_BLOCK) (Ok (encode c_u64 n)) High a = (a1, Ok call) ∧
    sent a1 = sent a ++ [(sid, High, data)] ∧
    route_message peerA data b = (b1, Ok tt) ∧ delivered b1 = delivered b ++ [(url, cxB, encode c_u64 n)] ∧
    decode c_u64 (encode c_u64 n) = Ok n ∧
    PullBlockRpcHandler_process ctx cxB n (mkPullServer s b1) = (mkPullServer s' b2, Ok Neutral) ∧
    holds s' L ∧ sent b2 = sent b1 ++ [(rp_session_id peerA, High, data')] ∧
    route_message peerB data' a1 = (a2, Ok tt) ∧ call_end decode_block call elapsed a2 = Some (a3, res) ∧
    rm_map a3 = rm_map a ∧
    match ld_blocks L !! n with Some blk => res = Ok blk | None => ∃ text, res = Err (RemoteResponse text) end.
Proof.
  intros Hs Hn Ha Hb Hsid Hpeer Hspan Hnext Hfree.
  assert (decode c_u64 (encode c_u64 n) = Ok n) as Hdec.
  { apply (decode_encode_lawful u64_ok); [eauto with codec|split; [apply Hn|apply Hn]]. }
  destruct (rpc_end_to_end a b cx (chars_of RPC_SYNC_PULL_BLOCK) (chars_of RPC_RESP_SYNC_PULL_BLOCK)
    (mkEndpoint (chars_of RPC_SYNC_PULL_BLOCK)) (mkEndpoint (chars_of RPC_RESP_SYNC_PULL_BLOCK)) sid (encode c_u64 n)
    High (chars_of RPC_SYNC_PULL_BLOCK) (rlp_reactor c_u64) peerA peerB (chars_of RPC_RESP_SYNC_PULL_BLOCK)
    (mkReactor (λ _, Ok tt)))
    as (a1 & chan & data & Hcall & Hsent & Hmap & Hchan & Hre & b1 & url & cxB & Hroute & Hdel & _ & _ & Hans); try done.
  1, 2: by split_and!; [..|apply Nat.leb_le].
  { eapply registered; [exact Hb|]. unfold consensus_reactors. repeat first [apply list_elem_of_here|apply list_elem_of_further]. }
  { unfold rlp_reactor, reactor_of. cbn [rx_decode]. by rewrite Hdec. }
  destruct (pull_block_run ctx n s L Hs Hn) as (s' & Hpull & Hs').
  destruct (block_answered (ld_blocks L !! n)) as (ret & Hret & Hres).
  { intros blk Hblk. by apply (bt_wf _ _ _ _ Hs Hblk). }
  destruct (Hans b1 a1 High ret Block decode_block elapsed) as (b2 & data' & a2 & a3 & Hresp & Hsent' & Hback & Hend & Hmap' & _).
  { rewrite Hmap. apply lookup_insert_eq. }
  { done. }
  { rewrite Hre. eapply registered; [exact Ha|]. unfold consensus_reactors.
    repeat first [apply list_elem_of_here|apply list_elem_of_further]. }
  exists a1, (sid, rm_next_id a, chan), data, b1, url, cxB, s', b2, data', a2, a3,
    (answered decode_block (RpcResponse_decode (RpcResponse_encode ret))).
  split_and!; try done.
  - eapply pull_run; [exact Hpull|by destruct (ld_blocks L !! n)|exact Hret|exact Hresp].
  - rewrite Hmap', Hmap. by apply delete_insert_id.
Qed.
End pull.

(** ** The codecs of [types.rs] *)
Lemma PullTxsRequest_lawful `{R : Rlp} :
  lawful (λ q, u64_ok (ptr_height q) ∧ Forall h256_ok (ptr_inner q)) PullTxsRequest_codec.
Proof.
  intros q [Hh Hi]. cbn. unfold PullTxsRequest_rlp_append, PullTxsRequest_decode. repeat next_field. by destruct q.
Qed.

(** A response with a block is read back; an empty response and one that does
    not end in a flag make the reader panic. *)
Theorem rpc_response_codec `{R : Rlp} `{K : Keccak} :
  (∀ b, block_wf b → ∃ data, ConsensusRpcResponse_encode_msg (PullBlocks b) = Ok data ∧
    ConsensusRpcResponse_decode_msg data = Ok (PullBlocks b)) ∧
  ConsensusRpcResponse_decode_msg [] = Panic ∧
  ∀ data flag, flag ≠ x61 → flag ≠ x62 → ConsensusRpcResponse_decode_msg (data ++ [flag]) = Panic.
Proof.
  assert (∀ data flag, ∃ n, u64_sub (E := ProtocolError) (Z.of_nat (length (data ++ [flag : byte]))) 1 = Ok n ∧
    Z.to_nat n = length data) as Hlen.
  { intros data flag. rewrite length_app. cbn. eexists. split; [|].
    - unfold u64_sub. by rewrite (proj2 (Z.leb_le _ _)) by lia.
    - lia. }
  split_and!; [|done|].
  - intros b Hb. eexists. split; [done|]. unfold ConsensusRpcResponse_decode_msg.
    destruct (Hlen (encode Block_codec b) x61) as (n & -> & Hn). cbn [mbind outcome_bind].
    rewrite Hn, drop_app_length, take_app_length, decide_True by done.
    by rewrite (decode_encode_lawful block_wf Block_codec b Block_lawful Hb).
  - intros data flag Ha Hb. unfold ConsensusRpcResponse_decode_msg.
    destruct (Hlen data flag) as (n & -> & Hn). cbn [mbind outcome_bind].
    rewrite Hn, drop_app_length, !decide_False; [done|congruence..].
Qed.

(** ** Examples *)
Section examples.
#[local] Instance blank_text : ErrorText := {| error_text := λ _, EmptyString; hash_text := λ _, EmptyString |}.
#[local] Instance plain_messages : OverlordMessages.
Proof.
  by refine {| SignedProposal := bytes; SignedVote := bytes; AggregatedVote := bytes; SignedChoke := bytes;
    sp_bytes := id; sp_decode := Some; sv_bytes := id; sv_decode := Some; av_bytes := id; av_decode := Some;
    sc_bytes := id; sc_decode := Some |}.
Defined.
#[local] Existing Instances plain_tentacle plain_networks plain_randomness bits_codec unit_tracer keys_differ.
#[local] Instance plain_keys : PeerKeys := {| peer_id_of_key b := Some b; peer_id_bytes _ := eq_refl |}.

Definition sample_vote : SignedVote := ([x05] : bytes).
Definition no_context : NetContext := mkNetContext (Some 3) None None None None.

Lemma gossip_delivered_witness : ∃ g', adapter_transmit 0 no_context [x05] END_GOSSIP_SIGNED_VOTE Broadcast
  (mkNetworkGossip ex_mgr []) = (g', Ok tt).
Proof.
  destruct (gossip_delivered (Msg_SignedVote sample_vote) END_GOSSIP_SIGNED_VOTE [x05] no_context (mkRemotePeer 5 ex_peer_id) 0
    (mkNetworkGossip ex_mgr []) MessageRouter_new _ ltac:(by right) I eq_refl)
    as (data & content & Hrun & _).
  eexists. exact Hrun.
Defined.

Lemma pull_block_end_to_end_witness : ∃ a1 call, call_begin no_context (chars_of RPC_SYNC_PULL_BLOCK)
  (Ok (encode c_u64 5)) High (register_consensus_handlers MessageRouter_new).1 = (a1, Ok call).
Proof.
  destruct (pull_block_end_to_end MessageRouter_new (register_consensus_handlers MessageRouter_new).1 MessageRouter_new
    (register_consensus_handlers MessageRouter_new).1 (insert_block ∅ sample_block new_storage).1 sample_ledger 5 ∅
    no_context 3 (mkRemotePeer 5 ex_peer_id) (mkRemotePeer 3 ex_peer_id) false) as (a1 & call & data & b1 & url & cxB & s' & b2 &
    data' & a2 & a3 & res & Hcall & _); [exact sample_table|lia|
    reflexivity|reflexivity|reflexivity|reflexivity|exact I|by vm_compute|reflexivity|].
  exists a1, call. exact Hcall.
Defined.
End examples.
