(* ===== verification/CrossClient.v ===== *)
(** * The cross-chain client

    [core/cross-client/src/adapter/mod.rs], which follows the CKB chain and
    mints on Axon what was locked there, and reports burned assets and
    checkpoints back; [TransactionCompletionResponse::sign] of
    [protocol/src/types/ckb_client.rs]; and the JSON-RPC client of
    [core/rpc-client/src/client.rs].  The task that fetches blocks is a range of
    numbers in flight; the file with the current number is its content, and
    writing it succeeds. *)

From S2P Require Import Prelude Types Codec Traits.
From S2P Require Import Heap Pool Executor MemPool Storage Interoperation DefaultAdapter Metadata.

Local Open Scope Z_scope.

(** ** External crates *)
(** The fields of [packed::WitnessArgs]. *)
Record WitnessArgs := mkWitnessArgs {
  wa_lock : option bytes;
  wa_input_type : option bytes;
  wa_output_type : option bytes
}.

(** What is read of [ckb_types]' views: of a transaction the out points it
    spends, the hash of the type script and the data of each output, the
    witnesses and the hash.  A packed transaction is the one a wallet service
    completes: its witnesses are read and replaced.  The unchecked accessors of
    [molecule] do what is documented only on what is well formed:
    [get_unchecked] gives the element of an index in range, and reading the
    fields of bytes that were built gives what they were built from; otherwise
    they give some bytes, or panic, which is [None]. *)
Class CkbTypes := {
  BlockView : Type;
  TransactionView : Type;
  bv_number : BlockView → Z;
  bv_transactions : BlockView → list TransactionView;
  tv_inputs : TransactionView → list (bytes * nat);
  tv_outputs : TransactionView → list (option bytes * bytes);
  tv_witnesses : TransactionView → list bytes;
  tv_hash : TransactionView → bytes;
  PackedTransaction : Type;
  pk_witnesses : PackedTransaction → list bytes;
  pk_set_witnesses : list bytes → PackedTransaction → PackedTransaction;
  pk_calc_tx_hash : PackedTransaction → bytes;
  bytes_vec_get_unchecked : list bytes → nat → option bytes;
  bytes_vec_get_in ws i w : ws !! i = Some w → bytes_vec_get_unchecked ws i = Some w;
  witness_args_read : bytes → option WitnessArgs;
  witness_args_build : WitnessArgs → bytes;
  witness_args_read_build args : witness_args_read (witness_args_build args) = Some args;
  ckb_blake2b : bytes → bytes
}.

(** [Secp256k1RecoverablePrivateKey]: signing a hash, and the two parts of the
    key that are used. *)
Class RecoverableKey := {
  PrivateKey : Type;
  key_from : bytes → option PrivateKey;
  sign_message : PrivateKey → bytes → bytes;
  key_pub : PrivateKey → Z
}.

(** The contract of the asset: the call that mints, the event of a burn. *)
Class AssetAbi := {
  mint_encode_input : U256 → H160 → bytes → bytes;
  burned_parse_log : list Hash → bytes → option (U256 * bytes);
  from_utf8_string : bytes → option string;
  u256_to_string : U256 → string
}.

(** ** [types/ckb_client.rs] *)
Record SignatureAction := mkSignatureAction { sg_index : nat; sg_other_indexes : list nat }.

Section sign.
Context `{!CkbTypes} `{!RecoverableKey}.

Record TransactionCompletionResponse := mkCompletion {
  tc_tx : PackedTransaction;
  tc_actions : list SignatureAction
}.

(** [witnesses.get_unchecked(i)] *)
Definition witness_at (witnesses : list bytes) (i : nat) : ProtocolResult bytes :=
  unwrap (bytes_vec_get_unchecked witnesses i).

(** [WitnessArgs::new_unchecked(w).as_builder().lock(Some(signature)).build()]: the
    other two fields are read from the bytes. *)
Definition witness_set_lock (witness signature : bytes) : ProtocolResult bytes :=
  args ← unwrap (witness_args_read witness);
  Ok (witness_args_build (mkWitnessArgs (Some signature) (wa_input_type args) (wa_output_type args))).

Definition group_witnesses (original_witness : bytes) (action : SignatureAction) (witnesses : list bytes)
    : ProtocolResult (list bytes) :=
  others ← traverse (witness_at witnesses) (sg_other_indexes action);
  Ok (original_witness :: others).

(** Length and content, as they are hashed. *)
Definition with_length (b : bytes) : bytes := to_le_bytes 8 (Z.of_nat (length b)) ++ b.

Definition sign_group (key : PrivateKey) (tx_hash : bytes) (witnesses : list bytes) (group : bytes * SignatureAction)
    : ProtocolResult (nat * bytes) :=
  let '(original_witness, action) := group in
  group_witnesses ← group_witnesses original_witness action witnesses;
  let hash := ckb_blake2b (tx_hash ++ with_length original_witness ++ concat (map with_length (drop 1 group_witnesses))) in
  witness ← witness_set_lock original_witness (sign_message key hash);
  Ok (sg_index action, witness).

(** [new_witnesses.replace(idx, witness)] for each *)
Definition replace_witnesses (news : list (nat * bytes)) (witnesses : list bytes) : list bytes :=
  fold_left (λ ws iw, <[iw.1 := iw.2]> ws) news witnesses.

Definition sign (key : PrivateKey) (r : TransactionCompletionResponse) : ProtocolResult PackedTransaction :=
  let tx := tc_tx r in
  let witnesses := pk_witnesses tx in
  groups ← traverse (λ action, w ← witness_at witnesses (sg_index action); Ok (w, action)) (tc_actions r);
  let tx_hash := pk_calc_tx_hash tx in
  new_witnesses_index ← traverse (sign_group key tx_hash witnesses) groups;
  Ok (pk_set_witnesses (replace_witnesses new_witnesses_index witnesses) tx).
End sign.

Record CrossChainTransferPayload := mkTransferPayload {
  cp_sender : string;
  cp_receiver : string;
  cp_udt_hash : Hash;
  cp_direction : Z;
  cp_amount : string;
  cp_memo : H160
}.
Record Identity := mkIdentity { id_flag : Z; id_content : Hex }.
Definition Identity_new `{!FasterHex} (flag : Z) (content : bytes) : Identity := mkIdentity flag (Hex_encode content).
Record SubmitCheckpointPayload := mkCheckpointPayload {
  sp_node_id : Identity;
  sp_admin_id : Identity;
  sp_period_number : Z;
  sp_checkpoint : bytes;
  sp_selection_lock_hash : Hash;
  sp_checkpoint_type_hash : Hash
}.

(** ** [traits/ckb_client.rs] *)
Class CkbClient `{!CkbTypes} (C : Type) := {
  cc_get_block_by_number : Z → M C ProtocolError BlockView;
  cc_get_tip_header : M C ProtocolError Z;
  (** absent, or known without its content *)
  cc_get_transaction : bytes → M C ProtocolError (option (option TransactionView));
  cc_send_transaction : PackedTransaction → M C ProtocolError bytes;
  cc_build_cross_chain_transfer : CrossChainTransferPayload → M C ProtocolError TransactionCompletionResponse;
  cc_build_submit_checkpoint : SubmitCheckpointPayload → M C ProtocolError TransactionCompletionResponse
}.

Record ConfigCrossClient := mkConfigCross {
  cx_axon_udt_hash : Hash;
  cx_start_block_number : Z;
  cx_pk : Hex;
  cx_enable : bool;
  cx_admin_address : H160;
  cx_node_address : H160;
  cx_selection_lock_hash : Hash;
  cx_checkpoint_type_hash : Hash
}.

Definition TWO_THOUSAND : Z := 2000.

(** [u128::from_le_bytes(data[0..16])] *)
Definition get_amount (data : bytes) : ProtocolResult Z :=
  if (length data <? 16)%nat then Panic else Ok (from_le_bytes (take 16 data)).

(** The file [current_number.txt]: a shorter one counts as none. *)
Definition load_current_number (file : option bytes) : Z :=
  match file with
  | Some buf => if (length buf <? 8)%nat then 0 else from_le_bytes (take 8 buf)
  | None => 0
  end.

(** ** [DefaultCrossAdapter] *)
Section adapter.
Context `{R : Rlp} `{K : Keccak} `{!PatriciaTrie} {St Mt C : Type} `{!Storage St} `{!MetadataControl Mt}
  `{!Interoperation} `{!PullRpc} `{!Secp256k1Verify} `{!ErrorText}
  `{!CkbTypes} `{!RecoverableKey} `{!AssetAbi} `{!CkbClient C}.

(** The channel of fetched blocks, the fetches under way, and the number that
    was last written to the file.  [CURRENT_STATE_ROOT] is the mempool
    adapter's. *)
Record DefaultCrossAdapter := mkCrossAdapter {
  xa_priv_key : PrivateKey;
  xa_config : ConfigCrossClient;
  tip_number : Z;
  current_number : Z;
  block_recv : list (list (ProtocolResult BlockView));
  in_flight : list (list Z);
  start_fetch : bool;
  backup : option bytes;
  xa_mempool : MemPoolImpl (DefaultMemPoolAdapter St Mt);
  xa_client : C;
  CHAIN_ID : Z
}.
Local Abbreviation XM := (M DefaultCrossAdapter ProtocolError).

Definition set_numbers (tip current : Z) (x : DefaultCrossAdapter) : DefaultCrossAdapter :=
  mkCrossAdapter (xa_priv_key x) (xa_config x) tip current (block_recv x) (in_flight x) (start_fetch x) (backup x)
    (xa_mempool x) (xa_client x) (CHAIN_ID x).
Definition set_channel (recv : list (list (ProtocolResult BlockView))) (flight : list (list Z)) (start : bool)
    (x : DefaultCrossAdapter) : DefaultCrossAdapter :=
  mkCrossAdapter (xa_priv_key x) (xa_config x) (tip_number x) (current_number x) recv flight start (backup x)
    (xa_mempool x) (xa_client x) (CHAIN_ID x).
Definition set_backup (file : option bytes) (x : DefaultCrossAdapter) : DefaultCrossAdapter :=
  mkCrossAdapter (xa_priv_key x) (xa_config x) (tip_number x) (current_number x) (block_recv x) (in_flight x)
    (start_fetch x) file (xa_mempool x) (xa_client x) (CHAIN_ID x).
Definition on_client {X} (m : M C ProtocolError X) : XM X :=
  zoom xa_client (λ c x, mkCrossAdapter (xa_priv_key x) (xa_config x) (tip_number x) (current_number x) (block_recv x)
    (in_flight x) (start_fetch x) (backup x) (xa_mempool x) c (CHAIN_ID x)) m.
Definition on_xa_mempool {X} (m : M (MemPoolImpl (DefaultMemPoolAdapter St Mt)) ProtocolError X) : XM X :=
  zoom xa_mempool (λ p x, mkCrossAdapter (xa_priv_key x) (xa_config x) (tip_number x) (current_number x) (block_recv x)
    (in_flight x) (start_fetch x) (backup x) p (xa_client x) (CHAIN_ID x)) m.
(** [.unwrap()], [.expect(..)] on what a call answers *)
Definition unwrapped {X} (m : XM X) : XM X := r ← try m; lift (match r with Ok x => Ok x | _ => Panic end).

(** [DefaultCrossAdapter::new] *)
Definition DefaultCrossAdapter_new (config : ConfigCrossClient) (pk : PrivateKey) (file : option bytes)
    (mempool : MemPoolImpl (DefaultMemPoolAdapter St Mt)) (client : C) (chain_id : Z) : DefaultCrossAdapter :=
  mkCrossAdapter pk config 0 (Z.max (load_current_number file) (cx_start_block_number config)) [] [] true file
    mempool client chain_id.

(** [dump_current_number] *)
Definition dump_current_number : XM unit :=
  modify (λ x, set_backup (Some (to_le_bytes 8 (current_number x))) x).

(** *** Fetching *)
(** [lo..=hi] *)
Definition range_inclusive (lo hi : Z) : list Z := map (λ i, lo + Z.of_nat i) (seq 0 (Z.to_nat (hi + 1 - lo))).

Definition fetch_is_due : XM bool :=
  x ← gets id;
  if start_fetch x then d ← lift (u64_sub (tip_number x) (current_number x)); mret (24 <? d) else mret false.

(** While a fetch is under way the next call only sets the flag again. *)
Definition fetch_block : XM unit :=
  x ← gets id;
  far ← fetch_is_due;
  if (far : bool) then
    first ← lift (u64_add (current_number x) 1);
    bound ← lift (u64_add (current_number x) 200);
    let numbers := range_inclusive first (Z.min (Z.max 0 (tip_number x - 24)) bound) in
    modify (λ x, set_channel (block_recv x) (in_flight x ++ [numbers]) false x)
  else modify (λ x, set_channel (block_recv x) (in_flight x) true x).

(** The spawned task of the [i]-th fetch ends: its blocks are in the channel. *)
Definition fetch_ends (i : nat) : XM unit :=
  x ← gets id;
  match in_flight x !! i with
  | None => mret tt
  | Some numbers =>
      list ← (mapM (λ n, try (on_client (cc_get_block_by_number n))) numbers : XM (list (ProtocolResult BlockView)));
      modify (λ x, set_channel (block_recv x ++ [list]) (delete i (in_flight x)) (start_fetch x) x)
  end.

Definition update_tip_number : XM unit :=
  tip ← unwrapped (on_client cc_get_tip_header);
  modify (λ x, set_numbers tip (current_number x) x);;
  modify (λ x, if tip_number x <? current_number x then set_numbers (tip_number x) 0 x else x);;
  fetch_block.

(** *** Minting *)
(** The nonce of the receiver's account in the current state, and one. *)
Definition get_nonce (addr : H160) : XM U256 :=
  x ← gets id;
  let a := mp_adapter (xa_mempool x) in
  let backend := ExecutorAdapter_from_root (da_state_root a) (da_trie_db a) (da_storage a) default_context in
  backend ← lift (match backend with Ok b => Ok b | _ => Panic end);
  account ← lift (get_account backend addr);
  lift (u256_add (acc_nonce account) 1).

(** A panic of the codec of transactions stays one; it has no errors. *)
Definition no_error {X E} (o : outcome E X) : ProtocolResult X :=
  match o with Ok x => Ok x | _ => Panic end.

(** The transaction that mints, signed with the node's key. *)
Definition mint_tx (key : PrivateKey) (chain_id : Z) (nonce : U256) (input : bytes) : ProtocolResult SignedTransaction :=
  let tx := mkTransaction nonce TWO_THOUSAND TWO_THOUSAND 100000 Create 0 input [] in
  raw ← no_error (signature_hash (mkUnverifiedTransaction tx None chain_id 0));
  signature ← no_error (SignatureComponents_from (sign_message key (to_be_bytes 32 raw)));
  utx ← no_error (utx_with_hash (mkUnverifiedTransaction tx (Some signature) chain_id 0));
  Ok (mkSignedTransaction utx (public_to_address (key_pub key)) (Some (key_pub key))).

(** The address is cut out of the witness before the amount is looked at. *)
Definition send_axon_tx (amount : option Z) (addr : bytes) (tx_hash : bytes) : XM unit :=
  if (length addr <? 20)%nat then lift Panic else
  let addr := from_be_bytes (take 20 addr) in
  match amount with
  | None => mret tt
  | Some distribution_amount =>
      let input := mint_encode_input distribution_amount addr tx_hash in
      nonce ← get_nonce addr;
      x ← gets id;
      stx ← lift (mint_tx (xa_priv_key x) (CHAIN_ID x) nonce input);
      try (on_xa_mempool (mempool_insert ∅ stx));;
      mret tt
  end.

(** Which transactions are looked at, and the data of their second output. *)
Definition locks_asset (udt_hash : bytes) (tx : TransactionView) : option bytes :=
  match tv_outputs tx, tv_inputs tx, tv_witnesses tx with
  | [(Some type_1, _); (Some type_2, data_2)], [_; _], [_; _; _] =>
      if decide (type_1 ≠ udt_hash ∧ type_2 ≠ udt_hash) then None else Some data_2
  | _, _, _ => None
  end.

(** What the second input spends: the data of an output of an earlier
    transaction. *)
Definition spent_data (input : bytes * nat) : XM bytes :=
  input_tx ← unwrapped (on_client (cc_get_transaction input.1));
  tx_view ← lift (unwrap (default None input_tx));
  output ← lift (unwrap (tv_outputs tx_view !! input.2));
  mret output.2.

(** [checked_sub] of [u128] *)
Definition u128_checked_sub (a b : Z) : option Z := if a <? b then None else Some (a - b).

Definition search_one (tx : TransactionView) : XM unit :=
  x ← gets id;
  match locks_asset (to_be_bytes 32 (cx_axon_udt_hash (xa_config x))) tx with
  | None => mret tt
  | Some data_2 =>
      output_amount ← lift (get_amount data_2);
      input_point ← lift (unwrap (tv_inputs tx !! 1%nat));
      data ← spent_data input_point;
      input_amount ← lift (get_amount data);
      witness ← lift (unwrap (tv_witnesses tx !! 2%nat));
      send_axon_tx (u128_checked_sub input_amount output_amount) witness (tv_hash tx)
  end.
Definition search_tx (block : BlockView) : XM unit :=
  modify (λ x, set_numbers (tip_number x) (bv_number block) x);;
  for_each search_one (bv_transactions block).

(** *** [handle_blocks] *)
(** The [loop] in which a block that could not be fetched is asked for again:
    nothing leaves it.  [None] is a loop that still runs after [fuel] turns. *)
Fixpoint refetch (fuel : nat) (number : Z) (x : DefaultCrossAdapter) : option (DefaultCrossAdapter * ProtocolResult unit) :=
  match fuel with
  | O => None
  | S fuel =>
      match (r ← try (on_client (cc_get_block_by_number number));
             match r with Ok block => search_tx block | _ => mret tt end) x with
      | (x, Ok _) => refetch fuel number x
      | (x, r) => Some (x, r)
      end
  end.

Fixpoint handle_each (fuel : nat) (blocks : list (ProtocolResult BlockView)) (x : DefaultCrossAdapter)
    : option (DefaultCrossAdapter * ProtocolResult unit) :=
  match blocks with
  | [] => Some (x, Ok tt)
  | Ok block :: blocks =>
      match search_tx block x with
      | (x, Ok _) => handle_each fuel blocks x
      | (x, r) => Some (x, r)
      end
  | _ :: _ =>
      match u64_add (E := ProtocolError) (current_number x) 1 with
      | Ok number => refetch fuel number x
      | r => Some (x, _ ← r; Ok tt)
      end
  end.

Definition handle_blocks (fuel : nat) (blocks : list (ProtocolResult BlockView)) (x : DefaultCrossAdapter)
    : option (DefaultCrossAdapter * ProtocolResult unit) :=
  '(x, r) ← handle_each fuel blocks x;
  match r with
  | Ok _ => Some ((dump_current_number;; fetch_block) x)
  | _ => Some (x, r)
  end.

(** *** [run]: a tick of the clock, the end of a fetch, blocks received *)
Inductive cross_step : DefaultCrossAdapter → DefaultCrossAdapter → Prop :=
| cross_tick x x' : update_tip_number x = (x', Ok tt) → cross_step x x'
| cross_fetched i x x' : fetch_ends i x = (x', Ok tt) → cross_step x x'
| cross_receives fuel blocks rest x x' : block_recv x = blocks :: rest →
    handle_blocks fuel blocks (set_channel rest (in_flight x) (start_fetch x) x) = Some (x', Ok tt) → cross_step x x'.

(** [CrossAdapter for DefaultCrossAdapter] *)
Definition cross_send_axon_tx (ctx : Context) (stx : SignedTransaction) : XM unit := on_xa_mempool (mempool_insert ctx stx).
End adapter.

(** ** [CrossAdapterHandle] *)
Section handle.
Context `{R : Rlp} `{!CkbTypes} `{!RecoverableKey} `{!AssetAbi} {C : Type} `{!CkbClient C} `{!FasterHex}.

Record CrossAdapterHandle := mkCrossHandle { xh_client : C; xh_config : ConfigCrossClient; xh_pk : PrivateKey }.
Local Abbreviation HM := (M CrossAdapterHandle ProtocolError).
Definition on_xh_client {X} (m : M C ProtocolError X) : HM X :=
  zoom xh_client (λ c h, mkCrossHandle c (xh_config h) (xh_pk h)) m.

(** [DefaultCrossAdapter::handle] *)
Definition CrossAdapterHandle_new (client : C) (config : ConfigCrossClient) : ProtocolResult CrossAdapterHandle :=
  key ← Hex_as_bytes (cx_pk config);
  pk ← unwrap (key_from key);
  Ok (mkCrossHandle client config pk).

(** A transaction the wallet service built is signed and sent; errors are only
    logged. *)
Definition sign_and_send (build : M C ProtocolError TransactionCompletionResponse) : HM unit :=
  respond ← try (on_xh_client build);
  match respond with
  | Ok respond =>
      h ← gets id;
      tx ← lift (sign (xh_pk h) respond);
      try (on_xh_client (cc_send_transaction tx));;
      mret tt
  | _ => mret tt
  end.

Definition CROSS_SENDER : string :=
  "ckt1qzda0cr08m85hc8jlnfp3zer7xulejywt49kt2rr0vthywaa50xwsqdrhpvcu82numz73852ed45cdxn4kcn72cr4338a".

Definition set_evm_log_one (l : Log) : HM unit :=
  h ← gets id;
  match burned_parse_log (log_topics l) (log_data l) with
  | None => mret tt
  | Some (amount, recipient_ckb_address) =>
      receiver ← lift (unwrap (from_utf8_string recipient_ckb_address));
      sign_and_send (cc_build_cross_chain_transfer
        (mkTransferPayload CROSS_SENDER receiver (cx_axon_udt_hash (xh_config h)) 1 (u256_to_string amount) 0))
  end.
Definition set_evm_log (block_number : Z) (block_hash : Hash) (logs : list (list Log)) : HM unit :=
  h ← gets id;
  if negb (cx_enable (xh_config h)) then mret tt
  else for_each (for_each set_evm_log_one) logs.

Definition set_checkpoint (block : Block) (proof : Proof) : HM unit :=
  h ← gets id;
  let cfg := xh_config h in
  if negb (cx_enable cfg) then mret tt
  else
    let proposal := encode Proposal_codec (Proposal_from_Block block) ++ encode Proof_codec proof in
    sign_and_send (cc_build_submit_checkpoint
      (mkCheckpointPayload (Identity_new 0 (to_be_bytes 20 (cx_node_address cfg)))
        (Identity_new 0 (to_be_bytes 20 (cx_admin_address cfg))) (h_number (b_header block)) proposal
        (cx_selection_lock_hash cfg) (cx_checkpoint_type_hash cfg))).
End handle.

(** ** [core/rpc-client/src/client.rs] *)
(** What comes of posting a request: it could not be sent, the answer was no
    JSON-RPC output, or it was one. *)
Inductive HttpAnswer (Json : Type) : Type :=
| NotSent
| NotJson
| OutputSuccess (result : Json)
| OutputFailure.
Arguments NotSent {Json}.
Arguments NotJson {Json}.
Arguments OutputSuccess {Json} result.
Arguments OutputFailure {Json}.

(** [reqwest] and [serde_json]: reading an address, posting the request of a number, a method and
    parameters to an address, and the JSON forms of the parameters and results. *)
Class JsonTransport `{!CkbTypes} := {
  Json : Type;
  url_parse : string → option string;
  post : string → Z → string → Json → HttpAnswer Json;
  json_of_number : Z → Json;
  json_of_hash : bytes → Json;
  json_of_transaction : PackedTransaction → Json;
  json_of_transfer : CrossChainTransferPayload → Json;
  json_of_checkpoint : SubmitCheckpointPayload → Json;
  json_none : Json;
  block_from_value : Json → option BlockView;
  tip_from_value : Json → option Z;
  transaction_from_value : Json → option (option (option TransactionView));
  hash_from_value : Json → option bytes;
  completion_from_value : Json → option TransactionCompletionResponse
}.

Inductive Target : Type := CKB | Mercury.

Section client.
Context `{!CkbTypes} `{!JsonTransport}.

(** [rc_posted] are the requests that were made. *)
Record RpcClient := mkRpcClient {
  rc_ckb_uri : string;
  rc_mercury_uri : string;
  rc_id : Z;
  rc_posted : list (string * Z * string * Json)
}.
Local Abbreviation RM := (M RpcClient ProtocolError).
Definition RpcClient_new (ckb_uri mercury_uri : string) : ProtocolResult RpcClient :=
  ckb_uri ← unwrap (url_parse ckb_uri);
  mercury_uri ← unwrap (url_parse mercury_uri);
  Ok (mkRpcClient ckb_uri mercury_uri 0 []).

(** [jsonrpc!]: the number is counted up by [fetch_add], which wraps around. *)
Definition jsonrpc {X} (target : Target) (method : string) (params : Json) (from_value : Json → option X) : RM X :=
  c ← gets id;
  let url := match target with CKB => rc_ckb_uri c | Mercury => rc_mercury_uri c end in
  modify (λ c, mkRpcClient (rc_ckb_uri c) (rc_mercury_uri c) (wrap64 (rc_id c + 1))
    (rc_posted c ++ [(url, rc_id c, method, params)]));;
  lift (match post url (rc_id c) method params with
        | NotSent => Err (PE_CkbClient ConnectionAborted)
        | NotJson | OutputFailure => Err (PE_CkbClient InvalidData)
        | OutputSuccess result => unwrap (from_value result)
        end).

Definition rpc_get_transaction (hash : bytes) : RM (option (option TransactionView)) :=
  jsonrpc CKB "get_transaction" (json_of_hash hash) transaction_from_value.

(** The requests of [get_txs_by_hashes] are all made before the first answer is
    waited for; the first error is the result. *)
Definition get_txs_by_hashes (hashes : list bytes) : RM (list (option (option TransactionView))) :=
  list ← mapM (λ hash, try (rpc_get_transaction hash)) hashes;
  lift (traverse id list).

#[global] Instance rpc_client : CkbClient RpcClient := {|
  cc_get_block_by_number number := jsonrpc CKB "get_block_by_number" (json_of_number number) block_from_value;
  cc_get_tip_header := jsonrpc CKB "get_tip_header" json_none tip_from_value;
  cc_get_transaction := rpc_get_transaction;
  cc_send_transaction tx := jsonrpc CKB "send_transaction" (json_of_transaction tx) hash_from_value;
  cc_build_cross_chain_transfer payload :=
    jsonrpc Mercury "build_cross_chain_transfer_transaction" (json_of_transfer payload) completion_from_value;
  cc_build_submit_checkpoint payload :=
    jsonrpc Mercury "build_submit_checkpoint_transaction" (json_of_checkpoint payload) completion_from_value |}.
End client.
