(* ===== verification/CrossClientProps.v ===== *)
(** * Correctness of the cross-chain client

    Following an honest CKB node whose tip does not go back, the client only
    looks at blocks that are 24 below the tip, and its arithmetic does not
    overflow; it resumes at the block it wrote down; a block that failed to
    arrive is never got over; and signing a transaction whose witnesses can be
    read replaces exactly those of the groups it was asked to sign. *)

From S2P Require Import Prelude Types Codec Traits.
From S2P Require Import Heap Pool Executor MemPool Storage Interoperation DefaultAdapter Metadata.
From S2P Require Import RlpInstance TrieInstance StorageProps MetadataProps AdapterProps EngineProps Frame BlockTable.
From S2P Require Import Protocols CrossClient.

Local Open Scope Z_scope.

(** ** Little-endian numbers *)
Lemma length_to_le_bytes n z : length (to_le_bytes n z) = n.
Proof. revert z. induction n as [|n IH]; intros z; cbn; [done|]. by rewrite IH. Qed.
Lemma from_to_le_bytes n z : 0 ≤ z < 2 ^ (8 * Z.of_nat n) → from_le_bytes (to_le_bytes n z) = z.
Proof.
  revert z. induction n as [|n IH]; intros z Hz; cbn [to_le_bytes from_le_bytes]; [change (0 ≤ z < 1) in Hz; lia|].
  rewrite IH.
  - rewrite Z_of_byte_of_Z. pose proof (Z.div_mod z 256). lia.
  - split; [apply Z.div_pos; lia|]. apply Z.div_lt_upper_bound; [lia|].
    replace (8 * Z.of_nat (S n)) with (8 + 8 * Z.of_nat n) in Hz by lia. rewrite Z.pow_add_r in Hz by lia. lia.
Qed.

(** ** Signing *)
Section sign.
Context `{!CkbTypes} `{!RecoverableKey}.

(** What is written at an index by a list of replacements. *)
Lemma replace_other (news : list (nat * bytes)) ws i : i ∉ news.*1 → replace_witnesses news ws !! i = ws !! i.
Proof.
  unfold replace_witnesses. revert ws. induction news as [|[j w] news IH]; intros ws Hi; [done|]. cbn.
  rewrite fmap_cons, not_elem_of_cons in Hi. rewrite IH by tauto. apply list_lookup_insert_ne. intros ->. tauto.
Qed.
Lemma replace_length (news : list (nat * bytes)) ws : length (replace_witnesses news ws) = length ws.
Proof.
  unfold replace_witnesses. revert ws. induction news as [|[j w] news IH]; intros ws; [done|]. cbn.
  by rewrite IH, length_insert.
Qed.
Lemma replace_at (news : list (nat * bytes)) ws i w : NoDup news.*1 → (i, w) ∈ news → (i < length ws)%nat →
  replace_witnesses news ws !! i = Some w.
Proof.
  unfold replace_witnesses. revert ws. induction news as [|[j v] news IH]; intros ws Hnd Hin Hi; [by apply elem_of_nil in Hin|].
  apply NoDup_cons in Hnd as [Hj Hnd]. cbn. apply elem_of_cons in Hin as [[= -> ->]|Hin].
  - change (replace_witnesses news (<[j:=v]> ws) !! j = Some v). rewrite replace_other by done.
    by apply list_lookup_insert_eq.
  - apply IH; [done..|]. by rewrite length_insert.
Qed.

(** A witness of the transaction, the signature of a group (of the hash of the
    transaction and, each after its length, of the witnesses of the group), and
    the witness the group is signed with: its lock is that signature, its other
    fields are those of the original. *)
Definition witness_of (ws : list bytes) (i : nat) : bytes := default [] (ws !! i).
Definition group_signature (key : PrivateKey) (tx_hash : bytes) (ws : list bytes) (a : SignatureAction) : bytes :=
  sign_message key (ckb_blake2b (tx_hash ++ with_length (witness_of ws (sg_index a)) ++
    concat (with_length <$> (witness_of ws <$> sg_other_indexes a)))).
Definition signed_witness (key : PrivateKey) (tx_hash : bytes) (ws : list bytes) (a : SignatureAction) : bytes :=
  default [] (witness_args_read (witness_of ws (sg_index a)) ≫= λ args,
    Some (witness_args_build (mkWitnessArgs (Some (group_signature key tx_hash ws a)) (wa_input_type args)
      (wa_output_type args)))).
Definition in_range (ws : list bytes) (a : SignatureAction) : Prop :=
  Forall (λ i, i < length ws)%nat (sg_index a :: sg_other_indexes a).
Definition readable (ws : list bytes) (a : SignatureAction) : Prop :=
  is_Some (witness_args_read (witness_of ws (sg_index a))).

#[local] Instance readable_dec ws a : Decision (readable ws a).
Proof. unfold readable. apply _. Defined.

Lemma witness_at_ok ws i : (i < length ws)%nat → witness_at ws i = Ok (witness_of ws i).
Proof.
  intros Hi. unfold witness_at, witness_of. destruct (lookup_lt_is_Some_2 ws i Hi) as [w Hw].
  by rewrite Hw, (bytes_vec_get_in _ _ _ Hw).
Qed.

Lemma traverse_fmap_ok {A B} (f : A → ProtocolResult B) (g : A → B) l :
  Forall (λ x, f x = Ok (g x)) l → traverse f l = Ok (g <$> l).
Proof. intros Hl. apply traverse_Forall2, Forall2_fmap_r, Forall_Forall2_diag, Hl. Qed.

(** With every index in range, a group is signed when its own witness can be
    read, and panics otherwise. *)
Lemma sign_group_run key tx_hash ws a : in_range ws a →
  sign_group key tx_hash ws (witness_of ws (sg_index a), a) =
  match witness_args_read (witness_of ws (sg_index a)) with
  | Some _ => Ok (sg_index a, signed_witness key tx_hash ws a)
  | None => Panic
  end.
Proof.
  intros Ha. inversion Ha as [|? ? _ Ho]; subst. unfold sign_group, group_witnesses.
  rewrite (traverse_fmap_ok _ (witness_of ws)) by (eapply Forall_impl; [exact Ho|]; intros i Hi; by apply witness_at_ok).
  cbn [mbind outcome_bind drop]. unfold witness_set_lock, signed_witness, group_signature.
  by destruct (witness_args_read _).
Qed.

Lemma traverse_panic {A B} (f : A → ProtocolResult B) l x :
  (∀ y e, y ∈ l → f y ≠ Err e) → x ∈ l → f x = Panic → traverse f l = Panic.
Proof.
  intros Hne Hx Hp. induction l as [|y l IH]; [by apply elem_of_nil in Hx|]. cbn.
  apply elem_of_cons in Hx as [->|Hx]; [by rewrite Hp|].
  destruct (f y) as [z|e|] eqn:E; [|by apply Hne in E; [|left]|done]. cbn.
  rewrite IH; [done| |done]. intros y' e Hy'. apply Hne. by right.
Qed.

Lemma sign_groups key r : let ws := pk_witnesses (tc_tx r) in Forall (in_range ws) (tc_actions r) →
  sign key r =
    (news ← traverse (λ a, sign_group key (pk_calc_tx_hash (tc_tx r)) ws (witness_of ws (sg_index a), a)) (tc_actions r);
     Ok (pk_set_witnesses (replace_witnesses news ws) (tc_tx r))).
Proof.
  intros ws Hin. unfold sign. fold ws. rewrite (traverse_fmap_ok _ (λ a, (witness_of ws (sg_index a), a))).
  2: { eapply Forall_impl; [exact Hin|]. intros a Ha. inversion Ha; subst. by rewrite witness_at_ok. }
  cbn [mbind outcome_bind]. f_equal. clear Hin. induction (tc_actions r) as [|a l IH]; [done|]. cbn. by rewrite IH.
Qed.

Lemma sign_run key r : let ws := pk_witnesses (tc_tx r) in
  Forall (in_range ws) (tc_actions r) → Forall (readable ws) (tc_actions r) →
  sign key r = Ok (pk_set_witnesses (replace_witnesses
    ((λ a, (sg_index a, signed_witness key (pk_calc_tx_hash (tc_tx r)) ws a)) <$> tc_actions r) ws) (tc_tx r)).
Proof.
  intros ws Hin Hr. rewrite sign_groups by done. fold ws.
  rewrite (traverse_fmap_ok _ (λ a, (sg_index a, signed_witness key (pk_calc_tx_hash (tc_tx r)) ws a))); [done|].
  rewrite Forall_forall in Hin, Hr. apply Forall_forall. intros a Ha. rewrite sign_group_run by by apply Hin.
  by destruct (Hr a Ha) as [args ->].
Qed.

(** C22: Signing a completed transaction whose actions name witnesses that are
    there.  It succeeds exactly when the own witness of every group can be read
    as witness arguments, and panics otherwise.  Then, for groups at different
    indexes, the signed transaction has as many witnesses, those that are no
    group's own are as they were, and the witness of a group has as its lock
    the signature over the transaction and the original witnesses of the group,
    and its other two fields unchanged.  (Nothing is promised for an index out
    of range, which is not checked.) *)
Theorem sign_exact key r : let ws := pk_witnesses (tc_tx r) in
  Forall (in_range ws) (tc_actions r) →
  (Forall (readable ws) (tc_actions r) → ∃ tx, sign key r = Ok tx) ∧
  (¬ Forall (readable ws) (tc_actions r) → sign key r = Panic) ∧
  ∀ tx, sign key r = Ok tx → NoDup (sg_index <$> tc_actions r) →
    ∃ ws', tx = pk_set_witnesses ws' (tc_tx r) ∧ length ws' = length ws ∧
      (∀ i, i ∉ sg_index <$> tc_actions r → ws' !! i = ws !! i) ∧
      ∀ a, a ∈ tc_actions r → ∃ w w' args, ws !! sg_index a = Some w ∧ witness_args_read w = Some args ∧
        ws' !! sg_index a = Some w' ∧
        witness_args_read w' = Some (mkWitnessArgs (Some (group_signature key (pk_calc_tx_hash (tc_tx r)) ws a))
          (wa_input_type args) (wa_output_type args)).
Proof.
  intros ws Hin. assert (¬ Forall (readable ws) (tc_actions r) → sign key r = Panic) as Hpanic.
  { intros (a & Ha & Hr)%not_Forall_Exists%Exists_exists; [|apply _]. rewrite sign_groups by done. fold ws.
    rewrite Forall_forall in Hin. rewrite (traverse_panic _ _ a); [done| |done|].
    - intros b e Hb. rewrite sign_group_run by by apply Hin. by destruct (witness_args_read _).
    - rewrite sign_group_run by by apply Hin. case_match eqn:E; [|done]. destruct Hr. by exists w. }
  split_and!; [intros Hr; eexists; by apply sign_run|done|].
  intros tx Htx Hnd. assert (Forall (readable ws) (tc_actions r)) as Hr.
  { destruct (decide (Forall (readable ws) (tc_actions r))); [done|]. by rewrite Hpanic in Htx. }
  rewrite sign_run in Htx by done. fold ws in Htx.
  injection Htx as <-. set (f := λ a, (sg_index a, signed_witness key (pk_calc_tx_hash (tc_tx r)) ws a)).
  assert ((f <$> tc_actions r).*1 = sg_index <$> tc_actions r) as Hfst by (by rewrite <-list_fmap_compose).
  eexists. split; [done|]. split_and!; [apply replace_length|intros i Hi; by rewrite replace_other by (by rewrite Hfst)|].
  intros a Ha. rewrite Forall_forall in Hin, Hr. specialize (Hin a Ha). inversion Hin as [|? ? Hi _]; subst.
  destruct (lookup_lt_is_Some_2 ws _ Hi) as [w Hw]. destruct (Hr a Ha) as [args Hargs].
  exists w, (signed_witness key (pk_calc_tx_hash (tc_tx r)) ws a), args. split_and!; [done| | |].
  - unfold witness_of in Hargs. by rewrite Hw in Hargs.
  - apply replace_at; [by rewrite Hfst|apply list_elem_of_fmap; by exists a|done].
  - unfold signed_witness. rewrite Hargs. cbn. apply witness_args_read_build.
Qed.
End sign.

(** ** Blocks that fail to arrive *)
Section failing.
Context `{R : Rlp} `{K : Keccak} `{!PatriciaTrie} {St Mt C : Type} `{!Storage St} `{!MetadataControl Mt}
  `{!Interoperation} `{!PullRpc} `{!Secp256k1Verify} `{!ErrorText}
  `{!CkbTypes} `{!RecoverableKey} `{!AssetAbi} `{!CkbClient C}.
Local Abbreviation cross := (DefaultCrossAdapter (St := St) (Mt := Mt) (C := C)).

Lemma refetch_never_ok fuel number (x x' : cross) : refetch fuel number x ≠ Some (x', Ok tt).
Proof.
  revert x. induction fuel as [|fuel IH]; intros x; [done|]. cbn [refetch].
  match goal with |- match ?run with _ => _ end ≠ _ => destruct run as [x1 [[]| |]] end; [apply IH|done..].
Qed.

Lemma handle_each_arrived fuel blocks (x x' : cross) e : Err e ∈ blocks → handle_each fuel blocks x ≠ Some (x', Ok tt).
Proof.
  revert x. induction blocks as [|[b|e'|] blocks IH]; intros x He; [by apply elem_of_nil in He|..]; cbn [handle_each].
  - apply elem_of_cons in He as [|He]; [done|]. destruct (search_tx b x) as [x1 [[]| |]]; [by apply IH|done..].
  - destruct (u64_add _ _); [apply refetch_never_ok|done..].
  - destruct (u64_add _ _); [apply refetch_never_ok|done..].
Qed.

(** A block that failed to arrive is never got over.  Whenever one of the
    received blocks is an error, and however long the client asks for it again
    and whatever it is answered, the handling of these blocks never returns, it
    runs on or panics: the loop around the request is not left when the block
    arrives. *)
Theorem failed_block_loops fuel blocks (x x' : cross) e : Err e ∈ blocks → handle_blocks fuel blocks x ≠ Some (x', Ok tt).
Proof.
  intros He. unfold handle_blocks. destruct (handle_each fuel blocks x) as [[x1 [[]| |]]|] eqn:Eh; [|done..].
  by apply (handle_each_arrived _ _ _ _ e) in Eh.
Qed.
End failing.

(** ** Following the chain *)
(** A CKB node that is honest about its blocks and whose tip does not go back;
    [seen] is the tip it has reported. *)
Class HonestCkb `{!CkbTypes} (C : Type) `{!CkbClient C} := {
  seen : C → Z;
  hc_tip c c' t : cc_get_tip_header c = (c', Ok t) → seen c ≤ t ∧ seen c' = t;
  hc_block n c c' b : cc_get_block_by_number n c = (c', Ok b) → bv_number b = n;
  hc_block_seen n s : preserves (λ c, seen c = s) (cc_get_block_by_number n);
  hc_transaction_seen h s : preserves (λ c, seen c = s) (cc_get_transaction h)
}.

Section following.
Context `{R : Rlp} `{K : Keccak} `{!PatriciaTrie} {St Mt C : Type} `{!Storage St} `{!MetadataControl Mt}
  `{!Interoperation} `{!PullRpc} `{!Secp256k1Verify} `{!ErrorText}
  `{!CkbTypes} `{!RecoverableKey} `{!AssetAbi} `{!CkbClient C} `{!HonestCkb C}.
Local Abbreviation cross := (DefaultCrossAdapter (St := St) (Mt := Mt) (C := C)).

(** All that matters here of an adapter's state. *)
Definition core (x : cross) : Z * Z * list (list (ProtocolResult BlockView)) * list (list Z) * bool * option bytes * Z :=
  (tip_number x, current_number x, block_recv x, in_flight x, start_fetch x, backup x, seen (xa_client x)).
Local Abbreviation same k := (λ x : cross, core x = k).

Lemma on_client_same {X} (m : M C ProtocolError X) k : (∀ s, preserves (λ c, seen c = s) m) → preserves (same k) (on_client m).
Proof.
  intros Hm x Hx. unfold on_client, zoom. specialize (Hm _ (xa_client x) eq_refl). destruct (m (xa_client x)) as [c o].
  rewrite <-Hx. unfold core. cbn in *. by rewrite Hm.
Qed.
Lemma on_mempool_same {X} (m : M _ ProtocolError X) k : preserves (same k) (on_xa_mempool m).
Proof. by apply preserves_zoom_other. Qed.
Lemma unwrapped_same {X} (m : M cross ProtocolError X) k : preserves (same k) m → preserves (same k) (unwrapped m).
Proof. intros Hm. unfold unwrapped. keep. Qed.
Hint Resolve on_client_same on_mempool_same unwrapped_same hc_block_seen hc_transaction_seen : axon.

Lemma send_axon_tx_same amount addr h k : preserves (same k) (send_axon_tx amount addr h).
Proof. unfold send_axon_tx, get_nonce. keep. Qed.
Lemma spent_data_same i k : preserves (same k) (spent_data i).
Proof. unfold spent_data. keep; apply unwrapped_same, on_client_same; auto with axon. Qed.
Hint Resolve send_axon_tx_same spent_data_same : axon.
Lemma search_one_same tx k : preserves (same k) (search_one tx).
Proof. unfold search_one. keep. Qed.
Hint Resolve search_one_same : axon.

(** Searching a block moves to its number and changes nothing else of it. *)
Lemma search_tx_core b (x x' : cross) o : search_tx b x = (x', o) →
  core x' = core (set_numbers (tip_number x) (bv_number b) x).
Proof.
  unfold search_tx. rewrite bind_modify. intros Hrun.
  by apply (preserves_inv (same (core (set_numbers (tip_number x) (bv_number b) x)))) in Hrun; [|keep|].
Qed.

(** The client is behind the tip, and the blocks it has asked for or received
    are 24 below it. *)
Definition deep (tip n : Z) : Prop := n + 24 ≤ tip.
Record following (x : cross) : Prop := {
  fl_tip : tip_number x ≤ seen (xa_client x);
  fl_current : 0 ≤ current_number x ≤ tip_number x;
  fl_flight : Forall (Forall (λ n, 0 ≤ n ∧ deep (tip_number x) n)) (in_flight x);
  fl_recv : Forall (Forall (λ r, ∀ b, r = Ok b → 0 ≤ bv_number b ∧ deep (tip_number x) (bv_number b))) (block_recv x)
}.

Lemma following_core (x x' : cross) : core x' = core x → following x → following x'.
Proof. intros [= E1 E2 E3 E4 E5 E6 E7] [F1 F2 F3 F4]. split; by rewrite ?E1, ?E2, ?E3, ?E4, ?E7. Qed.

(** The numbers of a range. *)
Lemma range_inclusive_bounds lo hi : Forall (λ n, lo ≤ n ≤ hi) (range_inclusive lo hi).
Proof.
  unfold range_inclusive. apply Forall_fmap, Forall_forall. intros i Hi%elem_of_seq. cbn. lia.
Qed.

Lemma fetch_is_due_ok (x : cross) : current_number x ≤ tip_number x → ∃ far, fetch_is_due x = (x, Ok far) ∧
  (far = true → current_number x + 24 < tip_number x).
Proof.
  intros Hc. unfold fetch_is_due. rewrite bind_gets. cbn [id]. destruct (start_fetch x); [|by exists false].
  rewrite u64_sub_small by done. rewrite bind_lift_ok. eexists. split; [done|]. intros Hd%Z.ltb_lt. lia.
Qed.

(** Fetching asks for a contiguous range after the current number, at most 200
    long and 24 below the tip. *)
Lemma fetch_block_ok (x : cross) : following x → tip_number x + 200 < 2 ^ 64 →
  ∃ flight start, fetch_block x = (set_channel (block_recv x) flight start x, Ok tt) ∧
    Forall (Forall (λ n, 0 ≤ n ∧ deep (tip_number x) n)) flight ∧
    (flight = in_flight x ∨ ∃ hi, flight = in_flight x ++ [range_inclusive (current_number x + 1) hi] ∧
       hi ≤ current_number x + 200).
Proof.
  intros [F1 F2 F3 F4] Hb. unfold fetch_block. rewrite bind_gets. cbn [id].
  destruct (fetch_is_due_ok x) as (far & Hdue & Hfar); [lia|]. rewrite (bind_ok _ _ _ _ _ Hdue).
  destruct far; [|eexists _, _; split_and!; [done|done|by left]]. specialize (Hfar eq_refl).
  rewrite !u64_add_small by lia. rewrite !bind_lift_ok. eexists _, _. split_and!; [done| |right; eexists; split; [done|lia]].
  apply Forall_app. split; [done|]. constructor; [|constructor].
  eapply Forall_impl; [apply range_inclusive_bounds|]. intros n Hn. unfold deep. cbn in Hn. lia.
Qed.

(** A fetch that is still under way is started again by the second call after
    it: the first one sets the flag, the second one asks for the same blocks. *)
Theorem fetched_twice (x : cross) : start_fetch x = true → 0 ≤ current_number x →
  current_number x + 24 < tip_number x → tip_number x + 200 < 2 ^ 64 →
  let range := range_inclusive (current_number x + 1) (Z.min (tip_number x - 24) (current_number x + 200)) in
  ∃ x', (fetch_block;; fetch_block;; fetch_block) x = (x', Ok tt) ∧ in_flight x' = in_flight x ++ [range; range].
Proof.
  intros Hs Hc Hfar Hb range.
  assert (Hdue : ∀ y : cross, start_fetch y = true → current_number y = current_number x → tip_number y = tip_number x →
    fetch_block y = (set_channel (block_recv y) (in_flight y ++ [range]) false y, Ok tt)).
  { intros y Hy Ec Et. unfold fetch_block, fetch_is_due. rewrite bind_gets. cbn [id].
    rewrite (bind_ok _ _ _ y true).
    - rewrite Ec, Et, !u64_add_small by lia. rewrite !bind_lift_ok. rewrite (Z.max_r 0) by lia. done.
    - rewrite bind_gets. cbn [id]. rewrite Hy, Ec, Et, u64_sub_small by lia. rewrite bind_lift_ok.
      by rewrite (proj2 (Z.ltb_lt _ _)) by lia. }
  rewrite (bind_ok _ _ _ _ _ (Hdue x Hs eq_refl eq_refl)). set (x1 := set_channel _ _ false x).
  rewrite (bind_ok _ _ _ (set_channel (block_recv x1) (in_flight x1) true x1) tt) by done.
  rewrite Hdue by done. eexists. split; [done|]. cbn. by rewrite <-app_assoc.
Qed.

Lemma following_channel (x : cross) flight start : following x → Forall (Forall (λ n, 0 ≤ n ∧ deep (tip_number x) n)) flight →
  following (set_channel (block_recv x) flight start x).
Proof. intros [F1 F2 F3 F4] Hf. by split. Qed.

Lemma fetch_block_keeps n f : preserves (λ x : cross, current_number x = n ∧ backup x = f) fetch_block.
Proof. unfold fetch_block, fetch_is_due. keep; by apply preserves_modify. Qed.
Lemma fetch_block_following (x x' : cross) : following x → fetch_block x = (x', Ok tt) → following x'.
Proof.
  intros Hx Hrun. pose proof Hx as [F1 F2 F3 F4]. unfold fetch_block in Hrun. rewrite bind_gets in Hrun. cbn [id] in Hrun.
  destruct (fetch_is_due_ok x) as (far & Hdue & Hfar); [lia|]. rewrite (bind_ok _ _ _ _ _ Hdue) in Hrun.
  destruct far; [|injection Hrun as <-; by apply following_channel]. specialize (Hfar eq_refl).
  apply bind_lift_inv in Hrun as (lo & [-> _]%u64_add_ok & Hrun). apply bind_lift_inv in Hrun as (hi & [-> _]%u64_add_ok & Hrun).
  injection Hrun as <-. apply following_channel; [done|]. apply Forall_app. split; [done|]. constructor; [|constructor].
  eapply Forall_impl; [apply range_inclusive_bounds|]. intros n Hn. unfold deep. cbn in Hn. lia.
Qed.

(** ** The steps *)
Lemma tick_following (x x' : cross) : 0 ≤ current_number x → tip_number x ≤ seen (xa_client x) →
  Forall (Forall (λ n, 0 ≤ n ∧ deep (tip_number x) n)) (in_flight x) →
  Forall (Forall (λ r, ∀ b, r = Ok b → 0 ≤ bv_number b ∧ deep (tip_number x) (bv_number b))) (block_recv x) →
  0 ≤ seen (xa_client x) → update_tip_number x = (x', Ok tt) → following x'.
Proof.
  intros Hc Ht Hf Hr H0' Hrun. unfold update_tip_number in Hrun. apply bind_inv in Hrun as (tip & x1 & Hu & Hrun).
  unfold unwrapped in Hu. apply bind_inv in Hu as (r & x2 & Htry & Hl). unfold try, on_client, zoom in Htry.
  destruct (cc_get_tip_header (xa_client x)) as [c o] eqn:Etip.
  assert (o = Ok tip ∧ x1 = x2) as [-> <-].
  { destruct o as [t| |]; cbn in Htry; [|injection Htry as <- <-; done|done]. injection Htry as <- <-. by injection Hl as <- <-. }
  cbn in Htry. injection Htry as <- _. destruct (hc_tip _ _ _ Etip) as [Hge Hseen]. rewrite !bind_modify in Hrun.
  assert (∀ tip', tip_number x ≤ tip' → ∀ n, 0 ≤ n ∧ deep (tip_number x) n → 0 ≤ n ∧ deep tip' n) as Hmono
    by (unfold deep; lia).
  apply fetch_block_following in Hrun; [done|]. cbn. destruct (Z.ltb_spec tip (current_number x)); split; cbn; try lia.
  all: eapply Forall_impl; [first [exact Hf|exact Hr]|]; intros l Hl'; eapply Forall_impl; [exact Hl'|]; cbn; intros y Hy.
  all: first [by intros b Hb; apply Hmono; [lia|by apply Hy]|by apply Hmono; [lia|]].
Qed.

(** The blocks of a fetch have the numbers that were asked for. *)
Lemma fetch_list_ok (numbers : list Z) (x x' : cross) list :
  mapM (λ n, try (on_client (cc_get_block_by_number n))) numbers x = (x', Ok list) →
  core x' = core x ∧ Forall2 (λ n r, ∀ b, r = Ok b → bv_number b = n) numbers list.
Proof.
  revert x list. induction numbers as [|n ns IH]; intros x list Hrun; [injection Hrun as <- <-; by split|].
  cbn in Hrun. apply bind_inv in Hrun as (r & x1 & Hr & Hrun). apply bind_inv in Hrun as (rs & x2 & Hrs & Hrun).
  injection Hrun as <- <-. destruct (IH _ _ Hrs) as [Hc Hall].
  assert (core x1 = core x) as Hc1 by (by apply (preserves_inv (same (core x))) in Hr; [|auto with axon|]).
  split; [by rewrite Hc|]. constructor; [|done]. intros b ->. unfold try, on_client, zoom in Hr.
  destruct (cc_get_block_by_number n (xa_client x)) as [c o] eqn:E. destruct o as [b'| |]; cbn in Hr; [|done|done].
  injection Hr as _ <-. by apply (hc_block n _ _ _ E).
Qed.

Lemma fetch_ends_following i (x x' : cross) : following x → fetch_ends i x = (x', Ok tt) → following x'.
Proof.
  intros Hx Hrun. unfold fetch_ends in Hrun. rewrite bind_gets in Hrun. cbn [id] in Hrun.
  destruct (in_flight x !! i) as [numbers|] eqn:Ei; [|by injection Hrun as <-].
  apply bind_inv in Hrun as (list & x1 & Hl & Hrun). destruct (fetch_list_ok _ _ _ _ Hl) as [Hc Hall].
  injection Hrun as <-. apply (following_core _ _ Hc) in Hx. pose proof Hx as [F1 F2 F3 F4].
  assert (in_flight x1 = in_flight x) as Hfl by (by injection Hc).
  split; cbn; try done.
  - apply Forall_delete. by rewrite Hfl in F3 |- *.
  - apply Forall_app. split; [done|]. constructor; [|constructor]. rewrite Hfl in F3.
    pose proof (Forall_lookup_1 _ _ _ _ F3 Ei) as Hn. clear -Hall Hn.
    induction Hall as [|n r ns rs Hr _ IH]; [constructor|]. inversion Hn; subst. constructor; [|by apply IH].
    intros b Hb. rewrite (Hr b Hb). done.
Qed.

(** ** Blocks received *)
(** Blocks that are handled to the end all arrived. *)
Lemma handle_each_ok fuel blocks (x x' : cross) : handle_each fuel blocks x = Some (x', Ok tt) →
  ∃ bs, blocks = Ok <$> bs ∧ core x' = core (set_numbers (tip_number x) (default (current_number x) (bv_number <$> last bs)) x).
Proof.
  revert x. induction blocks as [|[b|e|] blocks IH]; intros x Hrun; cbn [handle_each] in Hrun.
  - injection Hrun as <-. exists []. by destruct x.
  - destruct (search_tx b x) as [x1 [[]| |]] eqn:Es; [|done..]. apply search_tx_core in Es.
    destruct (IH _ Hrun) as (bs & -> & Hc). exists (b :: bs). split; [done|]. rewrite Hc. injection Es as E1 E2 E3 E4 E5 E6 E7.
    unfold core. rewrite last_cons. cbn. rewrite E1, E3, E4, E5, E6, E7. destruct (last bs); cbn; by rewrite ?E2.
  - destruct (u64_add _ _); [by apply refetch_never_ok in Hrun|done..].
  - destruct (u64_add _ _); [by apply refetch_never_ok in Hrun|done..].
Qed.

Lemma handle_blocks_ok fuel blocks (x x' : cross) : handle_blocks fuel blocks x = Some (x', Ok tt) → ∃ bs x1,
  blocks = Ok <$> bs ∧ core x1 = core (set_numbers (tip_number x) (default (current_number x) (bv_number <$> last bs)) x) ∧
  (dump_current_number;; fetch_block) x1 = (x', Ok tt).
Proof.
  unfold handle_blocks. destruct (handle_each fuel blocks x) as [[x1 [[]| |]]|] eqn:Eh; cbn; [|done..].
  intros [= Hrun]. destruct (handle_each_ok _ _ _ _ Eh) as (bs & Hbs & Hc). by exists bs, x1.
Qed.

Lemma receive_following fuel blocks rest (x x' : cross) : block_recv x = blocks :: rest → following x →
  handle_blocks fuel blocks (set_channel rest (in_flight x) (start_fetch x) x) = Some (x', Ok tt) → following x'.
Proof.
  intros Hrecv [F1 F2 F3 F4] Hrun. destruct (handle_blocks_ok _ _ _ _ Hrun) as (bs & x1 & -> & Hc & Hrun').
  rewrite Hrecv in F4. inversion F4 as [|? ? Hbs F4' ]; subst. unfold dump_current_number in Hrun'. rewrite bind_modify in Hrun'.
  apply fetch_block_following in Hrun'; [done|]. injection Hc as E1 E2 E3 E4 E5 E6 E7. cbn in *.
  split; cbn; rewrite ?E1, ?E2, ?E3, ?E4, ?E7; try done.
  destruct (last bs) as [b|] eqn:El; cbn; [|done]. apply last_Some_elem_of in El.
  rewrite Forall_forall in Hbs. destruct (Hbs (Ok b)) with (b := b) as [? ?]; [|done|unfold deep in *; lia].
  apply list_elem_of_fmap. by exists b.
Qed.

Lemma cross_step_following (x x' : cross) : cross_step x x' → following x → following x'.
Proof.
  intros Hstep Hx. destruct Hstep as [x x' Hrun|i x x' Hrun|fuel blocks rest x x' Hrecv Hrun].
  - pose proof Hx as [F1 F2 F3 F4]. eapply tick_following; [..|exact Hrun]; try done; lia.
  - by eapply fetch_ends_following.
  - by eapply receive_following.
Qed.

(** C18: Only confirmed blocks are followed.  While the CKB node is honest
    about its blocks and its tip does not go back, after the first look at the
    tip and any sequence of ticks, fetches that end and blocks that are handled,
    every block the client has asked for or received is at least 24 below the
    tip, and the client itself is not past it: fetching the next blocks does not
    overflow, and asks for a contiguous range after the current block, of at
    most 200 blocks.  When blocks were handled, the number of the last one is
    written down, and a client restarted with that file resumes from it, or from
    its configured start when that is later. *)
Theorem cross_confirmed cfg pk file pool (c : C) chain_id (x0 x : cross) :
  0 ≤ cx_start_block_number cfg → 0 ≤ seen c →
  update_tip_number (DefaultCrossAdapter_new cfg pk file pool c chain_id) = (x0, Ok tt) → rtc cross_step x0 x →
  following x ∧
  (tip_number x + 200 < 2 ^ 64 → ∃ flight start,
     fetch_block x = (set_channel (block_recv x) flight start x, Ok tt) ∧
     (flight = in_flight x ∨ ∃ hi, flight = in_flight x ++ [range_inclusive (current_number x + 1) hi] ∧
        hi ≤ current_number x + 200)) ∧
  ∀ fuel bs b x', handle_blocks fuel (Ok <$> (bs ++ [b])) x = Some (x', Ok tt) → 0 ≤ bv_number b < 2 ^ 64 →
    load_current_number (backup x') = bv_number b ∧ current_number x' = bv_number b ∧
    ∀ cfg' pk' pool' c' id',
      current_number (DefaultCrossAdapter_new cfg' pk' (backup x') pool' c' id' : cross) =
      Z.max (bv_number b) (cx_start_block_number cfg').
Proof.
  intros Hstart Hseen Htick Hsteps. assert (Hx : following x).
  { assert (following x0) as Hx0.
    { eapply tick_following; [..|exact Htick]; cbn; try done; lia. }
    clear Htick. induction Hsteps as [x|x x1 x2 Hstep _ IH]; [done|]. by apply IH, (cross_step_following x). }
  split_and!; [done| |].
  - intros Htip. destruct (fetch_block_ok x Hx Htip) as (flight & start & Hrun & _ & Hf). by exists flight, start.
  - intros fuel bs b x' Hrun Hb. destruct (handle_blocks_ok _ _ _ _ Hrun) as (bs' & x1 & Ebs & Hc & Hrun').
    assert (bs' = bs ++ [b]) as ->.
    { clear -Ebs. revert Ebs. generalize (bs ++ [b]). intros l. revert bs'. induction l as [|y l IH]; intros [|y' l']; cbn;
        try done. intros [= -> E]. f_equal. by apply IH. }
    rewrite last_snoc in Hc. cbn in Hc. injection Hc as E1 E2 _ _ _ _ _.
    unfold dump_current_number in Hrun'. rewrite bind_modify in Hrun'.
    apply (preserves_inv (λ y : cross, current_number y = bv_number b ∧ backup y = Some (to_le_bytes 8 (bv_number b)))) in Hrun'
      as [-> ->]; [|apply fetch_block_keeps|cbn; by rewrite E2].
    assert (load_current_number (Some (to_le_bytes 8 (bv_number b))) = bv_number b) as Hload;
      [|split_and!; [done..|]; intros; unfold DefaultCrossAdapter_new; cbn [current_number]; by rewrite Hload].
    cbn [load_current_number]. rewrite length_to_le_bytes. cbn [Nat.ltb Nat.leb].
    rewrite take_ge by (by rewrite length_to_le_bytes). by apply from_to_le_bytes.
Qed.

End following.

(** ** Examples *)
Section examples.
#[local] Existing Instances plain_hex echo_abi echo_evm any_interop any_secp no_peer no_text.
(** Witness arguments for examples: a mark, and the number stdpp's [Countable]
    gives the fields. *)
#[local] Instance WitnessArgs_eq_dec : EqDecision WitnessArgs.
Proof. solve_decision. Defined.
#[local] Instance WitnessArgs_countable : Countable WitnessArgs.
Proof.
  by refine (inj_countable' (λ a, (wa_lock a, wa_input_type a, wa_output_type a))
    (λ p, mkWitnessArgs p.1.1 p.1.2 p.2) _); intros [].
Defined.
#[local] Instance plain_ckb : CkbTypes.
Proof.
  refine {|
    BlockView := Z; TransactionView := unit; bv_number := id; bv_transactions _ := []; tv_inputs _ := [];
    tv_outputs _ := []; tv_witnesses _ := []; tv_hash _ := []; PackedTransaction := list bytes; pk_witnesses := id;
    pk_set_witnesses ws _ := ws; pk_calc_tx_hash _ := []; bytes_vec_get_unchecked ws i := ws !! i;
    witness_args_read b := match b with [] => None | _ :: l => countable.decode (bits_pos l) end;
    witness_args_build a := x01 :: pos_bits (countable.encode a); ckb_blake2b := id |}.
  - done.
  - intros args. by rewrite bits_pos_bits, countable.decode_encode.
Defined.
#[local] Instance plain_key : RecoverableKey := {|
  PrivateKey := bytes; key_from := Some; sign_message k _ := k; key_pub _ := 0 |}.
#[local] Instance plain_abi : AssetAbi := {|
  mint_encode_input _ _ _ := []; burned_parse_log _ _ := None; from_utf8_string _ := None; u256_to_string _ := "" |}.
(** A node whose tip is block 100. *)
#[local] Instance plain_node : CkbClient unit := {|
  cc_get_block_by_number n := λ c, (c, Ok (n : BlockView));
  cc_get_tip_header := λ c, (c, Ok 100);
  cc_get_transaction _ := λ c, (c, Ok None);
  cc_send_transaction _ := λ c, (c, Ok []);
  cc_build_cross_chain_transfer _ := λ c, (c, Err (PE_CkbClient InvalidData));
  cc_build_submit_checkpoint _ := λ c, (c, Err (PE_CkbClient InvalidData)) |}.
#[local] Instance plain_honest : HonestCkb unit.
Proof.
  refine {| seen _ := 100 |}.
  - by intros c c' t [= _ <-].
  - by intros n c c' b [= _ <-].
  - by intros n s c.
  - by intros h s c.
Defined.

Definition ex_key : PrivateKey := ([x01] : bytes).
Abbreviation sample_cross :=
  (DefaultCrossAdapter (St := ImplStorage MemoryAdapter) (Mt := MetadataController unit) (C := unit)).
Definition ex_cross : sample_cross :=
  DefaultCrossAdapter_new (mkConfigCross 7 70 (mkHex "0x") true 1 2 3 4) ex_key None one_block_mempool tt 7.

Definition ex_completion (w : bytes) : TransactionCompletionResponse :=
  mkCompletion ([[]; w; [x07]] : list bytes) [mkSignatureAction 1 [2%nat]].
Lemma sign_exact_witness :
  (∃ tx, sign ex_key (ex_completion (witness_args_build (mkWitnessArgs None (Some [x05]) None))) = Ok tx) ∧
  sign ex_key (ex_completion []) = Panic.
Proof.
  split.
  - apply (sign_exact ex_key (ex_completion (witness_args_build (mkWitnessArgs None (Some [x05]) None))));
      [repeat constructor|].
    constructor; [|constructor]. eexists. apply (witness_args_read_build (mkWitnessArgs None (Some [x05]) None)).
  - apply (sign_exact ex_key (ex_completion [])); [repeat constructor|]. intros Hr. inversion Hr as [|? ? [a Ha] _]. discriminate Ha.
Defined.

Lemma cross_confirmed_witness : ∃ x : sample_cross, in_flight x = [] ∧ current_number x = 76 ∧ following x.
Proof.
  destruct (run_is_ok update_tip_number ex_cross) as (x0 & [] & Htick); [vm_compute; reflexivity|].
  assert (Hx0 : x0 = (update_tip_number ex_cross).1) by (by rewrite Htick).
  destruct (run_is_ok (fetch_ends 0) x0) as (x1 & [] & Hends); [rewrite Hx0; vm_compute; reflexivity|].
  assert (Hx1 : x1 = (fetch_ends 0 (update_tip_number ex_cross).1).1) by (rewrite <-Hx0; by rewrite Hends).
  assert (Hrecv : block_recv x1 = [Ok <$> [71; 72; 73; 74; 75; 76]]) by (rewrite Hx1; vm_compute; reflexivity).
  set (r := handle_blocks 1 (Ok <$> [71; 72; 73; 74; 75; 76]) (set_channel [] (in_flight x1) (start_fetch x1) x1)).
  assert (Hok : match r with Some (x2, Ok _) => bool_decide (in_flight x2 = []) && (current_number x2 =? 76) | _ => false end = true)
    by (subst r; rewrite Hx1; vm_compute; reflexivity).
  destruct r as [[x2 [[]| |]]|] eqn:Hrun; [|discriminate Hok..].
  apply andb_prop in Hok as [Hfl%bool_decide_eq_true Hcur%Z.eqb_eq].
  exists x2. split; [exact Hfl|]. split; [exact Hcur|].
  apply (cross_confirmed (mkConfigCross 7 70 (mkHex "0x") true 1 2 3 4) ex_key None one_block_mempool tt 7 x0 x2);
    [cbn; lia|cbn; lia|exact Htick|].
  eapply rtc_l; [exact (cross_fetched 0 x0 x1 Hends)|]. apply rtc_once. exact (cross_receives 1 _ [] x1 x2 Hrecv Hrun).
Defined.

Lemma failed_block_loops_witness : handle_blocks 5 [Err (PE_CkbClient InvalidData)] ex_cross ≠ Some (ex_cross, Ok tt).
Proof.
  apply (failed_block_loops 5 [Err (PE_CkbClient InvalidData)] ex_cross ex_cross (PE_CkbClient InvalidData)).
  apply list_elem_of_here.
Defined.
End examples.
