(* ===== verification/Startup.v ===== *)
(** * Starting the node

    [core/run/src/lib.rs]: [create_genesis], which fills an empty database, and
    [start], which reads the last block back, recovers the mempool and the
    status of the consensus, and puts the components together.  A database that
    is opened is the value it holds; the configuration is what [start] uses of
    it; the listeners, the API server, the metrics and the tasks that [start]
    spawns are left out, except for what they are given. *)

From S2P Require Import Prelude Types Codec Traits.
From S2P Require Import Heap Pool Executor MemPool Storage Interoperation DefaultAdapter Metadata Overlord Wal.
From S2P Require Import Engine ConsensusAdapterImpl Sync.
From S2P Require Import NetAddr AddrManager PeerStore PeerManager NetService Numbers Endpoint Router NetConfig.
From S2P Require Import Primitives CrossClient ConsensusMsg.

Local Open Scope Z_scope.

(** ** External crates *)
(** The keys a node makes of its private key, [Secp256k1PrivateKey] and
    [BlsPrivateKey], and the two forms of its public key. *)
Class NodeKeys `{!Bls} := {
  NodePrivateKey : Type;
  node_key_from : bytes → option NodePrivateKey;
  node_pub_bytes : NodePrivateKey → bytes;
  node_pub_uncompressed : NodePrivateKey → bytes;
  bls_private_key_from : bytes → option BlsPrivateKey
}.

(** Opening the block database again: [ImplStorage::new] on the same files. *)
Class OpenStorage (St : Type) := { open_storage : St → St }.
#[global] Instance open_impl `{!LruCrate} {Db : Type} : OpenStorage (ImplStorage Db) := {|
  open_storage s := ImplStorage_new (is_adapter s) |}.

(** What [start] reads of [ConfigNetwork] and of [Config]. *)
Section config.
Context `{!Tentacle}.
Record ConfigNetwork := mkConfigNetwork {
  cn_bootstraps : option (list Multiaddr);
  cn_max_connected_peers : option Z;
  cn_listening_address : Multiaddr;
  cn_send_buffer_size : option Z;
  cn_recv_buffer_size : option Z;
  cn_max_frame_length : option Z;
  cn_ping_interval : option Z
}.
Record Config := mkConfig {
  cf_privkey : Hex;
  cf_pool_size : nat;
  cf_code_hash_map : gmap string H256;
  cf_metadata_contract_address : H160;
  cf_checkpoint_interval : Z;
  cf_sync_txs_chunk_size : nat;
  cf_ckb_uri : string;
  cf_mercury_uri : string;
  cf_cross_client : ConfigCrossClient;
  cf_network : ConfigNetwork;
  cf_data_path : string
}.
End config.

(** [s.contains(pat)] *)
Definition str_contains (pat s : string) : bool := bool_decide (is_Some (String.index 0 pat s)).

(** ** [create_genesis] *)
Section genesis.
Context `{R : Rlp} `{K : Keccak} `{!StaticMerkleTree} `{!PatriciaTrie} {St : Type} `{!Storage St}
  `{!Evm (AxonExecutorAdapter St)} `{!ErrorText} `{!FasterHex}.

(** The two databases, and the state root [Axon] keeps for [start]. *)
Record Boot := mkBoot { bo_storage : St; bo_trie_db : trie_db; bo_state_root : MerkleRoot }.
Local Abbreviation BM := (M Boot ProtocolError).
Definition on_bo_storage {X} (m : M St ProtocolError X) : BM X :=
  zoom bo_storage (λ s b, mkBoot s (bo_trie_db b) (bo_state_root b)) m.

Definition DISTRIBUTE_ADDRESS : string := "0x8ab0cf264df99d83525e9e11c7e4db01558ae1b1".
Definition distribute_account : Account := mkAccount 0 32000001100000000000 RLP_NULL NIL_DATA.

(** The trie with the distributing account; its root is where the genesis
    transactions are executed. *)
Definition distribute : BM MerkleRoot := λ b,
  match
    distribute_address ← Address_from_hex DISTRIBUTE_ADDRESS;
    MPTTrie_insert (bo_trie_db b) MPTTrie_new (to_be_bytes 20 distribute_address) (encode c_account distribute_account)
  with
  | Ok mpt =>
      let '(db, _, root) := MPTTrie_commit (bo_trie_db b) mpt in
      (mkBoot (bo_storage b) db (bo_state_root b), root)
  | Err e => (b, Err e)
  | Panic => (b, Panic)
  end.

Definition exec_genesis (genesis : RichBlock) (root : MerkleRoot) : BM ExecResp := λ b,
  match ExecutorAdapter_from_root root (bo_trie_db b) (bo_storage b)
          (ExecutorContext_from_Proposal (Proposal_from_Block (rb_block genesis))) with
  | Ok backend =>
      let '(backend, r) := exec (rb_txs genesis) backend in
      (mkBoot (ea_storage backend) (ea_db backend) (bo_state_root b), r)
  | Err e => (b, Err e)
  | Panic => (b, Panic)
  end.

Definition make_genesis (genesis : RichBlock) : BM unit :=
  root ← distribute;
  resp ← exec_genesis genesis root;
  modify (λ b, mkBoot (bo_storage b) (bo_trie_db b) (er_state_root resp));;
  on_bo_storage (st_update_latest_proof ∅ (h_proof (b_header (rb_block genesis))));;
  on_bo_storage (st_insert_block ∅ (rb_block genesis));;
  on_bo_storage (st_insert_transactions ∅ (h_number (b_header (rb_block genesis))) (rb_txs genesis)).

Definition create_genesis (genesis : RichBlock) : BM unit :=
  latest ← try (on_bo_storage (st_get_latest_block ∅));
  match latest with
  | Err e => if negb (str_contains "GetNone" (error_text e)) then throw e else make_genesis genesis
  | _ => mret tt
  end.
End genesis.
Arguments Boot {_} St.

(** ** The mempool's messages *)
Section register.
Context `{R : Rlp} `{K : Keccak} `{!Tentacle} `{!NetworkCodec} `{!Tracer}.

(** [MsgNewTxs] and [MsgPullTxs] of the mempool's [message.rs]: a list is read
    item by item. *)
Definition MsgNewTxs_decode (b : bytes) : ProtocolResult (list SignedTransaction) :=
  map_err PE_Codec
    (l ← rlp_at (rlp_new b) 0;
     match rlp_item_count l with
     | Ok n => traverse (λ i, x ← rlp_at l i; SignedTransaction_decode x) (seq 0 n)
     | _ => Ok []
     end).
Definition MsgPullTxs_decode (b : bytes) : ProtocolResult (option Z * list Hash) :=
  map_err PE_Codec
    (height ← val_at (c_option c_u64) (rlp_new b) 0;
     hashes ← list_at c_h256 (rlp_new b) 1;
     Ok (height, hashes)).

Definition register_mempool_handlers : M MessageRouter NetworkError unit :=
  register_endpoint_handler (chars_of END_GOSSIP_NEW_TXS) (reactor_of MsgNewTxs_decode);;
  register_endpoint_handler (chars_of RPC_PULL_TXS) (reactor_of MsgPullTxs_decode);;
  register_rpc_response (chars_of RPC_RESP_PULL_TXS);;
  register_rpc_response (chars_of RPC_RESP_PULL_TXS_SYNC).
End register.

(** ** [start] *)
Section start.
Context `{R : Rlp} `{K : Keccak} `{!StaticMerkleTree} `{!PatriciaTrie} {St Mt : Type} `{!Storage St}
  `{!MetadataControl Mt} `{!Evm (AxonExecutorAdapter St)} `{!Interoperation} `{!PullRpc}
  `{!Secp256k1Verify} `{!ErrorText} `{!Overlord} `{!EthBloom} `{!Bls} `{!FasterHex} `{!WalName} `{!ConsensusNet}
  `{!CkbVm} `{!OverlordMessages} `{!NodeKeys} `{!Secp256k1Key} `{!OpenStorage St}
  `{!Tentacle} `{!IpNetworks} `{!Randomness} `{!NetworkCodec} `{!Tracer} `{!PeerKeys}
  `{!CkbTypes} `{!RecoverableKey} `{!JsonTransport} `{!SecioKeys}.
Local Abbreviation mempool := (MemPoolImpl (DefaultMemPoolAdapter St Mt)).
Local Abbreviation PM := (M mempool ProtocolError).

(** [MetadataController::new] on the storage and the trie that were opened, and
    [RocksTrieDB::new] on the same files *)
Variables (controller_new : St → trie_db → Mt) (open_trie : trie_db → trie_db).

(** An error of the network, boxed *)
Definition boxed {X} (o : outcome NetworkError X) : ProtocolResult X :=
  map_err (λ e, match e with NE_Boxed e => e | _ => PE_Network 0 end) o.

(** The settings of the network; [generated] is the key pair [NetworkConfig::new]
    makes, which the node's own key replaces. *)
Definition network_settings (cfg : Config) (generated : SecioKeyPair) : ProtocolResult NetworkSettings :=
  let n := cf_network cfg in
  config ← boxed (set_max_connections (cn_max_connected_peers n) (NetworkConfig_new generated));
  let config := set_ping_interval (cn_ping_interval n) (peer_store_dir (cf_data_path cfg +:+ "/peer_store") config) in
  let config := set_recv_buffer_size (cn_recv_buffer_size n) (set_send_buffer_size (cn_send_buffer_size n)
    (set_max_frame_length (cn_max_frame_length n) config)) in
  network_privkey ← Hex_as_string_trim0x (cf_privkey cfg);
  boxed (set_secio_keypair network_privkey
    (listen_addr (cn_listening_address n) (set_bootstraps (default [] (cn_bootstraps n)) config))).

(** The network service; its peers are those of the store that was loaded. *)
Definition start_network (cfg : Config) (genesis : RichBlock) (generated : SecioKeyPair) (store : PeerStore)
    : ProtocolResult NetworkService :=
  config ← network_settings cfg generated;
  net ← boxed (NetworkService_new config store);
  let chain_id := String.string_of_list_ascii (u64_to_string (h_chain_id (b_header (rb_block genesis)))) in
  Ok (set_peer_mgr_handle (set_pm_chain_id chain_id (peer_mgr_handle net)) net).

(** The last block, its metadata, the transactions of the next block that the
    log still has, and the mempool they are put back in.  The last argument of
    [DefaultMemPoolAdapter::new] is the largest size of a transaction: it is
    given the size of the pool. *)
Definition recover_mempool (cfg : Config) (genesis : RichBlock) (storage : St) (db : trie_db) (txs_wal : SignedTxsWAL)
    : ProtocolResult (mempool * Block * Metadata * list SignedTransaction) :=
  let '(storage, r) := st_get_latest_block ∅ storage in
  current_block ← r;
  next ← u64_add (h_number (b_header current_block)) 1;
  let current_stxs := load_by_number txs_wal next in
  let '(controller, r) := mc_get_metadata ∅ (b_header current_block) (controller_new storage db) in
  metadata ← r;
  _ ← InteroperationImpl_new (cf_code_hash_map cfg) ∅;
  gas_limit ← as_u64 (h_gas_limit (b_header (rb_block genesis)));
  pool ← mempool_new (cf_pool_size cfg)
    (DefaultMemPoolAdapter_new storage db controller 0 (cf_code_hash_map cfg) (h_chain_id (b_header (rb_block genesis)))
       gas_limit (Z.of_nat (cf_pool_size cfg)))
    current_stxs;
  Ok (pool, current_block, metadata, current_stxs).

(** [current_consensus_status]: the genesis block's state root is the one
    [create_genesis] left, any other block's is in its header.  The recovered
    transactions are executed on that state and the result is dropped. *)
Definition status_of (header : Header) (metadata : Metadata) (state_root : MerkleRoot) (base_fee : U256)
    (proof : Proof) : CurrentStatus :=
  mkCurrentStatus (Header_hash header) (h_number header) state_root (md_tx_num_limit metadata)
    (md_gas_limit metadata) (md_max_tx_size metadata) base_fee proof (md_last_checkpoint_block_hash metadata).
Definition recover_status (state_root : MerkleRoot) (current_header : Header) (metadata : Metadata)
    (current_stxs : list SignedTransaction) : M (DefaultMemPoolAdapter St Mt) ProtocolError CurrentStatus :=
  latest_proof ← on_storage (st_get_latest_proof ∅);
  if h_number current_header =? 0 then mret (status_of current_header metadata state_root 1 latest_proof)
  else
    exec_on_root (h_state_root current_header) (Proposal_from_Header current_header) current_stxs;;
    proof ← on_storage (st_get_latest_proof ∅);
    mret (status_of current_header metadata (h_state_root current_header) (h_base_fee_per_gas current_header) proof).

(** [CURRENT_STATE_ROOT.swap] and the mempool's arguments *)
Definition publish_status (status : CurrentStatus) (current_header : Header) (metadata : Metadata) : PM unit :=
  on_adapter (modify (set_state_root (cs_last_state_root status)));;
  mempool_set_args ∅ (h_state_root current_header) (md_gas_limit metadata) (md_max_tx_size metadata).

(** The private key, the public key and the address of the node. *)
Definition node_keys (cfg : Config) : ProtocolResult (bytes * bytes * H160) :=
  digits ← Hex_as_string_trim0x (cf_privkey cfg);
  hex_privkey ← hex_decode digits;
  my_privkey ← ok_or (node_key_from hex_privkey) (PE_Main Main_Crypto);
  my_address ← Address_from_pubkey_bytes (node_pub_uncompressed my_privkey);
  Ok (hex_privkey, node_pub_bytes my_privkey, my_address).

(** The keys of the verifiers, and [OverlordCrypto::new]. *)
Definition node_crypto (hex_privkey : bytes) (verifier_list : list ValidatorExtend) : ProtocolResult OverlordCrypto :=
  pairs ← traverse (λ v,
    address ← Hex_as_bytes (ve_pub_key v);
    digits ← Hex_as_string_trim0x (ve_bls_pub_key v);
    hex_pubkey ← hex_decode digits;
    pub_key ← map_err (λ _, PE_Main Main_Crypto) (bls_pub_key_from hex_pubkey);
    Ok (address, pub_key)) verifier_list;
  bls_priv_key ← ok_or (bls_private_key_from hex_privkey) (PE_Main Main_Crypto);
  Ok (mkCrypto bls_priv_key (fold_left (λ m kv, <[kv.1 := kv.2]> m) pairs ∅) EmptyString).

(** What [Overlord::run] is given. *)
Record RunArguments := mkRunArguments {
  ra_init_height : Z;
  ra_interval : Z;
  ra_authority_list : list Node;
  ra_timer_config : DurationConfig
}.
Record RunningNode := mkRunningNode {
  rn_engine : ConsensusEngine (OverlordConsensusAdapter St Mt);
  rn_consensus : OverlordConsensus;
  rn_cross : CrossAdapterHandle (C := RpcClient);
  rn_sync_txs_chunk_size : nat;
  rn_router : MessageRouter;
  rn_network : NetworkService;
  rn_run : RunArguments
}.

(** The handle the consensus has of the cross-chain client.  The client itself
    is made of the same parts with the node's key, and runs when it is enabled. *)
Definition start_cross (cfg : Config) (hex_privkey : bytes) : ProtocolResult (CrossAdapterHandle (C := RpcClient)) :=
  ckb_client ← RpcClient_new (cf_ckb_uri cfg) (cf_mercury_uri cfg);
  _ ← unwrap (key_from hex_privkey);
  CrossAdapterHandle_new ckb_client (cf_cross_client cfg).

(** The consensus over a mempool whose status is known. *)
Definition start_consensus (cfg : Config) (genesis : RichBlock) (keys : bytes * bytes * H160) (status : CurrentStatus)
    (metadata : Metadata) (txs_wal : SignedTxsWAL) (pool : mempool)
    : ProtocolResult (ConsensusEngine (OverlordConsensusAdapter St Mt) * OverlordConsensus) :=
  let '(hex_privkey, self_pub_key, my_address) := keys in
  crypto ← node_crypto hex_privkey (md_verifier_list metadata);
  let '(engine, r) := OverlordConsensus_new status (cf_metadata_contract_address cfg)
    (mkNodeInfo (h_chain_id (b_header (rb_block genesis))) self_pub_key my_address) crypto txs_wal
    (OverlordConsensusAdapter_new pool crypto) (cf_checkpoint_interval cfg) in
  consensus ← r;
  Ok (set_ce_adapter (set_overlord_handler (ce_adapter engine)) engine, consensus).

Definition start (cfg : Config) (genesis : RichBlock) (b : Boot St) (txs_wal : SignedTxsWAL)
    (generated : SecioKeyPair) (store : PeerStore) : ProtocolResult RunningNode :=
  net ← start_network cfg genesis generated store;
  opened ← recover_mempool cfg genesis (bo_storage b) (bo_trie_db b) txs_wal;
  let '(pool, current_block, metadata, current_stxs) := opened in
  keys ← node_keys cfg;
  let '(router, r) := register_mempool_handlers MessageRouter_new in
  _ ← boxed r;
  validators ← traverse Validator_from (md_verifier_list metadata);
  let '(pool, r) := on_adapter (recover_status (bo_state_root b) (b_header current_block) metadata current_stxs) pool in
  status ← r;
  let '(pool, r) := publish_status status (b_header current_block) metadata pool in
  _ ← r;
  cross ← start_cross cfg keys.1.1;
  running ← start_consensus cfg genesis keys status metadata txs_wal pool;
  peer_ids ← traverse (λ v, key ← Hex_as_bytes (ve_pub_key v); boxed (from_pubkey_bytes key)) (md_verifier_list metadata);
  let '(net, r) := tag_consensus (map peer_id_as_bytes peer_ids) net in
  _ ← boxed r;
  let '(router, r) := register_consensus_handlers router in
  _ ← boxed r;
  Ok (mkRunningNode running.1 running.2 cross (cf_sync_txs_chunk_size cfg) router net
    (mkRunArguments (h_number (b_header current_block)) (md_interval metadata)
      (map (λ v, mkNode (v_pub_key v) (v_propose_weight v) (v_vote_weight v)) validators)
      (DurationConfig_from metadata))).

(** [run] on what the databases hold; [start] opens them again. *)
Definition run (cfg : Config) (genesis : RichBlock) (storage : St) (db : trie_db) (txs_wal : SignedTxsWAL)
    (generated : SecioKeyPair) (store : PeerStore) : Boot St * ProtocolResult RunningNode :=
  let '(b, r) := create_genesis genesis (mkBoot (open_storage storage) (open_trie db) 0) in
  (b, _ ← r;
      start cfg genesis (mkBoot (open_storage (bo_storage b)) (open_trie (bo_trie_db b)) (bo_state_root b))
        txs_wal generated store).
End start.
