(* ===== verification/StartupProps.v ===== *)
(** * The life of a node

    A node that starts on an empty database stores its genesis block, and a node
    that starts again finds the chain it left: the blocks stored over any number
    of proposals, checks, commits, synchronizations and restarts are one linked chain from the
    genesis block on. *)

From S2P Require Import Prelude Types Codec RlpInstance Traits CodecProps Heap Pool PoolProps.
From S2P Require Import Executor MemPool Storage Interoperation DefaultAdapter StorageLaws StorageProps.
From S2P Require Import ExecRefine TrieInstance Metadata MetadataProps AdapterProps Overlord Wal.
From S2P Require Import Engine ConsensusAdapterImpl QuorumProps EngineProps.
From S2P Require Import NetAddr AddrManager PeerStore PeerManager NetService Numbers Endpoint Router NetConfig.
From S2P Require Import Protocols RouterProps NetServiceProps AddrManagerProps Frame BlockTable ChainProps Sync SyncProps.
From S2P Require Import Primitives CrossClient CrossClientProps ConsensusMsg ConsensusMsgProps Startup.

Local Open Scope Z_scope.

(** What is relied on: a database that is opened holds what it held, and the
    error of an absent value is displayed with its name. *)
Class OpenLaws (St : Type) `{!Storage St} `{!BlockTable St} `{!OpenStorage St} : Prop :=
  open_holds (s : St) L : holds s L → holds (open_storage s) L.
Class ErrorNames `{!ErrorText} : Prop :=
  get_none_named : str_contains "GetNone" (error_text (PE_Storage GetNone)) = true.

#[export] Instance open_table `{R : Rlp} `{K : Keccak} `{!LruCrate} {Db : Type} `{!StorageAdapter Db} `{!StoreLaws Db}
    `{!StoreFrame Db} `{!LatestKeys} : OpenLaws (ImplStorage Db).
Proof. intros s L. apply reopen_table. Qed.

Section life.
Context `{R : Rlp} `{K : Keccak} `{!StaticMerkleTree} `{!PatriciaTrie} {St Mt : Type} `{!Storage St}
  `{!MetadataControl Mt} `{!Evm (AxonExecutorAdapter St)} `{!Interoperation} `{!PullRpc}
  `{!Secp256k1Verify} `{!ErrorText} `{!Overlord} `{!EthBloom} `{!Bls} `{!FasterHex} `{!WalName} `{!ConsensusNet}
  `{!CkbVm} `{!OverlordMessages} `{!NodeKeys} `{!Secp256k1Key} `{!OpenStorage St}
  `{!Tentacle} `{!IpNetworks} `{!Randomness} `{!NetworkCodec} `{!Tracer} `{!PeerKeys}
  `{!CkbTypes} `{!RecoverableKey} `{!JsonTransport} `{!SecioKeys}
  `{!BlockTable St} `{!OpenLaws St} `{!ErrorNames}.
Context (controller_new : St → trie_db → Mt) (open_trie : trie_db → trie_db).
Local Abbreviation engine := (ConsensusEngine (OverlordConsensusAdapter St Mt)).
Local Abbreviation pool := (MemPoolImpl (DefaultMemPoolAdapter St Mt)).
Local Abbreviation pool_holds L := (pool_shared (λ s _, holds s L) : pool → Prop).

(** ** The genesis block *)
Definition genesis_ledger (g : RichBlock) (L : ledger) : ledger :=
  add_block (rb_block g) (set_proof (h_proof (b_header (rb_block g))) L).

Lemma exec_genesis_held g root (b b' : Boot St) resp L : exec_genesis g root b = (b', Ok resp) →
  holds (bo_storage b) L → holds (bo_storage b') L.
Proof.
  unfold exec_genesis, ExecutorAdapter_from_root. destruct (MPTTrie_from_root _ _) as [t| |]; [|done..]. cbn.
  intros Hrun Hs. pose proof (exec_framed (λ a, holds (ea_storage a) L) (rb_txs g) (mkExecAdapter (ExecutorContext_from_Proposal
    (Proposal_from_Block (rb_block g))) t (bo_storage b) (bo_trie_db b)) Hs) as Hx.
  destruct (exec _ _) as [backend r]. by injection Hrun as <- _.
Qed.

Lemma distribute_storage (b b' : Boot St) root : distribute b = (b', Ok root) → bo_storage b' = bo_storage b.
Proof.
  unfold distribute. destruct (Address_from_hex _ ≫= _) as [t| |]; [|done..].
  destruct (MPTTrie_commit _ _) as [[db t'] r]. by intros [= <- _].
Qed.

Lemma on_bo_storage_eq {X} (m : M St ProtocolError X) (b : Boot St) :
  on_bo_storage m b = (mkBoot (m (bo_storage b)).1 (bo_trie_db b) (bo_state_root b), (m (bo_storage b)).2).
Proof. unfold on_bo_storage, zoom. by destruct (m _). Qed.

(** Filling a storage. *)
Lemma make_genesis_ok g (b b' : Boot St) L : make_genesis g b = (b', Ok tt) → holds (bo_storage b) L →
  proof_wf (h_proof (b_header (rb_block g))) → block_wf (rb_block g) →
  ld_blocks L !! h_number (b_header (rb_block g)) = None → holds (bo_storage b') (genesis_ledger g L).
Proof.
  intros Hrun Hs Hp Hb Hnone. unfold make_genesis in Hrun. apply bind_inv in Hrun as (root & b1 & Hd & Hrun).
  apply bind_inv in Hrun as (resp & b2 & Hx & Hrun). rewrite bind_modify in Hrun.
  apply exec_genesis_held with (L := L) in Hx; [|by rewrite (distribute_storage _ _ _ Hd)].
  destruct (bt_update_latest_proof ∅ (h_proof (b_header (rb_block g))) _ _ Hx Hp) as (s3 & E3 & Hs3).
  destruct (bt_insert_block ∅ (rb_block g) _ _ Hs3 Hb Hnone) as (s4 & E4 & Hs4).
  erewrite (bind_ok _ _ _ (mkBoot s3 _ _) tt) in Hrun; [|rewrite on_bo_storage_eq; cbn [bo_storage]; by rewrite E3].
  erewrite (bind_ok _ _ _ (mkBoot s4 _ _) tt) in Hrun; [|rewrite on_bo_storage_eq; cbn [bo_storage]; by rewrite E4].
  rewrite on_bo_storage_eq in Hrun. injection Hrun as <- _. cbn [bo_storage]. by apply (sf_insert_transactions (I := λ s, holds s _)).
Qed.

Lemma create_genesis_ok g (b b' : Boot St) L : create_genesis g b = (b', Ok tt) → holds (bo_storage b) L →
  match ld_latest L with
  | Some _ => holds (bo_storage b') L ∧ bo_state_root b' = bo_state_root b
  | None => proof_wf (h_proof (b_header (rb_block g))) → block_wf (rb_block g) →
      ld_blocks L !! h_number (b_header (rb_block g)) = None → holds (bo_storage b') (genesis_ledger g L)
  end.
Proof.
  intros Hrun Hs. unfold create_genesis in Hrun. destruct (bt_latest_block ∅ _ _ Hs) as (s1 & E1 & Hs1).
  erewrite (bind_ok _ _ _ (mkBoot s1 _ _) (ok_or (ld_latest L) (PE_Storage GetNone))) in Hrun.
  2: { unfold try. rewrite on_bo_storage_eq, E1. by destruct (ld_latest L). }
  destruct (ld_latest L) as [blk|]; cbn [ok_or] in Hrun; [by injection Hrun as <-|].
  rewrite get_none_named in Hrun. cbn [negb] in Hrun. intros Hp Hb Hnone. by eapply make_genesis_ok.
Qed.

(** ** What [start] finds *)
Lemma mempool_new_held n (a : DefaultMemPoolAdapter St Mt) txs p L : mempool_new n a txs = Ok p →
  holds (da_storage a) L → pool_holds L p.
Proof.
  unfold mempool_new. destruct (pool_new n) as [q| |]; [|done..]. cbn [mbind outcome_bind]. intros Hrun Ha.
  assert (preserves (pool_holds L) (for_each (λ tx, try (initial_insert ∅ tx);; mret tt) txs)) as Hp.
  { unfold initial_insert. keep; apply preserves_try, preserves_bind; [|intros _; apply on_pool_held].
    apply on_adapter_held, check_storage_held, _. }
  specialize (Hp (mkMemPool q a) Ha). destruct (for_each _ _ _) as [p' [| |]]; [by injection Hrun as <-..|done].
Qed.

Lemma recover_mempool_ok cfg g s db wal p blk md stxs L :
  recover_mempool controller_new cfg g s db wal = Ok (p, blk, md, stxs) → holds s L →
  ld_latest L = Some blk ∧ pool_holds L p.
Proof.
  intros Hrun Hs. unfold recover_mempool in Hrun. destruct (bt_latest_block ∅ _ _ Hs) as (s1 & E1 & Hs1).
  rewrite E1 in Hrun. destruct (ld_latest L) as [blk'|]; [|done]. cbn [ok_or mbind outcome_bind] in Hrun.
  apply outcome_inv in Hrun as (next & _ & Hrun). destruct (mc_get_metadata _ _ _) as [c r].
  apply outcome_inv in Hrun as (md' & _ & Hrun). apply outcome_inv in Hrun as (i & _ & Hrun).
  apply outcome_inv in Hrun as (gas & _ & Hrun). apply outcome_inv in Hrun as (p' & Hp & Hrun).
  injection Hrun as <- <- _ _. split; [done|]. by apply (mempool_new_held _ _ _ _ _ Hp).
Qed.

(** The status that is recovered. *)
Definition recovered (root : MerkleRoot) (blk : Block) (proof : Proof) (st : CurrentStatus) : Prop :=
  cs_last_number st = h_number (b_header blk) ∧ cs_prev_hash st = header_hash blk ∧ cs_proof st = proof ∧
  (h_number (b_header blk) = 0 → cs_last_state_root st = root) ∧
  (h_number (b_header blk) ≠ 0 → cs_last_state_root st = h_state_root (b_header blk) ∧
    cs_base_fee_per_gas st = h_base_fee_per_gas (b_header blk)).

Lemma on_storage_run {X} (m : M St ProtocolError X) (a : DefaultMemPoolAdapter St Mt) s' o :
  m (da_storage a) = (s', o) → on_storage m a = (set_da_storage s' a, o).
Proof. intros E. unfold on_storage, zoom. by rewrite E. Qed.

Lemma proof_run (a : DefaultMemPoolAdapter St Mt) L : holds (da_storage a) L → ∃ a',
  on_storage (st_get_latest_proof ∅) a = (a', ok_or (ld_proof L) (PE_Storage GetNone)) ∧ holds (da_storage a') L.
Proof.
  intros Ha. destruct (bt_latest_proof ∅ _ _ Ha) as (s' & E & Hs). eexists. split; [by apply on_storage_run|done].
Qed.

Lemma recover_status_ok root blk md stxs (a a' : DefaultMemPoolAdapter St Mt) st L :
  recover_status root (b_header blk) md stxs a = (a', Ok st) → holds (da_storage a) L →
  holds (da_storage a') L ∧ ∃ proof, ld_proof L = Some proof ∧ recovered root blk proof st.
Proof.
  intros Hrun Ha. unfold recover_status in Hrun. destruct (proof_run a L Ha) as (a1 & E1 & Ha1).
  destruct (ld_proof L) as [proof|] eqn:Ep; [|by unfold mbind, M_bind in Hrun; rewrite E1 in Hrun].
  rewrite (bind_ok _ _ _ _ _ E1) in Hrun. destruct (Z.eqb_spec (h_number (b_header blk)) 0) as [E0|E0].
  { injection Hrun as <- <-. split; [done|]. exists proof. by split_and!. }
  apply bind_inv in Hrun as (resp & a2 & Hx & Hrun).
  apply (preserves_inv (shared_by (λ s _, holds s L))) in Hx; [|by apply exec_on_root_framed, held_framed|done].
  destruct (proof_run a2 L Hx) as (a3 & E3 & Ha3). rewrite Ep in E3. rewrite (bind_ok _ _ _ _ _ E3) in Hrun.
  injection Hrun as <- <-. split; [done|]. exists proof. by split_and!.
Qed.

Lemma publish_status_held st h md L : preserves (pool_holds L) (publish_status st h md).
Proof.
  unfold publish_status. apply preserves_bind; [|intros _; apply set_args_held].
  apply on_adapter_held. by apply preserves_modify.
Qed.

Lemma start_consensus_ok cfg g keys st md wal p (e : engine) oc L :
  start_consensus cfg g keys st md wal p = Ok (e, oc) → pool_holds L p → serves (ce_adapter e) L ∧ ce_status e = st.
Proof.
  unfold start_consensus. destruct keys as [[hex pub] addr]. intros Hrun Hp.
  apply outcome_inv in Hrun as (crypto & _ & Hrun).
  destruct (OverlordConsensus_new _ _ _ _ _ _ _) as [e1 r] eqn:En. apply outcome_inv in Hrun as (oc' & -> & Hrun).
  injection Hrun as <- _. cbn [ce_adapter ce_status set_ce_adapter].
  change (serves (ce_adapter e1) L ∧ ce_status e1 = st). unfold OverlordConsensus_new, OverlordConsensus_start in En.
  apply (preserves_inv (λ e : engine, serves (ce_adapter e) L ∧ ce_status e = st)) in En; [done| |done].
  keep; apply ask_same; auto with axon.
Qed.

(** A node that has started: its storage serves the chain that was there, its
    status is that of the latest block. *)
Lemma start_ok cfg g b wal generated store running L : start controller_new cfg g b wal generated store = Ok running →
  holds (bo_storage b) L → ∃ blk proof, ld_latest L = Some blk ∧ ld_proof L = Some proof ∧
    serves (ce_adapter (rn_engine running)) L ∧ recovered (bo_state_root b) blk proof (ce_status (rn_engine running)).
Proof.
  intros Hrun Hs. unfold start in Hrun. apply outcome_inv in Hrun as (net & _ & Hrun). apply outcome_inv in Hrun as ([[[p blk] md] stxs] & Ho & Hrun).
  destruct (recover_mempool_ok _ _ _ _ _ _ _ _ _ _ Ho Hs) as [Hblk Hp].
  apply outcome_inv in Hrun as (keys & _ & Hrun). destruct (register_mempool_handlers MessageRouter_new) as [router1 r1].
  apply outcome_inv in Hrun as (? & _ & Hrun). apply outcome_inv in Hrun as (vs & _ & Hrun).
  destruct (on_adapter _ p) as [p1 r2] eqn:E2. apply outcome_inv in Hrun as (st & -> & Hrun).
  unfold on_adapter, zoom in E2. destruct (recover_status _ _ _ _ _) as [a1 o1] eqn:Er. injection E2 as <- ->.
  destruct (recover_status_ok _ _ _ _ _ _ _ _ Er Hp) as (Ha1 & proof & Hproof & Hst).
  destruct (publish_status _ _ _ _) as [p2 r3] eqn:E3.
  apply (preserves_inv (pool_holds L)) in E3; [|apply publish_status_held|done].
  apply outcome_inv in Hrun as (? & _ & Hrun). apply outcome_inv in Hrun as (cross & _ & Hrun).
  apply outcome_inv in Hrun as ([e oc] & Hc & Hrun).
  destruct (start_consensus_ok _ _ _ _ _ _ _ _ _ _ Hc E3) as [Hserves Hest].
  apply outcome_inv in Hrun as (ids & _ & Hrun). destruct (tag_consensus _ _) as [net1 r4].
  apply outcome_inv in Hrun as (? & _ & Hrun). destruct (register_consensus_handlers router1) as [router2 r5].
  apply outcome_inv in Hrun as (? & _ & Hrun). injection Hrun as <-. exists blk, proof. cbn [rn_engine fst].
  by rewrite Hest.
Qed.

(** ** A life *)
Local Abbreviation last nd := (cs_last_number (ce_status (nd_engine nd))).

(** The node works, fetches the blocks of a higher peer, or stops between two of
    its operations and is started again on its storage, with any configuration
    and whatever the trie database and the log hold. *)
Inductive life_step : node (A := OverlordConsensusAdapter St Mt) → node (A := OverlordConsensusAdapter St Mt) → Prop :=
| life_works nd nd' : node_step nd nd' → life_step nd nd'
| life_restarts nd cfg g db wal generated store running :
    (run controller_new open_trie cfg g (da_storage (mp_adapter (oa_mempool (ce_adapter (nd_engine nd))))) db wal generated store).2
      = Ok running →
    life_step nd (mkNode (rn_engine running) [])
| life_syncs e acc ctx remote (y y' : OverlordSynchronization (OverlordConsensusAdapter St Mt)) :
    receive_remote_block ctx (ce_status e) remote y = (y', Ok tt) → honest_peers ctx →
    sy_adapter y = ce_adapter e → sy_status y = ce_status e →
    life_step (mkNode e acc) (mkNode (carrier e (sy_adapter y') (sy_status y')) acc).

Definition life_inv (L : ledger) (nd : node (A := OverlordConsensusAdapter St Mt)) : Prop :=
  node_inv L 0 nd ∧ 0 ≤ last nd ∧
  (0 < last nd → head_known L (ce_status (nd_engine nd)) ∧ proof_known L (ce_status (nd_engine nd))).

(** A node that was started on a ledger with a chain whose head is the latest
    block. *)
Lemma started_inv L root blk proof (e : engine) : serves (ce_adapter e) L → recovered root blk proof (ce_status e) →
  ld_latest L = Some blk → ld_proof L = Some proof → 0 ≤ h_number (b_header blk) →
  linked (ld_blocks L) 0 (h_number (b_header blk)) → ld_blocks L !! h_number (b_header blk) = Some blk →
  life_inv L (mkNode e []).
Proof.
  intros Hs (Hn & Hh & Hp & _ & Hrest) Hl Hlp Hpos Hlink Hb. split; [split|split]; cbn [nd_engine nd_accepted].
  - split_and!; [done|by rewrite Hn|]. exists blk. by rewrite Hn, Hh.
  - done.
  - by rewrite Hn.
  - intros Hlt. split; [|left; by rewrite Hp]. destruct (Hrest ltac:(lia)) as [Hr Hf]. exists blk. by rewrite Hn, Hh, Hr, Hf.
Qed.

Lemma synced_inv L e acc y : synced L 0 e y → life_inv L (mkNode e acc) →
  ∃ L', life_inv L' (mkNode (carrier e (sy_adapter y) (sy_status y)) acc) ∧ ld_blocks L ⊆ ld_blocks L' ∧
    cs_last_number (ce_status e) ≤ cs_last_number (sy_status y).
Proof.
  intros (L' & Hhead & Hsub & Hend) ((_ & Hacc) & Hpos & Hset). cbn [nd_engine nd_accepted] in *. exists L'.
  assert (cs_last_number (ce_status e) ≤ cs_last_number (sy_status y)) as Hle by (destruct Hend as [[-> _]|[? _]]; lia).
  split; [|done]. split; [split; [done|]|split; [cbn; lia|]]; cbn [nd_engine nd_accepted].
  - eapply Forall_impl; [exact Hacc|]. intros p Hp. unfold accepted_ok in *. cbn.
    destruct Hend as [[-> _]|[? _]]; [done|]. left. destruct Hp as [?|[? _]]; lia.
  - cbn. destruct Hend as [[-> ->]|(_ & ? & ?)]; done.
Qed.

Lemma life_step_inv L nd nd' : life_step nd nd' → life_inv L nd →
  ∃ L', life_inv L' nd' ∧ ld_blocks L ⊆ ld_blocks L' ∧ last nd ≤ last nd'.
Proof.
  intros Hstep (Hinv & Hpos & Hset). destruct Hstep as [nd nd' Hstep|nd cfg g db wal generated store running Hrun|e acc ctx remote y y' Hrun Hhon Ha Hst].
  - destruct (node_step_inv L 0 nd nd' Hstep Hpos Hinv) as (L' & Hinv' & Hsub & Hle & Hset'). exists L'.
    split; [|done]. split; [done|split; [lia|]]. destruct Hset' as [[-> ->]|[? ?]]; [done|by split; [|left]].
  - destruct Hinv as [(Hs & Hlink & blk & Hblk & Hhash & Hlatest) _]. apply open_holds in Hs. exists L. unfold run in Hrun.
    destruct (create_genesis _ _) as [b r] eqn:Eg. cbn [snd] in Hrun. apply outcome_inv in Hrun as ([] & -> & Hrun).
    apply create_genesis_ok with (L := L) in Eg; [|done]. rewrite Hlatest in Eg. destruct Eg as [Hb _].
    apply open_holds in Hb. apply start_ok with (L := L) in Hrun as (blk' & proof & Hl & Hp & Hserves & Hrec); [|done].
    rewrite Hlatest in Hl. injection Hl as <-. pose proof Hrec as (Hn & _).
    assert (Hnum : h_number (b_header blk) = last nd) by apply (bt_wf _ _ _ _ Hb Hblk).
    split_and!; [|done|]; cbn [nd_engine].
    + apply (started_inv L _ blk proof _ Hserves Hrec); rewrite ?Hnum; done.
    + by rewrite Hn, Hnum.
  - apply synced_inv; [|done]. by apply (receive_remote_block_linked ctx remote y y' L 0 e); [..|apply Hinv|].
Qed.

(** The first start, on an empty database. *)
Lemma run_first cfg g s db wal generated store running : holds s no_ledger → block_wf (rb_block g) →
  h_number (b_header (rb_block g)) = 0 →
  (run controller_new open_trie cfg g s db wal generated store).2 = Ok running →
  life_inv (genesis_ledger g no_ledger) (mkNode (rn_engine running) []).
Proof.
  intros Hs Hwf Hnum Hrun. unfold run in Hrun. apply open_holds in Hs.
  destruct (create_genesis _ _) as [b r] eqn:Eg. cbn [snd] in Hrun. apply outcome_inv in Hrun as ([] & -> & Hrun).
  apply create_genesis_ok with (L := no_ledger) in Eg; [|done]. cbn [ld_latest no_ledger] in Eg.
  specialize (Eg ltac:(by apply Hwf) Hwf ltac:(done)). apply open_holds in Eg.
  apply start_ok with (L := genesis_ledger g no_ledger) in Hrun as (blk & proof & Hl & Hp & Hserves & Hrec); [|done].
  injection Hl as <-. assert (ld_blocks (genesis_ledger g no_ledger) = {[0 := rb_block g]}) as Hbs.
  { cbn. by rewrite Hnum, insert_empty. }
  apply (started_inv _ _ (rb_block g) proof _ Hserves Hrec); rewrite ?Hnum, ?Hbs; try done.
  split; [intros n; lia|]. intros n Hn. apply lookup_singleton_ne. lia.
Qed.

(** C3: The chain of a node's whole life.  A node started on an empty database
    with a well-formed genesis block, after any sequence of proposals made,
    proposals checked, blocks committed, synchronizations with peers that answer
    with the blocks asked for, and restarts on the storage it left, has one chain
    in its storage: it begins with the genesis block, each block's previous hash
    is the hash of the stored block below, nothing is stored above the last
    block, which is the latest of the storage and the one the node's status
    names.  Once there is a block above genesis, the number, state root and base
    fee of the status, whether it was computed by a commit, taken from a peer's
    block or recovered at a start, are those the storage holds, and the stored
    proof is the status's or the one in the last block's header.  The commits and
    synchronizations of the life are those that succeed. *)
Theorem life_linked cfg g s db wal generated store running nd : holds s no_ledger → block_wf (rb_block g) →
  h_number (b_header (rb_block g)) = 0 →
  (run controller_new open_trie cfg g s db wal generated store).2 = Ok running →
  rtc life_step (mkNode (rn_engine running) []) nd →
  ∃ L, serves (ce_adapter (nd_engine nd)) L ∧ ld_blocks L !! 0 = Some (rb_block g) ∧ 0 ≤ last nd ∧
    linked (ld_blocks L) 0 (last nd) ∧
    (∃ blk, ld_blocks L !! last nd = Some blk ∧ header_hash blk = cs_prev_hash (ce_status (nd_engine nd)) ∧
       ld_latest L = Some blk) ∧
    (0 < last nd → head_known L (ce_status (nd_engine nd)) ∧ proof_known L (ce_status (nd_engine nd))).
Proof.
  intros Hs Hwf Hnum Hrun Hsteps.
  assert (∃ L, life_inv L (mkNode (rn_engine running) []) ∧ ld_blocks L !! 0 = Some (rb_block g)) as (L & Hinv & Hg).
  { exists (genesis_ledger g no_ledger). split; [by apply (run_first cfg g s db wal generated store)|].
    cbn. rewrite Hnum. apply lookup_insert_eq. }
  clear Hrun. revert L Hinv Hg. induction Hsteps as [nd|nd nd1 nd' Hstep _ IH]; intros L Hinv Hg.
  - destruct Hinv as ([(Hserves & Hlink & Hblk) _] & Hpos & Hset). by exists L.
  - destruct (life_step_inv L nd nd1 Hstep Hinv) as (L1 & Hinv1 & Hsub & _). apply (IH L1 Hinv1).
    by eapply lookup_weaken.
Qed.

(** A node that is started again before it committed a block has lost its
    state root.  The databases hold the genesis block and the state it was
    executed to, but [create_genesis] returns before it sets the root, and the
    status of the started node has the zero root in place of it, while the
    node's number and previous hash are those of the genesis block. *)
Theorem genesis_restart_root cfg g s db wal generated store running L blk : holds s L → ld_latest L = Some blk →
  h_number (b_header blk) = 0 → (run controller_new open_trie cfg g s db wal generated store).2 = Ok running →
  cs_last_state_root (ce_status (rn_engine running)) = 0 ∧ cs_last_number (ce_status (rn_engine running)) = 0 ∧
  cs_prev_hash (ce_status (rn_engine running)) = header_hash blk.
Proof.
  intros Hs Hl Hnum Hrun. unfold run in Hrun. apply open_holds in Hs.
  destruct (create_genesis _ _) as [b r] eqn:Eg. cbn [snd] in Hrun. apply outcome_inv in Hrun as ([] & -> & Hrun).
  apply create_genesis_ok with (L := L) in Eg; [|done]. rewrite Hl in Eg. destruct Eg as [Hb Hroot].
  apply open_holds in Hb. apply start_ok with (L := L) in Hrun as (blk' & proof & Hl' & _ & _ & Hn & Hh & _ & Hr & _); [|done].
  rewrite Hl in Hl'. injection Hl' as <-. cbn [bo_state_root] in Hr, Hroot. rewrite Hroot in Hr.
  by rewrite Hn, Hr, Hh by done.
Qed.
End life.

(** ** The end of an epoch *)
Section epoch_end.
Context `{R : Rlp} `{K : Keccak} `{!StaticMerkleTree} `{!PatriciaTrie} {St A : Type} `{!Storage St}
  `{!MetadataAbi} `{!Evm (AxonExecutorAdapter St)} `{!Interoperation} `{!PullRpc}
  `{!Secp256k1Verify} `{!ErrorText} `{!Overlord} `{!EthBloom} `{!Bls} `{!FasterHex} `{!WalName} `{!ConsensusNet}
  `{!CkbVm} `{!OverlordMessages} `{!NodeKeys} `{!Secp256k1Key} `{!OpenStorage St} `{!MetadataControlAdapter A}
  `{!Tentacle} `{!IpNetworks} `{!Randomness} `{!NetworkCodec} `{!Tracer} `{!PeerKeys} `{!BlockTable St}
  `{!CkbTypes} `{!RecoverableKey} `{!JsonTransport} `{!SecioKeys}.
Context (adapter_of : St → trie_db → A) (address : H160) (len : Z).
Local Abbreviation controller := (MetadataController A).
Local Abbreviation adapter := (DefaultMemPoolAdapter St controller).
Local Abbreviation knows c := (λ a : adapter, da_metadata a = c).
Local Abbreviation pool_knows c := (λ p : MemPoolImpl adapter, da_metadata (mp_adapter p) = c).
Implicit Types (c : controller).

(** Starting leaves the controller's cache as it was after the first query. *)
Lemma on_storage_knows {X} (m : M St ProtocolError X) c : preserves (knows c) (on_storage m).
Proof. by apply preserves_zoom_other. Qed.
Lemma on_adapter_knows {X} (m : M adapter ProtocolError X) c : preserves (knows c) m → preserves (pool_knows c) (on_adapter m).
Proof. by apply preserves_zoom. Qed.
Hint Resolve on_storage_knows on_adapter_knows : axon.

Lemma mempool_new_knows n (a : adapter) txs p c : mempool_new n a txs = Ok p → knows c a → pool_knows c p.
Proof.
  unfold mempool_new. destruct (pool_new n) as [q| |]; [|done..]. cbn [mbind outcome_bind]. intros Hrun Ha.
  assert (preserves (pool_knows c) (for_each (λ tx, try (initial_insert ∅ tx);; mret tt) txs)) as Hp.
  { unfold initial_insert. keep; apply preserves_try, preserves_bind; [|intros _; by apply preserves_zoom_other].
    apply on_adapter_knows. cbn [check_storage_exist default_adapter]. unfold default_check_storage_exist. keep. }
  specialize (Hp (mkMemPool q a) Ha). destruct (for_each _ _ _) as [p' [| |]]; [by injection Hrun as <-..|done].
Qed.
Lemma exec_on_root_knows root p txs c : preserves (knows c) (exec_on_root root p txs).
Proof.
  intros a Ha. unfold exec_on_root. rewrite bind_gets.
  destruct (ExecutorAdapter_from_root _ _ _ _) as [backend| |]; [|done..]. rewrite bind_lift_ok. by destruct (exec _ _).
Qed.
Hint Resolve exec_on_root_knows : axon.
Lemma recover_status_knows root h md stxs c : preserves (knows c) (recover_status root h md stxs).
Proof. unfold recover_status. keep. Qed.
Lemma recover_status_number root h md stxs (a a' : adapter) st :
  recover_status root h md stxs a = (a', Ok st) → cs_last_number st = h_number h.
Proof.
  unfold recover_status. intros (proof & a1 & _ & Hrun)%bind_inv. destruct (_ =? _); [by injection Hrun as _ <-|].
  apply bind_inv in Hrun as (resp & a2 & _ & Hrun). apply bind_inv in Hrun as (proof' & a3 & _ & Hrun).
  by injection Hrun as _ <-.
Qed.
Lemma publish_status_knows st h md c : preserves (pool_knows c) (publish_status st h md).
Proof.
  unfold publish_status, mempool_set_args. cbn [adapter_set_args default_adapter]. unfold default_set_args.
  keep; apply on_adapter_knows; by apply preserves_modify.
Qed.

(** A fresh controller knows one epoch after its first query. *)
Lemma first_query a h c md : get_metadata ∅ h (MetadataController_new a address len) = (c, Ok md) →
  metadata_cache c = {[h_number h / len := md]} ∧ EPOCH_LEN c = len ∧ len ≠ 0.
Proof.
  unfold get_metadata. rewrite bind_gets. cbn [id]. unfold calc_epoch. cbn [EPOCH_LEN MetadataController_new].
  destruct (Z.eqb_spec len 0) as [|Hlen]; [done|]. rewrite bind_lift_ok. cbn [metadata_cache MetadataController_new].
  rewrite lookup_empty. intros (md' & _ & Hrun)%bind_lift_inv. rewrite bind_modify in Hrun. injection Hrun as <- <-.
  split_and!; [|done..]. cbn. by rewrite insert_empty.
Qed.

Lemma start_consensus_unknown cfg g keys st md wal p oc c e : pool_knows c p → EPOCH_LEN c ≠ 0 →
  metadata_cache c !! ((cs_last_number st + 1) / EPOCH_LEN c) = None →
  start_consensus cfg g keys st md wal p ≠ Ok (e, oc).
Proof.
  unfold start_consensus. destruct keys as [[hex pub] addr]. intros Hp Hlen Hnone Hrun.
  apply outcome_inv in Hrun as (crypto & _ & Hrun).
  destruct (OverlordConsensus_new _ _ _ _ _ _ _) as [e1 r] eqn:En. apply outcome_inv in Hrun as (oc' & -> & _).
  unfold OverlordConsensus_new, OverlordConsensus_start in En. rewrite bind_gets in En.
  apply bind_lift_inv in En as (next & [-> _]%u64_add_ok & En). apply bind_inv in En as (md' & e2 & Hmd & _).
  rewrite ask_eq in Hmd. injection Hmd as _ Hmd.
  assert (∀ a, knows c a → (on_metadata (get_metadata_unchecked ∅ (cs_last_number st + 1)) a).2 ≠ Ok md') as Hun.
  { intros a Ha. unfold on_metadata, zoom, get_metadata_unchecked. rewrite Ha, bind_gets. cbn [id]. unfold calc_epoch.
    rewrite (proj2 (Z.eqb_neq _ _) Hlen), bind_lift_ok, Hnone. done. }
  apply (Hun (mp_adapter p) Hp). revert Hmd.
  cbn [ca_get_metadata_unchecked ca_common overlord_adapter overlord_common].
  unfold in_metadata, ConsensusAdapterImpl.on_shared, on_mempool, MemPool.on_adapter, zoom.
  cbn [ConsensusEngine_new ce_adapter oa_mempool OverlordConsensusAdapter_new mc_get_metadata_unchecked metadata_controller ce_status].
  by destruct (on_metadata _ (mp_adapter p)).
Qed.

(** C40: A node cannot be started on the last block of an epoch.  Whatever the
    configuration, when the block after the latest one begins an epoch, the
    controller that [start] makes knows the metadata of the latest block's epoch
    only, and the metadata of the next block, which [OverlordConsensus::new]
    unwraps, is not there: no start succeeds. *)
Theorem epoch_end_never_starts cfg g (b : Boot St) wal generated store L blk : holds (bo_storage b) L → ld_latest L = Some blk →
  0 ≤ h_number (b_header blk) → 0 < len → (h_number (b_header blk) + 1) mod len = 0 →
  ∀ running, start (λ s db, MetadataController_new (adapter_of s db) address len) cfg g b wal generated store ≠ Ok running.
Proof.
  intros Hs Hl Hpos Hlen Hmod running Hrun. unfold start in Hrun. apply outcome_inv in Hrun as (net & _ & Hrun). apply outcome_inv in Hrun as ([[[p blk'] md] stxs] & Ho & Hrun).
  unfold recover_mempool in Ho. destruct (bt_latest_block ∅ _ _ Hs) as (s1 & E1 & Hs1).
  rewrite E1, Hl in Ho. cbn [ok_or mbind outcome_bind] in Ho. apply outcome_inv in Ho as (next & _ & Ho).
  destruct (mc_get_metadata _ _ _) as [c r] eqn:Ec. apply outcome_inv in Ho as (md' & -> & Ho).
  destruct (first_query _ _ _ _ Ec) as (Hcache & Hclen & _).
  apply outcome_inv in Ho as (i & _ & Ho). apply outcome_inv in Ho as (gas & _ & Ho).
  apply outcome_inv in Ho as (p' & Hp & Ho). injection Ho as <- <- <- <-.
  apply mempool_new_knows with (c := c) in Hp; [|done].
  apply outcome_inv in Hrun as (keys & _ & Hrun). destruct (register_mempool_handlers MessageRouter_new) as [router1 r1].
  apply outcome_inv in Hrun as (? & _ & Hrun). apply outcome_inv in Hrun as (vs & _ & Hrun).
  destruct (on_adapter _ p') as [p1 r2] eqn:E2. apply outcome_inv in Hrun as (st & -> & Hrun).
  assert (cs_last_number st = h_number (b_header blk)) as Hst.
  { unfold on_adapter, zoom in E2. destruct (recover_status _ _ _ _ _) as [a1 o1] eqn:Er. injection E2 as _ ->.
    by eapply recover_status_number. }
  apply (preserves_inv (pool_knows c)) in E2; [|apply on_adapter_knows, recover_status_knows|done].
  destruct (publish_status _ _ _ _) as [p2 r3] eqn:E3.
  apply (preserves_inv (pool_knows c)) in E3; [|apply publish_status_knows|done].
  apply outcome_inv in Hrun as (? & _ & Hrun). apply outcome_inv in Hrun as (cross & _ & Hrun).
  apply outcome_inv in Hrun as ([e oc] & Hc & _).
  apply start_consensus_unknown with (c := c) in Hc; [done|done|lia|].
  rewrite Hst, Hcache, Hclen. apply lookup_singleton_ne. intros E.
  pose proof (Z.div_mod (h_number (b_header blk) + 1) len ltac:(lia)) as Hd.
  pose proof (Z.div_mod (h_number (b_header blk)) len ltac:(lia)) as Hd'.
  pose proof (Z.mod_pos_bound (h_number (b_header blk)) len Hlen). rewrite E in Hd'. lia.
Qed.
End epoch_end.

(** ** The settings of the network *)
Section settings.
Context `{!Tentacle} `{!IpNetworks} `{!SecioKeys} `{!FasterHex}.

(** The configured number of peers is accepted only above the limit of inbound
    sessions, which is the default one whatever the configuration says: the
    slots for outbound sessions, which are computed as their difference, are
    never negative and [try_dial_peers] does not panic on them. *)
Theorem network_settings_sound cfg generated :
  (∀ c, network_settings cfg generated = Ok c → let m := manager_config c in
     inbound_conn_limit m = DEFAULT_INBOUND_CONN_LIMIT ∧ inbound_conn_limit m < max_connections m ∧
     ∀ status E, ∃ n, dial_slots (E := E) m status = Ok n ∧ 0 ≤ n) ∧
  ∀ max, cn_max_connected_peers (cf_network cfg) = Some max → max ≤ DEFAULT_INBOUND_CONN_LIMIT →
    network_settings cfg generated = Err (PE_Network 0).
Proof.
  split.
  - intros c Hrun m. unfold network_settings in Hrun. apply outcome_inv in Hrun as (c1 & Hc1 & (key & _ & Hc)%outcome_inv).
    assert (inbound_conn_limit m = DEFAULT_INBOUND_CONN_LIMIT ∧ inbound_conn_limit m < max_connections m) as [Hi Hlt].
    { assert (∃ c0, set_max_connections (cn_max_connected_peers (cf_network cfg)) (NetworkConfig_new generated) = Ok c0 ∧ c0 = c1)
        as (c0 & Hset & ->) by (destruct (set_max_connections _ _); [|done..]; injection Hc1 as <-; eauto).
      assert (nw_inbound_conn_limit (nw_peers c1) = 20 ∧ 20 < nw_max_connections (nw_connection c1)) as [E1 E2].
      { unfold set_max_connections in Hset. destruct (cn_max_connected_peers _) as [max|]; [|by injection Hset as <-].
        destruct (Z.leb_spec max (nw_inbound_conn_limit (nw_peers (NetworkConfig_new generated)))); [done|].
        by injection Hset as <-. }
      unfold set_secio_keypair in Hc. destruct (hex_decode key) as [raw| |]; [|done..].
      destruct (secp256k1_raw_key raw) as [skp|]; [|done]. injection Hc as <-. subst m. cbn.
      destruct (cn_recv_buffer_size _), (cn_send_buffer_size _), (cn_max_frame_length _), (cn_ping_interval _); cbn;
        rewrite E1; done. }
    split_and!; [done..|]. intros status E. unfold dial_slots. rewrite u64_sub_small by (rewrite Hi in *; unfold DEFAULT_INBOUND_CONN_LIMIT in *; lia).
    eexists. split; [reflexivity|]. unfold saturating_sub. lia.
  - intros max Hmax Hle. unfold network_settings. rewrite Hmax. unfold set_max_connections.
    destruct (Z.leb_spec max (nw_inbound_conn_limit (nw_peers (NetworkConfig_new generated)))); [done|cbn in *; unfold DEFAULT_INBOUND_CONN_LIMIT in *; lia].
Qed.
End settings.

(** ** Witness *)
(** A node starts on an empty database, proposes and commits block 1, stops and
    starts again. *)
Section examples.
#[local] Existing Instances plain_hex echo_abi echo_evm list_overlord list_bls zero_bloom.
#[local] Existing Instances any_interop any_secp no_peer one_name no_net keys_differ log_trie.
#[local] Existing Instances plain_tentacle plain_networks plain_randomness bits_codec unit_tracer plain_keys plain_messages plain_ckb plain_key.
#[local] Instance named_text : ErrorText := {| error_text := λ _, "GetNone"; hash_text := λ _, EmptyString |}.
#[local] Instance named : ErrorNames.
Proof. reflexivity. Qed.
#[local] Instance no_vm : CkbVm := {| AotCode := unit; aot_compile := λ _, Ok tt; vm_run := λ _ _ _ _, Ok (mkVMResp 0 0) |}.
#[local] Instance any_keys : NodeKeys := {|
  NodePrivateKey := bytes; node_key_from := Some; node_pub_bytes := id; node_pub_uncompressed := λ _, repeat x00 65;
  bls_private_key_from := Some |}.
#[local] Instance no_transport : JsonTransport := {|
  Json := unit; url_parse := Some; post := λ _ _ _ _, NotSent; json_of_number := λ _, tt; json_of_hash := λ _, tt;
  json_of_transaction := λ _, tt; json_of_transfer := λ _, tt; json_of_checkpoint := λ _, tt; json_none := tt;
  block_from_value := λ _, None; tip_from_value := λ _, None; transaction_from_value := λ _, None;
  hash_from_value := λ _, None; completion_from_value := λ _, None |}.
#[local] Instance plain_secio : SecioKeys := {|
  SecioKeyPair := bytes; secp256k1_raw_key := Some; keypair_peer_id := λ k, (k : PeerId) |}.
#[local] Instance key_sizes : Secp256k1Key := {|
  COMPRESSED_LENGTH := 33; UNCOMPRESSED_LENGTH := 65; uncompressed_of := λ b, Ok b |}.

Definition ex_generated : SecioKeyPair := ([x02] : bytes).
Definition node_config : Config := mkConfig (mkHex "0x01") 5 ∅ 99 100 10 "ckb" "mercury"
  (mkConfigCross 7 70 (mkHex "0x01") true 1 2 3 4)
  (mkConfigNetwork None (Some 50) (ex_addr 0x01020304 8000 [x02]) None None None None) ".".
Definition ex_genesis : RichBlock :=
  mkRichBlock (mkBlock (mkHeader 0 12 13 14 15 16 17 1 0 0 0 30000 [] None 0 1337 (mkProof 0 0 77 [] []) 0 7) []) [].
Definition no_db : trie_db := ([] : list content).
Definition ex_run (s : ImplStorage MemoryAdapter) (db : trie_db) :=
  run (λ _ _, four_metadata) id node_config ex_genesis s db (mkTxsWal ∅) ex_generated (PeerStore_new Manager_default BanList_new).

Lemma ex_genesis_wf : block_wf (rb_block ex_genesis).
Proof. by repeat constructor. Qed.

(** The engines after each step. *)
Definition no_engine : ConsensusEngine sample_adapter :=
  mkEngine (mkCurrentStatus 0 0 0 0 0 0 0 sample_proof 0) (mkNodeInfo 7 [] 12) 99 ∅
    (OverlordConsensusAdapter_new (mkMemPool (sample_pool 5 [])
       (DefaultMemPoolAdapter_new new_storage [] four_metadata 0 ∅ 7 0 0)) list_crypto)
    (mkTxsWal ∅) list_crypto false 100 None.
Definition engine_of (r : ProtocolResult (RunningNode (St := ImplStorage MemoryAdapter) (Mt := MetadataController unit)))
    : ConsensusEngine sample_adapter := match r with Ok n => rn_engine n | _ => no_engine end.
Definition started_engine := engine_of (ex_run new_storage no_db).2.
Definition first_proposal : Proposal := Eval vm_compute in
  match (get_proposal ∅ (2 ^ 40) 1 started_engine).2 with Ok (p, _) => p | _ => Proposal_from_Block sample_block end.
Definition first_commit : Commit := mkCommit 1 first_proposal (mkOverlordProof 1 0 (to_be_bytes 32 1) [] []).
Definition proposing_first := (get_proposal ∅ (2 ^ 40) 1 started_engine).1.
Definition committed_first := (commit ∅ 1 first_commit proposing_first).1.
Definition restarted_engine :=
  engine_of (ex_run (da_storage (mp_adapter (oa_mempool (ce_adapter committed_first))))
    (da_trie_db (mp_adapter (oa_mempool (ce_adapter committed_first))))).2.

Lemma first_in_types : in_types ∅ 1 first_commit proposing_first.
Proof.
  intros proof txs resp Hx. vm_compute in Hx. injection Hx as <- <- <-.
  split; repeat constructor; vm_compute; discriminate.
Qed.

Lemma engine_of_ok s db : is_ok (ex_run s db).2 = true →
  ∃ n, (ex_run s db).2 = Ok n ∧ engine_of (ex_run s db).2 = rn_engine n.
Proof. destruct (ex_run s db).2 as [n| |]; [|done..]. by exists n. Qed.

Lemma life_linked_witness : cs_last_number (ce_status restarted_engine) = 1 ∧
  ∃ L, ld_blocks L !! 0 = Some (rb_block ex_genesis) ∧ linked (ld_blocks L) 0 1.
Proof.
  assert (Hlast : cs_last_number (ce_status restarted_engine) = 1) by (vm_compute; reflexivity).
  split; [exact Hlast|].
  destruct (engine_of_ok new_storage no_db) as (n1 & Hn1 & Es); [vm_compute; reflexivity|].
  destruct (run_is_ok (get_proposal ∅ (2 ^ 40) 1) started_engine) as (e1 & [p h] & Hp); [vm_compute; reflexivity|].
  destruct (run_is_ok (commit ∅ 1 first_commit) proposing_first) as (e2 & st & Hc); [vm_compute; reflexivity|].
  destruct (engine_of_ok (da_storage (mp_adapter (oa_mempool (ce_adapter committed_first))))
    (da_trie_db (mp_adapter (oa_mempool (ce_adapter committed_first))))) as (n2 & Hn2 & Er);
    [vm_compute; reflexivity|].
  assert (Hpe : proposing_first = e1) by (unfold proposing_first; by rewrite Hp).
  assert (Hce : committed_first = e2) by (unfold committed_first; by rewrite Hc).
  assert (Hnext : first_proposal = match (get_proposal ∅ (2 ^ 40) 1 started_engine).2 with
    Ok (p, _) => p | _ => Proposal_from_Block sample_block end) by (vm_compute; reflexivity).
  rewrite Hp in Hnext. cbn [snd] in Hnext.
  destruct (life_linked (λ _ _, four_metadata) id node_config ex_genesis new_storage no_db (mkTxsWal ∅) ex_generated
    (PeerStore_new Manager_default BanList_new) n1 (mkNode (rn_engine n2) [])) as (L & _ & Hg & _ & Hlink & _).
  - exact new_table.
  - exact ex_genesis_wf.
  - reflexivity.
  - exact Hn1.
  - rewrite <-Es. eapply rtc_l; [apply life_works; exact (step_propose ∅ (2 ^ 40) _ _ _ _ _ Hp)|].
    eapply rtc_l; [apply life_works|].
    + rewrite Hpe in Hc. apply (step_commit ∅ first_commit e1 [p] e2 st); [exact Hc|by rewrite <-Hnext; left|].
      rewrite <-Hpe. apply first_in_types.
    + apply rtc_once. rewrite Hce in Hn2. exact (life_restarts _ _ (mkNode e2 [p]) _ _ _ _ _ _ _ Hn2).
  - exists L. split; [exact Hg|]. cbn [nd_engine] in Hlink. unfold restarted_engine in Hlast. rewrite Er in Hlast.
    by rewrite Hlast in Hlink.
Defined.

(** The genesis block is all the first run stored. *)
Lemma genesis_restart_root_witness : ∃ running,
  (ex_run (ex_run new_storage no_db).1.(bo_storage) no_db).2 = Ok running ∧
  cs_last_state_root (ce_status (rn_engine running)) = 0.
Proof.
  destruct (engine_of_ok (ex_run new_storage no_db).1.(bo_storage) no_db) as (n & Hn & _); [vm_compute; reflexivity|].
  exists n. split; [exact Hn|].
  destruct (genesis_restart_root (λ _ _, four_metadata) id node_config ex_genesis (ex_run new_storage no_db).1.(bo_storage)
    no_db (mkTxsWal ∅) ex_generated (PeerStore_new Manager_default BanList_new) n (genesis_ledger ex_genesis no_ledger) (rb_block ex_genesis))
    as [Hroot _].
  - assert (Hg : is_ok (create_genesis ex_genesis (mkBoot (open_storage new_storage) no_db 0)).2 = true) by (vm_compute; reflexivity).
    unfold ex_run, run. destruct (create_genesis ex_genesis (mkBoot (open_storage new_storage) (id no_db) 0)) as [b r] eqn:Eg.
    cbn [fst]. change (id no_db) with no_db in Eg. rewrite Eg in Hg. destruct r as [[]| |]; [|discriminate Hg..].
    apply create_genesis_ok with (L := no_ledger) in Eg; [|apply (open_holds new_storage), new_table].
    apply Eg; [apply ex_genesis_wf..|reflexivity].
  - reflexivity.
  - reflexivity.
  - exact Hn.
  - exact Hroot.
Defined.

Definition epoch_boot : Boot (ImplStorage MemoryAdapter) := mkBoot (insert_block ∅ sample_block new_storage).1 no_db 0.
Lemma epoch_end_never_starts_witness :
  is_ok (start (λ _ _, MetadataController_new tt 5 6) node_config ex_genesis epoch_boot (mkTxsWal ∅) ex_generated
    (PeerStore_new Manager_default BanList_new)) = false.
Proof.
  destruct (start _ _ _ _ _ _ _) as [n| |] eqn:E; [exfalso|reflexivity..].
  apply (epoch_end_never_starts (λ _ _, tt) 5 6 node_config ex_genesis epoch_boot (mkTxsWal ∅) ex_generated (PeerStore_new Manager_default BanList_new)
    sample_ledger sample_block) with (running := n); [exact sample_table|reflexivity|cbn; lia|lia|reflexivity|exact E].
Defined.
End examples.
