(* ===== verification/ReplicaProps.v ===== *)
(** * Replication

    Nodes that start from the same genesis block and commit the same proposals
    have the same state, and synchronization accepts the blocks they make; what
    synchronization does not look at can be forged. *)

From S2P Require Import Prelude Types Codec RlpInstance Traits CodecProps Heap Pool PoolProps.
From S2P Require Import Executor MemPool Storage Interoperation DefaultAdapter StorageLaws StorageProps.
From S2P Require Import ExecRefine TrieInstance ExecProps Metadata MetadataProps AdapterProps Overlord Wal.
From S2P Require Import Engine ConsensusAdapterImpl Sync QuorumProps EngineProps SyncProps Frame BlockTable ChainProps.
From S2P Require Import Replica Tables ReplicaNode Primitives Startup StartupProps.

Local Open Scope Z_scope.

(** ** Genesis *)
Section genesis.
Context `{R : Rlp} `{K : Keccak} `{!StaticMerkleTree} `{!PatriciaTrie} `{!CanonicalRoots} {St : Type}
  `{!Storage St} `{!CodeTable St} `{!DeployedCodes} `{!Evm (AxonExecutorAdapter St)} `{!EvmReads} `{!FasterHex}.
Local Abbreviation world r b b' := (same_world r (bo_storage b) (bo_trie_db b) (bo_storage b') (bo_trie_db b')).

(** A storage that holds no code but deployed code. *)
Definition codes_known (b : Boot St) : Prop := ∃ C, serves_codes (bo_storage b) C ∧ codes_ok C.

Lemma distribute_account_shared db db' C C' : shared_account db db' C C' distribute_account.
Proof. split; [done|]. by split. Qed.

Lemma distribute_world (b b' b1 b1' : Boot St) root root' : codes_known b → codes_known b' →
  distribute b = (b1, Ok root) → distribute b' = (b1', Ok root') → root' = root ∧ world root b1 b1'.
Proof.
  intros (C & Hs & Hk) (C' & Hs' & Hk') Hd Hd'. unfold distribute, MPTTrie_insert in *.
  destruct (Address_from_hex DISTRIBUTE_ADDRESS) as [x| |]; [|done..]. cbn [mbind outcome_bind] in Hd, Hd'.
  assert (encode c_account distribute_account ≠ []) as Hne by apply rlp_out_non_empty.
  destruct (pt_insert_view _ _ _ (to_be_bytes 20 x) _ (pt_view_new (bo_trie_db b)) Hne) as (t & Ht & Hv).
  destruct (pt_insert_view _ _ _ (to_be_bytes 20 x) _ (pt_view_new (bo_trie_db b')) Hne) as (t' & Ht' & Hv').
  cbn [mpt_trie MPTTrie_new] in Hd, Hd'. rewrite Ht in Hd. rewrite Ht' in Hd'. cbn [map_err mbind outcome_bind mpt_root] in Hd, Hd'.
  destruct (commit_both _ (mkMPT 0 t) _ (mkMPT 0 t') _ Hv Hv') as (db1 & t1 & db1' & t1' & r & Hc & Hc' & _ & _ & [Ho Ho'] & _ & _).
  cbn [MPTTrie_new mpt_root] in Hd, Hd'. rewrite Hc in Hd. rewrite Hc' in Hd'. injection Hd as <- <-. injection Hd' as <- <-.
  split; [done|]. exists (C, C'). split_and!; try done. eexists. split; [exact Ho|]. split; [exact Ho'|].
  apply shared_accounts_insert; [|apply distribute_account_shared]. intros k raw. by rewrite lookup_empty.
Qed.

Lemma exec_genesis_world g r (b b' b1 b1' : Boot St) resp resp' : world r b b' → Forall value_ok (rb_txs g) →
  exec_genesis g r b = (b1, Ok resp) → exec_genesis g r b' = (b1', Ok resp') →
  resp' = resp ∧ world (er_state_root resp) b1 b1'.
Proof.
  intros Hw Hv Hx Hx'. unfold exec_genesis in *.
  destruct (from_root_agree r _ _ _ _ (ExecutorContext_from_Proposal (Proposal_from_Block (rb_block g))) Hw)
    as (a & a' & Ha & Ha' & Hag). rewrite Ha in Hx. rewrite Ha' in Hx'.
  destruct (exec_agree (rb_txs g) Hv a a' Hag) as [Ho Hs]. pose proof (exec_root (rb_txs g) a) as Hr.
  destruct (exec (rb_txs g) a) as [a1 o], (exec (rb_txs g) a') as [a1' o']. cbn [fst snd] in *.
  injection Hx as <- ->. injection Hx' as <- ->. injection Ho as <-. split; [done|].
  rewrite (Hr resp eq_refl). exact (agree_same_world _ _ (Hs resp eq_refl)).
Qed.

(** The bookkeeping of [make_genesis] leaves the world alone. *)
Lemma genesis_stores g (b b1 b' : Boot St) r :
  (on_bo_storage (st_update_latest_proof ∅ (h_proof (b_header (rb_block g))));;
   on_bo_storage (st_insert_block ∅ (rb_block g));;
   on_bo_storage (st_insert_transactions ∅ (h_number (b_header (rb_block g))) (rb_txs g))) b = (b1, Ok tt) →
  world r b b' → world r b1 b' ∧ bo_state_root b1 = bo_state_root b.
Proof.
  intros Hrun Hw.
  assert (∀ X (m : M St ProtocolError X), (∀ C, preserves (λ s, serves_codes s C) m) →
    preserves (λ b0 : Boot St, world r b0 b' ∧ bo_state_root b0 = bo_state_root b) (on_bo_storage m)) as Hon.
  { intros X m Hm b0 [(CC & Hs & HQ) Hr]. rewrite on_bo_storage_eq. split; [|done]. exists CC.
    split; [by apply (Hm CC.1)|done]. }
  apply (preserves_inv (λ b0 : Boot St, world r b0 b' ∧ bo_state_root b0 = bo_state_root b)) in Hrun; [done| |done].
  apply preserves_bind; [|intros _; apply preserves_bind; [|intros _]]; apply Hon; intros C.
  - apply ct_update_latest_proof.
  - apply ct_insert_block.
  - apply sf_insert_transactions.
Qed.

Lemma make_genesis_world g (b b' b1 b1' : Boot St) : codes_known b → codes_known b' → Forall value_ok (rb_txs g) →
  make_genesis g b = (b1, Ok tt) → make_genesis g b' = (b1', Ok tt) →
  bo_state_root b1' = bo_state_root b1 ∧ world (bo_state_root b1) b1 b1'.
Proof.
  intros Hk Hk' Hv Hrun Hrun'. unfold make_genesis in *.
  apply bind_inv in Hrun as (root & b2 & Hd & Hrun). apply bind_inv in Hrun' as (root' & b2' & Hd' & Hrun').
  destruct (distribute_world _ _ _ _ _ _ Hk Hk' Hd Hd') as [-> Hw2].
  apply bind_inv in Hrun as (resp & b3 & Hx & Hrun). apply bind_inv in Hrun' as (resp' & b3' & Hx' & Hrun').
  destruct (exec_genesis_world _ _ _ _ _ _ _ _ Hw2 Hv Hx Hx') as [-> Hw3].
  rewrite bind_modify in Hrun. rewrite bind_modify in Hrun'.
  destruct (genesis_stores _ _ _ b3' _ Hrun Hw3) as [Hw4 E4]. apply same_world_sym in Hw4.
  destruct (genesis_stores _ _ _ b1 _ Hrun' Hw4) as [Hw5 E5]. cbn [bo_state_root] in E4, E5. rewrite E4, E5.
  split; [done|]. by apply same_world_sym.
Qed.
End genesis.

(** ** Sample replicas *)
#[local] Existing Instance kept_trie.
#[local] Instance map_canonical : @CanonicalRoots map_trie.
Proof. intros d t d' t' m d1 t1 r d2 t2 r' Hv Hv' Hr Hr'. cbn in *. congruence. Qed.
#[local] Instance kept_canonical : @CanonicalRoots kept_trie.
Proof. intros d t d' t' m d1 t1 r d2 t2 r' Hv Hv' Hr Hr'. cbn in *. congruence. Qed.

(** An EVM that moves values, and deploys a code when asked to create. *)
Definition sample_code : bytes := [x60; x01; x60; x02; x01].
Definition deploy_values : list Apply := [Modify 900 (mkBasic 0 1) (Some sample_code) [(1, 7)] true; Delete 901].
Definition deploy_evm {B} `{!Backend B} : Evm B := {|
  transact b c := match ev_to c with
                  | None => mkEvmResult (Succeed Returned) [] 0 53000 deploy_values [] 0
                  | Some _ => transact (Evm := toy_evm) b c
                  end |}.

(** Digests that do not read as addresses. *)
Definition wide_keccak : Keccak.
Proof.
  refine {| keccak b := (2 ^ 160 + from_be_bytes b) mod 2 ^ 256 |}. intros b. apply Z.mod_pos_bound. lia.
Defined.
Definition one_code : @DeployedCodes wide_keccak.
Proof.
  refine {| deployed c := c = sample_code |}.
  - congruence.
  - intros c ->. vm_compute. discriminate.
Defined.
Definition no_code {KE : Keccak} : DeployedCodes.
Proof. by refine {| deployed c := False |}. Defined.

Section reads.
Context `{R : Rlp} {KE : Keccak} `{!PatriciaTrie} {St : Type} `{!Storage St}.

Lemma toy_reads (D : DeployedCodes) (a a' : AxonExecutorAdapter St) c :
  ((∀ x, basic a x = basic a' x) → transact (Evm := toy_evm) a c = transact (Evm := toy_evm) a' c) ∧
  Forall apply_ok (er_values (transact (Evm := toy_evm) a c)).
Proof.
  cbn [transact toy_evm]. split.
  - intros Hb. unfold toy_moves. cbn [be_basic exec_backend]. by rewrite !Hb.
  - destruct (_ && forallb apply_in_range _)%bool eqn:E; [|constructor].
    apply andb_prop in E as [_ E]. cbn [er_values]. apply Forall_forall. intros v Hv.
    assert (apply_in_range v = true) as Hr by (rewrite forallb_forall in E; by apply E, list_elem_of_In).
    unfold toy_moves in Hv. apply list_elem_of_In in Hv.
    destruct Hv as [<-|[<-|[]]]; cbn in Hr |- *; unfold in_range, in_width in *; split_and!; try lia; done.
Qed.

Lemma toy_evm_reads : @EvmReads R KE _ St _ toy_evm no_code.
Proof. split; [intros a a' c _ _ Hb _ _; by apply (toy_reads no_code a a')|intros a c; apply (toy_reads no_code a a)]. Qed.
End reads.

Lemma deploy_reads `{R : Rlp} {KE : PatriciaTrie} {St : Type} {S : Storage St} :
  @EvmReads R wide_keccak KE St S (deploy_evm (Backend0 := exec_backend (K := wide_keccak))) one_code.
Proof.
  split.
  - intros a a' c Hctx He Hb Hc Hs. cbn [transact deploy_evm]. destruct (ev_to c); [|done].
    by apply (proj1 (toy_reads (KE := wide_keccak) one_code a a' c)).
  - intros a c. cbn [transact deploy_evm]. destruct (ev_to c).
    + exact (proj2 (toy_reads (KE := wide_keccak) one_code a a c)).
    + constructor; [|constructor; [|constructor]]; cbn; unfold in_width; split_and!; try lia. by intros c0 [= <-].
Qed.

(** ** Properties *)
(** Execution is the same on every replica.  Two executors whose worlds
    agree, on whatever databases, answer the same to any list of transactions:
    the same responses, gas, receipts root and state root, or the same panic;
    and after a success their worlds agree again.  System and EVM transactions,
    account deletions and the removal of empty accounts are all covered. *)
Theorem exec_replicated `{R : Rlp} `{K : Keccak} `{!StaticMerkleTree} `{!PatriciaTrie} `{!CanonicalRoots} {St : Type}
    `{!Storage St} `{!CodeTable St} `{!DeployedCodes} `{!Evm (AxonExecutorAdapter St)} `{!EvmReads}
    (a a' : AxonExecutorAdapter St) txs :
  agree a a' → Forall value_ok txs →
  (exec txs a).2 = (exec txs a').2 ∧
  ∀ resp, (exec txs a).2 = Ok resp →
    agree (exec txs a).1 (exec txs a').1 ∧ state_root (exec txs a').1 = er_state_root resp.
Proof.
  intros Ha Htxs. destruct (exec_agree txs Htxs a a' Ha) as [Ho Hs]. split; [exact Ho|].
  intros resp Hr. specialize (Hs resp Hr). split; [exact Hs|]. rewrite Ho in Hr. by rewrite (exec_root txs a' resp Hr).
Qed.

(** C4: Replicas stay replicas.  Two nodes that agree on the last block, its
    state root and the world behind it, and that then commit the same proposals
    with the same transactions in the same order, each with its own proposals
    and checks in between, end with the same last number, the same last block
    hash and the same state root, and agree on the world behind it. *)
Theorem replicas_agree `{R : Rlp} `{K : Keccak} `{!StaticMerkleTree} `{!PatriciaTrie} `{!CanonicalRoots} {St Mt : Type}
    `{!Storage St} `{!CodeTable St} `{!DeployedCodes} `{!MetadataControl Mt} `{!Evm (AxonExecutorAdapter St)}
    `{!EvmReads} `{!Interoperation} `{!PullRpc} `{!Secp256k1Verify} `{!ErrorText} `{!Overlord} `{!EthBloom} `{!Bls}
    `{!FasterHex} `{!WalName} `{!ConsensusNet} l (e e' e1 e1' : ConsensusEngine (OverlordConsensusAdapter St Mt)) :
  mirrored e e' → replica_run e l e1 → replica_run e' l e1' →
  mirrored e1 e1'.
Proof. apply runs_mirrored. Qed.

(** C26: The genesis state is the same everywhere.  Two nodes that create the
    genesis block on databases of their own compute the same state root, and
    their databases open it to the same world. *)
Theorem genesis_replicated `{R : Rlp} `{K : Keccak} `{!StaticMerkleTree} `{!PatriciaTrie} `{!CanonicalRoots} {St : Type}
    `{!Storage St} `{!CodeTable St} `{!DeployedCodes} `{!Evm (AxonExecutorAdapter St)} `{!EvmReads} `{!FasterHex}
    g (b b' b1 b1' : Boot St) :
  codes_known b → codes_known b' → Forall value_ok (rb_txs g) →
  make_genesis g b = (b1, Ok tt) → make_genesis g b' = (b1', Ok tt) →
  bo_state_root b1' = bo_state_root b1 ∧
  same_world (bo_state_root b1) (bo_storage b1) (bo_trie_db b1) (bo_storage b1') (bo_trie_db b1').
Proof. apply make_genesis_world. Qed.

(** C11: A block that was committed can be synchronized.  When a validator's
    commit executes transactions, another node with the same state that fetches
    the block made of it, with these transactions, finds both roots right; what
    is left is storing the block, and when that succeeds its last number, last
    block hash and state root are those of the block, and its world agrees with
    the validator's. *)
Theorem honest_block_synced `{R : Rlp} `{K : Keccak} `{!StaticMerkleTree} `{!PatriciaTrie} `{!CanonicalRoots} {St Mt : Type}
    `{!Storage St} `{!CodeTable St} `{!DeployedCodes} `{!MetadataControl Mt} `{!Evm (AxonExecutorAdapter St)}
    `{!EvmReads} `{!Interoperation} `{!PullRpc} `{!Secp256k1Verify} `{!ErrorText} `{!Overlord} `{!EthBloom} `{!Bls}
    `{!FasterHex} `{!WalName} `{!ConsensusNet} ctx ctx' c (e e1 : ConsensusEngine (OverlordConsensusAdapter St Mt))
    proof txs resp pf (y : OverlordSynchronization (OverlordConsensusAdapter St Mt)) :
  executes ctx c e e1 proof txs resp → Forall value_ok txs →
  cs_last_state_root (sy_agent y) = cs_last_state_root (ce_status e) →
  adapter_shares (cs_last_state_root (ce_status e)) (ce_adapter e) (sy_adapter y) →
  let rich := mkRichBlock (Block_new (cm_content c) resp) txs in
  ∃ a', commit_block ctx' rich pf y = store_synced ctx' rich pf resp (set_sy_adapter a' y) ∧
    ∀ y', commit_block ctx' rich pf y = (y', Ok tt) →
      cs_last_number (sy_agent y') = p_number (cm_content c) ∧
      cs_prev_hash (sy_agent y') = header_hash (Block_new (cm_content c) resp) ∧
      cs_last_state_root (sy_agent y') = er_state_root resp ∧
      adapter_shares (er_state_root resp) (sy_adapter y') (ce_adapter e1).
Proof.
  intros Hx Htxs Hroot Hw rich.
  change (shares (cs_last_state_root (ce_status e)) (ce_adapter e) (sy_adapter y)) in Hw.
  destruct (executes_inv _ _ _ _ _ _ _ _ _ Hx Hw eq_refl) as (a & Ha & Hex & _).
  destruct (rp_exec ctx ctx' _ (cm_content c) txs a (sy_adapter y) Ha Htxs) as [Ho Hs].
  rewrite Hex in Ho, Hs. cbn [fst snd] in Ho, Hs. specialize (Hs resp eq_refl). apply rp_sym in Hs.
  destruct (ca_exec ctx' (cs_last_state_root (ce_status e)) (cm_content c) txs (sy_adapter y)) as [a' o] eqn:Ey.
  cbn [fst snd] in Ho, Hs. subst o. exists a'.
  assert (commit_block ctx' rich pf y = store_synced ctx' rich pf resp (set_sy_adapter a' y)) as Hrun.
  { apply commit_block_checked; [|done|done]. rewrite Hroot. cbn [rich rb_block rb_txs]. rewrite proposal_of_block. exact Ey. }
  split; [exact Hrun|]. intros y' Hy'. rewrite Hrun in Hy'.
  by apply (store_synced_leaves _ _ _ _ _ _ (er_state_root resp) (ce_adapter e1)) in Hy'.
Qed.

(** C38: A synchronized header is not checked in full.  A header that differs
    from the chain's in its bloom filter, difficulty, gas used or nonce passes
    the verification of the block and the checks of its execution like the real
    one; the node then takes its hash for the last block's, and when the two
    hashes differ it refuses every later block, whose previous hash is the real
    one. *)
Theorem forged_header_synced `{R : Rlp} `{K : Keccak} `{!StaticMerkleTree} `{!PatriciaTrie} {St Mt : Type}
    `{!Storage St} `{!BlockTable St} `{!MetadataControl Mt} `{!Evm (AxonExecutorAdapter St)}
    `{!Interoperation} `{!PullRpc} `{!Secp256k1Verify} `{!ErrorText} `{!Overlord} `{!EthBloom} `{!Bls}
    `{!FasterHex} `{!ConsensusNet} ctx rich h' pf (y y' : OverlordSynchronization (OverlordConsensusAdapter St Mt)) :
  let h := b_header (rb_block rich) in
  forged h h' → (∀ m : Mt, mc_get_metadata ctx h' m = mc_get_metadata ctx h m) →
  (∀ a, verify_block ctx (with_header h' rich) a = verify_block ctx rich a) ∧
  (∀ a resp, ca_exec ctx (cs_last_state_root (sy_agent y)) (Proposal_from_Block (rb_block rich)) (rb_txs rich)
       (sy_adapter y) = (a, Ok resp) →
     er_state_root resp = h_state_root h → er_receipt_root resp = h_receipts_root h →
     commit_block ctx (with_header h' rich) pf y = store_synced ctx (with_header h' rich) pf resp (set_sy_adapter a y)) ∧
  (commit_block ctx (with_header h' rich) pf y = (y', Ok tt) → cs_prev_hash (sy_agent y') = Header_hash h') ∧
  (∀ (o : OverlordConsensusAdapter St Mt) L p, adapter_serves o L →
     ld_blocks L !! h_number h = Some (mkBlock h' (b_tx_hashes (rb_block rich))) → u64_ok (h_number h) →
     p_number p = h_number h + 1 → p_prev_hash p = Header_hash h → Header_hash h' ≠ Header_hash h →
     (verify_block_header ctx p o).2 = Err (PE_Consensus (VerifyBlockHeader (p_number p) PreviousBlockHash))).
Proof.
  intros h Hf Hmd. split_and!.
  - intros a. by apply forged_verify.
  - intros a resp Hx Hs Hr. destruct rich as [[h0 hashes] txs]. cbn [rb_block rb_txs b_header] in *.
    apply commit_block_checked; cbn [with_header rb_block rb_txs b_header b_tx_hashes].
    + rewrite (forged_proposal h0 h') by done. exact Hx.
    + rewrite Hs. subst h. by rewrite Hf.
    + rewrite Hr. subst h. by rewrite Hf.
  - intros Hrun. apply commit_block_ok in Hrun as (resp & md & a' & _ & _ & _ & Hag & _). by rewrite Hag.
  - intros o L p Ho Hb Hn Hp Hprev Hne. unfold verify_block_header.
    unfold u64_sub. rewrite Hp, (proj2 (Z.leb_le 1 _)) by (unfold in_width in Hn; lia). rewrite bind_lift_ok.
    replace (h_number h + 1 - 1) with (h_number h) by lia.
    destruct (bt_header ctx (h_number h) _ L Ho Hn) as (s' & Eh & _). rewrite Hb in Eh.
    unfold get_block_header_by_number, in_storage, on_shared, on_mempool, on_adapter, on_storage, zoom, mbind, M_bind.
    rewrite Eh. cbn [fmap option_fmap option_map b_header lift ok_or].
    rewrite (proj2 (Z.eqb_neq _ _)); [done|]. congruence.
Qed.

(** ** Witnesses *)
(** Two sample engines, one of which proposes before it commits; the block has
    one transaction, from the log of transactions. *)
#[local] Existing Instances map_trie map_canonical no_code toy_evm_reads.
#[local] Existing Instances plain_hex echo_abi echo_evm list_overlord list_bls zero_bloom.
#[local] Existing Instances any_interop any_secp no_peer no_text one_name no_net keys_differ.

Definition logged_proposal : Proposal :=
  let p := next_proposal in
  {| p_prev_hash := p_prev_hash p; p_proposer := p_proposer p; p_transactions_root := 4;
     p_signed_txs_hash := p_signed_txs_hash p; p_timestamp := p_timestamp p; p_number := p_number p;
     p_gas_limit := p_gas_limit p; p_extra_data := p_extra_data p; p_mixed_hash := p_mixed_hash p;
     p_base_fee_per_gas := p_base_fee_per_gas p; p_proof := p_proof p;
     p_last_checkpoint_block_hash := p_last_checkpoint_block_hash p; p_chain_id := p_chain_id p;
     p_tx_hashes := [555] |}.
Definition logged_commit : Commit := mkCommit 6 logged_proposal (mkOverlordProof 6 0 (to_be_bytes 32 1) [] []).
Definition logged_wal : SignedTxsWAL := (wal_save 6 4 [issue_tx] (mkTxsWal ∅)).1.
Definition logged_txs : list SignedTransaction :=
  match wal_load logged_wal 6 4 with Ok txs => txs | _ => [] end.
Definition logged_engine : ConsensusEngine sample_adapter :=
  set_ce_txs_wal logged_wal (sample_engine false).

Lemma sample_codes : serves_codes (insert_block ∅ sample_block new_storage).1 ∅.
Proof. apply insert_block_coded, empty_codes. reflexivity. Qed.

Lemma sample_world s s' : serves_codes s ∅ → serves_codes s' ∅ → same_world (St := sample_storage) RLP_NULL s tt s' tt.
Proof.
  intros Hs Hs'. exists (∅, ∅). split_and!; try done. exists ∅.
  split; [by exists ∅|]. split; [by exists ∅|]. intros k raw. by rewrite lookup_empty.
Qed.

Lemma logged_mirrored : mirrored logged_engine logged_engine.
Proof. split; [reflexivity..|]. apply sample_world; apply sample_codes. Qed.

Lemma logged_values : Forall value_ok logged_txs.
Proof.
  assert (Forall (λ v, u256_ok v) (map (λ tx, tx_value (utx_unsigned (stx_transaction tx))) logged_txs)) as Hv.
  { replace (map _ logged_txs) with [10] by (vm_compute; reflexivity). constructor; [|constructor]. unfold in_width. lia. }
  rewrite List.Forall_map in Hv. exact Hv.
Qed.

(** A commit of the sample block with its transaction. *)
Lemma logged_run (e : ConsensusEngine sample_adapter) :
  is_ok (commit ∅ 6 logged_commit e).2 = true → cs_last_number (ce_status e) = 5 →
  (match (execute_commit ∅ 6 logged_commit (set_ce_adapter (ca_get_metadata_unchecked ∅ 7 (ce_adapter e)).1 e)).2 with
   | Ok (_, txs, _) => txs = logged_txs
   | _ => False
   end) →
  ∃ e1, replica_run e [(logged_commit, logged_txs)] e1.
Proof.
  intros Hc Hn Hx. destruct (commit ∅ 6 logged_commit e) as [e1 [st| |]] eqn:Ec; [|done..]. exists e1.
  destruct (execute_commit _ _ _ _) as [ex [[[proof txs] resp]| |]] eqn:Ex; [|done..].
  cbn [snd] in Hx. subst txs.
  apply (run_commit ∅ logged_commit logged_txs proof resp ex e e1 st); [exact Ec|rewrite Hn; reflexivity|exact Ex|apply logged_values|apply run_done].
Qed.

Lemma replicas_agree_witness :
  ∃ e1 e1', replica_run logged_engine [(logged_commit, logged_txs)] e1 ∧
    replica_run logged_engine [(logged_commit, logged_txs)] e1' ∧ mirrored e1 e1'.
Proof.
  destruct (logged_run logged_engine) as (e1 & Hrun); [vm_compute; reflexivity..|].
  destruct (get_proposal ∅ (2 ^ 40) 6 logged_engine) as [e0 o] eqn:Ep.
  destruct (logged_run (get_proposal ∅ (2 ^ 40) 6 logged_engine).1) as (e1' & Hrun'); [vm_compute; reflexivity..|].
  exists e1, e1'. rewrite Ep in Hrun'. cbn [fst] in Hrun'.
  pose proof (run_propose ∅ (2 ^ 40) 6 logged_engine e0 o _ e1' Ep Hrun') as Hrun2.
  split; [exact Hrun|]. split; [exact Hrun2|].
  exact (replicas_agree [(logged_commit, logged_txs)] logged_engine logged_engine e1 e1' logged_mirrored Hrun Hrun2).
Defined.

(** The same genesis block on two storages. *)
Definition sample_boot (s : sample_storage) : Boot sample_storage := mkBoot s tt 0.
Definition sample_genesis : RichBlock := mkRichBlock (mkBlock (header_at 0) []) logged_txs.

Lemma genesis_replicated_witness :
  ∃ b1 b1', make_genesis sample_genesis (sample_boot new_storage) = (b1, Ok tt) ∧
    make_genesis sample_genesis (sample_boot (insert_block ∅ sample_block new_storage).1) = (b1', Ok tt) ∧
    bo_state_root b1' = bo_state_root b1.
Proof.
  destruct (run_is_ok (make_genesis sample_genesis) (sample_boot new_storage)) as (b1 & [] & Hb); [vm_compute; reflexivity|].
  destruct (run_is_ok (make_genesis sample_genesis) (sample_boot (insert_block ∅ sample_block new_storage).1))
    as (b1' & [] & Hb'); [vm_compute; reflexivity|].
  exists b1, b1'. split; [exact Hb|]. split; [exact Hb'|].
  destruct (genesis_replicated sample_genesis (sample_boot new_storage)
    (sample_boot (insert_block ∅ sample_block new_storage).1) b1 b1') as [Hr _]; [..|exact Hb|exact Hb'|exact Hr].
  - exists ∅. split; [apply empty_codes; reflexivity|done].
  - exists ∅. split; [apply sample_codes|done].
  - apply logged_values.
Defined.

(** A second node synchronizes the block of the sample commit. *)
Definition logged_execution : ConsensusEngine sample_adapter * ProtocolResult (Proof * list SignedTransaction * ExecResp) :=
  execute_commit ∅ 6 logged_commit
    (set_ce_adapter (ca_get_metadata_unchecked ∅ 7 (ce_adapter logged_engine)).1 logged_engine).
Definition logged_resp : ExecResp :=
  match logged_execution.2 with Ok (_, _, resp) => resp | _ => mkExecResp 0 0 0 [] end.
Lemma logged_executes :
  ∃ e1 proof, executes ∅ logged_commit logged_engine e1 proof logged_txs logged_resp.
Proof.
  assert (match logged_execution.2 with Ok (_, txs, _) => txs = logged_txs | _ => False end) as Ht
    by (vm_compute; reflexivity).
  unfold logged_resp. destruct logged_execution as [e1 [[[proof txs] resp]| |]] eqn:Ex; [|destruct Ht..].
  cbn [snd] in Ht |- *. exists e1, proof. rewrite <-Ht. exact Ex.
Qed.

Definition logged_rich : RichBlock := mkRichBlock (Block_new logged_proposal logged_resp) logged_txs.
Definition logged_sync : OverlordSynchronization sample_adapter :=
  mkSync (ce_adapter (sample_engine false)) (ce_status (sample_engine false))
    (ce_status (sample_engine false)) false false 10 NotSyncing.

Lemma honest_block_synced_witness :
  ∃ y', commit_block ∅ logged_rich tip_proof logged_sync = (y', Ok tt) ∧
    cs_last_number (sy_agent y') = 6 ∧ cs_last_state_root (sy_agent y') = er_state_root logged_resp.
Proof.
  destruct (run_is_ok (commit_block ∅ logged_rich tip_proof) logged_sync) as (y' & [] & Hy); [vm_compute; reflexivity|].
  exists y'. split; [exact Hy|]. destruct logged_executes as (e1 & proof & Hx).
  destruct (honest_block_synced ∅ ∅ logged_commit logged_engine e1 proof logged_txs logged_resp tip_proof logged_sync)
    as (a' & _ & Hrest); [exact Hx|apply logged_values|reflexivity|apply sample_world; apply sample_codes|].
  destruct (Hrest y' Hy) as (Hn & _ & Hr & _). split; [|exact Hr]. rewrite Hn. vm_compute. reflexivity.
Defined.

(** The same block with another gas count. *)
Definition forged_header : Header :=
  let h := b_header (rb_block logged_rich) in
  {| h_prev_hash := h_prev_hash h; h_proposer := h_proposer h; h_state_root := h_state_root h;
     h_transactions_root := h_transactions_root h; h_signed_txs_hash := h_signed_txs_hash h;
     h_receipts_root := h_receipts_root h; h_log_bloom := h_log_bloom h; h_difficulty := h_difficulty h;
     h_timestamp := h_timestamp h; h_number := h_number h; h_gas_used := 2 ^ 100;
     h_gas_limit := h_gas_limit h; h_extra_data := h_extra_data h; h_mixed_hash := h_mixed_hash h;
     h_nonce := h_nonce h; h_base_fee_per_gas := h_base_fee_per_gas h; h_proof := h_proof h;
     h_last_checkpoint_block_hash := h_last_checkpoint_block_hash h; h_chain_id := h_chain_id h |}.

Lemma forged_header_synced_witness :
  ∃ y', commit_block ∅ (with_header forged_header logged_rich) tip_proof logged_sync = (y', Ok tt) ∧
    cs_prev_hash (sy_agent y') = Header_hash forged_header ∧
    Header_hash forged_header ≠ header_hash (rb_block logged_rich).
Proof.
  destruct (run_is_ok (commit_block ∅ (with_header forged_header logged_rich) tip_proof) logged_sync) as (y' & [] & Hy);
    [vm_compute; reflexivity|].
  exists y'. split; [exact Hy|].
  destruct (forged_header_synced ∅ logged_rich forged_header tip_proof logged_sync y') as (_ & _ & Hh & _);
    [reflexivity|reflexivity|]. split; [exact (Hh Hy)|]. intros E%Z.eqb_eq. vm_compute in E. discriminate E.
Defined.

(** Two executors over databases of different histories run a transfer, a token
    transaction and a contract creation. *)
#[local] Existing Instances kept_trie kept_canonical wide_keccak one_code deploy_reads.
#[local] Instance deploying {B} `{!Backend B} : Evm B := deploy_evm.
Definition create_tx : SignedTransaction :=
  mkSignedTransaction (mkUnverifiedTransaction (mkTransaction 5 0 1 60000 Create 0 [] []) None 5 11) 77 None.
Definition base_world (d : list content) (s : sample_storage) : AxonExecutorAdapter sample_storage :=
  mkExecAdapter sample_ctx (mkMPT RLP_NULL ∅) s d.
Definition funded (a : AxonExecutorAdapter sample_storage) : AxonExecutorAdapter sample_storage :=
  (apply_account 77 (mkBasic 500 3) None [(1, 2)] false a).1.
Definition first_replica : AxonExecutorAdapter sample_storage := funded (base_world [] (ImplStorage_new MemoryAdapter_new)).
Definition second_replica : AxonExecutorAdapter sample_storage :=
  funded (base_world [{[ [x01] := [x02] ]}] (insert_block ∅ sample_block (ImplStorage_new MemoryAdapter_new)).1).

Lemma base_worlds d d' s s' : serves_codes s ∅ → serves_codes s' ∅ → agree (base_world d s) (base_world d' s').
Proof.
  intros Hs Hs'. assert (codes_ok ∅) by (intros h c; by rewrite lookup_empty).
  assert (∀ db db', shared_accounts db db' ∅ ∅ ∅) as Hm by (intros db db' k raw; by rewrite lookup_empty).
  exists ∅, ∅, ∅. split; try done. exists ∅. split; [by exists ∅|]. split; [by exists ∅|done].
Qed.

Lemma funded_agree a a' : agree a a' → is_ok (apply_account 77 (mkBasic 500 3) None [(1, 2)] false a).2 = true →
  agree (funded a) (funded a').
Proof.
  intros Ha Hok. destruct (apply_account_agree 77 (mkBasic 500 3) None [(1, 2)] false) with a a' as [_ Hs]; try done.
  destruct (apply_account 77 (mkBasic 500 3) None [(1, 2)] false a).2 as [x| |] eqn:E; [|done..]. by apply (Hs x).
Qed.

Lemma replicas_differ : agree first_replica second_replica ∧ ea_db first_replica ≠ ea_db second_replica.
Proof.
  split.
  - apply funded_agree; [|vm_compute; reflexivity]. apply base_worlds; [apply empty_codes; reflexivity|].
    apply insert_block_coded, empty_codes. reflexivity.
  - intros E%(f_equal length). vm_compute in E. discriminate E.
Qed.

Lemma exec_replicated_witness :
  let txs := [transfer_tx 100; token_tx x00 1; create_tx] in
  ∃ resp, (exec txs first_replica).2 = Ok resp ∧ (exec txs second_replica).2 = Ok resp.
Proof.
  intros txs. destruct (run_is_ok (exec txs) first_replica) as (a1 & resp & Hx); [vm_compute; reflexivity|].
  destruct (exec_replicated first_replica second_replica txs) as [Ho _]; [apply replicas_differ|by repeat constructor|].
  exists resp. rewrite <-Ho, Hx. split; reflexivity.
Defined.
