(* ===== verification/Served.v ===== *)
(** * What is committed is served

    A commit of the engine ([core/consensus/src/engine.rs]) saves transactions,
    receipts and block through the adapter and the storage; the interface
    ([core/api/src/jsonrpc/impl.rs]) of the same node answers from them. *)

From S2P Require Import Prelude Types Codec RlpInstance Traits Heap Pool Executor MemPool ExecRefine.
From S2P Require Import Storage StorageLaws StorageProps Interoperation DefaultAdapter Precompiles Metadata Overlord Wal.
From S2P Require Import Engine ConsensusAdapterImpl EngineProps ExecProps Web3Types ApiAdapter JsonRpc ApiProps.
From S2P Require Import Frame BlockTable Tables Replica ReplicaNode ApiChain ReplicaProps.
From S2P Require Import TrieInstance CodecProps MetadataProps AdapterProps ChainProps QuorumProps.

Local Open Scope Z_scope.

Section served.
Context `{R : Rlp} `{K : Keccak} `{!StaticMerkleTree} `{!PatriciaTrie} {St Mt Net : Type} `{!Storage St}
  `{!MetadataControl Mt} `{!Evm (AxonExecutorAdapter St)} `{!Interoperation} `{!PullRpc}
  `{!Secp256k1Verify} `{!ErrorText} `{!Overlord} `{!EthBloom} `{!Bls} `{!FasterHex} `{!WalName} `{!ConsensusNet}
  `{!TxTable St} `{!NetworkCount Net}.
Local Abbreviation adapter := (OverlordConsensusAdapter St Mt).
Local Abbreviation engine := (ConsensusEngine adapter).

(** What the node knows of a hash. *)
Definition node_tracks (h : Hash) (x : tx_row) (o : adapter) : Prop := node_shared (λ s _, tracked s h x) o.
Local Abbreviation tracks h x := (λ e : engine, node_tracks h x (ce_adapter e)).

#[export] Instance tracked_exec h x : ExecFramed (λ a : AxonExecutorAdapter St, tracked (ea_storage a) h x).
Proof. split; [done..|]. intros address ch c a. apply tt_code. Qed.
Lemma tracks_reads h x : AdapterReads (node_tracks h x).
Proof. apply overlord_reads. intros _. apply tt_reads. Qed.
Local Existing Instance tracks_reads.
Lemma exec_tracks ctx root p txs h x : preserves (node_tracks h x) (ca_exec ctx root p txs).
Proof. by apply (on_shared_held (λ s _, tracked s h x)), exec_on_root_framed, tracked_exec. Qed.
Lemma save_proof_tracks ctx p h x : preserves (node_tracks h x) (ca_save_proof ctx p).
Proof. apply (in_storage_held (λ s _, tracked s h x)). intros _. apply tt_proof. Qed.
Lemma save_block_tracks ctx b h n stx r : h_number (b_header b) = n →
  preserves (node_tracks h (Some (n, stx, r))) (ca_save_block ctx b).
Proof. intros Hn. apply (in_storage_held (λ s _, tracked s h (Some (n, stx, r)))). intros _. by apply tt_block. Qed.

Lemma ask_tracks {X} (m : M adapter ProtocolError X) h x : preserves (node_tracks h x) m → preserves (tracks h x) (ask m).
Proof. by apply preserves_zoom. Qed.
Lemma on_wal_tracks {X} (m : M SignedTxsWAL ProtocolError X) h x : preserves (tracks h x) (on_wal m).
Proof. by apply preserves_zoom_other. Qed.
Hint Resolve exec_tracks save_proof_tracks ask_tracks on_wal_tracks : axon.

(** Before the block is saved nothing is known of its transactions. *)
Lemma execute_tracks ctx n c h x : preserves (tracks h x) (execute_commit ctx n c).
Proof. unfold execute_commit, committed_txs. keep. Qed.
Lemma refresh_tracks ctx hd n ch h x : preserves (tracks h x) (refresh_metadata ctx hd n ch).
Proof. unfold refresh_metadata, update_overlord_crypto. keep; by apply preserves_modify. Qed.
Hint Resolve execute_tracks refresh_tracks : axon.

(** A response per transaction. *)
Lemma exec_responses ctx root p txs (o o' : adapter) resp : ca_exec ctx root p txs o = (o', Ok resp) →
  length (er_tx_resp resp) = length txs.
Proof.
  change (ca_exec ctx root p txs o) with (on_shared (exec_on_root root p txs) o).
  unfold on_shared, on_mempool, on_adapter, zoom.
  destruct (exec_on_root root p txs (mp_adapter (oa_mempool o))) as [a oo] eqn:E. intros Hrun%(f_equal snd).
  cbn in Hrun. subst oo. revert E. unfold exec_on_root. rewrite bind_gets. cbn [id].
  intros E. apply bind_lift_inv in E as (b & Hb & E). unfold ExecutorAdapter_from_root in Hb.
  apply outcome_inv in Hb as (t & _ & [= <-]).
  destruct (exec txs _) as [b' r] eqn:Hx in E. apply bind_inv in E as ([] & a1 & _ & [= _ ->]).
  unfold exec in Hx. apply bind_inv in Hx as ([res gas] & b1 & E1 & [= _ <-]).
  by apply exec_loop_spec in E1 as (rs & -> & Hl%exec_run_length & _).
Qed.

(** ** The commit *)
(** The receipts of a committed block. *)
Definition commit_receipts (p : Proposal) (txs : list SignedTransaction) (resp : ExecResp) : list Receipt :=
  let b := Block_new p resp in
  (generate_receipts_and_logs (p_number p) (header_hash b) (er_state_root resp) txs resp).1.

(** The block's transactions are new, distinct and, with their receipts, within
    the widths of their encodings. *)
Record block_fresh (p : Proposal) (txs stored : list SignedTransaction) (resp : ExecResp) (o : adapter) : Prop := {
  bf_number : u64_ok (p_number p);
  bf_distinct : NoDup (stx_hash <$> txs);
  bf_new : Forall (λ tx, h256_ok (stx_hash tx) ∧ node_tracks (stx_hash tx) None o) txs;
  bf_stored : Forall2 stored_as txs stored;
  bf_receipts : Forall receipt_wf (commit_receipts p txs resp)
}.

Lemma receipts_of_txs p txs resp : length (er_tx_resp resp) = length txs → Forall receipt_wf (commit_receipts p txs resp) →
  Forall2 (λ tx r, rc_tx_hash r = stx_hash tx ∧ receipt_wf r) txs (commit_receipts p txs resp).
Proof.
  intros Hl Hwf. apply Forall2_same_length_lookup. unfold commit_receipts, generate_receipts_and_logs in *. cbn [fst] in *.
  split; [rewrite length_imap, length_zip_with; lia|]. intros i tx r Htx Hr.
  split; [|by eapply (Forall_lookup_1 _ _ _ _ Hwf)].
  rewrite list_lookup_imap, lookup_zip_with, Htx in Hr. cbn in Hr.
  destruct (er_tx_resp resp !! i); [|done]. by injection Hr as <-.
Qed.

Definition node_storage (o : adapter) : St := da_storage (mp_adapter (oa_mempool o)).
Lemma ask_storage {X} (m : M St ProtocolError X) (e : engine) s' (r : ProtocolResult X) : m (node_storage (ce_adapter e)) = (s', r) →
  ∃ e', ask (in_storage m) e = (e', r) ∧ node_storage (ce_adapter e') = s'.
Proof.
  intros E. unfold ask, in_storage, on_shared, on_mempool, on_adapter, on_storage, zoom. unfold node_storage in E.
  rewrite E. by eexists.
Qed.

Lemma save_executed_tracks ctx resp p proof txs stored (e e' : engine) :
  save_executed ctx resp (Block_new p resp) proof txs e = (e', Ok tt) → length (er_tx_resp resp) = length txs →
  block_fresh p txs stored resp (ce_adapter e) →
  ∀ i tx stx r, txs !! i = Some tx → stored !! i = Some stx → commit_receipts p txs resp !! i = Some r →
    tracks (stx_hash tx) (Some (p_number p, stx, r)) e'.
Proof.
  intros Hrun Hl [Hn Hnd Hnew Hst Hrw] i tx stx r Htx Hstx Hr.
  unfold save_executed in Hrun. rewrite bind_gets in Hrun. cbn [id] in Hrun.
  change (generate_receipts_and_logs _ _ _ txs resp) with
    (commit_receipts p txs resp, map rc_logs (commit_receipts p txs resp)) in Hrun.
  apply bind_inv in Hrun as ([] & e1 & Q1 & Hrun). apply bind_inv in Hrun as ([] & e2 & Q2 & Hrun).
  assert (Forall (λ tx, h256_ok (stx_hash tx) ∧ tracks (stx_hash tx) None e2) txs) as Hnew2.
  { eapply Forall_impl; [exact Hnew|]. intros y [Hy Hty]. split; [done|].
    apply (preserves_inv (tracks (stx_hash y) None)) in Q1; [|auto with axon|done].
    apply (preserves_inv (tracks (stx_hash y) None)) in Q2; [done| |done]. keep. }
  destruct (tt_insert ctx (p_number p) txs stored (commit_receipts p txs resp) (node_storage (ce_adapter e2)))
    as (s1 & s2 & E1 & E2 & Hrow); [done|done|exact Hnew2|done|by apply receipts_of_txs|].
  destruct (ask_storage _ e2 _ _ E1) as (e3 & Q3 & <-). destruct (ask_storage _ e3 _ _ E2) as (e4 & Q4 & <-).
  rewrite (bind_ok _ _ _ _ _ Q3), (bind_ok _ _ _ _ _ Q4) in Hrun.
  apply (preserves_inv (tracks (stx_hash tx) (Some (p_number p, stx, r)))) in Hrun; [done| |by apply Hrow with i].
  by apply ask_tracks, save_block_tracks.
Qed.

Lemma update_status_tracks ctx resp p proof txs stored (e e' : engine) :
  update_status ctx resp p proof txs e = (e', Ok tt) → length (er_tx_resp resp) = length txs →
  block_fresh p txs stored resp (ce_adapter e) →
  ∀ i tx stx r, txs !! i = Some tx → stored !! i = Some stx → commit_receipts p txs resp !! i = Some r →
    tracks (stx_hash tx) (Some (p_number p, stx, r)) e'.
Proof.
  intros Hrun Hl Hf i tx stx r Htx Hstx Hr. unfold update_status in Hrun. rewrite bind_gets in Hrun. cbn [id] in Hrun.
  apply bind_lift_inv in Hrun as (next & _ & Hrun). apply bind_inv in Hrun as ([] & e1 & Q1 & Hrun).
  pose proof (save_executed_tracks _ _ _ _ _ _ _ _ Q1 Hl Hf i tx stx r Htx Hstx Hr) as Hs.
  apply (preserves_inv (tracks (stx_hash tx) (Some (p_number p, stx, r)))) in Hrun; [done| |done].
  keep. by apply preserves_modify.
Qed.

Lemma executes_responses ctx c (e e1 : engine) proof txs resp : executes ctx c e e1 proof txs resp →
  length (er_tx_resp resp) = length txs ∧
  ∀ h x, tracks h x e → tracks h x e1.
Proof.
  unfold executes. set (e0 := set_ce_adapter _ e). intros Hx. split.
  - unfold execute_commit in Hx. cbv zeta in Hx. apply bind_lift_inv in Hx as (pf & _ & Hx).
    apply bind_inv in Hx as ([] & e2 & _ & Hx). apply bind_inv in Hx as (txs' & e3 & _ & Hx).
    rewrite bind_gets in Hx. apply bind_inv in Hx as (resp' & e4 & [Hq _]%ask_inv & [= _ _ -> ->]).
    by apply exec_responses in Hq.
  - intros h x Hh. apply (preserves_inv (tracks h x)) in Hx; [done|auto with axon|].
    by apply (af_metadata_unchecked (I := node_tracks h x)).
Qed.

Lemma commit_tracks ctx c (e e1 e2 : engine) proof txs stored resp st :
  commit ctx (p_number (cm_content c)) c e = (e2, Ok st) → p_number (cm_content c) = cs_last_number (ce_status e) + 1 →
  executes ctx c e e1 proof txs resp → block_fresh (cm_content c) txs stored resp (ce_adapter e) →
  ∀ i tx stx r, txs !! i = Some tx → stored !! i = Some stx → commit_receipts (cm_content c) txs resp !! i = Some r →
    tracks (stx_hash tx) (Some (p_number (cm_content c), stx, r)) e2.
Proof.
  intros Hrun Hn Hx Hf i tx stx r Htx Hstx Hr. destruct (executes_responses _ _ _ _ _ _ _ Hx) as [Hl Hk].
  destruct (commit_updates _ _ _ _ _ _ _ _ _ Hrun Hn Hx) as (e3 & Hu & Hset).
  assert (block_fresh (cm_content c) txs stored resp (ce_adapter e1)) as Hf1.
  { destruct Hf as [F1 F2 F3 F4 F5]. split; try done. eapply Forall_impl; [exact F3|]. intros y [Hy Hty]. split; [done|by apply Hk]. }
  pose proof (update_status_tracks _ _ _ _ _ _ _ _ Hu Hl Hf1 i tx stx r Htx Hstx Hr) as Hs.
  apply (preserves_inv (tracks (stx_hash tx) (Some (p_number (cm_content c), stx, r)))) in Hset; [done| |done].
  unfold settle. keep. by apply preserves_modify.
Qed.

(** ** The interface of the node *)
Local Abbreviation api := (DefaultAPIAdapter St Mt Net).

Lemma api_storage {X} (m : M St ProtocolError X) (a : api) s' r : m (ap_storage a) = (s', r) →
  ∃ a', ap_in_storage m a = (a', r) ∧ ap_storage a' = s'.
Proof.
  intros E. unfold ap_in_storage, ap_on_mempool, on_adapter, on_storage, zoom. unfold ap_storage in E. rewrite E. by eexists.
Qed.

(** What a client is told of a hash. *)
Lemma row_answer {X} (make : Receipt → SignedTransaction → RpcResult X) (a : api) h x : tracked (ap_storage a) h x →
  (with_receipt h make a).2 = match x with Some (n, stx, r) => Some <$> make r stx | None => Ok None end.
Proof.
  intros Hx. destruct (tt_transaction ∅ h x _ Hx) as (s1 & E1 & Hs1). destruct (api_storage _ a _ _ E1) as (a1 & Q1 & <-).
  destruct (tt_receipt ∅ h x _ Hs1) as (s2 & E2 & _). destruct (api_storage _ a1 _ _ E2) as (a2 & Q2 & _).
  unfold with_receipt. cbn [api_get_transaction_by_hash api_get_receipt_by_tx_hash default_api].
  rewrite (bind_ok _ _ _ _ _ (rpc_ok _ _ _ _ Q1)). destruct x as [[[n stx] r]|]; [|done].
  cbn [row_tx fmap option_fmap option_map fst snd]. rewrite (bind_ok _ _ _ _ _ (rpc_ok _ _ _ _ Q2)).
  cbn [row_receipt fmap option_fmap option_map snd]. unfold lift, mbind, M_bind. by destruct (make r stx).
Qed.
End served.

(** ** Property *)
(** C6: What is committed is served.  When the engine commits the next block, the
    interface of the node answers, for each transaction of the block, with the
    transaction as its encoding decodes and the receipt of its execution: the
    number and hash of the block, the place in the block, the state root, gas,
    logs, exit and sender; before the commit it answers that there is none.  The
    transactions are taken to be new to the node, distinct and within the widths
    of their encoding. *)
Theorem committed_served `{R : Rlp} `{K : Keccak} `{!StaticMerkleTree} `{!PatriciaTrie} {St Mt Net : Type} `{!Storage St}
    `{!MetadataControl Mt} `{!Evm (AxonExecutorAdapter St)} `{!Interoperation} `{!PullRpc}
    `{!Secp256k1Verify} `{!ErrorText} `{!Overlord} `{!EthBloom} `{!Bls} `{!FasterHex} `{!WalName} `{!ConsensusNet}
    `{!TxTable St} `{!NetworkCount Net} ctx c (e e1 e2 : ConsensusEngine (OverlordConsensusAdapter St Mt))
    proof txs stored resp st (a a2 : DefaultAPIAdapter St Mt Net) i tx stx res :
  let p := cm_content c in
  commit ctx (p_number p) c e = (e2, Ok st) → p_number p = cs_last_number (ce_status e) + 1 →
  executes ctx c e e1 proof txs resp → block_fresh p txs stored resp (ce_adapter e) →
  ap_mempool a = oa_mempool (ce_adapter e) → ap_mempool a2 = oa_mempool (ce_adapter e2) →
  txs !! i = Some tx → stored !! i = Some stx → er_tx_resp resp !! i = Some res →
  let r := receipt_of (p_number p) (header_hash (Block_new p resp)) (er_state_root resp) i tx res in
  (get_transaction_receipt (stx_hash tx) a).2 = Ok None ∧
  (get_transaction_receipt (stx_hash tx) a2).2 = Ok (Some (Web3Receipt_new r stx)) ∧
  (JsonRpc.get_transaction_by_hash (stx_hash tx) a2).2 = Some <$> Web3Transaction_create r stx.
Proof.
  intros p Hrun Hn Hx Hf Ha Ha2 Htx Hstx Hres r.
  assert (commit_receipts p txs resp !! i = Some r) as Hr.
  { unfold commit_receipts, generate_receipts_and_logs. cbn [fst]. by rewrite list_lookup_imap, lookup_zip_with, Htx, Hres. }
  pose proof (commit_tracks _ _ _ _ _ _ _ _ _ _ Hrun Hn Hx Hf i tx stx r Htx Hstx Hr) as Hrow.
  pose proof (Forall_lookup_1 _ _ _ _ (bf_new _ _ _ _ _ Hf) Htx) as [_ Hnone].
  unfold node_tracks, node_shared, pool_shared, shared_by in Hrow, Hnone. rewrite <-Ha2 in Hrow. rewrite <-Ha in Hnone.
  unfold get_transaction_receipt, JsonRpc.get_transaction_by_hash.
  by rewrite (row_answer _ a _ _ Hnone), !(row_answer _ a2 _ _ Hrow).
Qed.

(** ** Witness *)
(** A commit of one transaction, which spends more than its sender has. *)
#[local] Existing Instances map_trie plain_hex echo_abi echo_evm list_overlord list_bls zero_bloom.
#[local] Existing Instances any_interop any_secp no_peer no_text one_name no_net no_count.

Definition spend_tx : SignedTransaction :=
  mkSignedTransaction (mkUnverifiedTransaction (mkTransaction 1 0 1 21000 (Call 78) 10 [] [])
    (Some (sample_sig x01)) 7 555) 12 (Some 88).
Definition spend_wal : SignedTxsWAL := (wal_save 6 4 [spend_tx] (mkTxsWal ∅)).1.
Definition spend_engine : ConsensusEngine sample_adapter := set_ce_txs_wal spend_wal (sample_engine false).
Definition spend_execution : ConsensusEngine sample_adapter * ProtocolResult (Proof * list SignedTransaction * ExecResp) :=
  execute_commit ∅ 6 logged_commit
    (set_ce_adapter (ca_get_metadata_unchecked ∅ 7 (ce_adapter spend_engine)).1 spend_engine).
Definition spent : list SignedTransaction * ExecResp :=
  match spend_execution.2 with Ok (_, txs, resp) => (txs, resp) | _ => ([], mkExecResp 0 0 0 []) end.
Definition spent_tx : SignedTransaction := default spend_tx (head spent.1).
Definition spent_res : TxResp := default (mkTxResp (Succeed Returned) [] 0 0 [] None) (head (er_tx_resp spent.2)).
Definition sample_api (e : ConsensusEngine sample_adapter) : DefaultAPIAdapter sample_storage (MetadataController unit) unit :=
  mkDefaultAPIAdapter (oa_mempool (ce_adapter e)) tt.

Lemma spent_one : spent.1 = [spent_tx] ∧ er_tx_resp spent.2 = [spent_res].
Proof. split; vm_compute; reflexivity. Qed.
Lemma spend_executes : ∃ e1 proof, executes ∅ logged_commit spend_engine e1 proof [spent_tx] spent.2.
Proof.
  assert (is_ok spend_execution.2 = true) as Hok by (vm_compute; reflexivity). rewrite <-(proj1 spent_one).
  unfold spent. destruct spend_execution as [e1 [[[proof txs] resp]| |]] eqn:Ex; [|done..].
  exists e1, proof. exact Ex.
Qed.
Lemma spent_stored : stored_as spent_tx spent_tx.
Proof.
  exists (match SignedTransaction_encode spent_tx with Ok b => b | _ => [] end). split; vm_compute; reflexivity.
Qed.

(** A number within its width, by evaluation. *)
Ltac width_ok := split; [apply Z.leb_le|apply Z.ltb_lt]; vm_compute; reflexivity.

Lemma spent_fresh : block_fresh logged_proposal [spent_tx] [spent_tx] spent.2 (ce_adapter spend_engine).
Proof.
  split; [done|by apply NoDup_singleton| |constructor; [apply spent_stored|constructor]|].
  - apply Forall_singleton. split; [by vm_compute|]. change (tx_table (insert_block ∅ sample_block new_storage).1 (stx_hash spent_tx) None).
    split; [vm_compute; reflexivity|done|..]; intros v Hv; vm_compute in Hv; discriminate Hv.
  - unfold commit_receipts, generate_receipts_and_logs. destruct spent_one as [_ ->]. cbn [zip zip_with imap fst].
    assert (tr_logs spent_res = [] ∧ tr_code_address spent_res = None) as [El Ec] by (split; vm_compute; reflexivity).
    apply Forall_singleton. unfold receipt_wf, receipt_of.
    cbn [rc_tx_hash rc_block_number rc_block_hash rc_tx_index rc_state_root rc_used_gas rc_logs_bloom rc_logs rc_code_address rc_sender].
    rewrite El, Ec. do 7 (split; [width_ok|]). split; [constructor|]. split; [done|]. width_ok.
Qed.

Lemma committed_served_witness :
  ∃ e2 st, commit ∅ 6 logged_commit spend_engine = (e2, Ok st) ∧
    (get_transaction_receipt (stx_hash spent_tx) (sample_api spend_engine)).2 = Ok None ∧
    (get_transaction_receipt (stx_hash spent_tx) (sample_api e2)).2 = Ok (Some (Web3Receipt_new
      (receipt_of 6 (header_hash (Block_new logged_proposal spent.2)) (er_state_root spent.2) 0 spent_tx spent_res)
      spent_tx)).
Proof.
  destruct (run_is_ok (commit ∅ 6 logged_commit) spend_engine) as (e2 & st & Hc); [vm_compute; reflexivity|].
  exists e2, st. split; [exact Hc|]. destruct spend_executes as (e1 & proof & Hx).
  destruct (committed_served ∅ logged_commit spend_engine e1 e2 proof [spent_tx] [spent_tx] spent.2 st
    (sample_api spend_engine) (sample_api e2) 0 spent_tx spent_tx spent_res) as (Ha & Hb & _);
    [exact Hc|reflexivity|exact Hx|exact spent_fresh|reflexivity|reflexivity|reflexivity|reflexivity|by rewrite (proj2 spent_one)|].
  split; [exact Ha|exact Hb].
Defined.
